(** * LiveTraffic, LTApt.cpp: airports, runways and taxiways

    A shallow embedding of [Src/LTApt.cpp] and of the parts of [CoordCalc.h]
    it relies on, together with the properties of the airport graph, of the
    [apt.dat] reader and of the runway selector.

    Numbers.  A C++ [double] is idealised: it is either [NaN] or an exact
    rational.  Arithmetic is exact (no rounding, no infinities), a [NaN]
    operand gives [NaN], and every comparison with [NaN] is false, as in
    IEEE 754.  A [size_t] is a [Z] in [0, 2^64) whose subtraction wraps;
    the product of two [int]s wraps at 32 bits.  Iterators and pointers
    into a vector are positions ([nat]). *)

From Stdlib Require Import QArith Qabs ZArith List Bool Lia Lqa String Ascii.
From Stdlib Require Import Sorted Permutation PeanoNat.
Import ListNotations.

(** ** Idealised doubles *)

Declare Scope double_scope.
Delimit Scope double_scope with D.

Inductive double : Type :=
| NaN : double
| Num : Q -> double.

Bind Scope double_scope with double.

Definition isnan (d : double) : bool :=
  match d with NaN => true | Num _ => false end.

Definition lift2 (f : Q -> Q -> Q) (x y : double) : double :=
  match x, y with
  | Num p, Num q => Num (f p q)
  | _, _ => NaN
  end.

Definition dadd : double -> double -> double := lift2 Qplus.
Definition dsub : double -> double -> double := lift2 Qminus.
Definition dmul : double -> double -> double := lift2 Qmult.

(** Division: the idealisation has no infinities, a zero divisor gives [NaN]. *)
Definition ddiv (x y : double) : double :=
  match x, y with
  | Num p, Num q => if Qeq_bool q 0 then NaN else Num (p / q)
  | _, _ => NaN
  end.

Definition dneg (x : double) : double :=
  match x with Num p => Num (- p) | NaN => NaN end.

Definition dle (x y : double) : bool :=
  match x, y with
  | Num p, Num q => Qle_bool p q
  | _, _ => false
  end.

Definition dlt (x y : double) : bool :=
  match x, y with
  | Num p, Num q => negb (Qle_bool q p)
  | _, _ => false
  end.

Definition dge (x y : double) : bool := dle y x.
Definition dgt (x y : double) : bool := dlt y x.

(** [std::max], [std::min] and [fabs] on doubles ([std::max(a,b)] is
    [(a < b) ? b : a], [std::min(a,b)] is [(b < a) ? b : a]). *)
Definition dmax (x y : double) : double := if dlt x y then y else x.
Definition dmin (x y : double) : double := if dlt y x then y else x.
Definition fabs (x : double) : double :=
  match x with Num p => Num (Qabs p) | NaN => NaN end.

(** Equality of values: both [NaN], or equal rationals. *)
Definition deq (x y : double) : Prop :=
  match x, y with
  | Num p, Num q => p == q
  | NaN, NaN => True
  | _, _ => False
  end.

Definition ofZ (z : Z) : double := Num (inject_Z z).

Notation "x + y" := (dadd x y) : double_scope.
Notation "x - y" := (dsub x y) : double_scope.
Notation "x * y" := (dmul x y) : double_scope.
Notation "x / y" := (ddiv x y) : double_scope.
Notation "- x" := (dneg x) : double_scope.
Notation "x <? y" := (dlt x y) : double_scope.
Notation "x <=? y" := (dle x y) : double_scope.
Notation "x >=? y" := (dge x y) : double_scope.
Notation "x >? y" := (dgt x y) : double_scope.
Notation "x =d= y" := (deq x y) (at level 70, no associativity) : double_scope.

(** ** [size_t] *)

Definition size_t_sub (x y : Z) : Z := ((x - y) mod 2 ^ 64)%Z.

(** [v.size()] of a vector held as a list. *)
Definition size {A : Type} (v : list A) : Z := Z.of_nat (List.length v).

(** [v[i]] for a [size_t] index; [None] is an access out of bounds. *)
Definition at_ {A : Type} (v : list A) (i : Z) : option A :=
  if (i <? 0)%Z then None else nth_error v (Z.to_nat i).

(** ** Taxi nodes, runway endpoints, edges (LTApt.cpp, lines 61-207) *)

Module TaxiNode.
Record t : Type := mk {
  lat : double;               (* latitude *)
  lon : double;               (* longitude *)
  x : double;                 (* local coordinates, east axis *)
  z : double                  (* local coordinates, south axis *)
}.

(** [TaxiNode (double _lat, double _lon)]: [x] and [z] start as [NAN]. *)
Definition ctor (_lat _lon : double) : t := mk _lat _lon NaN NaN.

Definition HasGeoCoords (n : t) : bool :=
  negb (isnan (lat n)) && negb (isnan (lon n)).

Definition HasLocalCoords (n : t) : bool :=
  negb (isnan (x n)) && negb (isnan (z n)).
End TaxiNode.

Module RwyEndPt.
Record t : Type := mk {
  node : TaxiNode.t;          (* the TaxiNode base class *)
  id : string;                (* rwy identifier, like "23" or "05R" *)
  alt_m : double;             (* ground altitude in meter *)
  y : double                  (* local coordinates, vertical axis *)
}.

(** [RwyEndPt (id, lat, lon)]: [alt_m] and [y] start as [NAN]. *)
Definition ctor (_id : string) (_lat _lon : double) : t :=
  mk (TaxiNode.ctor _lat _lon) _id NaN NaN.
End RwyEndPt.

Module TaxiEdge.
Inductive nodeTy : Type := UNKNOWN_WAY | RUN_WAY | TAXI_WAY.

Definition nodeTy_eqb (s u : nodeTy) : bool :=
  match s, u with
  | UNKNOWN_WAY, UNKNOWN_WAY | RUN_WAY, RUN_WAY | TAXI_WAY, TAXI_WAY => true
  | _, _ => false
  end.

Record t : Type := mk {
  type : nodeTy;              (* type of node (runway, taxiway) *)
  a : Z;                      (* from node (index) *)
  b : Z;                      (* to node (index) *)
  angle : double;             (* angle/heading from a to b *)
  dist_m : double             (* distance in meters between a and b *)
}.

(** The constructor normalizes edges for [0 <= angle < 180]. *)
Definition ctor (_t : nodeTy) (_a _b : Z) (_angle _dist_m : double) : t :=
  if (_angle >=? ofZ 180)%D
  then mk _t _b _a (_angle - ofZ 180)%D _dist_m
  else mk _t _a _b _angle _dist_m.

(** Special constructor for comparison objects only. *)
Definition ctor_cmp (_angle : double) : t := mk TAXI_WAY 0 0 _angle NaN.

Definition GetType (e : t) : nodeTy := type e.

(** Comparison function for sorting and searching. *)
Definition CompHeadLess (e1 e2 : t) : bool := (angle e1 <? angle e2)%D.
End TaxiEdge.

(** ** [std::lower_bound]

    The bisection of the standard library on positions [first, first+len):
    the first position whose element is not less than [val]. *)

Fixpoint lower_bound_loop {A : Type} (comp : A -> A -> bool) (v : list A)
    (val : A) (fuel first len : nat) : nat :=
  match fuel with
  | O => first
  | S fuel' =>
      if (len =? 0)%nat then first
      else
        let half := Nat.div2 len in
        let middle := (first + half)%nat in
        match nth_error v middle with
        | Some m =>
            if comp m val
            then lower_bound_loop comp v val fuel' (S middle) (len - half - 1)
            else lower_bound_loop comp v val fuel' first half
        | None => first
        end
  end.

Definition lower_bound {A : Type} (comp : A -> A -> bool) (v : list A)
    (val : A) : nat :=
  lower_bound_loop comp v val (List.length v) 0 (List.length v).

(** ** CoordCalc.h: positions, vectors, bounding boxes, distance results *)

Module positionTy.
Inductive onGrndE : Type := GND_UNKNOWN | GND_OFF | GND_ON.
Inductive coordUnitE : Type := UNIT_WORLD | UNIT_LOCAL.
Inductive angleUnitE : Type := UNIT_DEG | UNIT_RAD.

(** The seven entries of the valarray [v] are named fields here. *)
Record t : Type := mk {
  lat : double;
  lon : double;
  alt_m : double;
  ts : double;
  heading : double;
  pitch : double;
  roll : double;
  mergeCount : Z;
  onGrnd : onGrndE;
  unitCoord : coordUnitE;
  unitAngle : angleUnitE;
  flightPhase : Z
}.

(** [positionTy ()] *)
Definition ctor0 : t :=
  mk NaN NaN NaN NaN NaN NaN NaN 1 GND_UNKNOWN UNIT_WORLD UNIT_DEG 0.

(** [positionTy (dLat, dLon, dAlt_m, dTS, dHead, dPitch, dRoll, grnd,
    uCoord, uAngle, fPhase)] *)
Definition ctor (dLat dLon dAlt_m dTS dHead dPitch dRoll : double)
    (grnd : onGrndE) (uCoord : coordUnitE) (uAngle : angleUnitE)
    (fPhase : Z) : t :=
  mk dLat dLon dAlt_m dTS dHead dPitch dRoll 1 grnd uCoord uAngle fPhase.

(** [p.lat() = v], [p.lon() = v], [p.flightPhase = f] *)
Definition set_lat (p : t) (v : double) : t :=
  mk v (lon p) (alt_m p) (ts p) (heading p) (pitch p) (roll p)
     (mergeCount p) (onGrnd p) (unitCoord p) (unitAngle p) (flightPhase p).
Definition set_lon (p : t) (v : double) : t :=
  mk (lat p) v (alt_m p) (ts p) (heading p) (pitch p) (roll p)
     (mergeCount p) (onGrnd p) (unitCoord p) (unitAngle p) (flightPhase p).
Definition set_flightPhase (p : t) (f : Z) : t :=
  mk (lat p) (lon p) (alt_m p) (ts p) (heading p) (pitch p) (roll p)
     (mergeCount p) (onGrnd p) (unitCoord p) (unitAngle p) f.
End positionTy.

Module vectorTy.
Record t : Type := mk {
  angle : double;             (* degrees *)
  dist : double;              (* meters *)
  vsi : double;               (* m/s *)
  speed : double              (* m/s *)
}.

(** [vectorTy (dAngle, dDist)]: [vsi] and [speed] default to [NAN]. *)
Definition ctor (dAngle dDist : double) : t := mk dAngle dDist NaN NaN.

Definition set_dist (v : t) (d : double) : t :=
  mk (angle v) d (vsi v) (speed v).
End vectorTy.

Module boundingBoxTy.
Record t : Type := mk { nw : positionTy.t; se : positionTy.t }.
Definition ctor0 : t := mk positionTy.ctor0 positionTy.ctor0.
End boundingBoxTy.

Module distToLineTy.
Record t : Type := mk {
  dist2 : double;       (* square distance of point to the line *)
  len2 : double;        (* square of length of the line *)
  leg1_len2 : double;   (* square length of leg from point 1 to base *)
  leg2_len2 : double    (* square length of leg from point 2 to base *)
}.

Definition ctor0 : t := mk NaN NaN NaN NaN.

Definition set_dist2 (r : t) (d : double) : t :=
  mk d (len2 r) (leg1_len2 r) (leg2_len2 r).

(** Is the base outside the endpoints of the line? *)
Definition IsBaseOutsideLine (r : t) : bool :=
  (leg1_len2 r >? len2 r)%D || (leg2_len2 r >? len2 r)%D.

(** How much is the base outside the (nearer) endpoint? (squared) *)
Definition DistSqrOfBaseBeyondLine (r : t) : double :=
  (dmax (leg1_len2 r) (leg2_len2 r) - len2 r)%D.
End distToLineTy.

(** An [int] holds 32 bits: a value that does not fit wraps around (two's
    complement), as it does in the compiled code. *)
Definition int_wrap (z : Z) : Z := ((z + 2 ^ 31) mod 2 ^ 32 - 2 ^ 31)%Z.

(** [sqr] of CoordCalc.h at type [int], as [FindClosestEdge] calls it: the
    product is an [int] again, so the square of a number beyond 46340 wraps
    around. *)
Definition sqr (n : Z) : Z := int_wrap (n * n).

(** ** What LTApt.cpp calls and this file does not define

    The functions below are declared in CoordCalc.h or belong to the X-Plane
    SDK, the C++ library or the plugin's configuration; their bodies are not
    part of the sources at hand, so the embedding takes them as an
    interface. *)

Class CoordCalc : Type := {
  (** angle between two locations given in plain lat/lon *)
  CoordAngle : double -> double -> double -> double -> double;
  (** distance between two locations given in plain lat/lon, in meter *)
  CoordDistance : double -> double -> double -> double -> double;
  (** vector from one position to the other, [positionTy::between] *)
  CoordVectorBetween : positionTy.t -> positionTy.t -> vectorTy.t;
  (** [positionTy::operator +=]: move by a distance in a direction *)
  position_add_vector : positionTy.t -> vectorTy.t -> positionTy.t;
  (** estimated square of the distance between two points *)
  DistLatLonSqr : double -> double -> double -> double -> double;
  (** [std::sqrt] *)
  sqrt : double -> double;
  (** square of distance between a location and a line *)
  DistPointToLineSqr :
    double -> double -> double -> double -> double -> double -> distToLineTy.t;
  (** location of the base point on the line *)
  DistResultToBaseLoc :
    double -> double -> double -> double -> distToLineTy.t -> double * double;
  HeadingDiff : double -> double -> double;
  HeadingNormalize : double -> double;
  (** [boundingBoxTy::enlarge_m], [enlarge_pos], [enlarge], [contains] *)
  enlarge_m : boundingBoxTy.t -> double -> boundingBoxTy.t;
  enlarge_pos : boundingBoxTy.t -> double -> double -> boundingBoxTy.t;
  enlarge : boundingBoxTy.t -> positionTy.t -> boundingBoxTy.t;
  contains : boundingBoxTy.t -> positionTy.t -> bool
}.

(** [DistLatLon] is inline in CoordCalc.h. *)
Definition DistLatLon `{CoordCalc} (lat1 lon1 lat2 lon2 : double) : double :=
  sqrt (DistLatLonSqr lat1 lon1 lat2 lon2).

(** The X-Plane SDK's conversions between world and local coordinates. *)
Class XPLM : Type := {
  XPLMWorldToLocal : double -> double -> double -> double * double * double;
  XPLMLocalToWorld : double -> double -> double -> double * double * double
}.

(** Configuration ([dataRefs]) and the constants of Constants.h. *)
Class Settings : Type := {
  GetFdSnapTaxiDist_m : Z;            (* an [int] *)
  ART_EDGE_ANGLE_TOLERANCE : double;
  ART_RWY_MAX_HEAD_DIFF : double;
  ART_RWY_MAX_VSI_F : double;
  ART_APPR_SPEED_F : double;
  Ms_per_FTm : double;
  KT_per_M_per_S : double;
  FPH_TAXI : Z;                       (* [LTAPIAircraft::FPH_TAXI] *)
  FPH_TOUCH_DOWN : Z                  (* [LTAPIAircraft::FPH_TOUCH_DOWN] *)
}.

(** Modelled from the spec: the constant [ART_RWY_TD_POINT_F] of Constants.h,
    which is not among the sources; the touch-down point is 10% of the
    remaining length into the runway. *)
Definition ART_RWY_TD_POINT_F : double := Num (1 # 10).

(** Minimum length of one segment in a taxi way, and its square. *)
Definition APT_MIN_TAXI_SEGM_LEN_M : double := ofZ 10.
Definition APT_MIN_TAXI_SEGM_LEN_M2 : double :=
  (APT_MIN_TAXI_SEGM_LEN_M * APT_MIN_TAXI_SEGM_LEN_M)%D.

(** ** The airport (LTApt.cpp, class [Apt]) *)

Module Apt.
Record t : Type := mk {
  id : string;                        (* ICAO code or other unique id *)
  bounds : boundingBoxTy.t;           (* bounding box around airport *)
  alt_m : double;                     (* the airport's altitude *)
  vecTaxiNodes : list TaxiNode.t;     (* taxi network nodes *)
  vecRwyEndPts : list RwyEndPt.t;     (* runway endpoints *)
  vecTaxiEdges : list TaxiEdge.t      (* taxi network edges *)
}.

(** [Apt (const std::string& _id = "")] *)
Definition ctor (_id : string) : t :=
  mk _id boundingBoxTy.ctor0 NaN [] [] [].

Definition set_bounds (apt : t) (bb : boundingBoxTy.t) : t :=
  mk (id apt) bb (alt_m apt) (vecTaxiNodes apt) (vecRwyEndPts apt)
     (vecTaxiEdges apt).
Definition set_vecTaxiNodes (apt : t) (v : list TaxiNode.t) : t :=
  mk (id apt) (bounds apt) (alt_m apt) v (vecRwyEndPts apt)
     (vecTaxiEdges apt).
Definition set_vecRwyEndPts (apt : t) (v : list RwyEndPt.t) : t :=
  mk (id apt) (bounds apt) (alt_m apt) (vecTaxiNodes apt) v
     (vecTaxiEdges apt).
Definition set_vecTaxiEdges (apt : t) (v : list TaxiEdge.t) : t :=
  mk (id apt) (bounds apt) (alt_m apt) (vecTaxiNodes apt)
     (vecRwyEndPts apt) v.

Definition GetId (apt : t) : string := id apt.

Definition empty {A : Type} (v : list A) : bool :=
  match v with [] => true | _ :: _ => false end.

(** Is any id defined? *)
Definition HasId (apt : t) : bool :=
  match id apt with EmptyString => false | String _ _ => true end.

(** Any taxiways/runways defined? *)
Definition HasTaxiWays (apt : t) : bool := negb (empty (vecTaxiEdges apt)).

(** Any runway endpoints defined? *)
Definition HasRwyEndpoints (apt : t) : bool :=
  negb (empty (vecRwyEndPts apt)).

(** Valid airport definition requires an id and some taxiways / runways. *)
Definition IsValid (apt : t) : bool :=
  HasId apt && HasTaxiWays apt && HasRwyEndpoints apt.

(** *** Lookup of an edge's nodes ([TaxiEdge::GetA], [TaxiEdge::GetB])

    Runway endpoints are stored at a different place than taxiway nodes.
    The C++ functions index the vector unchecked; here an index out of
    bounds shows as [None]. *)
Definition GetA (e : TaxiEdge.t) (apt : t) : option TaxiNode.t :=
  match TaxiEdge.type e with
  | TaxiEdge.RUN_WAY =>
      option_map RwyEndPt.node (at_ (vecRwyEndPts apt) (TaxiEdge.a e))
  | _ => at_ (vecTaxiNodes apt) (TaxiEdge.a e)
  end.

Definition GetB (e : TaxiEdge.t) (apt : t) : option TaxiNode.t :=
  match TaxiEdge.type e with
  | TaxiEdge.RUN_WAY =>
      option_map RwyEndPt.node (at_ (vecRwyEndPts apt) (TaxiEdge.b e))
  | _ => at_ (vecTaxiNodes apt) (TaxiEdge.b e)
  end.

(** [GetRwyEP_A], [GetRwyEP_B]: the [dynamic_cast] to a runway endpoint
    succeeds for a runway edge only. *)
Definition GetRwyEP_A (e : TaxiEdge.t) (apt : t) : option RwyEndPt.t :=
  match TaxiEdge.type e with
  | TaxiEdge.RUN_WAY => at_ (vecRwyEndPts apt) (TaxiEdge.a e)
  | _ => None
  end.

Definition GetRwyEP_B (e : TaxiEdge.t) (apt : t) : option RwyEndPt.t :=
  match TaxiEdge.type e with
  | TaxiEdge.RUN_WAY => at_ (vecRwyEndPts apt) (TaxiEdge.b e)
  | _ => None
  end.

(** *** Heading ranges ([FindEdgesForHeading], lines 301-356) *)

(** The one or two search ranges. *)
Definition heading_ranges (_headSearch _angleTolerance : double)
  : list (double * double) :=
  let _headSearch :=
    if (_headSearch >=? ofZ 180)%D then (_headSearch - ofZ 180)%D
    else _headSearch in
  let headBegin := (_headSearch - _angleTolerance)%D in
  let headEnd := (_headSearch + _angleTolerance)%D in
  if (ofZ 0 <=? headBegin)%D && (headEnd <? ofZ 180)%D then
    [(headBegin, headEnd)]
  else if (headBegin <? ofZ 0)%D then
    let headBeginInv := (headBegin + ofZ 180)%D in
    [(ofZ 0, headEnd); (headBeginInv, ofZ 180)]
  else
    let headEndInv := (headEnd - ofZ 180)%D in
    [(ofZ 0, headEndInv); (headBegin, ofZ 180)].

Definition type_ok (_restrictType : TaxiEdge.nodeTy) (e : TaxiEdge.t)
  : bool :=
  TaxiEdge.nodeTy_eqb _restrictType TaxiEdge.UNKNOWN_WAY
  || TaxiEdge.nodeTy_eqb _restrictType (TaxiEdge.GetType e).

(** The inner [for]: from position [pos] on, while the element's angle is
    at most [upper], push the positions of the edges of the wanted type. *)
Fixpoint scan_edges (es : list TaxiEdge.t) (pos : nat) (upper : double)
    (_restrictType : TaxiEdge.nodeTy) (lst : list nat) : list nat :=
  match es with
  | [] => lst
  | e :: rest =>
      if (TaxiEdge.angle e <=? upper)%D then
        scan_edges rest (S pos) upper _restrictType
          (if type_ok _restrictType e then lst ++ [pos] else lst)
      else lst
  end.

Definition search_range (apt : t) (_restrictType : TaxiEdge.nodeTy)
    (lst : list nat) (rngPair : double * double) : list nat :=
  let iter :=
    lower_bound TaxiEdge.CompHeadLess (vecTaxiEdges apt)
                (TaxiEdge.ctor_cmp (fst rngPair)) in
  scan_edges (skipn iter (vecTaxiEdges apt)) iter (snd rngPair)
             _restrictType lst.

(** The list [lst] of pointers to edges is a list of positions in
    [vecTaxiEdges]; matching edges are added to it. *)
Definition FindEdgesForHeading (apt : t)
    (_headSearch _angleTolerance : double) (lst : list nat)
    (_restrictType : TaxiEdge.nodeTy) : bool * list nat :=
  let lst' :=
    fold_left (search_range apt _restrictType)
              (heading_ranges _headSearch _angleTolerance) lst in
  (negb (empty lst'), lst').

Section Taxiways.
Context `{CoordCalc}.

(** Add a new taxi network node; returns its index. *)
Definition AddTaxiNode (apt : t) (lat lon : double) : Z * t :=
  let apt := set_bounds apt (enlarge_pos (bounds apt) lat lon) in
  let apt :=
    set_vecTaxiNodes apt (vecTaxiNodes apt ++ [TaxiNode.ctor lat lon]) in
  (size_t_sub (size (vecTaxiNodes apt)) 1, apt).

(** Add a new taxi network edge, which must connect 2 existing nodes. *)
Definition AddTaxiEdge (apt : t) (n1 n2 : Z) (_dist : double)
  : bool * t :=
  (* Indexes must be valid *)
  if (n1 >=? size (vecTaxiNodes apt))%Z
     || (n2 >=? size (vecTaxiNodes apt))%Z
  then (false, apt)
  else
    match at_ (vecTaxiNodes apt) n1, at_ (vecTaxiNodes apt) n2 with
    | Some a, Some b =>
        (* Actual nodes must be valid *)
        if negb (TaxiNode.HasGeoCoords a) || negb (TaxiNode.HasGeoCoords b)
        then (false, apt)
        else
          (* Add the edge *)
          let _dist :=
            if isnan _dist
            then DistLatLon (TaxiNode.lat a) (TaxiNode.lon a)
                            (TaxiNode.lat b) (TaxiNode.lon b)
            else _dist in
          (true,
           set_vecTaxiEdges apt
             (vecTaxiEdges apt ++
              [TaxiEdge.ctor TaxiEdge.TAXI_WAY n1 n2
                 (CoordAngle (TaxiNode.lat a) (TaxiNode.lon a)
                             (TaxiNode.lat b) (TaxiNode.lon b))
                 _dist]))
    | _, _ => (false, apt)
    end.
End Taxiways.

(** *** Closest edge and snapping (lines 365-472) *)

(** The best match found so far: [bestEdge], [bestFrom], [bestTo] are
    pointers (null at the start), [bestDist] the distance result. *)
Record bestTy : Type := mkBest {
  bestEdge : option nat;
  bestFrom : option TaxiNode.t;
  bestTo : option TaxiNode.t;
  bestDist : distToLineTy.t
}.

Section Snapping.
Context `{CoordCalc} `{XPLM} `{Settings}.

(** One round of the loop over the edges found, for the edge at
    position [e].  An edge whose node lookup would leave the vector is
    passed over. *)
Definition closest_step (apt : t) (bHeadInverted : bool)
    (pt_x pt_z maxDistBeyondLineEnd2 : double) (st : bestTy) (e : nat)
  : bestTy :=
  match nth_error (vecTaxiEdges apt) e with
  | None => st
  | Some edge =>
      (* Fetch from/to nodes from the edge *)
      let from := if bHeadInverted then GetB edge apt else GetA edge apt in
      let to := if bHeadInverted then GetA edge apt else GetB edge apt in
      match from, to with
      | Some from, Some to =>
          (* Edges need to have local coordinates for what comes next *)
          if negb (TaxiNode.HasLocalCoords from)
             || negb (TaxiNode.HasLocalCoords to)
          then st
          else
            (* Distance to this edge *)
            let dist :=
              DistPointToLineSqr pt_x pt_z
                (TaxiNode.x from) (TaxiNode.z from)
                (TaxiNode.x to) (TaxiNode.z to) in
            (* If distance is farther then best we know: skip *)
            if (distToLineTy.dist2 dist
                >=? distToLineTy.dist2 (bestDist st))%D
            then st
            (* If base of shortest path is too far outside actual line *)
            else if (distToLineTy.DistSqrOfBaseBeyondLine dist
                     >? maxDistBeyondLineEnd2)%D
            then st
            (* We have a new best match! *)
            else mkBest (Some e) (Some from) (Some to) dist
      | _, _ => st
      end
  end.

(** Find closest taxi edge matching the passed position including its
    heading.  Returns the position of the edge ([None] for [nullptr])
    and [basePt], of which only lat and lon are modified.  [pos] is read
    before [basePt] is written, so the two may be the same object. *)
Definition FindClosestEdge (apt : t) (pos basePt : positionTy.t)
    (_maxDist_m : Z) (_angleTolerance : double)
  : option nat * positionTy.t :=
  let bestDist0 :=
    distToLineTy.set_dist2 distToLineTy.ctor0 (ofZ (sqr _maxDist_m)) in
  let maxDistBeyondLineEnd2 := ofZ (sqr _maxDist_m) in
  (* We calculate in local coordinates *)
  let '(pt_x, pt_y, pt_z) :=
    XPLMWorldToLocal (positionTy.lat pos) (positionTy.lon pos)
                     (positionTy.alt_m pos) in
  (* Get a list of edges matching pos.heading() *)
  let headSearch := HeadingNormalize (positionTy.heading pos) in
  let '(found, lstEdges) :=
    FindEdgesForHeading apt headSearch _angleTolerance []
                        TaxiEdge.UNKNOWN_WAY in
  if negb found then (None, basePt)
  else
    (* do we fly the other way round? *)
    let bHeadInverted := (headSearch >=? ofZ 180)%D in
    let st :=
      fold_left
        (closest_step apt bHeadInverted pt_x pt_z maxDistBeyondLineEnd2)
        lstEdges (mkBest None None None bestDist0) in
    match bestEdge st, bestFrom st, bestTo st with
    | Some e, Some from, Some to =>
        (* Compute base point on the line *)
        let '(pt_x, pt_z) :=
          DistResultToBaseLoc (TaxiNode.x from) (TaxiNode.z from)
                              (TaxiNode.x to) (TaxiNode.z to)
                              (bestDist st) in
        let '(lat, lon, _) := XPLMLocalToWorld pt_x pt_y pt_z in
        (Some e, positionTy.set_lon (positionTy.set_lat basePt lat) lon)
    | _, _, _ => (None, basePt)
    end.

(** Find best matching taxi edge based on passed-in position/heading
    info; [pos] is passed as search position and as base point. *)
Definition SnapToTaxiway (apt : t) (pos : positionTy.t) (bLogging : bool)
  : bool * positionTy.t :=
  let '(pEdge, pos) :=
    FindClosestEdge apt pos pos GetFdSnapTaxiDist_m
                    ART_EDGE_ANGLE_TOLERANCE in
  match pEdge with
  | Some e =>
      match nth_error (vecTaxiEdges apt) e with
      | Some edge =>
          if negb (TaxiEdge.nodeTy_eqb (TaxiEdge.GetType edge)
                                       TaxiEdge.RUN_WAY)
          then (true, positionTy.set_flightPhase pos FPH_TAXI)
          else (true, pos)
      | None => (true, pos)
      end
  | None => (false, pos)
  end.

(** *** Runways (lines 483-514) *)

(** Adds both rwy ends from apt.dat information fields. *)
Definition AddRwyEnds (apt : t)
    (lat1 lon1 displaced1 : double) (id1 : string)
    (lat2 lon2 displaced2 : double) (id2 : string) : t :=
  (* Original position of outer end of runway *)
  let re1 := positionTy.ctor lat1 lon1 NaN NaN NaN NaN NaN
               positionTy.GND_ON positionTy.UNIT_WORLD
               positionTy.UNIT_DEG 0 in
  let re2 := positionTy.ctor lat2 lon2 NaN NaN NaN NaN NaN
               positionTy.GND_ON positionTy.UNIT_WORLD
               positionTy.UNIT_DEG 0 in
  let vecRwy := CoordVectorBetween re1 re2 in
  (* move by displayed threshold and then by another 10% of remaining
     length to determine actual touch-down point *)
  let vecRwy :=
    vectorTy.set_dist vecRwy (vectorTy.dist vecRwy - displaced1)%D in
  let vecRwy :=
    vectorTy.set_dist vecRwy (vectorTy.dist vecRwy - displaced2)%D in
  let re1 :=
    position_add_vector re1
      (vectorTy.ctor (vectorTy.angle vecRwy)
         (displaced1 + vectorTy.dist vecRwy * ART_RWY_TD_POINT_F)%D) in
  let re2 :=
    position_add_vector re2
      (vectorTy.ctor (vectorTy.angle vecRwy)
         (- (displaced2 + vectorTy.dist vecRwy * ART_RWY_TD_POINT_F))%D) in
  (* Also adapt out knowledge of rwy length: 80% *)
  let vecRwy :=
    vectorTy.set_dist vecRwy
      (vectorTy.dist vecRwy * (ofZ 1 - ofZ 2 * ART_RWY_TD_POINT_F))%D in
  (* 1st rwy end *)
  let apt := set_bounds apt (enlarge (bounds apt) re1) in
  let apt :=
    set_vecRwyEndPts apt
      (vecRwyEndPts apt ++
       [RwyEndPt.ctor id1 (positionTy.lat re1) (positionTy.lon re1)]) in
  (* 2nd rwy end *)
  let apt := set_bounds apt (enlarge (bounds apt) re2) in
  let apt :=
    set_vecRwyEndPts apt
      (vecRwyEndPts apt ++
       [RwyEndPt.ctor id2 (positionTy.lat re2) (positionTy.lon re2)]) in
  (* The edge between them, making up the actual runway *)
  set_vecTaxiEdges apt
    (vecTaxiEdges apt ++
     [TaxiEdge.ctor TaxiEdge.RUN_WAY
        (size_t_sub (size (vecRwyEndPts apt)) 2)
        (size_t_sub (size (vecRwyEndPts apt)) 1)
        (vectorTy.angle vecRwy) (vectorTy.dist vecRwy)]).

(** Does airport contain this point? *)
Definition Contains (apt : t) (pos : positionTy.t) : bool :=
  contains (bounds apt) pos.

(** Enlarge the bounding box by a few meters. *)
Definition EnlargeBounds_m (apt : t) (meter : double) : t :=
  set_bounds apt (enlarge_m (bounds apt) meter).
End Snapping.
End Apt.

(** ** The map of airports ([mapAptTy], [gmapApt], [Apt::AddApt]) *)

(** A [std::map<std::string, Apt>]: the entries in ascending order of their
    keys, each key once. *)
Definition mapAptTy : Type := list (string * Apt.t).

(** [map::count] *)
Definition map_count (m : mapAptTy) (key : string) : Z :=
  if existsb (fun p => String.eqb (fst p) key) m then 1%Z else 0%Z.

(** [map::emplace]: inserts at the key's place, unless the key is there. *)
Fixpoint map_emplace (m : mapAptTy) (key : string) (apt : Apt.t) : mapAptTy :=
  match m with
  | [] => [(key, apt)]
  | (k, v) :: rest =>
      if String.eqb key k then m
      else if String.ltb key k then (key, apt) :: m
      else (k, v) :: map_emplace rest key apt
  end.

(** [std::sort] with [TaxiEdge::CompHeadLess].  The standard fixes the
    result up to the order of equivalent elements; this is the insertion
    sort, which keeps their order. *)
Fixpoint sort_insert (e : TaxiEdge.t) (sorted : list TaxiEdge.t)
  : list TaxiEdge.t :=
  match sorted with
  | [] => [e]
  | e' :: rest =>
      if TaxiEdge.CompHeadLess e e' then e :: sorted
      else e' :: sort_insert e rest
  end.

Definition sort_edges (v : list TaxiEdge.t) : list TaxiEdge.t :=
  fold_left (fun acc e => sort_insert e acc) v [].

(** Add airport to list of airports. *)
Definition AddApt `{CoordCalc} `{Settings} (gmapApt : mapAptTy) (apt : Apt.t)
  : mapAptTy :=
  (* add as much space to the bounding box as defined for taxiway snapping *)
  let apt := Apt.EnlargeBounds_m apt (ofZ GetFdSnapTaxiDist_m) in
  (* sort the edges by heading *)
  let apt := Apt.set_vecTaxiEdges apt (sort_edges (Apt.vecTaxiEdges apt)) in
  map_emplace gmapApt (Apt.GetId apt) apt.

(** What is left of an airport object after [std::move]: the string and the
    vectors are empty. *)
Definition moved_from (apt : Apt.t) : Apt.t :=
  Apt.mk EmptyString boundingBoxTy.ctor0 (Apt.alt_m apt) [] [] [].

(** ** Reading apt.dat (lines 660-949) *)

(** Text functions of the plugin and of the C++ library that the reader
    calls.  [stoi] and [stod] throw on text that is no number: [None]. *)
Class TextIO : Type := {
  str_tokenize : string -> string -> bool -> list string;
  stoi : string -> option Z;
  stod : string -> option double
}.

(** An input file: the lines not yet read, and whether the stream is still
    good ([if (fIn)]). *)
Record ifstream : Type := mkStream { lines : list string; good : bool }.

(** Modelled from the spec: [safeGetline], which is not among the sources;
    the input is "an opaque byte-line source" that is iterated line by line.
    Reading past the last line gives the empty line and fails the stream. *)
Definition safeGetline (fIn : ifstream) : ifstream * string :=
  if good fIn then
    match lines fIn with
    | l :: rest => (mkStream rest true, l)
    | [] => (mkStream [] false, EmptyString)
    end
  else (fIn, EmptyString).

(** A computation that may throw. *)
Inductive thrown (A : Type) : Type :=
| Ret : A -> thrown A
| Throw : thrown A.
Arguments Ret {A} _.
Arguments Throw {A}.

Definition bind {A B : Type} (c : thrown A) (k : A -> thrown B) : thrown B :=
  match c with Ret v => k v | Throw => Throw end.

Definition try_ {A : Type} (o : option A) : thrown A :=
  match o with Some v => Ret v | None => Throw end.

Notation "x <- c ;; k" := (bind c (fun x => k))
  (at level 61, c at next level, right associativity).

Definition tab : ascii := "009"%char.
Definition blank : ascii := " "%char.

(** [ln[i] == c] *)
Definition char_is (ln : string) (i : nat) (c : ascii) : bool :=
  match String.get i ln with
  | Some c' => Ascii.eqb c' c
  | None => false
  end.

Definition blank_or_tab (ln : string) (i : nat) : bool :=
  char_is ln i blank || char_is ln i tab.

(** The delimiters of the tokenizer calls, [" \t"]. *)
Definition delimiters : string := String blank (String tab EmptyString).

(** [fields[i]] *)
Definition field (fields : list string) (i : nat) : string :=
  nth i fields EmptyString.

(** [v.erase(pos)] *)
Definition erase {A : Type} (v : list A) (pos : nat) : list A :=
  firstn pos v ++ skipn (S pos) v.

Section Reader.
Context `{CoordCalc} `{Settings} `{TextIO}.

(** The first loop of [ReadOneTaxiLine]: read node lines until a line
    that is no taxi centerline node.  Gives the stream, the nodes and the
    last line read. *)
Fixpoint read_taxi_nodes (ls : list string) (vecNodes : list TaxiNode.t)
  : thrown (ifstream * list TaxiNode.t * string) :=
  match ls with
  | [] => Ret (mkStream [] false, vecNodes, EmptyString)
  | ln :: rest =>
      (* ignore empty lines *)
      if (String.length ln =? 0)%nat then read_taxi_nodes rest vecNodes
      else
        let fields := str_tokenize ln delimiters true in
        (* We need at minimum 3 fields (line id, latitude, longitude) *)
        if (List.length fields <? 3)%nat
        then Ret (mkStream rest true, vecNodes, ln)
        else
          lnCod <- try_ (stoi (field fields 0)) ;;
          if (111 <=? lnCod)%Z && (lnCod <=? 116)%Z then
            lnTypeCode <-
              (if (lnCod =? 111)%Z || (lnCod =? 113)%Z then
                 if (4 <=? List.length fields)%nat
                 then try_ (stoi (field fields 3)) else Ret 1%Z
               else if (lnCod =? 112)%Z || (lnCod =? 114)%Z then
                 if (6 <=? List.length fields)%nat
                 then try_ (stoi (field fields 5)) else Ret 1%Z
               else Ret 1%Z) ;;
            (* Taxi Centerline? *)
            if (lnTypeCode =? 1)%Z || (lnTypeCode =? 7)%Z
               || (lnTypeCode =? 51)%Z || (lnTypeCode =? 57)%Z
            then
              lat <- try_ (stod (field fields 1)) ;;
              lon <- try_ (stod (field fields 2)) ;;
              read_taxi_nodes rest (vecNodes ++ [TaxiNode.ctor lat lon])
            else Ret (mkStream rest true, vecNodes, ln)
          else Ret (mkStream rest true, vecNodes, ln)
  end.

(** The loop that removes nodes closer together than 10m; [iter] is the
    position of the iterator in [vecNodes].  Every round erases a node or
    advances [iter], so [length vecNodes] rounds are enough. *)
Fixpoint thin_loop (fuel : nat) (vecNodes : list TaxiNode.t) (iter : nat)
    (apt : Apt.t) : list TaxiNode.t * Apt.t :=
  match fuel with
  | O => (vecNodes, apt)
  | S fuel' =>
      (* end when iter points to 3rd-last element of vector *)
      if (iter + 3 =? List.length vecNodes)%nat then (vecNodes, apt)
      else
        match nth_error vecNodes iter, nth_error vecNodes (S iter) with
        | Some a, Some b =>
            let distEst :=
              DistLatLonSqr (TaxiNode.lat a) (TaxiNode.lon a)
                            (TaxiNode.lat b) (TaxiNode.lon b) in
            if (distEst <? APT_MIN_TAXI_SEGM_LEN_M2)%D then
              (* too close, remove the next nodes *)
              thin_loop fuel' (erase vecNodes (S iter)) iter apt
            else
              (* long enough an edge, so add it to the airport *)
              let '(idx, apt) :=
                Apt.AddTaxiNode apt (TaxiNode.lat b) (TaxiNode.lon b) in
              let '(_, apt) :=
                Apt.AddTaxiEdge apt (size_t_sub idx 1) idx (sqrt distEst) in
              (* move on and test the next edge *)
              thin_loop fuel' vecNodes (S iter) apt
        | _, _ => (vecNodes, apt)
        end
  end.

(** For last 3 nodes (a <-> b <-> c) decide if the middle node b is too
    close to either side. *)
Definition thin_last3 (vecNodes : list TaxiNode.t) (apt : Apt.t)
  : list TaxiNode.t * Apt.t * double :=
  if (3 <=? size vecNodes)%Z then
    match at_ vecNodes (size_t_sub (size vecNodes) 3),
          at_ vecNodes (size_t_sub (size vecNodes) 2),
          at_ vecNodes (size_t_sub (size vecNodes) 1) with
    | Some a, Some b, Some c =>
        let AB := DistLatLonSqr (TaxiNode.lat a) (TaxiNode.lon a)
                                (TaxiNode.lat b) (TaxiNode.lon b) in
        let BC := DistLatLonSqr (TaxiNode.lat b) (TaxiNode.lon b)
                                (TaxiNode.lat c) (TaxiNode.lon c) in
        if (AB <? APT_MIN_TAXI_SEGM_LEN_M2)%D
           || (BC <? APT_MIN_TAXI_SEGM_LEN_M2)%D
        then
          (* too close, remove b, but we know the final dist already *)
          (erase vecNodes (List.length vecNodes - 2), apt,
           (sqrt AB + sqrt BC)%D)
        else
          (* OK, both edges needed, here add the a<->b edge *)
          let '(idx, apt) :=
            Apt.AddTaxiNode apt (TaxiNode.lat b) (TaxiNode.lon b) in
          let '(_, apt) :=
            Apt.AddTaxiEdge apt (size_t_sub idx 1) idx (sqrt AB) in
          (* The last distance is now the one from b to c *)
          (vecNodes, apt, sqrt BC)
    | _, _, _ => (vecNodes, apt, NaN)
    end
  else (vecNodes, apt, NaN).

(** Add the final edge between the last two nodes. *)
Definition add_final_edge (vecNodes : list TaxiNode.t) (apt : Apt.t)
    (distToLast : double) : Apt.t :=
  match at_ vecNodes (size_t_sub (size vecNodes) 2),
        at_ vecNodes (size_t_sub (size vecNodes) 1) with
  | Some y, Some z =>
      let distToLast :=
        if isnan distToLast
        then sqrt (DistLatLonSqr (TaxiNode.lat y) (TaxiNode.lon y)
                                 (TaxiNode.lat z) (TaxiNode.lon z))
        else distToLast in
      let '(idx, apt) :=
        Apt.AddTaxiNode apt (TaxiNode.lat z) (TaxiNode.lon z) in
      let '(_, apt) :=
        Apt.AddTaxiEdge apt (size_t_sub idx 1) idx distToLast in
      apt
  | _, _ => apt
  end.

(** The second half of [ReadOneTaxiLine]: process the resulting nodes. *)
Definition thin_taxi_nodes (vecNodes : list TaxiNode.t) (apt : Apt.t)
  : Apt.t :=
  if (2 <=? size vecNodes)%Z then
    match vecNodes with
    | front :: _ =>
        (* The first node is definitely used, add it already *)
        let '(_, apt) :=
          Apt.AddTaxiNode apt (TaxiNode.lat front) (TaxiNode.lon front) in
        let '(vecNodes, apt) :=
          if (3 <=? size vecNodes)%Z
          then thin_loop (List.length vecNodes) vecNodes 0 apt
          else (vecNodes, apt) in
        let '(vecNodes, apt, distToLast) := thin_last3 vecNodes apt in
        add_final_edge vecNodes apt distToLast
    | [] => apt
    end
  else apt.

(** Process one "120" section; returns the stream, the airport and the
    next line read from the file, which is after the section. *)
Definition ReadOneTaxiLine (fIn : ifstream) (apt : Apt.t)
  : thrown (ifstream * Apt.t * string) :=
  r <- (if good fIn then read_taxi_nodes (lines fIn) []
        else Ret (fIn, [], EmptyString)) ;;
  let '(fIn, vecNodes, ln) := r in
  Ret (fIn, thin_taxi_nodes vecNodes apt, ln).
End Reader.

(** The state of [ReadOneAptFile]: its local variables, the input file and
    the global map of airports. *)
Record readerTy : Type := mkReader {
  r_apt : Apt.t;
  r_ln : string;
  r_bProcessGivenLn : bool;
  r_fIn : ifstream;
  r_gmapApt : mapAptTy
}.

Section ReadOneAptFile.
Context `{CoordCalc} `{Settings} `{TextIO}.

(** [ln] begins an airport: ["1 "] and more than 10 characters. *)
Definition is_airport_line (ln : string) : bool :=
  (10 <? String.length ln)%nat && char_is ln 0 "1"%char && blank_or_tab ln 1.

(** [ln] describes a runway: ["100 "] and more than 20 characters. *)
Definition is_runway_line (ln : string) : bool :=
  (20 <? String.length ln)%nat
  && char_is ln 0 "1"%char && char_is ln 1 "0"%char && char_is ln 2 "0"%char
  && blank_or_tab ln 3.

(** [ln] starts a taxi line segment: ["120"] alone or ["120 "]. *)
Definition is_taxi_line (ln : string) : bool :=
  ((String.length ln =? 3)%nat && String.eqb ln "120")
  || ((4 <=? String.length ln)%nat
      && char_is ln 0 "1"%char && char_is ln 1 "2"%char
      && char_is ln 2 "0"%char && blank_or_tab ln 3).

(** The airport's beginning: close the previous airport, start the next. *)
Definition begin_airport (st : readerTy) (ln : string) : readerTy :=
  (* If the previous airport is valid add it to the list *)
  let '(gmapApt, apt) :=
    if Apt.IsValid (r_apt st)
    then (AddApt (r_gmapApt st) (r_apt st), moved_from (r_apt st))
    else (r_gmapApt st, Apt.ctor EmptyString) in
  let fields := str_tokenize ln delimiters true in
  let apt :=
    if (5 <=? List.length fields)%nat
       && (map_count gmapApt (field fields 4) =? 0)%Z
    then Apt.ctor (field fields 4)
    else apt in
  mkReader apt ln false (r_fIn st) gmapApt.

(** A runway line of an airport with an id. *)
Definition read_runway (box : boundingBoxTy.t) (st : readerTy) (ln : string)
  : thrown readerTy :=
  let fields := str_tokenize ln delimiters true in
  let same := mkReader (r_apt st) ln false (r_fIn st) (r_gmapApt st) in
  if (List.length fields =? 26)%nat then
    lat <- try_ (stod (field fields 9)) ;;
    lon <- try_ (stod (field fields 10)) ;;
    if (ofZ (-90) <=? lat)%D && (lat <=? ofZ 90)%D
       && (ofZ (-180) <=? lon)%D && (lon <? ofZ 180)%D
    then
      if Apt.HasTaxiWays (r_apt st)
         || contains box
              (positionTy.ctor lat lon NaN NaN NaN NaN NaN
                 positionTy.GND_UNKNOWN positionTy.UNIT_WORLD
                 positionTy.UNIT_DEG 0)
      then
        displaced1 <- try_ (stod (field fields 11)) ;;
        lat2 <- try_ (stod (field fields 18)) ;;
        lon2 <- try_ (stod (field fields 19)) ;;
        displaced2 <- try_ (stod (field fields 20)) ;;
        Ret (mkReader
               (Apt.AddRwyEnds (r_apt st) lat lon displaced1 (field fields 8)
                               lat2 lon2 displaced2 (field fields 17))
               ln false (r_fIn st) (r_gmapApt st))
      else
        (* airport is outside bounding box: clear the airport object *)
        Ret (mkReader (Apt.ctor EmptyString) ln false (r_fIn st)
                      (r_gmapApt st))
    else Ret same
  else Ret same.

(** One round of the loop over the lines of the file. *)
Definition read_round (box : boundingBoxTy.t) (st : readerTy)
  : thrown readerTy :=
  (* Either process a given line or fetch a new one *)
  let '(fIn, ln) :=
    if r_bProcessGivenLn st then (r_fIn st, r_ln st)
    else safeGetline (r_fIn st) in
  let st := mkReader (r_apt st) ln false fIn (r_gmapApt st) in
  (* ignore empty lines *)
  if (String.length ln =? 0)%nat then Ret st
  else if is_airport_line ln then Ret (begin_airport st ln)
  else if Apt.HasId (r_apt st) && is_runway_line ln then
    read_runway box st ln
  else if Apt.HasRwyEndpoints (r_apt st) && is_taxi_line ln then
    r <- ReadOneTaxiLine fIn (r_apt st) ;;
    let '(fIn, apt, ln) := r in
    Ret (mkReader apt ln true fIn (r_gmapApt st))
  else Ret st.

(** If the last airport read is valid don't forget to add it. *)
Definition flush_airport (st : readerTy) : mapAptTy :=
  if Apt.IsValid (r_apt st) then AddApt (r_gmapApt st) (r_apt st)
  else r_gmapApt st.

(** The loop of [ReadOneAptFile].  [stop] is the number of rounds after
    which [bStopThread] is found set.  The result is the map of airports
    and whether the function ended by an exception. *)
Fixpoint read_loop (stop : nat) (box : boundingBoxTy.t) (st : readerTy)
  : mapAptTy * bool :=
  match stop with
  | O => (flush_airport st, false)
  | S stop' =>
      if r_bProcessGivenLn st || good (r_fIn st) then
        match read_round box st with
        | Ret st' => read_loop stop' box st'
        | Throw => (r_gmapApt st, true)
        end
      else (flush_airport st, false)
  end.

(** Read airports in the one given [apt.dat] file. *)
Definition ReadOneAptFile (stop : nat) (gmapApt : mapAptTy) (fIn : ifstream)
    (box : boundingBoxTy.t) : mapAptTy * bool :=
  read_loop stop box
    (mkReader (Apt.ctor EmptyString) EmptyString false fIn gmapApt).
End ReadOneAptFile.

(** ** Utility functions and the queries of X-Plane's main thread *)

Section Queries.
Context `{CoordCalc} `{XPLM} `{Settings}.

(** Find airport, which contains passed-in position, can be [nullptr]. *)
Definition LTAptFind (gmapApt : mapAptTy) (pos : positionTy.t)
  : option Apt.t :=
  option_map snd (find (fun p => Apt.Contains (snd p) pos) gmapApt).

(** Snaps the passed-in position to the nearest rwy or taxiway if
    appropriate. *)
Definition LTAptSnap (gmapApt : mapAptTy) (pos : positionTy.t)
    (bLogging : bool) : bool * positionTy.t :=
  (* Configured off? *)
  if (GetFdSnapTaxiDist_m <=? 0)%Z then (false, pos)
  else
    (* Which airport are we looking at? *)
    match LTAptFind gmapApt pos with
    | None => (false, pos)
    | Some pApt => Apt.SnapToTaxiway pApt pos bLogging
    end.
End Queries.

(** What [LTAptFindRwy] reads of an aircraft: the model's values, the last
    known go-to position and the speed. *)
Module LTAircraft.
Record t : Type := mk {
  VSI_FINAL : double;           (* [mdl.VSI_FINAL] *)
  FLAPS_DOWN_SPEED : double;    (* [mdl.FLAPS_DOWN_SPEED] *)
  PITCH_FLARE : double;         (* [mdl.PITCH_FLARE] *)
  GetToPos : positionTy.t;
  GetSpeed_m_s : double
}.
End LTAircraft.

(** The variables holding the best match of [LTAptFindRwy]; the pointers
    are the airport's id, the edge's position and the endpoint found. *)
Record bestRwyTy : Type := mkBestRwy {
  bestApt : option string;
  bestRwy : option TaxiEdge.t;
  bestRwyEndPt : option RwyEndPt.t;
  bestHeadingDiff : double;
  bestArrivalTS : double
}.

Section FindRwy.
Context `{CoordCalc} `{Settings}.

(** The rwy end point we are (potentially) aiming at. *)
Definition aimed_endpoint (bHeadInverted : bool) (apt : Apt.t)
    (e : TaxiEdge.t) : option RwyEndPt.t :=
  if bHeadInverted then Apt.GetRwyEP_B e apt else Apt.GetRwyEP_A e apt.

(** Vertical speed needed to reach the endpoint, and the flying time. *)
Definition flying_time (from : positionTy.t) (speed_m_s : double)
    (rwyEP : RwyEndPt.t) : double :=
  (CoordDistance (positionTy.lat from) (positionTy.lon from)
                 (TaxiNode.lat (RwyEndPt.node rwyEP))
                 (TaxiNode.lon (RwyEndPt.node rwyEP)) / speed_m_s)%D.

Definition implied_vsi (from : positionTy.t) (speed_m_s : double)
    (rwyEP : RwyEndPt.t) : double :=
  ((RwyEndPt.alt_m rwyEP - positionTy.alt_m from)
   / flying_time from speed_m_s rwyEP)%D.

(** Heading towards rwy, compared to current flight's heading. *)
Definition heading_deviation (from : positionTy.t) (rwyEP : RwyEndPt.t)
  : double :=
  fabs (HeadingDiff (positionTy.heading from)
          (CoordAngle (positionTy.lat from) (positionTy.lon from)
                      (TaxiNode.lat (RwyEndPt.node rwyEP))
                      (TaxiNode.lon (RwyEndPt.node rwyEP)))).

(** One round of the loop over found runways of an airport. *)
Definition rwy_step (from : positionTy.t) (bHeadInverted : bool)
    (speed_m_s vsi_min vsi_max : double) (key : string) (apt : Apt.t)
    (st : bestRwyTy) (e : nat) : bestRwyTy :=
  match nth_error (Apt.vecTaxiEdges apt) e with
  | None => st
  | Some edge =>
      match aimed_endpoint bHeadInverted apt edge with
      | None => st
      | Some rwyEP =>
          (* We need to know the runway's altitude for what comes next *)
          if isnan (RwyEndPt.alt_m rwyEP) then st
          else
            let headingDiff := heading_deviation from rwyEP in
            (* worse than best known match? *)
            if (headingDiff >? bestHeadingDiff st)%D then st
            else
              (* 3. Vertical speed *)
              let d_ts := flying_time from speed_m_s rwyEP in
              let vsi := implied_vsi from speed_m_s rwyEP in
              if (vsi <? vsi_min)%D || (vsi >? vsi_max)%D then st
              else
                (* We've got a match! *)
                mkBestRwy (Some key) (Some edge) (Some rwyEP) headingDiff
                          (positionTy.ts from + d_ts)%D
      end
  end.

(** The loop over one airport. *)
Definition apt_step (from : positionTy.t) (headSearch : double)
    (bHeadInverted : bool) (speed_m_s vsi_min vsi_max : double)
    (st : bestRwyTy) (entry : string * Apt.t) : bestRwyTy :=
  let '(key, apt) := entry in
  let '(found, lstRwys) :=
    Apt.FindEdgesForHeading apt headSearch ART_RWY_MAX_HEAD_DIFF []
                            TaxiEdge.RUN_WAY in
  if found then
    fold_left
      (rwy_step from bHeadInverted speed_m_s vsi_min vsi_max key apt)
      lstRwys st
  else st.

(** The preparation of aircraft-related data. *)
Definition vsi_min_of (_ac : LTAircraft.t) : double :=
  (LTAircraft.VSI_FINAL _ac * ART_RWY_MAX_VSI_F * Ms_per_FTm)%D.
Definition vsi_max_of (_ac : LTAircraft.t) : double :=
  (LTAircraft.VSI_FINAL _ac / ART_RWY_MAX_VSI_F * Ms_per_FTm)%D.
Definition speed_of (_ac : LTAircraft.t) : double :=
  dmin (LTAircraft.GetSpeed_m_s _ac)
       (LTAircraft.FLAPS_DOWN_SPEED _ac * ART_APPR_SPEED_F
        / KT_per_M_per_S)%D.
Definition headSearch_of (_ac : LTAircraft.t) : double * bool :=
  let headSearch :=
    HeadingNormalize (positionTy.heading (LTAircraft.GetToPos _ac)) in
  if (headSearch >=? ofZ 180)%D then ((headSearch - ofZ 180)%D, true)
  else (headSearch, false).

(** The best match after the loop over all airports. *)
Definition LTAptFindRwy_best (gmapApt : mapAptTy) (_ac : LTAircraft.t)
  : bestRwyTy :=
  let from := LTAircraft.GetToPos _ac in
  let '(headSearch, bHeadInverted) := headSearch_of _ac in
  fold_left
    (apt_step from headSearch bHeadInverted (speed_of _ac)
              (vsi_min_of _ac) (vsi_max_of _ac))
    gmapApt
    (mkBestRwy None None None ART_RWY_MAX_HEAD_DIFF NaN).

(** Return the best possible runway to auto-land at. *)
Definition LTAptFindRwy (gmapApt : mapAptTy) (_ac : LTAircraft.t)
  : positionTy.t :=
  let st := LTAptFindRwy_best gmapApt _ac in
  let bHeadInverted := snd (headSearch_of _ac) in
  match bestRwyEndPt st, bestApt st, bestRwy st with
  | Some ep, Some _, Some rwy =>
      positionTy.ctor
        (TaxiNode.lat (RwyEndPt.node ep)) (TaxiNode.lon (RwyEndPt.node ep))
        (RwyEndPt.alt_m ep) (bestArrivalTS st)
        (TaxiEdge.angle rwy + (if bHeadInverted then ofZ 180 else ofZ 0))%D
        (LTAircraft.PITCH_FLARE _ac) (ofZ 0)
        positionTy.GND_ON positionTy.UNIT_WORLD positionTy.UNIT_DEG
        FPH_TOUCH_DOWN
  | _, _, _ =>
      (* Didn't find a suitable runway? *)
      positionTy.ctor0
  end.
End FindRwy.


(** ** Notions used by the properties *)

(** The airports built through the public construction operations. *)
Inductive built `{CoordCalc} : Apt.t -> Prop :=
| built_ctor (_id : string) : built (Apt.ctor _id)
| built_AddTaxiNode (apt : Apt.t) (lat lon : double) :
    built apt -> built (snd (Apt.AddTaxiNode apt lat lon))
| built_AddTaxiEdge (apt : Apt.t) (n1 n2 : Z) (_dist : double) :
    built apt -> built (snd (Apt.AddTaxiEdge apt n1 n2 _dist))
| built_AddRwyEnds (apt : Apt.t) (lat1 lon1 displaced1 : double)
    (id1 : string) (lat2 lon2 displaced2 : double) (id2 : string) :
    built apt ->
    built (Apt.AddRwyEnds apt lat1 lon1 displaced1 id1
                          lat2 lon2 displaced2 id2).

(** Both indexes of the edge are in range of the vector that the edge's
    type selects. *)
Definition edge_in_range (apt : Apt.t) (e : TaxiEdge.t) : Prop :=
  match TaxiEdge.type e with
  | TaxiEdge.RUN_WAY =>
      (0 <= TaxiEdge.a e < size (Apt.vecRwyEndPts apt))%Z
      /\ (0 <= TaxiEdge.b e < size (Apt.vecRwyEndPts apt))%Z
  | TaxiEdge.TAXI_WAY =>
      (0 <= TaxiEdge.a e < size (Apt.vecTaxiNodes apt))%Z
      /\ (0 <= TaxiEdge.b e < size (Apt.vecTaxiNodes apt))%Z
  | TaxiEdge.UNKNOWN_WAY => False
  end.

(** The edge's heading lies in the range from [lo] to [hi]. *)
Definition in_window (lo hi : double) (e : TaxiEdge.t) : bool :=
  (lo <=? TaxiEdge.angle e)%D && (TaxiEdge.angle e <=? hi)%D.

(** The positions, counted from [pos], of the edges of [es] that have their
    heading in the range and are of the wanted type, in ascending order. *)
Fixpoint matching (es : list TaxiEdge.t) (pos : nat) (lo hi : double)
    (_restrictType : TaxiEdge.nodeTy) : list nat :=
  match es with
  | [] => []
  | e :: rest =>
      (if in_window lo hi e && Apt.type_ok _restrictType e then [pos] else [])
      ++ matching rest (S pos) lo hi _restrictType
  end.

(** The edge sequence is sorted ascending by (normalized) heading. *)
Definition sorted_by_heading (es : list TaxiEdge.t) : Prop :=
  StronglySorted
    (fun e1 e2 => (TaxiEdge.angle e1 <=? TaxiEdge.angle e2)%D = true) es
  /\ Forall (fun e => isnan (TaxiEdge.angle e) = false) es.

(** The search heading after its normalization to [0,180). *)
Definition fold_heading (h : Q) : Q := if Qle_bool 180 h then h - 180 else h.

(** The two sub-ranges of a window that crosses 0 or 180: the lower one
    runs from 0 to [lower_range_end], the upper one from
    [upper_range_begin] to 180.  [h] is the normalized search heading. *)
Definition lower_range_end (h tol : Q) : Q :=
  if Qle_bool 0 (h - tol) then h + tol - 180 else h + tol.
Definition upper_range_begin (h tol : Q) : Q :=
  if Qle_bool 0 (h - tol) then h - tol else h - tol + 180.

(** A check of [sorted_by_heading]. *)
Fixpoint sorted_by_heading_b (es : list TaxiEdge.t) : bool :=
  match es with
  | [] => true
  | e :: rest =>
      negb (isnan (TaxiEdge.angle e))
      && forallb (fun e2 => (TaxiEdge.angle e <=? TaxiEdge.angle e2)%D) rest
      && sorted_by_heading_b rest
  end.

(** The original position of an outer end of a runway, as [AddRwyEnds]
    builds it from the fields of the runway line. *)
Definition raw_runway_end (lat lon : double) : positionTy.t :=
  positionTy.ctor lat lon NaN NaN NaN NaN NaN positionTy.GND_ON
                  positionTy.UNIT_WORLD positionTy.UNIT_DEG 0.

(** The points of a section lie on one line, each 2 m after the one
    before: the estimated square distance of the points at places [i < j]
    is that of [2 (j - i)] meters, and so is its root. *)
Definition colinear_2m_apart `{CoordCalc} (pts : list TaxiNode.t) : Prop :=
  forall (i j : nat) (a b : TaxiNode.t),
    (i < j)%nat -> nth_error pts i = Some a -> nth_error pts j = Some b ->
    (DistLatLonSqr (TaxiNode.lat a) (TaxiNode.lon a)
                   (TaxiNode.lat b) (TaxiNode.lon b)
     =d= ofZ ((2 * Z.of_nat (j - i)) * (2 * Z.of_nat (j - i))))%D
    /\ (DistLatLon (TaxiNode.lat a) (TaxiNode.lon a)
                   (TaxiNode.lat b) (TaxiNode.lon b)
        =d= ofZ (2 * Z.of_nat (j - i)))%D.

(** The nodes of an edge in the direction of travel: from and to. *)
Definition travel_nodes (apt : Apt.t) (bHeadInverted : bool)
    (edge : TaxiEdge.t) : option (TaxiNode.t * TaxiNode.t) :=
  match (if bHeadInverted then Apt.GetB edge apt else Apt.GetA edge apt),
        (if bHeadInverted then Apt.GetA edge apt else Apt.GetB edge apt) with
  | Some from, Some to => Some (from, to)
  | _, _ => None
  end.

(** The distance result of a point in local coordinates to an edge. *)
Definition edge_distance `{CoordCalc} (pt_x pt_z : double)
    (from to : TaxiNode.t) : distToLineTy.t :=
  DistPointToLineSqr pt_x pt_z (TaxiNode.x from) (TaxiNode.z from)
                     (TaxiNode.x to) (TaxiNode.z to).

(** The base point of a distance result, as [FindClosestEdge] writes it to
    [basePt]. *)
Definition base_point `{CoordCalc} `{XPLM} (basePt : positionTy.t)
    (pt_y : double) (from to : TaxiNode.t) (d : distToLineTy.t)
  : positionTy.t :=
  let '(bx, bz) :=
    DistResultToBaseLoc (TaxiNode.x from) (TaxiNode.z from)
                        (TaxiNode.x to) (TaxiNode.z to) d in
  let '(lat, lon, _) := XPLMLocalToWorld bx pt_y bz in
  positionTy.set_lon (positionTy.set_lat basePt lat) lon.

(** What the loop of [FindClosestEdge] keeps true of its best match, for
    the point [pt_x], [pt_z] and the square [m2] of the maximum distance. *)
Definition closest_inv `{CoordCalc} (apt : Apt.t) (inv : bool)
    (pt_x pt_z : double) (m2 : Q) (st : Apt.bestTy) : Prop :=
  exists q,
    distToLineTy.dist2 (Apt.bestDist st) = Num q /\ q <= m2
    /\ forall e,
        Apt.bestEdge st = Some e ->
        exists edge from to,
          nth_error (Apt.vecTaxiEdges apt) e = Some edge
          /\ travel_nodes apt inv edge = Some (from, to)
          /\ Apt.bestFrom st = Some from /\ Apt.bestTo st = Some to
          /\ Apt.bestDist st = edge_distance pt_x pt_z from to
          /\ q < m2
          /\ (distToLineTy.DistSqrOfBaseBeyondLine (Apt.bestDist st)
              >? Num m2)%D = false.

(** The test of [LTAptFindRwy] on the vertical speed: it lies outside the
    permitted range. *)
Definition outside_envelope (vsi vsi_min vsi_max : double) : bool :=
  (vsi <? vsi_min)%D || (vsi >? vsi_max)%D.

(** The candidate runways in the order in which [LTAptFindRwy] visits them:
    for every airport of the map, the runway edges found for the search
    heading, each with the airport's key and the airport. *)
Definition rwy_candidates `{Settings} (gmapApt : mapAptTy)
    (headSearch : double) : list (string * Apt.t * nat) :=
  flat_map
    (fun entry : string * Apt.t =>
       List.map (fun e => (fst entry, snd entry, e))
         (snd (Apt.FindEdgesForHeading (snd entry) headSearch
                 ART_RWY_MAX_HEAD_DIFF [] TaxiEdge.RUN_WAY)))
    gmapApt.

(** The endpoint that a candidate aims at, if it has one. *)
Definition candidate_endpoint (bHeadInverted : bool)
    (c : string * Apt.t * nat) : option RwyEndPt.t :=
  let '(_, apt, e) := c in
  match nth_error (Apt.vecTaxiEdges apt) e with
  | Some edge => aimed_endpoint bHeadInverted apt edge
  | None => None
  end.

(** The loop's round for a candidate. *)
Definition candidate_step `{CoordCalc} (from : positionTy.t)
    (bHeadInverted : bool) (speed_m_s vsi_min vsi_max : double)
    (st : bestRwyTy) (c : string * Apt.t * nat) : bestRwyTy :=
  let '(key, apt, e) := c in
  rwy_step from bHeadInverted speed_m_s vsi_min vsi_max key apt st e.

(** A candidate's implied vertical speed lies outside the aircraft's
    range. *)
Definition candidate_outside `{CoordCalc} `{Settings} (_ac : LTAircraft.t)
    (ep : RwyEndPt.t) : bool :=
  outside_envelope
    (implied_vsi (LTAircraft.GetToPos _ac) (speed_of _ac) ep)
    (vsi_min_of _ac) (vsi_max_of _ac).


(** ** Local coordinates (LTApt.cpp, lines 86-92, 121-131, 286-292,
    1164-1171) *)

Section LocalCoords.
Context `{XPLM}.

(** [TaxiNode::LocalCoordsUpdate]: [bForce] false only calculates x/z if
    not yet known, true recalculates no matter what. *)
Definition TaxiNode_LocalCoordsUpdate (n : TaxiNode.t) (bForce : bool)
    (_alt_m : double) : TaxiNode.t :=
  if bForce || isnan (TaxiNode.x n) then
    let '(x, y, z) :=
      XPLMWorldToLocal (TaxiNode.lat n) (TaxiNode.lon n) _alt_m in
    TaxiNode.mk (TaxiNode.lat n) (TaxiNode.lon n) x z
  else n.

(** [RwyEndPt::LocalCoordsUpdate]: makes use of the stored altitude if
    available. *)
Definition RwyEndPt_LocalCoordsUpdate (re : RwyEndPt.t) (bForce : bool)
    (_alt_m : double) : RwyEndPt.t :=
  let n := RwyEndPt.node re in
  let re :=
    if bForce || isnan (TaxiNode.x n) then
      let '(x, y, z) :=
        XPLMWorldToLocal (TaxiNode.lat n) (TaxiNode.lon n)
          (if isnan (RwyEndPt.alt_m re) then _alt_m else RwyEndPt.alt_m re) in
      RwyEndPt.mk (TaxiNode.mk (TaxiNode.lat n) (TaxiNode.lon n) x z)
                  (RwyEndPt.id re) (RwyEndPt.alt_m re) y
    else re in
  (* We only keep the y value if it related to _our_ altitude *)
  if isnan (RwyEndPt.alt_m re)
  then RwyEndPt.mk (RwyEndPt.node re) (RwyEndPt.id re) (RwyEndPt.alt_m re) NaN
  else re.

(** [Apt::LocalCoordsUpdate]: taxi nodes and rwy ends. *)
Definition Apt_LocalCoordsUpdate (apt : Apt.t) (bForce : bool) : Apt.t :=
  let apt :=
    Apt.set_vecTaxiNodes apt
      (List.map (fun n => TaxiNode_LocalCoordsUpdate n bForce (Apt.alt_m apt))
                (Apt.vecTaxiNodes apt)) in
  Apt.set_vecRwyEndPts apt
    (List.map (fun re => RwyEndPt_LocalCoordsUpdate re bForce (Apt.alt_m apt))
              (Apt.vecRwyEndPts apt)).

(** Update local coordinate system's values due to ref point change. *)
Definition LTAptLocalCoordsUpdate (gmapApt : mapAptTy) (bForce : bool)
  : mapAptTy :=
  List.map (fun pair => (fst pair, Apt_LocalCoordsUpdate (snd pair) bForce))
           gmapApt.
End LocalCoords.

(** ** Altitudes and purging (lines 133-137, 518-526, 952-975, 1107-1117) *)

(** Functions of CoordCalc.h that the code below calls and whose bodies are
    not among the sources. *)
Class Terrain : Type := {
  (** terrain altitude at the given position, [NaN] in case of failure *)
  YProbe_at_m : positionTy.t -> double;
  (** [boundingBoxTy::center] *)
  center : boundingBoxTy.t -> positionTy.t;
  (** [boundingBoxTy::overlap] *)
  overlap : boundingBoxTy.t -> boundingBoxTy.t -> bool
}.

Section Altitudes.
Context `{Terrain}.

(** [RwyEndPt::ComputeAlt]: compute altitude if not yet known. *)
Definition RwyEndPt_ComputeAlt (re : RwyEndPt.t) : RwyEndPt.t :=
  if isnan (RwyEndPt.alt_m re) then
    RwyEndPt.mk (RwyEndPt.node re) (RwyEndPt.id re)
      (YProbe_at_m
         (positionTy.ctor (TaxiNode.lat (RwyEndPt.node re))
            (TaxiNode.lon (RwyEndPt.node re)) (ofZ 0) NaN NaN NaN NaN
            positionTy.GND_UNKNOWN positionTy.UNIT_WORLD
            positionTy.UNIT_DEG 0))
      (RwyEndPt.y re)
  else re.

(** [Apt::UpdateAltitudes]: update rwy ends and airport with proper
    altitude. *)
Definition Apt_UpdateAltitudes (apt : Apt.t) : Apt.t :=
  (* Airport: Center of boundaries *)
  Apt.mk (Apt.id apt) (Apt.bounds apt)
         (YProbe_at_m (center (Apt.bounds apt)))
         (Apt.vecTaxiNodes apt)
         (* rwy ends *)
         (List.map RwyEndPt_ComputeAlt (Apt.vecRwyEndPts apt))
         (Apt.vecTaxiEdges apt).

(** Update altitudes of runways. *)
Definition LTAptUpdateRwyAltitudes (gmapApt : mapAptTy) : mapAptTy :=
  List.map (fun p => (fst p, Apt_UpdateAltitudes (snd p))) gmapApt.

(** Remove airports that are now considered too far away: loop all
    airports and remove those whose bounds do not overlap the box. *)
Fixpoint PurgeApt (gmapApt : mapAptTy) (_box : boundingBoxTy.t) : mapAptTy :=
  match gmapApt with
  | [] => []
  | (key, apt) :: rest =>
      if overlap (Apt.bounds apt) _box
      then (key, apt) :: PurgeApt rest _box   (* keep it, move on *)
      else PurgeApt rest _box                 (* remove it, move on *)
  end.
End Altitudes.

(** ** The runways of an airport (lines 538-568) *)

(** [std::find_if] on the positions from [first] on; the position of the
    end, [length v], if none is found. *)
Fixpoint find_if_loop {A : Type} (pred : A -> bool) (rest : list A)
    (pos : nat) : nat :=
  match rest with
  | [] => pos
  | x :: rest' => if pred x then pos else find_if_loop pred rest' (S pos)
  end.

Definition find_if {A : Type} (pred : A -> bool) (v : list A) (first : nat)
  : nat :=
  find_if_loop pred (skipn first v) first.

Definition is_rwy (te : TaxiEdge.t) : bool :=
  TaxiEdge.nodeTy_eqb (TaxiEdge.GetType te) TaxiEdge.RUN_WAY.

(** Position of the first rwy, or of the end if none found. *)
Definition Apt_FirstRwy (apt : Apt.t) : nat :=
  find_if is_rwy (Apt.vecTaxiEdges apt) 0.

(** Position of the next rwy after [i], or of the end if none found. *)
Definition Apt_NextRwy (apt : Apt.t) (i : nat) : nat :=
  find_if is_rwy (Apt.vecTaxiEdges apt) (S i).

(** The loop of [GetRwysString]; [fuel] bounds its rounds.  The lookup of
    an endpoint that fails ends the [try] block at that place. *)
Fixpoint GetRwysString_loop (fuel : nat) (apt : Apt.t) (i : nat)
    (s : string) : string :=
  match fuel with
  | O => s
  | S fuel' =>
      if (i =? List.length (Apt.vecTaxiEdges apt))%nat then s
      else
        (* divider between runways *)
        let s :=
          match s with
          | EmptyString => s
          | _ => (s ++ " / ")%string
          end in
        let s :=
          match nth_error (Apt.vecTaxiEdges apt) i with
          | Some te =>
              match Apt.GetRwyEP_A te apt with
              | Some epA =>
                  let s := (s ++ RwyEndPt.id epA ++ "-")%string in
                  match Apt.GetRwyEP_B te apt with
                  | Some epB => (s ++ RwyEndPt.id epB)%string
                  | None => s
                  end
              | None => s
              end
          | None => s
          end in
        GetRwysString_loop fuel' apt (Apt_NextRwy apt i) s
  end.

(** A human-readable string with all runways. *)
Definition Apt_GetRwysString (apt : Apt.t) : string :=
  GetRwysString_loop (List.length (Apt.vecTaxiEdges apt)) apt
                     (Apt_FirstRwy apt) EmptyString.

(** ** CoordCalc.h: functions on 2D points *)

(** [sqr] and [pyth2] at type [double]. *)
Definition sqr_d (a : double) : double := (a * a)%D.
Definition pyth2 (a b : double) : double := (sqr_d a + sqr_d b)%D.

(** Simple square of distance just by Pythagoras. *)
Definition DistPythSqr (x1 y1 x2 y2 : double) : double :=
  pyth2 (x2 - x1)%D (y2 - y1)%D.

(** ** Further notions used by the properties *)

(** All edges of the airport have their indexes in range. *)
Definition edges_in_range (apt : Apt.t) : Prop :=
  Forall (edge_in_range apt) (Apt.vecTaxiEdges apt).

(** The keys of the map ascend strictly, as in a [std::map]. *)
Definition map_sorted (m : mapAptTy) : Prop :=
  StronglySorted (fun p q => String.ltb (fst p) (fst q) = true) m.

(** No node of the airport has local coordinates yet. *)
Definition no_local_coords (apt : Apt.t) : Prop :=
  Forall (fun n => TaxiNode.HasLocalCoords n = false) (Apt.vecTaxiNodes apt)
  /\ Forall (fun re => TaxiNode.HasLocalCoords (RwyEndPt.node re) = false)
            (Apt.vecRwyEndPts apt).

(** No runway endpoint of the airport has an altitude yet. *)
Definition no_altitudes (apt : Apt.t) : Prop :=
  Forall (fun re => isnan (RwyEndPt.alt_m re) = true) (Apt.vecRwyEndPts apt).


(** Every airport of the map satisfies [P]. *)
Definition all_airports (P : Apt.t -> Prop) (m : mapAptTy) : Prop :=
  Forall (fun p => P (snd p)) m.

(** [apt'] is [apt] with taxi nodes and taxiway edges added at the back:
    the id, the altitude and the runway endpoints are those of [apt], and
    the nodes and edges of [apt] are there at their indexes. *)
Definition taxi_extension (apt apt' : Apt.t) : Prop :=
  Apt.id apt' = Apt.id apt
  /\ Apt.alt_m apt' = Apt.alt_m apt
  /\ Apt.vecRwyEndPts apt' = Apt.vecRwyEndPts apt
  /\ (exists ns, Apt.vecTaxiNodes apt' = Apt.vecTaxiNodes apt ++ ns)
  /\ (exists es,
        Apt.vecTaxiEdges apt' = Apt.vecTaxiEdges apt ++ es
        /\ Forall (fun e => TaxiEdge.type e = TaxiEdge.TAXI_WAY) es).

(** A node at the geographic position of [n], as [AddTaxiNode] adds it. *)
Definition node_at (n : TaxiNode.t) : TaxiNode.t :=
  TaxiNode.ctor (TaxiNode.lat n) (TaxiNode.lon n).

(** The name of a runway as [GetRwysString] writes it: the ids of its two
    endpoints, as far as their lookup succeeds. *)
Definition rwy_name (apt : Apt.t) (te : TaxiEdge.t) : string :=
  match Apt.GetRwyEP_A te apt with
  | Some epA =>
      (RwyEndPt.id epA ++ "-"
       ++ match Apt.GetRwyEP_B te apt with
          | Some epB => RwyEndPt.id epB
          | None => EmptyString
          end)%string
  | None => EmptyString
  end.

(** The string after one more runway: the divider, unless the string was
    empty, and the runway's name. *)
Definition add_rwy_name (apt : Apt.t) (s : string) (te : TaxiEdge.t)
  : string :=
  (match s with
   | EmptyString => s
   | _ => s ++ " / "
   end ++ rwy_name apt te)%string.

(** The position that a runway line gives, if [ln] gives one, lies outside
    the box: latitude and longitude are the fields 9 and 10 of the line. *)
Definition rwy_line_outside `{CoordCalc} `{TextIO} (box : boundingBoxTy.t)
    (ln : string) : Prop :=
  forall lat lon : double,
    stod (field (str_tokenize ln delimiters true) 9) = Some lat ->
    stod (field (str_tokenize ln delimiters true) 10) = Some lon ->
    contains box
      (positionTy.ctor lat lon NaN NaN NaN NaN NaN positionTy.GND_UNKNOWN
         positionTy.UNIT_WORLD positionTy.UNIT_DEG 0)
    = false.

(** The edge at position [p] can be matched by [FindClosestEdge]: its nodes
    in the direction of travel have local coordinates, the squared distance
    of the point to it is the number [d], and its base lies no farther
    beyond the ends of the line than the square [m2] allows. *)
Definition acceptable_edge `{CoordCalc} (apt : Apt.t) (inv : bool)
    (pt_x pt_z : double) (m2 : Q) (p : nat) (d : Q) : Prop :=
  exists edge from to,
    nth_error (Apt.vecTaxiEdges apt) p = Some edge
    /\ travel_nodes apt inv edge = Some (from, to)
    /\ TaxiNode.HasLocalCoords from = true
    /\ TaxiNode.HasLocalCoords to = true
    /\ distToLineTy.dist2 (edge_distance pt_x pt_z from to) = Num d
    /\ (distToLineTy.DistSqrOfBaseBeyondLine
          (edge_distance pt_x pt_z from to) >? Num m2)%D = false.

(** What the loop of [FindClosestEdge] keeps true of its best match after
    the edges at the positions [done]: no edge seen that can be matched is
    closer than the best distance, which is that of the best edge, or the
    maximum as long as there is no best edge. *)
Definition closest_best_inv `{CoordCalc} (apt : Apt.t) (inv : bool)
    (pt_x pt_z : double) (m2 : Q) (done : list nat) (st : Apt.bestTy)
  : Prop :=
  exists q,
    distToLineTy.dist2 (Apt.bestDist st) = Num q /\ q <= m2
    /\ (forall p d, In p done ->
                    acceptable_edge apt inv pt_x pt_z m2 p d -> q <= d)
    /\ match Apt.bestEdge st with
       | None => q = m2
       | Some e =>
           In e done /\ acceptable_edge apt inv pt_x pt_z m2 e q /\ q < m2
       end.

(** The candidate [c] passes the tests of [LTAptFindRwy] other than the one
    on the heading: its endpoint [ep] has an altitude and the implied
    vertical speed is in the aircraft's range; [h] is its heading
    deviation. *)
Definition acceptable_rwy `{CoordCalc} `{Settings} (_ac : LTAircraft.t)
    (c : string * Apt.t * nat) (ep : RwyEndPt.t) (h : Q) : Prop :=
  candidate_endpoint (snd (headSearch_of _ac)) c = Some ep
  /\ isnan (RwyEndPt.alt_m ep) = false
  /\ candidate_outside _ac ep = false
  /\ heading_deviation (LTAircraft.GetToPos _ac) ep = Num h.

(** What the loops of [LTAptFindRwy] keep true of the best match after the
    candidates [done], with the maximum heading difference [M]. *)
Definition best_rwy_inv `{CoordCalc} `{Settings} (_ac : LTAircraft.t)
    (M : Q) (done : list (string * Apt.t * nat)) (st : bestRwyTy) : Prop :=
  exists q,
    bestHeadingDiff st = Num q /\ q <= M
    /\ match bestRwyEndPt st with
       | None =>
           q = M
           /\ forall c ep h, In c done -> acceptable_rwy _ac c ep h -> M < h
       | Some ep =>
           (exists c, In c done /\ acceptable_rwy _ac c ep q)
           /\ forall c ep' h, In c done -> acceptable_rwy _ac c ep' h ->
                              q <= h
       end.

(** The line that the next round of the reader's loop processes: the line
    handed back by [ReadOneTaxiLine], or else the next line of the file. *)
Definition next_line (st : readerTy) : string :=
  if r_bProcessGivenLn st then r_ln st else snd (safeGetline (r_fIn st)).

(** The point [(bx, bz)] is the perpendicular projection of the point
    [(px, pz)] on the line from [(x1, z1)] to [(x2, z2)]: it lies on the
    line, [s] times the line's length after its start, and the way from it
    to the point is at right angles to the line. *)
Definition perpendicular_projection (px pz x1 z1 x2 z2 s bx bz : Q) : Prop :=
  bx == x1 + s * (x2 - x1) /\ bz == z1 + s * (z2 - z1)
  /\ (px - bx) * (x2 - x1) + (pz - bz) * (z2 - z1) == 0.

(** What CoordCalc.h documents of [DistPointToLineSqr] and
    [DistResultToBaseLoc], for the point [(px, pz)] and the line from
    [(x1, z1)] to [(x2, z2)], the base being [(bx, bz)]: the results are the
    squares of the distance of the point to the base, of the length of the
    line, and of the legs from either end of the line to the base, and the
    location computed from them is the base. *)
Definition base_documented `{CoordCalc} (px pz x1 z1 x2 z2 bx bz : Q)
  : Prop :=
  let d :=
    DistPointToLineSqr (Num px) (Num pz) (Num x1) (Num z1) (Num x2) (Num z2) in
  (distToLineTy.dist2 d =d= DistPythSqr (Num px) (Num pz) (Num bx) (Num bz))%D
  /\ (distToLineTy.len2 d
      =d= DistPythSqr (Num x1) (Num z1) (Num x2) (Num z2))%D
  /\ (distToLineTy.leg1_len2 d
      =d= DistPythSqr (Num x1) (Num z1) (Num bx) (Num bz))%D
  /\ (distToLineTy.leg2_len2 d
      =d= DistPythSqr (Num x2) (Num z2) (Num bx) (Num bz))%D
  /\ DistResultToBaseLoc (Num x1) (Num z1) (Num x2) (Num z2) d
     = (Num bx, Num bz).

(** ** Examples: airports *)

(** An airport with the edges given, and nothing else. *)
Definition apt_of_edges (es : list TaxiEdge.t) : Apt.t :=
  Apt.mk "TEST" boundingBoxTy.ctor0 NaN [] [] es.

(** A taxiway edge of the given heading. *)
Definition edge_heading (h : Q) : TaxiEdge.t :=
  TaxiEdge.mk TaxiEdge.TAXI_WAY 0 1 (Num h) (Num 50).

(** Edges of headings 8, 90 and 178 degrees. *)
Definition apt_8_90_178 : Apt.t :=
  apt_of_edges [edge_heading 8; edge_heading 90; edge_heading 178].

(** One edge of heading 100 degrees. *)
Definition apt_100 : Apt.t := apt_of_edges [edge_heading 100].

(** ** Examples: a flat test world

    Stand-ins for the functions of the interface, used to run the embedding
    on examples.  Coordinates are metres on a plane: the latitude is the
    northing, the longitude the easting.  Bearings and moves are exact along
    the four axis directions and [NaN] elsewhere; the square root is exact
    on squares of rationals and [NaN] elsewhere. *)

Definition exact_sqrt (d : double) : double :=
  match d with
  | NaN => NaN
  | Num q =>
      let n := Qnum (Qred q) in
      let m := Zpos (Qden (Qred q)) in
      if (0 <=? n)%Z && (Z.sqrt n * Z.sqrt n =? n)%Z
         && (Z.sqrt m * Z.sqrt m =? m)%Z
      then Num (Z.sqrt n # Z.to_pos (Z.sqrt m))
      else NaN
  end.

Definition flat_DistLatLonSqr (lat1 lon1 lat2 lon2 : double) : double :=
  ((lat2 - lat1) * (lat2 - lat1) + (lon2 - lon1) * (lon2 - lon1))%D.

Definition flat_CoordDistance (lat1 lon1 lat2 lon2 : double) : double :=
  exact_sqrt (flat_DistLatLonSqr lat1 lon1 lat2 lon2).

Definition flat_CoordAngle (lat1 lon1 lat2 lon2 : double) : double :=
  match (lat2 - lat1)%D, (lon2 - lon1)%D with
  | Num dn, Num de =>
      if Qeq_bool de 0 then (if Qle_bool 0 dn then Num 0 else Num 180)
      else if Qeq_bool dn 0 then (if Qle_bool 0 de then Num 90 else Num 270)
      else NaN
  | _, _ => NaN
  end.

Definition flat_between (p q : positionTy.t) : vectorTy.t :=
  vectorTy.ctor
    (flat_CoordAngle (positionTy.lat p) (positionTy.lon p)
                     (positionTy.lat q) (positionTy.lon q))
    (flat_CoordDistance (positionTy.lat p) (positionTy.lon p)
                        (positionTy.lat q) (positionTy.lon q)).

Definition flat_add_vector (p : positionTy.t) (v : vectorTy.t)
  : positionTy.t :=
  match vectorTy.angle v with
  | Num a =>
      if Qeq_bool a 0 then
        positionTy.set_lat p (positionTy.lat p + vectorTy.dist v)%D
      else if Qeq_bool a 90 then
        positionTy.set_lon p (positionTy.lon p + vectorTy.dist v)%D
      else if Qeq_bool a 180 then
        positionTy.set_lat p (positionTy.lat p - vectorTy.dist v)%D
      else if Qeq_bool a 270 then
        positionTy.set_lon p (positionTy.lon p - vectorTy.dist v)%D
      else positionTy.set_lon (positionTy.set_lat p NaN) NaN
  | NaN => positionTy.set_lon (positionTy.set_lat p NaN) NaN
  end.

(** The base is the foot of the perpendicular from the point on the line. *)
Definition flat_DistPointToLineSqr (pt_x pt_y ln_x1 ln_y1 ln_x2 ln_y2 : double)
  : distToLineTy.t :=
  let dx := (ln_x2 - ln_x1)%D in
  let dy := (ln_y2 - ln_y1)%D in
  let len2 := (dx * dx + dy * dy)%D in
  let t := (((pt_x - ln_x1) * dx + (pt_y - ln_y1) * dy) / len2)%D in
  let bx := (ln_x1 + t * dx)%D in
  let by_ := (ln_y1 + t * dy)%D in
  distToLineTy.mk
    ((pt_x - bx) * (pt_x - bx) + (pt_y - by_) * (pt_y - by_))%D
    len2
    ((bx - ln_x1) * (bx - ln_x1) + (by_ - ln_y1) * (by_ - ln_y1))%D
    ((bx - ln_x2) * (bx - ln_x2) + (by_ - ln_y2) * (by_ - ln_y2))%D.

(** The same number, as a reduced fraction. *)
Definition reduced (d : double) : double :=
  match d with Num q => Num (Qred q) | NaN => NaN end.

(** The base is found again from the three squares of the result: it lies
    at the fraction [(len2 + leg1_len2 - leg2_len2) / (2 len2)] of the way
    from the first point of the line to the second. *)
Definition flat_DistResultToBaseLoc (ln_x1 ln_y1 ln_x2 ln_y2 : double)
    (res : distToLineTy.t) : double * double :=
  let ratio :=
    ((distToLineTy.len2 res + distToLineTy.leg1_len2 res
      - distToLineTy.leg2_len2 res)
     / (ofZ 2 * distToLineTy.len2 res))%D in
  (reduced (ln_x1 + ratio * (ln_x2 - ln_x1))%D,
   reduced (ln_y1 + ratio * (ln_y2 - ln_y1))%D).

Definition flat_HeadingDiff (h1 h2 : double) : double :=
  let d := (h2 - h1)%D in
  if (d >? ofZ 180)%D then (d - ofZ 360)%D
  else if (d <? ofZ (-180))%D then (d + ofZ 360)%D
  else d.

Definition flat_HeadingNormalize (h : double) : double :=
  if (h <? ofZ 0)%D then (h + ofZ 360)%D
  else if (h >=? ofZ 360)%D then (h - ofZ 360)%D
  else h.

Definition flat_enlarge_pos (bb : boundingBoxTy.t) (lat lon : double)
  : boundingBoxTy.t :=
  let nw := boundingBoxTy.nw bb in
  let se := boundingBoxTy.se bb in
  let pick (keep : bool) (old new : double) : double :=
    if isnan old || negb keep then new else old in
  boundingBoxTy.mk
    (positionTy.set_lon
       (positionTy.set_lat nw
          (pick (lat <=? positionTy.lat nw)%D (positionTy.lat nw) lat))
       (pick (positionTy.lon nw <=? lon)%D (positionTy.lon nw) lon))
    (positionTy.set_lon
       (positionTy.set_lat se
          (pick (positionTy.lat se <=? lat)%D (positionTy.lat se) lat))
       (pick (lon <=? positionTy.lon se)%D (positionTy.lon se) lon)).

Definition flat_enlarge (bb : boundingBoxTy.t) (pos : positionTy.t)
  : boundingBoxTy.t :=
  flat_enlarge_pos bb (positionTy.lat pos) (positionTy.lon pos).

Definition flat_enlarge_m (bb : boundingBoxTy.t) (m : double)
  : boundingBoxTy.t :=
  let nw := boundingBoxTy.nw bb in
  let se := boundingBoxTy.se bb in
  boundingBoxTy.mk
    (positionTy.set_lon (positionTy.set_lat nw (positionTy.lat nw + m)%D)
                        (positionTy.lon nw - m)%D)
    (positionTy.set_lon (positionTy.set_lat se (positionTy.lat se - m)%D)
                        (positionTy.lon se + m)%D).

Definition flat_contains (bb : boundingBoxTy.t) (pos : positionTy.t) : bool :=
  (positionTy.lat (boundingBoxTy.se bb) <=? positionTy.lat pos)%D
  && (positionTy.lat pos <=? positionTy.lat (boundingBoxTy.nw bb))%D
  && (positionTy.lon (boundingBoxTy.nw bb) <=? positionTy.lon pos)%D
  && (positionTy.lon pos <=? positionTy.lon (boundingBoxTy.se bb))%D.

Definition flat_world : CoordCalc :=
  Build_CoordCalc flat_CoordAngle flat_CoordDistance flat_between
    flat_add_vector flat_DistLatLonSqr exact_sqrt flat_DistPointToLineSqr
    flat_DistResultToBaseLoc flat_HeadingDiff flat_HeadingNormalize
    flat_enlarge_m flat_enlarge_pos flat_enlarge flat_contains.

(** Local coordinates of the flat world: x is the easting, z the southing,
    y the altitude. *)
Definition flat_XPLM : XPLM :=
  Build_XPLM (fun lat lon alt => (lon, alt, (- lat)%D))
             (fun x y z => ((- z)%D, x, y)).

(** Settings of the examples. *)
Definition test_settings : Settings :=
  Build_Settings 5 (Num 30) (Num 10) (Num 2) (Num (8 # 10))
                 (Num (508 # 100000)) (Num (194384 # 100000)) 10 72.

(** ** Examples: airports of the flat world *)

(** Two taxi nodes 100 m apart, the second east of the first. *)
Definition apt_two_nodes : Apt.t :=
  snd (@Apt.AddTaxiNode flat_world
         (snd (@Apt.AddTaxiNode flat_world (Apt.ctor "TEST") (Num 0) (Num 0)))
         (Num 0) (Num 100)).

(** The two nodes joined by a taxiway. *)
Definition apt_one_taxiway : Apt.t :=
  snd (@Apt.AddTaxiEdge flat_world apt_two_nodes 0 1 NaN).

(** A runway of 2000 m from south to north, no displaced thresholds. *)
Definition apt_runway_2000 : Apt.t :=
  @Apt.AddRwyEnds flat_world (Apt.ctor "TEST")
    (Num 0) (Num 0) (Num 0) "36" (Num 2000) (Num 0) (Num 0) "18".

(** A second runway of 2000 m beside the first, 100 m east of it. *)
Definition apt_runways_2000 : Apt.t :=
  @Apt.AddRwyEnds flat_world apt_runway_2000
    (Num 0) (Num 100) (Num 0) "36R" (Num 2000) (Num 100) (Num 0) "18L".

(** Five points on a meridian, 2 m apart. *)
Definition five_points : list TaxiNode.t :=
  [TaxiNode.ctor (Num 0) (Num 0); TaxiNode.ctor (Num 2) (Num 0);
   TaxiNode.ctor (Num 4) (Num 0); TaxiNode.ctor (Num 6) (Num 0);
   TaxiNode.ctor (Num 8) (Num 0)].

(** A taxiway of 100 m from west to east, with local coordinates, in a
    bounding box 5 m around it. *)
Definition apt_taxi_east : Apt.t :=
  Apt.mk "TEST"
    (boundingBoxTy.mk
       (positionTy.ctor (Num 5) (Num (-5)) NaN NaN NaN NaN NaN
          positionTy.GND_UNKNOWN positionTy.UNIT_WORLD positionTy.UNIT_DEG 0)
       (positionTy.ctor (Num (-5)) (Num 105) NaN NaN NaN NaN NaN
          positionTy.GND_UNKNOWN positionTy.UNIT_WORLD positionTy.UNIT_DEG 0))
    (Num 0)
    [TaxiNode.mk (Num 0) (Num 0) (Num 0) (Num 0);
     TaxiNode.mk (Num 0) (Num 100) (Num 100) (Num 0)]
    []
    [TaxiEdge.ctor TaxiEdge.TAXI_WAY 0 1 (Num 90) (Num 100)].

(** A runway of 100 m from west to east, with local coordinates and
    altitudes, in a bounding box 5 m around it. *)
Definition apt_rwy_east : Apt.t :=
  Apt.mk "TEST" (Apt.bounds apt_taxi_east) (Num 0) []
    [RwyEndPt.mk (TaxiNode.mk (Num 0) (Num 0) (Num 0) (Num 0)) "09"
       (Num 0) (Num 0);
     RwyEndPt.mk (TaxiNode.mk (Num 0) (Num 100) (Num 100) (Num 0)) "27"
       (Num 0) (Num 0)]
    [TaxiEdge.ctor TaxiEdge.RUN_WAY 0 1 (Num 90) (Num 100)].

(** A position heading east, at [lat] m north of the taxiway's line and
    [lon] m east of its start. *)
Definition pos_east (lat lon : Q) : positionTy.t :=
  positionTy.ctor (Num lat) (Num lon) (Num 0) (Num 1000) (Num 90) (Num 0)
    (Num 0) positionTy.GND_ON positionTy.UNIT_WORLD positionTy.UNIT_DEG 0.

(** ** Examples: text functions *)

(** Is [c] one of the characters of [delims]? *)
Fixpoint is_delimiter (delims : string) (c : ascii) : bool :=
  match delims with
  | EmptyString => false
  | String d rest => Ascii.eqb c d || is_delimiter rest c
  end.

(** The fields of a line, empty fields skipped; [cur] is the field being
    read. *)
Fixpoint split_fields (delims : string) (cur : string) (s : string)
  : list string :=
  match s with
  | EmptyString =>
      match cur with EmptyString => [] | _ => [cur] end
  | String c rest =>
      if is_delimiter delims c then
        match cur with
        | EmptyString => split_fields delims EmptyString rest
        | _ => cur :: split_fields delims EmptyString rest
        end
      else split_fields delims (cur ++ String c EmptyString) rest
  end.

Definition test_tokenize (s delims : string) (bSkipEmpty : bool)
  : list string :=
  split_fields delims EmptyString s.

(** The value of a string of decimal digits, after the digits [acc]. *)
Fixpoint digits_value (acc : Z) (s : string) : option Z :=
  match s with
  | EmptyString => Some acc
  | String c rest =>
      let n := Z.of_nat (nat_of_ascii c) in
      if (48 <=? n)%Z && (n <=? 57)%Z
      then digits_value (10 * acc + (n - 48)) rest
      else None
  end.

(** Decimal integers with an optional minus sign; anything else throws. *)
Definition test_stoi (s : string) : option Z :=
  match s with
  | EmptyString => None
  | String "-" EmptyString => None
  | String "-" rest => option_map Z.opp (digits_value 0 rest)
  | _ => digits_value 0 s
  end.

(** The part of [s] before the first point and the part after it. *)
Fixpoint split_point (s : string) : string * option string :=
  match s with
  | EmptyString => (EmptyString, None)
  | String "." rest => (EmptyString, Some rest)
  | String c rest =>
      let '(int_part, frac) := split_point rest in (String c int_part, frac)
  end.

(** Decimal numbers [-123.45]; anything else throws. *)
Definition test_stod (s : string) : option double :=
  let '(negative, body) :=
    match s with
    | String "-" rest => (true, rest)
    | _ => (false, s)
    end in
  let '(int_part, frac) := split_point body in
  match int_part, digits_value 0 int_part with
  | EmptyString, _ | _, None => None
  | _, Some n =>
      let value :=
        match frac with
        | None => Some (inject_Z n)
        | Some f =>
            match digits_value 0 f with
            | Some m =>
                Some (inject_Z n
                      + inject_Z m / inject_Z (10 ^ Z.of_nat (String.length f)))
            | None => None
            end
        end in
      option_map (fun q => Num (if negative then - q else q)) value
  end.

Definition test_TextIO : TextIO :=
  Build_TextIO test_tokenize test_stoi test_stod.

(** ** Examples: an apt.dat file

    One airport with a runway of 2000 m and a taxi line of three nodes,
    followed by the header of an airport without runways. *)
Definition sample_apt_dat : list string :=
  ["1 100 0 0 TEST Flat Field";
   "100 45 1 0 0.25 0 2 0 36 0 0 0 0 0 0 0 0 18 2000 0 0 0 0 0 0 0";
   "120 taxi";
   "111 0 10 1";
   "111 0 60 1";
   "115 0 110";
   "99";
   "1 200 0 0 NEXT No Runways";
   "120 ignored"]%string.

(** A search box of 10 km around the origin. *)
Definition sample_box : boundingBoxTy.t :=
  boundingBoxTy.mk
    (positionTy.ctor (Num 10000) (Num (-10000)) NaN NaN NaN NaN NaN
       positionTy.GND_UNKNOWN positionTy.UNIT_WORLD positionTy.UNIT_DEG 0)
    (positionTy.ctor (Num (-10000)) (Num 10000) NaN NaN NaN NaN NaN
       positionTy.GND_UNKNOWN positionTy.UNIT_WORLD positionTy.UNIT_DEG 0).

Definition sample_read : mapAptTy * bool :=
  @ReadOneAptFile flat_world test_settings test_TextIO 100 []
    (mkStream sample_apt_dat true) sample_box.

(** ** Examples: runway selection

    Two parallel runways of the given heading; their first thresholds lie
    due north of the origin, at 10 km and at 200 km, at sea level.  For the
    heading 45 the far ends lie north-east of the thresholds, for the
    heading 0 north of them. *)
Definition rwy_end (name : string) (lat lon : Q) : RwyEndPt.t :=
  RwyEndPt.mk (TaxiNode.ctor (Num lat) (Num lon)) name (Num 0) NaN.

Definition apt_two_runways (h : Q) (east : Q) : Apt.t :=
  Apt.mk "RWYS" boundingBoxTy.ctor0 (Num 0) []
    [rwy_end "A1" 10000 0; rwy_end "B1" 11000 east;
     rwy_end "A2" 200000 0; rwy_end "B2" 201000 east]
    [TaxiEdge.ctor TaxiEdge.RUN_WAY 0 1 (Num h) (Num 1000);
     TaxiEdge.ctor TaxiEdge.RUN_WAY 2 3 (Num h) (Num 1000)].

(** An aircraft over the origin, 1000 m high, flying 50 m/s with the
    given heading; its model descends 600 ft/min on final. *)
Definition aircraft_heading (h : Q) : LTAircraft.t :=
  LTAircraft.mk (Num (-600)) (Num 150) (Num 2)
    (positionTy.ctor (Num 0) (Num 0) (Num 1000) (Num 0) (Num h) (Num 0)
       (Num 0) positionTy.GND_OFF positionTy.UNIT_WORLD positionTy.UNIT_DEG 0)
    (Num 50).

Definition map_runways_45 : mapAptTy :=
  [("RWYS"%string, apt_two_runways 45 1000)].
Definition map_runways_0 : mapAptTy :=
  [("RWYS"%string, apt_two_runways 0 0)].

(** ** Examples: terrain of the flat world

    The ground is at sea level everywhere; boxes overlap when their ranges
    of latitude and of longitude meet. *)
Definition flat_center (bb : boundingBoxTy.t) : positionTy.t :=
  positionTy.ctor
    ((positionTy.lat (boundingBoxTy.nw bb)
      + positionTy.lat (boundingBoxTy.se bb)) / ofZ 2)%D
    ((positionTy.lon (boundingBoxTy.nw bb)
      + positionTy.lon (boundingBoxTy.se bb)) / ofZ 2)%D
    NaN NaN NaN NaN NaN positionTy.GND_UNKNOWN positionTy.UNIT_WORLD
    positionTy.UNIT_DEG 0.

Definition flat_overlap (b o : boundingBoxTy.t) : bool :=
  (positionTy.lat (boundingBoxTy.se b)
   <=? positionTy.lat (boundingBoxTy.nw o))%D
  && (positionTy.lat (boundingBoxTy.se o)
      <=? positionTy.lat (boundingBoxTy.nw b))%D
  && (positionTy.lon (boundingBoxTy.nw b)
      <=? positionTy.lon (boundingBoxTy.se o))%D
  && (positionTy.lon (boundingBoxTy.nw o)
      <=? positionTy.lon (boundingBoxTy.se b))%D.

Definition flat_terrain : Terrain :=
  Build_Terrain (fun _ => Num 0) flat_center flat_overlap.

(** An airport far east of the search box of the examples. *)
Definition apt_far_east : Apt.t :=
  Apt.mk "FAR"
    (boundingBoxTy.mk
       (positionTy.ctor (Num 5) (Num 50000) NaN NaN NaN NaN NaN
          positionTy.GND_UNKNOWN positionTy.UNIT_WORLD positionTy.UNIT_DEG 0)
       (positionTy.ctor (Num (-5)) (Num 50100) NaN NaN NaN NaN NaN
          positionTy.GND_UNKNOWN positionTy.UNIT_WORLD positionTy.UNIT_DEG 0))
    NaN [] [] [].

(** The reader before an airport header, with an airport in progress that
    has an id and a taxi node, but no runway: it is not valid. *)
Definition reader_before_header : readerTy :=
  mkReader
    (snd (@Apt.AddTaxiNode flat_world (Apt.ctor "NORW") (Num 0) (Num 0)))
    EmptyString false
    (mkStream ["1 100 0 0 TEST Flat Field"%string] true) [].

(** * Properties *)

(** ** Comparisons of doubles *)

Lemma dle_Num (p q : Q) : (Num p <=? Num q)%D = true <-> p <= q.
Proof. simpl. apply Qle_bool_iff. Qed.

Lemma dlt_Num (p q : Q) : (Num p <? Num q)%D = true <-> p < q.
Proof.
  simpl. rewrite negb_true_iff. split; intros Hlt.
  - apply Qnot_le_lt. intros Hle. apply Qle_bool_iff in Hle. congruence.
  - destruct (Qle_bool q p) eqn:E; [|reflexivity].
    apply Qle_bool_iff in E. exfalso. exact (Qlt_not_le _ _ Hlt E).
Qed.

Lemma dle_Num_false (p q : Q) : (Num p <=? Num q)%D = false <-> q < p.
Proof.
  rewrite <- dlt_Num. simpl. rewrite negb_true_iff. reflexivity.
Qed.

Lemma dlt_Num_false (p q : Q) : (Num p <? Num q)%D = false <-> q <= p.
Proof.
  rewrite <- dle_Num. simpl. rewrite negb_false_iff. reflexivity.
Qed.

Lemma dle_is_Num (u v : double) :
  (u <=? v)%D = true -> exists p q, u = Num p /\ v = Num q /\ p <= q.
Proof.
  destruct u as [|p], v as [|q]; simpl; try discriminate.
  intros Hle. exists p, q. repeat split. now apply Qle_bool_iff.
Qed.

Lemma dlt_is_Num (u v : double) :
  (u <? v)%D = true -> exists p q, u = Num p /\ v = Num q /\ p < q.
Proof.
  destruct u as [|p], v as [|q]; try discriminate.
  intros Hlt. exists p, q. repeat split. now apply dlt_Num.
Qed.

(** ** Edge construction *)

Lemma ctor_type t a b h d : TaxiEdge.type (TaxiEdge.ctor t a b h d) = t.
Proof. unfold TaxiEdge.ctor. destruct (h >=? ofZ 180)%D; reflexivity. Qed.

Lemma ctor_dist t a b h d : TaxiEdge.dist_m (TaxiEdge.ctor t a b h d) = d.
Proof. unfold TaxiEdge.ctor. destruct (h >=? ofZ 180)%D; reflexivity. Qed.

Lemma ctor_ends t a b h d :
  (TaxiEdge.a (TaxiEdge.ctor t a b h d) = a
   /\ TaxiEdge.b (TaxiEdge.ctor t a b h d) = b)
  \/ (TaxiEdge.a (TaxiEdge.ctor t a b h d) = b
      /\ TaxiEdge.b (TaxiEdge.ctor t a b h d) = a).
Proof. unfold TaxiEdge.ctor. destruct (h >=? ofZ 180)%D; simpl; auto. Qed.

(** C6, as stated, fails: the constructor folds once, so a raw heading of
    400 degrees is stored as 220 degrees, outside [0,180). *)
Lemma ctor_heading_400_stored_as_220 :
  let e := TaxiEdge.ctor TaxiEdge.TAXI_WAY 0 1 (ofZ 400) NaN in
  (TaxiEdge.angle e =d= ofZ 220)%D
  /\ (TaxiEdge.angle e <? ofZ 180)%D = false
  /\ TaxiEdge.a e = 1%Z /\ TaxiEdge.b e = 0%Z.
Proof. vm_compute. repeat split. Qed.

(** C6 (amended): for a raw heading [0 <= h < 360] the stored heading lies in
    [0,180); the fold subtracts 180 and swaps the two endpoints exactly when
    [h >= 180]; and for [0 <= h < 180] the edges built with [h] and with
    [h + 180] store the same heading with the endpoints swapped. *)
Theorem ctor_normalizes_heading (t : TaxiEdge.nodeTy) (a b : Z) (h : Q)
    (d : double) (Hlo : 0 <= h) (Hhi : h < 360) :
  let e := TaxiEdge.ctor t a b (Num h) d in
  (exists s, TaxiEdge.angle e = Num s /\ 0 <= s /\ s < 180)
  /\ (180 <= h ->
      TaxiEdge.a e = b /\ TaxiEdge.b e = a
      /\ (TaxiEdge.angle e =d= Num (h - 180))%D)
  /\ (h < 180 ->
      TaxiEdge.a e = a /\ TaxiEdge.b e = b /\ TaxiEdge.angle e = Num h)
  /\ (h < 180 ->
      let e' := TaxiEdge.ctor t a b (Num h + ofZ 180)%D d in
      (TaxiEdge.angle e' =d= TaxiEdge.angle e)%D
      /\ TaxiEdge.a e' = TaxiEdge.b e /\ TaxiEdge.b e' = TaxiEdge.a e).
Proof.
  unfold TaxiEdge.ctor, dge, ofZ, inject_Z. simpl dsub. simpl dadd.
  assert (Hfold : forall P : bool -> Prop,
             h < 180 -> P true -> P (Qle_bool 180 (h + 180))).
  { intros P Hh HP. assert (Hle : 180 <= h + 180) by lra.
    apply Qle_bool_iff in Hle. now rewrite Hle. }
  destruct (Num 180 <=? Num h)%D eqn:E.
  - apply dle_Num in E. simpl. repeat split; try (intros; lra);
      try reflexivity.
    exists (h - 180). repeat split; lra.
  - apply dle_Num_false in E. simpl.
    split; [exists h; repeat split; lra|].
    split; [intros; lra|].
    split; [intros; repeat split|].
    intros Hh. apply Hfold; [assumption|]. simpl. repeat split. ring.
Qed.

Lemma ctor_normalizes_heading_270 :
  TaxiEdge.a (TaxiEdge.ctor TaxiEdge.TAXI_WAY 3 4 (Num 270) NaN) = 4%Z
  /\ TaxiEdge.b (TaxiEdge.ctor TaxiEdge.TAXI_WAY 3 4 (Num 270) NaN) = 3%Z
  /\ (TaxiEdge.angle (TaxiEdge.ctor TaxiEdge.TAXI_WAY 3 4 (Num 270) NaN)
      =d= Num (270 - 180))%D.
Proof.
  assert (Hlo : 0 <= 270) by (vm_compute; discriminate).
  assert (Hhi : 270 < 360) by reflexivity.
  assert (Hge : 180 <= 270) by (vm_compute; discriminate).
  exact (proj1 (proj2 (ctor_normalizes_heading TaxiEdge.TAXI_WAY 3 4 270 NaN
                         Hlo Hhi)) Hge).
Defined.

(** ** Indexing *)

Lemma at_Some {A : Type} (v : list A) (i : Z) (x : A) :
  at_ v i = Some x -> (0 <= i < size v)%Z.
Proof.
  unfold at_, size. destruct (i <? 0)%Z eqn:E; [discriminate|].
  intros Hn. apply Z.ltb_ge in E.
  assert (Hlt : (Z.to_nat i < List.length v)%nat).
  { apply nth_error_Some. congruence. }
  lia.
Qed.

Lemma at_in_range {A : Type} (v : list A) (i : Z) :
  (0 <= i < size v)%Z -> exists x, at_ v i = Some x.
Proof.
  unfold at_, size. intros [Hlo Hhi].
  destruct (i <? 0)%Z eqn:E; [apply Z.ltb_lt in E; lia|].
  destruct (nth_error v (Z.to_nat i)) as [x|] eqn:Hn; [now exists x|].
  apply nth_error_None in Hn. lia.
Qed.

Lemma at_app_l {A : Type} (v w : list A) (i : Z) (x : A) :
  at_ v i = Some x -> at_ (v ++ w) i = Some x.
Proof.
  intros Hat. pose proof (at_Some _ _ _ Hat) as Hr. unfold at_, size in *.
  destruct (i <? 0)%Z; [discriminate|].
  rewrite nth_error_app1 by lia. exact Hat.
Qed.

Lemma size_app {A : Type} (v w : list A) :
  size (v ++ w) = (size v + size w)%Z.
Proof. unfold size. rewrite length_app. lia. Qed.

Lemma size_t_sub_small (n k : Z) :
  (0 <= k <= n)%Z -> (0 <= size_t_sub n k <= n - k)%Z.
Proof.
  intros Hk. unfold size_t_sub.
  pose proof (Z.mod_pos_bound (n - k) (2 ^ 64) ltac:(lia)) as Hb.
  split; [lia|]. apply Z.mod_le; lia.
Qed.

Lemma size_t_sub_exact (n k : Z) :
  (0 <= k <= n)%Z -> (n - k < 2 ^ 64)%Z -> size_t_sub n k = (n - k)%Z.
Proof. intros Hk Hn. unfold size_t_sub. apply Z.mod_small. lia. Qed.

(** ** [AddTaxiEdge] *)

Lemma AddTaxiEdge_rejects `{CoordCalc} (apt : Apt.t) (n1 n2 : Z)
    (_dist : double) :
  (n1 < 0 \/ size (Apt.vecTaxiNodes apt) <= n1
   \/ n2 < 0 \/ size (Apt.vecTaxiNodes apt) <= n2
   \/ (exists a, at_ (Apt.vecTaxiNodes apt) n1 = Some a
                 /\ TaxiNode.HasGeoCoords a = false)
   \/ (exists b, at_ (Apt.vecTaxiNodes apt) n2 = Some b
                 /\ TaxiNode.HasGeoCoords b = false))%Z ->
  Apt.AddTaxiEdge apt n1 n2 _dist = (false, apt).
Proof.
  intros Hbad. unfold Apt.AddTaxiEdge.
  destruct ((n1 >=? size (Apt.vecTaxiNodes apt))%Z
            || (n2 >=? size (Apt.vecTaxiNodes apt))%Z) eqn:Erange;
    [reflexivity|].
  apply orb_false_iff in Erange. destruct Erange as [E1 E2].
  rewrite Z.geb_leb in E1, E2. apply Z.leb_gt in E1, E2.
  destruct (at_ (Apt.vecTaxiNodes apt) n1) as [a|] eqn:Ha;
    [|reflexivity].
  destruct (at_ (Apt.vecTaxiNodes apt) n2) as [b|] eqn:Hb;
    [|reflexivity].
  apply at_Some in Ha as Hra. apply at_Some in Hb as Hrb.
  destruct Hbad as [Hb1|[Hb1|[Hb1|[Hb1|[(a' & Ha' & Hg)|(b' & Hb' & Hg)]]]]];
    try lia.
  - assert (a' = a) by congruence. subst a'. now rewrite Hg.
  - assert (b' = b) by congruence. subst b'. rewrite Hg.
    now rewrite orb_true_r.
Qed.

Lemma AddTaxiEdge_appends `{CoordCalc} (apt : Apt.t) (n1 n2 : Z)
    (_dist : double) (a b : TaxiNode.t) :
  at_ (Apt.vecTaxiNodes apt) n1 = Some a ->
  at_ (Apt.vecTaxiNodes apt) n2 = Some b ->
  TaxiNode.HasGeoCoords a = true ->
  TaxiNode.HasGeoCoords b = true ->
  Apt.AddTaxiEdge apt n1 n2 _dist
  = (true,
     Apt.mk (Apt.id apt) (Apt.bounds apt) (Apt.alt_m apt)
            (Apt.vecTaxiNodes apt) (Apt.vecRwyEndPts apt)
            (Apt.vecTaxiEdges apt ++
             [TaxiEdge.ctor TaxiEdge.TAXI_WAY n1 n2
                (CoordAngle (TaxiNode.lat a) (TaxiNode.lon a)
                            (TaxiNode.lat b) (TaxiNode.lon b))
                (if isnan _dist
                 then sqrt (DistLatLonSqr (TaxiNode.lat a) (TaxiNode.lon a)
                                          (TaxiNode.lat b) (TaxiNode.lon b))
                 else _dist)])).
Proof.
  intros Ha Hb Hga Hgb.
  apply at_Some in Ha as Hra. apply at_Some in Hb as Hrb.
  unfold Apt.AddTaxiEdge.
  assert (E1 : (n1 >=? size (Apt.vecTaxiNodes apt))%Z = false)
    by (rewrite Z.geb_leb; apply Z.leb_gt; lia).
  assert (E2 : (n2 >=? size (Apt.vecTaxiNodes apt))%Z = false)
    by (rewrite Z.geb_leb; apply Z.leb_gt; lia).
  rewrite E1, E2, Ha, Hb, Hga, Hgb. simpl. reflexivity.
Qed.

(** C7: [AddTaxiEdge] returns false and leaves the airport as it is when an
    index is out of range of the taxi nodes or a node lacks geographic
    coordinates; otherwise it returns true and appends exactly one taxiway
    edge, with the heading computed and the distance computed when none was
    supplied.  The function is total: it ends without an error in both
    cases. *)
Theorem AddTaxiEdge_checks `{CoordCalc} (apt : Apt.t) (n1 n2 : Z)
    (_dist : double) :
  ((n1 < 0 \/ size (Apt.vecTaxiNodes apt) <= n1
    \/ n2 < 0 \/ size (Apt.vecTaxiNodes apt) <= n2
    \/ (exists a, at_ (Apt.vecTaxiNodes apt) n1 = Some a
                  /\ TaxiNode.HasGeoCoords a = false)
    \/ (exists b, at_ (Apt.vecTaxiNodes apt) n2 = Some b
                  /\ TaxiNode.HasGeoCoords b = false))%Z ->
   Apt.AddTaxiEdge apt n1 n2 _dist = (false, apt))
  /\ (forall a b,
        at_ (Apt.vecTaxiNodes apt) n1 = Some a ->
        at_ (Apt.vecTaxiNodes apt) n2 = Some b ->
        TaxiNode.HasGeoCoords a = true ->
        TaxiNode.HasGeoCoords b = true ->
        exists e,
          Apt.AddTaxiEdge apt n1 n2 _dist
          = (true,
             Apt.mk (Apt.id apt) (Apt.bounds apt) (Apt.alt_m apt)
                    (Apt.vecTaxiNodes apt) (Apt.vecRwyEndPts apt)
                    (Apt.vecTaxiEdges apt ++ [e]))
          /\ e = TaxiEdge.ctor TaxiEdge.TAXI_WAY n1 n2
                   (CoordAngle (TaxiNode.lat a) (TaxiNode.lon a)
                               (TaxiNode.lat b) (TaxiNode.lon b))
                   (if isnan _dist
                    then sqrt (DistLatLonSqr (TaxiNode.lat a) (TaxiNode.lon a)
                                             (TaxiNode.lat b) (TaxiNode.lon b))
                    else _dist)
          /\ TaxiEdge.type e = TaxiEdge.TAXI_WAY).
Proof.
  split.
  - apply AddTaxiEdge_rejects.
  - intros a b Ha Hb Hga Hgb. eexists.
    split; [exact (AddTaxiEdge_appends apt n1 n2 _dist a b Ha Hb Hga Hgb)|].
    split; [reflexivity|apply ctor_type].
Qed.

Lemma AddTaxiEdge_checks_example :
  @Apt.AddTaxiEdge flat_world apt_two_nodes 0 7 NaN = (false, apt_two_nodes)
  /\ fst (@Apt.AddTaxiEdge flat_world apt_two_nodes 0 1 NaN) = true
  /\ List.length
       (Apt.vecTaxiEdges
          (snd (@Apt.AddTaxiEdge flat_world apt_two_nodes 0 1 NaN)))
     = 1%nat.
Proof.
  destruct (@AddTaxiEdge_checks flat_world apt_two_nodes 0 7 NaN)
    as [Hbad _].
  destruct (@AddTaxiEdge_checks flat_world apt_two_nodes 0 1 NaN)
    as [_ Hok].
  split.
  - apply Hbad. right. right. right. left. vm_compute. discriminate.
  - destruct (Hok (TaxiNode.ctor (Num 0) (Num 0))
                  (TaxiNode.ctor (Num 0) (Num 100))
                  eq_refl eq_refl eq_refl eq_refl) as (e & -> & _ & _).
    split; reflexivity.
Defined.

(** ** Edges of a built airport stay within their vectors *)

Lemma edge_in_range_grow (apt apt' : Apt.t) (e : TaxiEdge.t) :
  (size (Apt.vecTaxiNodes apt) <= size (Apt.vecTaxiNodes apt'))%Z ->
  (size (Apt.vecRwyEndPts apt) <= size (Apt.vecRwyEndPts apt'))%Z ->
  edge_in_range apt e -> edge_in_range apt' e.
Proof.
  unfold edge_in_range. intros Hn Hr. destruct (TaxiEdge.type e); lia.
Qed.

Lemma edge_in_range_lookup (apt : Apt.t) (e : TaxiEdge.t) :
  edge_in_range apt e ->
  (exists na, Apt.GetA e apt = Some na)
  /\ (exists nb, Apt.GetB e apt = Some nb).
Proof.
  unfold edge_in_range, Apt.GetA, Apt.GetB.
  destruct (TaxiEdge.type e); [tauto| |]; intros [Ha Hb].
  - destruct (at_in_range (Apt.vecRwyEndPts apt) _ Ha) as [ra Hra].
    destruct (at_in_range (Apt.vecRwyEndPts apt) _ Hb) as [rb Hrb].
    rewrite Hra, Hrb. simpl. eauto.
  - apply at_in_range in Ha, Hb. auto.
Qed.

Lemma size_nonneg {A : Type} (v : list A) : (0 <= size v)%Z.
Proof. unfold size. lia. Qed.

(** What [AddRwyEnds] appends: two endpoints and one runway edge between
    their indexes. *)
Lemma AddRwyEnds_shape `{CoordCalc} (apt : Apt.t)
    (lat1 lon1 displaced1 : double) (id1 : string)
    (lat2 lon2 displaced2 : double) (id2 : string) :
  exists r1 r2 h d,
    Apt.vecRwyEndPts (Apt.AddRwyEnds apt lat1 lon1 displaced1 id1
                                     lat2 lon2 displaced2 id2)
    = Apt.vecRwyEndPts apt ++ [r1; r2]
    /\ Apt.vecTaxiEdges (Apt.AddRwyEnds apt lat1 lon1 displaced1 id1
                                        lat2 lon2 displaced2 id2)
       = Apt.vecTaxiEdges apt ++
         [TaxiEdge.ctor TaxiEdge.RUN_WAY
            (size_t_sub (size (Apt.vecRwyEndPts apt) + 2) 2)
            (size_t_sub (size (Apt.vecRwyEndPts apt) + 2) 1) h d]
    /\ Apt.vecTaxiNodes (Apt.AddRwyEnds apt lat1 lon1 displaced1 id1
                                        lat2 lon2 displaced2 id2)
       = Apt.vecTaxiNodes apt
    /\ Apt.id (Apt.AddRwyEnds apt lat1 lon1 displaced1 id1
                              lat2 lon2 displaced2 id2)
       = Apt.id apt.
Proof.
  unfold Apt.AddRwyEnds. cbn [Apt.vecRwyEndPts Apt.vecTaxiEdges
    Apt.vecTaxiNodes Apt.id Apt.set_bounds Apt.set_vecRwyEndPts
    Apt.set_vecTaxiEdges Apt.bounds Apt.alt_m].
  do 4 eexists. rewrite <- app_assoc. cbn [app].
  split; [reflexivity|]. split; [|split; reflexivity].
  rewrite size_app. change (size [_; _]) with 2%Z. reflexivity.
Qed.

Lemma built_edges_in_range `{CoordCalc} (apt : Apt.t) :
  built apt -> Forall (edge_in_range apt) (Apt.vecTaxiEdges apt).
Proof.
  induction 1 as [_id|apt lat lon Hb IH|apt n1 n2 d Hb IH
                  |apt lat1 lon1 d1 id1 lat2 lon2 d2 id2 Hb IH].
  - constructor.
  - simpl. eapply Forall_impl; [|exact IH]. intros e.
    apply edge_in_range_grow; simpl; [rewrite size_app|]; unfold size;
      simpl; lia.
  - unfold Apt.AddTaxiEdge.
    destruct ((n1 >=? size (Apt.vecTaxiNodes apt))%Z
              || (n2 >=? size (Apt.vecTaxiNodes apt))%Z); [exact IH|].
    destruct (at_ (Apt.vecTaxiNodes apt) n1) as [a|] eqn:Ha; [|exact IH].
    destruct (at_ (Apt.vecTaxiNodes apt) n2) as [b|] eqn:Hb'; [|exact IH].
    destruct (negb (TaxiNode.HasGeoCoords a)
              || negb (TaxiNode.HasGeoCoords b)); [exact IH|].
    simpl. apply Forall_app. split.
    + eapply Forall_impl; [|exact IH]. intros e.
      apply edge_in_range_grow; simpl; lia.
    + constructor; [|constructor].
      apply at_Some in Ha, Hb'. unfold edge_in_range.
      rewrite ctor_type. simpl.
      destruct (ctor_ends TaxiEdge.TAXI_WAY n1 n2
                  (CoordAngle (TaxiNode.lat a) (TaxiNode.lon a)
                              (TaxiNode.lat b) (TaxiNode.lon b))
                  (if isnan d
                   then DistLatLon (TaxiNode.lat a) (TaxiNode.lon a)
                                   (TaxiNode.lat b) (TaxiNode.lon b)
                   else d)) as [[-> ->]|[-> ->]]; tauto.
  - destruct (AddRwyEnds_shape apt lat1 lon1 d1 id1 lat2 lon2 d2 id2)
      as (r1 & r2 & h & d & Hr & He & Hn & _).
    rewrite He. apply Forall_app. split.
    + eapply Forall_impl; [|exact IH]. intros e.
      apply edge_in_range_grow; [rewrite Hn; lia|].
      rewrite Hr, size_app. unfold size. simpl. lia.
    + constructor; [|constructor].
      unfold edge_in_range. rewrite ctor_type, Hr, size_app.
      change (size [r1; r2]) with 2%Z.
      pose proof (size_nonneg (Apt.vecRwyEndPts apt)) as Hs.
      pose proof (size_t_sub_small (size (Apt.vecRwyEndPts apt) + 2) 2
                    ltac:(lia)) as H2.
      pose proof (size_t_sub_small (size (Apt.vecRwyEndPts apt) + 2) 1
                    ltac:(lia)) as H1.
      match goal with
      | |- context [TaxiEdge.ctor ?t ?a ?b ?h ?d] =>
          destruct (ctor_ends t a b h d) as [[-> ->]|[-> ->]]
      end; lia.
Qed.

(** C10: in every airport built through [AddTaxiNode], [AddTaxiEdge] and
    [AddRwyEnds], each edge is a runway edge whose two indexes are in range
    of the runway endpoints or a taxiway edge whose two indexes are in range
    of the taxi nodes, so [GetA] and [GetB] find their node. *)
Theorem built_edges_lookup_in_bounds `{CoordCalc} (apt : Apt.t)
    (e : TaxiEdge.t) :
  built apt -> In e (Apt.vecTaxiEdges apt) ->
  edge_in_range apt e
  /\ (exists na, Apt.GetA e apt = Some na)
  /\ (exists nb, Apt.GetB e apt = Some nb).
Proof.
  intros Hb Hin. pose proof (built_edges_in_range apt Hb) as Hall.
  rewrite Forall_forall in Hall. specialize (Hall e Hin).
  split; [exact Hall|]. now apply edge_in_range_lookup.
Qed.

(** ** [std::lower_bound] finds the partition point *)

Lemma lower_bound_loop_partition {A : Type} (comp : A -> A -> bool)
    (val : A) (l1 l2 : list A) :
  Forall (fun m => comp m val = true) l1 ->
  Forall (fun m => comp m val = false) l2 ->
  forall fuel first len : nat,
    (len <= fuel)%nat ->
    (first <= List.length l1 <= first + len)%nat ->
    (first + len <= List.length (l1 ++ l2))%nat ->
    lower_bound_loop comp (l1 ++ l2) val fuel first len = List.length l1.
Proof.
  intros Hl1 Hl2. rewrite Forall_forall in Hl1, Hl2.
  induction fuel as [|fuel IH]; intros first len Hfuel Hk Hlen.
  - simpl. lia.
  - simpl. destruct (len =? 0)%nat eqn:E0.
    + apply Nat.eqb_eq in E0. lia.
    + apply Nat.eqb_neq in E0.
      pose proof (Nat.div2_decr len (len - 1) ltac:(lia)) as Hhalf.
      set (half := Nat.div2 len) in *.
      destruct (nth_error (l1 ++ l2) (first + half)) as [m|] eqn:Hm.
      * destruct (comp m val) eqn:Hc.
        -- assert (Hlt : (first + half < List.length l1)%nat).
           { destruct (Nat.lt_ge_cases (first + half) (List.length l1))
               as [Hlt|Hge]; [exact Hlt|].
             rewrite nth_error_app2 in Hm by exact Hge.
             apply nth_error_In, Hl2 in Hm. congruence. }
           apply IH; lia.
        -- assert (Hge : (List.length l1 <= first + half)%nat).
           { destruct (Nat.lt_ge_cases (first + half) (List.length l1))
               as [Hlt|Hge]; [|exact Hge].
             rewrite nth_error_app1 in Hm by exact Hlt.
             apply nth_error_In, Hl1 in Hm. congruence. }
           apply IH; lia.
      * apply nth_error_None in Hm. lia.
Qed.

Lemma lower_bound_partition {A : Type} (comp : A -> A -> bool) (val : A)
    (l1 l2 : list A) :
  Forall (fun m => comp m val = true) l1 ->
  Forall (fun m => comp m val = false) l2 ->
  lower_bound comp (l1 ++ l2) val = List.length l1.
Proof.
  intros Hl1 Hl2. unfold lower_bound.
  apply lower_bound_loop_partition; try assumption;
    rewrite ?length_app; lia.
Qed.

(** ** The edges found in one heading range *)

(** A sorted edge list splits at [lo]: the headings below [lo], then the
    others. *)
Lemma sorted_split (es : list TaxiEdge.t) (lo : Q) :
  sorted_by_heading es ->
  exists l1 l2,
    es = l1 ++ l2
    /\ Forall (fun m => TaxiEdge.CompHeadLess m (TaxiEdge.ctor_cmp (Num lo))
                        = true) l1
    /\ Forall (fun m => TaxiEdge.CompHeadLess m (TaxiEdge.ctor_cmp (Num lo))
                        = false) l2
    /\ Forall (fun m => (Num lo <=? TaxiEdge.angle m)%D = true) l2
    /\ sorted_by_heading l2.
Proof.
  intros [Hs Hn]. induction es as [|e es IH].
  - exists [], []. repeat split; constructor.
  - apply StronglySorted_inv in Hs. destruct Hs as [Hs He].
    apply Forall_cons_iff in Hn. destruct Hn as [Hen Hn].
    destruct (TaxiEdge.CompHeadLess e (TaxiEdge.ctor_cmp (Num lo))) eqn:Ec.
    + destruct (IH Hs Hn) as (l1 & l2 & -> & H1 & H2 & H3 & H4).
      exists (e :: l1), l2. repeat split; try assumption.
      * now constructor.
      * apply H4.
      * apply H4.
    + exists [], (e :: es).
      unfold TaxiEdge.CompHeadLess in Ec. simpl in Ec.
      destruct (TaxiEdge.angle e) as [|q] eqn:Eq; [discriminate|].
      apply dlt_Num_false in Ec.
      assert (Hall : Forall (fun m => exists p, TaxiEdge.angle m = Num p
                                                /\ lo <= p) (e :: es)).
      { constructor; [exists q; split; [exact Eq|exact Ec]|].
        eapply Forall_impl; [|exact He]. intros m Hm.
        apply dle_is_Num in Hm. destruct Hm as (p & p' & Hp & Hp' & Hle).
        injection Hp as <-. exists p'. split; [exact Hp'|lra]. }
      repeat split.
      * constructor.
      * eapply Forall_impl; [|exact Hall]. intros m (p & Hp & Hle).
        unfold TaxiEdge.CompHeadLess. simpl. rewrite Hp.
        now apply dlt_Num_false.
      * eapply Forall_impl; [|exact Hall]. intros m (p & Hp & Hle).
        rewrite Hp. now apply dle_Num.
      * constructor; [assumption|rewrite Eq; assumption].
      * constructor; [rewrite Eq; reflexivity|assumption].
Qed.

Lemma matching_app (l1 l2 : list TaxiEdge.t) (pos : nat) (lo hi : double)
    (r : TaxiEdge.nodeTy) :
  matching (l1 ++ l2) pos lo hi r
  = matching l1 pos lo hi r ++ matching l2 (pos + List.length l1) lo hi r.
Proof.
  revert pos. induction l1 as [|e l1 IH]; intros pos; simpl.
  - now rewrite Nat.add_0_r.
  - rewrite IH, <- app_assoc.
    now replace (S pos + List.length l1)%nat
      with (pos + S (List.length l1))%nat by lia.
Qed.

Lemma matching_none (es : list TaxiEdge.t) (pos : nat) (lo hi : double)
    (r : TaxiEdge.nodeTy) :
  Forall (fun e => in_window lo hi e = false) es ->
  matching es pos lo hi r = [].
Proof.
  intros Hall. revert pos. induction Hall as [|e es He _ IH]; intros pos.
  - reflexivity.
  - simpl. rewrite He. simpl. apply IH.
Qed.

(** The scan from the lower bound on collects the matching positions. *)
Lemma scan_edges_matching (es : list TaxiEdge.t) (lo hi : double)
    (r : TaxiEdge.nodeTy) :
  sorted_by_heading es ->
  Forall (fun m => (lo <=? TaxiEdge.angle m)%D = true) es ->
  forall (pos : nat) (lst : list nat),
    Apt.scan_edges es pos hi r lst = lst ++ matching es pos lo hi r.
Proof.
  intros [Hs Hn] Hlo. induction es as [|e es IH]; intros pos lst.
  - simpl. now rewrite app_nil_r.
  - apply StronglySorted_inv in Hs. destruct Hs as [Hs He].
    apply Forall_cons_iff in Hn. destruct Hn as [Hen Hn].
    apply Forall_cons_iff in Hlo. destruct Hlo as [Hlo0 Hlo].
    simpl. unfold in_window at 1. rewrite Hlo0. simpl.
    destruct (TaxiEdge.angle e <=? hi)%D eqn:Ehi.
    + rewrite (IH Hs Hn Hlo). simpl.
      destruct (Apt.type_ok r e); simpl; [|reflexivity].
      now rewrite <- app_assoc.
    + simpl. rewrite matching_none; [now rewrite app_nil_r|].
      eapply Forall_impl; [|exact He]. intros m Hm.
      unfold in_window. apply andb_false_iff. right.
      apply dle_is_Num in Hm. destruct Hm as (p & p' & Hp & Hp' & Hle).
      rewrite Hp in Ehi. rewrite Hp'.
      destruct hi as [|q]; [reflexivity|].
      apply dle_Num_false in Ehi. apply dle_Num_false. lra.
Qed.

Lemma search_range_matching (apt : Apt.t) (r : TaxiEdge.nodeTy)
    (lst : list nat) (lo : Q) (hi : double) :
  sorted_by_heading (Apt.vecTaxiEdges apt) ->
  Apt.search_range apt r lst (Num lo, hi)
  = lst ++ matching (Apt.vecTaxiEdges apt) 0 (Num lo) hi r.
Proof.
  intros Hs. unfold Apt.search_range. simpl fst. simpl snd.
  destruct (sorted_split (Apt.vecTaxiEdges apt) lo Hs)
    as (l1 & l2 & -> & H1 & H2 & H3 & H4).
  rewrite (lower_bound_partition _ _ l1 l2 H1 H2).
  rewrite skipn_app, skipn_all, Nat.sub_diag. simpl.
  rewrite (scan_edges_matching l2 (Num lo) hi r H4 H3).
  rewrite matching_app. rewrite (matching_none l1).
  - reflexivity.
  - eapply Forall_impl; [|exact H1]. intros m Hm.
    unfold TaxiEdge.CompHeadLess in Hm. simpl in Hm.
    apply dlt_is_Num in Hm. destruct Hm as (p & q & Hp & Hq & Hlt).
    injection Hq as <-. unfold in_window. rewrite Hp.
    apply andb_false_iff. left. apply dle_Num_false. exact Hlt.
Qed.

Lemma matching_In (es : list TaxiEdge.t) (lo hi : double)
    (r : TaxiEdge.nodeTy) (pos i : nat) :
  In i (matching es pos lo hi r) <->
  (pos <= i)%nat
  /\ exists e, nth_error es (i - pos) = Some e
               /\ in_window lo hi e = true /\ Apt.type_ok r e = true.
Proof.
  revert pos. induction es as [|e es IH]; intros pos; simpl.
  - split; [tauto|]. intros (_ & e & He & _).
    destruct (i - pos)%nat; discriminate.
  - rewrite in_app_iff, IH. split.
    + intros [Hin|(Hle & e' & Hn & Hw & Ht)].
      * destruct (in_window lo hi e && Apt.type_ok r e) eqn:E;
          [|contradiction].
        destruct Hin as [<-|[]]. apply andb_true_iff in E.
        split; [lia|]. exists e. rewrite Nat.sub_diag. tauto.
      * split; [lia|]. exists e'.
        replace (i - pos)%nat with (S (i - S pos)) by lia. tauto.
    + intros (Hle & e' & Hn & Hw & Ht).
      destruct (Nat.eq_dec i pos) as [->|Hne].
      * left. rewrite Nat.sub_diag in Hn. injection Hn as ->.
        rewrite Hw, Ht. now left.
      * right. split; [lia|]. exists e'.
        replace (i - pos)%nat with (S (i - S pos)) in Hn by lia. tauto.
Qed.

Lemma matching_NoDup (es : list TaxiEdge.t) (lo hi : double)
    (r : TaxiEdge.nodeTy) (pos : nat) :
  NoDup (matching es pos lo hi r).
Proof.
  revert pos. induction es as [|e es IH]; intros pos; simpl.
  - constructor.
  - destruct (in_window lo hi e && Apt.type_ok r e); simpl; [|apply IH].
    constructor; [|apply IH]. rewrite matching_In. lia.
Qed.

(** Two ranges that do not meet have no edge in common. *)
Lemma matching_disjoint (es : list TaxiEdge.t) (lo1 hi1 lo2 hi2 : Q)
    (r : TaxiEdge.nodeTy) :
  hi1 < lo2 ->
  NoDup (matching es 0 (Num lo1) (Num hi1) r
         ++ matching es 0 (Num lo2) (Num hi2) r).
Proof.
  intros Hlt. apply NoDup_app; try apply matching_NoDup.
  intros i Hi1 Hi2. apply matching_In in Hi1, Hi2.
  destruct Hi1 as (_ & e & He & Hw1 & _).
  destruct Hi2 as (_ & e' & He' & Hw2 & _).
  assert (e' = e) by congruence. subst e'.
  unfold in_window in Hw1, Hw2.
  apply andb_true_iff in Hw1, Hw2. destruct Hw1 as [_ Hw1], Hw2 as [Hw2 _].
  destruct (TaxiEdge.angle e) as [|q]; [discriminate|].
  apply dle_Num in Hw1, Hw2. lra.
Qed.

(** The ranges computed for a numeric search heading and tolerance. *)
Lemma heading_ranges_Num (h tol : Q) :
  Apt.heading_ranges (Num h) (Num tol)
  = let h' := fold_heading h in
    if Qle_bool 0 (h' - tol) && negb (Qle_bool 180 (h' + tol))
    then [(Num (h' - tol), Num (h' + tol))]
    else [(Num 0, Num (lower_range_end h' tol));
          (Num (upper_range_begin h' tol), Num 180)].
Proof.
  unfold Apt.heading_ranges, fold_heading, lower_range_end,
    upper_range_begin, dge, ofZ, inject_Z.
  simpl (Num 180 <=? Num h)%D.
  destruct (Qle_bool 180 h); simpl;
    match goal with
    | |- context [Qle_bool 0 ?u] => destruct (Qle_bool 0 u)
    end; simpl;
    match goal with
    | |- context [Qle_bool 180 ?u] => destruct (Qle_bool 180 u)
    | |- _ => idtac
    end; reflexivity.
Qed.

(** The search over all ranges, for a sorted edge sequence. *)
Lemma FindEdgesForHeading_matching (apt : Apt.t) (h tol : Q)
    (lst : list nat) (r : TaxiEdge.nodeTy) :
  sorted_by_heading (Apt.vecTaxiEdges apt) ->
  snd (Apt.FindEdgesForHeading apt (Num h) (Num tol) lst r)
  = lst ++ flat_map
             (fun rng => matching (Apt.vecTaxiEdges apt) 0
                                  (fst rng) (snd rng) r)
             (Apt.heading_ranges (Num h) (Num tol)).
Proof.
  intros Hs. unfold Apt.FindEdgesForHeading. simpl snd.
  rewrite heading_ranges_Num. cbv zeta.
  destruct (Qle_bool 0 (fold_heading h - tol)
            && negb (Qle_bool 180 (fold_heading h + tol)));
    simpl; rewrite ?search_range_matching by exact Hs;
    rewrite ?app_nil_r, <- ?app_assoc; reflexivity.
Qed.

Lemma sorted_by_heading_b_correct (es : list TaxiEdge.t) :
  sorted_by_heading_b es = true -> sorted_by_heading es.
Proof.
  induction es as [|e es IH]; simpl.
  - intros _. split; constructor.
  - intros Hb. apply andb_true_iff in Hb. destruct Hb as [Hb Hs].
    apply andb_true_iff in Hb. destruct Hb as [Hn Hall].
    destruct (IH Hs) as [IHs IHn]. rewrite forallb_forall in Hall.
    split; constructor; try assumption.
    + apply Forall_forall. exact Hall.
    + now apply negb_true_iff.
Qed.

(** The positions found are those of the edges in one of the ranges. *)
Lemma FindEdgesForHeading_In (apt : Apt.t) (h tol : Q)
    (r : TaxiEdge.nodeTy) (i : nat) :
  sorted_by_heading (Apt.vecTaxiEdges apt) ->
  In i (snd (Apt.FindEdgesForHeading apt (Num h) (Num tol) [] r)) <->
  exists e rng,
    nth_error (Apt.vecTaxiEdges apt) i = Some e
    /\ In rng (Apt.heading_ranges (Num h) (Num tol))
    /\ in_window (fst rng) (snd rng) e = true
    /\ Apt.type_ok r e = true.
Proof.
  intros Hs. rewrite FindEdgesForHeading_matching by exact Hs.
  simpl. rewrite in_flat_map. split.
  - intros (rng & Hrng & Hin). apply matching_In in Hin.
    destruct Hin as (_ & e & He & Hw & Ht). rewrite Nat.sub_0_r in He.
    exists e, rng. tauto.
  - intros (e & rng & He & Hrng & Hw & Ht). exists rng.
    split; [exact Hrng|]. apply matching_In. split; [lia|].
    exists e. rewrite Nat.sub_0_r. tauto.
Qed.

(** C1, as stated, fails: with a tolerance of 100 degrees around a search
    heading of 5 degrees the window crosses 0, the two sub-ranges [0,105]
    and [85,180] overlap, and the one edge of heading 100 degrees is
    returned twice. *)
Lemma FindEdgesForHeading_tolerance_100_duplicates :
  sorted_by_heading (Apt.vecTaxiEdges apt_100)
  /\ fold_heading 5 - 100 < 0
  /\ Apt.FindEdgesForHeading apt_100 (Num 5) (Num 100) []
                             TaxiEdge.UNKNOWN_WAY
     = (true, [0%nat; 0%nat])
  /\ ~ NoDup (snd (Apt.FindEdgesForHeading apt_100 (Num 5) (Num 100) []
                                           TaxiEdge.UNKNOWN_WAY)).
Proof.
  split; [apply sorted_by_heading_b_correct; reflexivity|].
  split; [reflexivity|]. split; [reflexivity|].
  intros Hnd. change (NoDup [0%nat; 0%nat]) in Hnd.
  inversion Hnd as [|? ? Hnin _]. apply Hnin. now left.
Qed.

(** C1 (amended): for an edge sequence sorted ascending by heading and a
    window that crosses 0 or 180 after the normalization of the search
    heading, [FindEdgesForHeading] returns the edges of the lower sub-range
    followed by those of the upper sub-range: an edge is returned if and
    only if it is of the wanted type and its heading lies in one of the two
    sub-ranges, and, when the tolerance is below 90 degrees, no edge is
    returned twice.  In particular a search heading of 5 degrees with a
    tolerance of 10 degrees finds an edge of heading 178 degrees and one of
    heading 8 degrees. *)
Theorem FindEdgesForHeading_window_split :
  (forall (apt : Apt.t) (h tol : Q) (r : TaxiEdge.nodeTy),
      sorted_by_heading (Apt.vecTaxiEdges apt) ->
      fold_heading h - tol < 0 \/ 180 <= fold_heading h + tol ->
      let es := Apt.vecTaxiEdges apt in
      let lower_end := Num (lower_range_end (fold_heading h) tol) in
      let upper_begin := Num (upper_range_begin (fold_heading h) tol) in
      let res := Apt.FindEdgesForHeading apt (Num h) (Num tol) [] r in
      snd res = matching es 0 (Num 0) lower_end r
                ++ matching es 0 upper_begin (Num 180) r
      /\ fst res = negb (Apt.empty (snd res))
      /\ (forall i,
             In i (snd res) <->
             exists e, nth_error es i = Some e
                       /\ Apt.type_ok r e = true
                       /\ (in_window (Num 0) lower_end e = true
                           \/ in_window upper_begin (Num 180) e = true))
      /\ (tol < 90 -> NoDup (snd res)))
  /\ (forall (apt : Apt.t) (i j : nat) (e178 e8 : TaxiEdge.t),
         sorted_by_heading (Apt.vecTaxiEdges apt) ->
         nth_error (Apt.vecTaxiEdges apt) i = Some e178 ->
         (TaxiEdge.angle e178 =d= Num 178)%D ->
         nth_error (Apt.vecTaxiEdges apt) j = Some e8 ->
         (TaxiEdge.angle e8 =d= Num 8)%D ->
         let res := Apt.FindEdgesForHeading apt (Num 5) (Num 10) []
                                            TaxiEdge.UNKNOWN_WAY in
         In i (snd res) /\ In j (snd res)).
Proof.
  split.
  - intros apt h tol r Hs Hcross es lower_end upper_begin res.
    assert (Hranges : Apt.heading_ranges (Num h) (Num tol)
                      = [(Num 0, lower_end); (upper_begin, Num 180)]).
    { rewrite heading_ranges_Num. cbv zeta.
      destruct (Qle_bool 0 (fold_heading h - tol)) eqn:E0;
        [|reflexivity].
      destruct (Qle_bool 180 (fold_heading h + tol)) eqn:E1;
        [reflexivity|].
      apply Qle_bool_iff in E0. apply dle_Num_false in E1. lra. }
    assert (Hres : snd res = matching es 0 (Num 0) lower_end r
                             ++ matching es 0 upper_begin (Num 180) r).
    { subst res. rewrite FindEdgesForHeading_matching by exact Hs.
      rewrite Hranges. simpl. now rewrite app_nil_r. }
    split; [exact Hres|]. split; [reflexivity|]. split.
    + intros i. rewrite Hres, in_app_iff, !matching_In.
      rewrite Nat.sub_0_r. split.
      * intros [(_ & e & He & Hw & Ht)|(_ & e & He & Hw & Ht)];
          exists e; tauto.
      * intros (e & He & Ht & [Hw|Hw]); [left|right];
          (split; [lia|]); exists e; tauto.
    + intros Htol. rewrite Hres. apply matching_disjoint.
      unfold lower_range_end, upper_range_begin.
      destruct (Qle_bool 0 (fold_heading h - tol)); lra.
  - intros apt i j e178 e8 Hs Hi H178 Hj H8 res.
    subst res. rewrite !FindEdgesForHeading_In by exact Hs.
    destruct (TaxiEdge.angle e178) as [|p] eqn:Ep; [contradiction|].
    destruct (TaxiEdge.angle e8) as [|q] eqn:Eq; [contradiction|].
    simpl in H178, H8. split.
    + exists e178, (Num (5 - 10 + 180), Num 180).
      split; [exact Hi|]. split; [right; left; reflexivity|].
      split; [|reflexivity]. unfold in_window. rewrite Ep. simpl fst.
      simpl snd. apply andb_true_iff. split; apply dle_Num; lra.
    + exists e8, (Num 0, Num (5 + 10)).
      split; [exact Hj|]. split; [left; reflexivity|].
      split; [|reflexivity]. unfold in_window. rewrite Eq. simpl fst.
      simpl snd. apply andb_true_iff. split; apply dle_Num; lra.
Qed.

Lemma FindEdgesForHeading_window_split_5_10 :
  snd (Apt.FindEdgesForHeading apt_8_90_178 (Num 5) (Num 10) []
                               TaxiEdge.UNKNOWN_WAY)
  = [0%nat; 2%nat]
  /\ NoDup (snd (Apt.FindEdgesForHeading apt_8_90_178 (Num 5) (Num 10) []
                                         TaxiEdge.UNKNOWN_WAY)).
Proof.
  assert (Hs : sorted_by_heading (Apt.vecTaxiEdges apt_8_90_178))
    by (apply sorted_by_heading_b_correct; reflexivity).
  assert (Hcross : fold_heading 5 - 10 < 0 \/ 180 <= fold_heading 5 + 10)
    by (left; reflexivity).
  assert (Htol : 10 < 90) by reflexivity.
  destruct (proj1 FindEdgesForHeading_window_split apt_8_90_178 5 10
              TaxiEdge.UNKNOWN_WAY Hs Hcross) as (Hres & _ & _ & Hnd).
  split; [rewrite Hres; reflexivity|exact (Hnd Htol)].
Defined.

Lemma built_edges_lookup_in_bounds_example :
  exists na nb,
    Apt.GetA (TaxiEdge.ctor TaxiEdge.TAXI_WAY 0 1 (Num 90) (Num 100))
             apt_one_taxiway = Some na
    /\ Apt.GetB (TaxiEdge.ctor TaxiEdge.TAXI_WAY 0 1 (Num 90) (Num 100))
                apt_one_taxiway = Some nb.
Proof.
  assert (Hb : @built flat_world apt_one_taxiway).
  { unfold apt_one_taxiway, apt_two_nodes. repeat constructor. }
  assert (Hin : In (TaxiEdge.ctor TaxiEdge.TAXI_WAY 0 1 (Num 90) (Num 100))
                   (Apt.vecTaxiEdges apt_one_taxiway)).
  { left. reflexivity. }
  destruct (@built_edges_lookup_in_bounds flat_world apt_one_taxiway _ Hb Hin)
    as (_ & [na Ha] & [nb Hb']).
  exists na, nb. split; assumption.
Defined.

(** ** Equality of double values *)

Lemma deq_refl (u : double) : (u =d= u)%D.
Proof. destruct u; simpl; [exact I|reflexivity]. Qed.

Lemma deq_Num_l (u : double) (q : Q) :
  (u =d= Num q)%D -> exists p, u = Num p /\ p == q.
Proof. destruct u as [|p]; simpl; [tauto|]. intros Hp. now exists p. Qed.

(** ** [AddRwyEnds] *)

(** [AddRwyEnds] written out as one record. *)
Lemma AddRwyEnds_eq `{CoordCalc} (apt : Apt.t)
    (lat1 lon1 displaced1 : double) (id1 : string)
    (lat2 lon2 displaced2 : double) (id2 : string) :
  let re1 := raw_runway_end lat1 lon1 in
  let re2 := raw_runway_end lat2 lon2 in
  let vecRwy := CoordVectorBetween re1 re2 in
  let remaining := (vectorTy.dist vecRwy - displaced1 - displaced2)%D in
  let p1 := position_add_vector re1
              (vectorTy.ctor (vectorTy.angle vecRwy)
                 (displaced1 + remaining * ART_RWY_TD_POINT_F)%D) in
  let p2 := position_add_vector re2
              (vectorTy.ctor (vectorTy.angle vecRwy)
                 (- (displaced2 + remaining * ART_RWY_TD_POINT_F))%D) in
  Apt.AddRwyEnds apt lat1 lon1 displaced1 id1 lat2 lon2 displaced2 id2
  = Apt.mk (Apt.id apt) (enlarge (enlarge (Apt.bounds apt) p1) p2)
      (Apt.alt_m apt) (Apt.vecTaxiNodes apt)
      (Apt.vecRwyEndPts apt
       ++ [RwyEndPt.ctor id1 (positionTy.lat p1) (positionTy.lon p1);
           RwyEndPt.ctor id2 (positionTy.lat p2) (positionTy.lon p2)])
      (Apt.vecTaxiEdges apt
       ++ [TaxiEdge.ctor TaxiEdge.RUN_WAY
             (size_t_sub (size (Apt.vecRwyEndPts apt) + 2) 2)
             (size_t_sub (size (Apt.vecRwyEndPts apt) + 2) 1)
             (vectorTy.angle vecRwy)
             (remaining * (ofZ 1 - ofZ 2 * ART_RWY_TD_POINT_F))%D]).
Proof.
  intros re1 re2 vecRwy remaining p1 p2.
  unfold Apt.AddRwyEnds. cbn [Apt.vecRwyEndPts Apt.vecTaxiEdges
    Apt.vecTaxiNodes Apt.id Apt.set_bounds Apt.set_vecRwyEndPts
    Apt.set_vecTaxiEdges Apt.bounds Apt.alt_m vectorTy.dist vectorTy.angle
    vectorTy.set_dist].
  fold (raw_runway_end lat1 lon1) (raw_runway_end lat2 lon2).
  fold re1 re2. fold vecRwy. fold remaining. fold p1 p2.
  rewrite <- app_assoc. cbn [app]. rewrite size_app.
  change (size [_; _]) with 2%Z. reflexivity.
Qed.

(** The lookup of an index that is in range, behind a vector. *)
Lemma at_app_r {A : Type} (v w : list A) (k : nat) :
  at_ (v ++ w) (size v + Z.of_nat k) = nth_error w k.
Proof.
  unfold at_, size.
  destruct (Z.of_nat (List.length v) + Z.of_nat k <? 0)%Z eqn:E;
    [apply Z.ltb_lt in E; lia|].
  rewrite nth_error_app2 by lia. f_equal. lia.
Qed.

(** C5: [AddRwyEnds] moves each raw runway end along the runway vector, the
    first by its displaced threshold plus 10% of the remaining length and
    the second by the same amount backwards, appends the two endpoints and
    one runway edge, and records 80% of the remaining length as the edge's
    distance.  The edge is built from the indexes of the two endpoints
    appended, [size - 2] and [size - 1], and connects them: its lookups give
    the first endpoint as A and the second as B, or the other way round when
    the constructor folds a heading of 180 degrees or more.  For a runway
    of 2000 m without displaced thresholds the moves are 200 m and the
    recorded distance is 1600 m. *)
Theorem AddRwyEnds_inset `{CoordCalc} (apt : Apt.t)
    (lat1 lon1 displaced1 : double) (id1 : string)
    (lat2 lon2 displaced2 : double) (id2 : string) :
  let re1 := raw_runway_end lat1 lon1 in
  let re2 := raw_runway_end lat2 lon2 in
  let vecRwy := CoordVectorBetween re1 re2 in
  let remaining := (vectorTy.dist vecRwy - displaced1 - displaced2)%D in
  let apt' := Apt.AddRwyEnds apt lat1 lon1 displaced1 id1
                             lat2 lon2 displaced2 id2 in
  let n := size (Apt.vecRwyEndPts apt) in
  exists (move1 move2 : double) (e : TaxiEdge.t),
    let p1 := position_add_vector re1
                (vectorTy.ctor (vectorTy.angle vecRwy) move1) in
    let p2 := position_add_vector re2
                (vectorTy.ctor (vectorTy.angle vecRwy) move2) in
    let ep1 := RwyEndPt.ctor id1 (positionTy.lat p1) (positionTy.lon p1) in
    let ep2 := RwyEndPt.ctor id2 (positionTy.lat p2) (positionTy.lon p2) in
    (move1 =d= displaced1 + remaining * Num (1 # 10))%D
    /\ (move2 =d= - (displaced2 + remaining * Num (1 # 10)))%D
    /\ Apt.vecRwyEndPts apt' = Apt.vecRwyEndPts apt ++ [ep1; ep2]
    /\ Apt.vecTaxiEdges apt' = Apt.vecTaxiEdges apt ++ [e]
    /\ Apt.vecTaxiNodes apt' = Apt.vecTaxiNodes apt
    /\ e = TaxiEdge.ctor TaxiEdge.RUN_WAY
             (size_t_sub (size (Apt.vecRwyEndPts apt')) 2)
             (size_t_sub (size (Apt.vecRwyEndPts apt')) 1)
             (vectorTy.angle vecRwy) (TaxiEdge.dist_m e)
    /\ TaxiEdge.type e = TaxiEdge.RUN_WAY
    /\ edge_in_range apt' e
    /\ (TaxiEdge.dist_m e =d= remaining * Num (8 # 10))%D
    /\ ((n + 2 < 2 ^ 64)%Z ->
        ((vectorTy.angle vecRwy >=? ofZ 180)%D = false ->
         TaxiEdge.a e = n /\ TaxiEdge.b e = (n + 1)%Z
         /\ TaxiEdge.angle e = vectorTy.angle vecRwy
         /\ Apt.GetRwyEP_A e apt' = Some ep1
         /\ Apt.GetRwyEP_B e apt' = Some ep2)
        /\ ((vectorTy.angle vecRwy >=? ofZ 180)%D = true ->
            TaxiEdge.a e = (n + 1)%Z /\ TaxiEdge.b e = n
            /\ TaxiEdge.angle e = (vectorTy.angle vecRwy - ofZ 180)%D
            /\ Apt.GetRwyEP_A e apt' = Some ep2
            /\ Apt.GetRwyEP_B e apt' = Some ep1))
    /\ ((vectorTy.dist vecRwy =d= Num 2000)%D ->
        (displaced1 =d= Num 0)%D -> (displaced2 =d= Num 0)%D ->
        (move1 =d= Num 200)%D /\ (move2 =d= Num (-200))%D
        /\ (TaxiEdge.dist_m e =d= Num 1600)%D).
Proof.
  intros re1 re2 vecRwy remaining apt' n.
  pose proof (AddRwyEnds_eq apt lat1 lon1 displaced1 id1
                            lat2 lon2 displaced2 id2) as Heq.
  cbv zeta in Heq. fold re1 re2 vecRwy remaining apt' in Heq.
  exists (displaced1 + remaining * ART_RWY_TD_POINT_F)%D,
         (- (displaced2 + remaining * ART_RWY_TD_POINT_F))%D.
  refine (ex_intro _ _ _). rewrite Heq. cbn [Apt.vecRwyEndPts Apt.vecTaxiEdges
                              Apt.vecTaxiNodes].
  cbv zeta.
  split; [apply deq_refl|]. split; [apply deq_refl|].
  split; [reflexivity|]. split; [reflexivity|]. split; [reflexivity|].
  rewrite ctor_dist.
  split; [rewrite size_app; reflexivity|].
  split; [apply ctor_type|].
  pose proof (size_nonneg (Apt.vecRwyEndPts apt)) as Hs.
  split.
  { unfold edge_in_range. rewrite ctor_type.
    cbn [Apt.vecRwyEndPts]. rewrite size_app.
    change (size [_; _]) with 2%Z.
    pose proof (size_t_sub_small (size (Apt.vecRwyEndPts apt) + 2) 2
                  ltac:(lia)) as H2.
    pose proof (size_t_sub_small (size (Apt.vecRwyEndPts apt) + 2) 1
                  ltac:(lia)) as H1.
    match goal with
    | |- context [TaxiEdge.ctor ?t ?a ?b ?h ?d] =>
        destruct (ctor_ends t a b h d) as [[-> ->]|[-> ->]]
    end; lia. }
  split.
  { destruct remaining as [|q]; simpl; [exact I|]. unfold inject_Z. ring. }
  split.
  - intros Hn. fold n in Hs |- *.
    rewrite (size_t_sub_exact (n + 2) 2) by lia.
    rewrite (size_t_sub_exact (n + 2) 1) by lia.
    replace (n + 2 - 2)%Z with (n + Z.of_nat 0)%Z by lia.
    replace (n + 2 - 1)%Z with (n + Z.of_nat 1)%Z by lia.
    unfold TaxiEdge.ctor, Apt.GetRwyEP_A, Apt.GetRwyEP_B.
    split; intros ->;
      cbn [TaxiEdge.type TaxiEdge.a TaxiEdge.b TaxiEdge.angle
           Apt.vecRwyEndPts];
      unfold n; rewrite !at_app_r; cbn [nth_error];
      (split; [lia|]); (split; [lia|]); repeat split.
  - intros Hd H1 H2. subst remaining.
    apply deq_Num_l in Hd, H1, H2.
    destruct Hd as (dq & -> & Hd), H1 as (q1 & -> & H1),
             H2 as (q2 & -> & H2).
    simpl. unfold inject_Z. repeat split; lra.
Qed.

Lemma AddRwyEnds_inset_2000 :
  Forall2 deq
    (List.map (fun r => TaxiNode.lat (RwyEndPt.node r))
              (Apt.vecRwyEndPts apt_runways_2000))
    [Num 200; Num 1800; Num 200; Num 1800]
  /\ exists e,
       Apt.vecTaxiEdges apt_runways_2000
       = Apt.vecTaxiEdges apt_runway_2000 ++ [e]
       /\ TaxiEdge.a e = 2%Z /\ TaxiEdge.b e = 3%Z
       /\ option_map RwyEndPt.id (Apt.GetRwyEP_A e apt_runways_2000)
          = Some "36R"%string
       /\ option_map RwyEndPt.id (Apt.GetRwyEP_B e apt_runways_2000)
          = Some "18L"%string
       /\ (TaxiEdge.dist_m e =d= Num 1600)%D.
Proof.
  destruct (@AddRwyEnds_inset flat_world apt_runway_2000
              (Num 0) (Num 100) (Num 0) "36R"%string
              (Num 2000) (Num 100) (Num 0) "18L"%string)
    as (move1 & move2 & e & _ & _ & _ & He & _ & _ & _ & _ & _ & Hjoin
        & H2000).
  split; [repeat constructor|].
  exists e. split; [exact He|].
  destruct Hjoin as [Hforward _]; [reflexivity|].
  destruct (Hforward eq_refl) as (Ha & Hb & _ & HA & HB).
  split; [exact Ha|]. split; [exact Hb|].
  fold apt_runways_2000 in HA, HB. rewrite HA, HB.
  split; [reflexivity|]. split; [reflexivity|].
  apply H2000; reflexivity.
Defined.

(** ** Thinning of a taxi line *)

Lemma dlt_deq (u : double) (q r : Q) :
  (u =d= Num q)%D -> q < r -> (u <? Num r)%D = true.
Proof.
  intros Hu Hlt. apply deq_Num_l in Hu. destruct Hu as (p & -> & Hp).
  apply dlt_Num. lra.
Qed.

Lemma at_snoc {A : Type} (v : list A) (x : A) : at_ (v ++ [x]) (size v) = Some x.
Proof.
  unfold at_, size. destruct (Z.of_nat (List.length v) <? 0)%Z eqn:E.
  - apply Z.ltb_lt in E. lia.
  - rewrite Nat2Z.id, nth_error_app2, Nat.sub_diag by lia. reflexivity.
Qed.

Lemma thin_loop_erase `{CoordCalc} (fuel : nat) (v : list TaxiNode.t)
    (iter : nat) (apt : Apt.t) (a b : TaxiNode.t) :
  (iter + 3 =? List.length v)%nat = false ->
  nth_error v iter = Some a -> nth_error v (S iter) = Some b ->
  (DistLatLonSqr (TaxiNode.lat a) (TaxiNode.lon a)
                 (TaxiNode.lat b) (TaxiNode.lon b)
   <? APT_MIN_TAXI_SEGM_LEN_M2)%D = true ->
  thin_loop (S fuel) v iter apt = thin_loop fuel (erase v (S iter)) iter apt.
Proof.
  intros Hne Ha Hb Hd. cbn [thin_loop]. now rewrite Hne, Ha, Hb, Hd.
Qed.

Lemma thin_loop_done `{CoordCalc} (fuel : nat) (v : list TaxiNode.t)
    (iter : nat) (apt : Apt.t) :
  (iter + 3 =? List.length v)%nat = true ->
  thin_loop (S fuel) v iter apt = (v, apt).
Proof. intros He. cbn [thin_loop]. now rewrite He. Qed.

Lemma thin_last3_merge `{CoordCalc} (a b c : TaxiNode.t) (apt : Apt.t) :
  (DistLatLonSqr (TaxiNode.lat a) (TaxiNode.lon a)
                 (TaxiNode.lat b) (TaxiNode.lon b)
   <? APT_MIN_TAXI_SEGM_LEN_M2)%D = true ->
  thin_last3 [a; b; c] apt
  = ([a; c], apt,
     (sqrt (DistLatLonSqr (TaxiNode.lat a) (TaxiNode.lon a)
                          (TaxiNode.lat b) (TaxiNode.lon b))
      + sqrt (DistLatLonSqr (TaxiNode.lat b) (TaxiNode.lon b)
                            (TaxiNode.lat c) (TaxiNode.lon c)))%D).
Proof.
  intros Hd. unfold thin_last3.
  change (3 <=? size [a; b; c])%Z with true.
  change (at_ [a; b; c] (size_t_sub (size [a; b; c]) 3)) with (Some a).
  change (at_ [a; b; c] (size_t_sub (size [a; b; c]) 2)) with (Some b).
  change (at_ [a; b; c] (size_t_sub (size [a; b; c]) 1)) with (Some c).
  cbv iota beta. rewrite Hd. reflexivity.
Qed.

(** The last edge of a section: the last node and the edge to it. *)
Lemma add_final_edge_two `{CoordCalc} (y z : TaxiNode.t) (apt : Apt.t)
    (distToLast : double) (prev : TaxiNode.t) (nodes : list TaxiNode.t) :
  isnan distToLast = false ->
  Apt.vecTaxiNodes apt = nodes ++ [prev] ->
  (size nodes < 2 ^ 63)%Z ->
  TaxiNode.HasGeoCoords prev = true ->
  TaxiNode.HasGeoCoords z = true ->
  add_final_edge [y; z] apt distToLast
  = Apt.mk (Apt.id apt)
      (enlarge_pos (Apt.bounds apt) (TaxiNode.lat z) (TaxiNode.lon z))
      (Apt.alt_m apt)
      (nodes ++ [prev; TaxiNode.ctor (TaxiNode.lat z) (TaxiNode.lon z)])
      (Apt.vecRwyEndPts apt)
      (Apt.vecTaxiEdges apt
       ++ [TaxiEdge.ctor TaxiEdge.TAXI_WAY (size nodes) (size nodes + 1)
             (CoordAngle (TaxiNode.lat prev) (TaxiNode.lon prev)
                         (TaxiNode.lat z) (TaxiNode.lon z))
             distToLast]).
Proof.
  intros Hnan Hnodes Hsmall Hgp Hgz. unfold add_final_edge.
  change (at_ [y; z] (size_t_sub (size [y; z]) 2)) with (Some y).
  change (at_ [y; z] (size_t_sub (size [y; z]) 1)) with (Some z).
  cbv iota beta. rewrite Hnan. unfold Apt.AddTaxiNode.
  cbn [Apt.vecTaxiNodes Apt.set_vecTaxiNodes Apt.set_bounds Apt.bounds
       Apt.id Apt.alt_m Apt.vecRwyEndPts Apt.vecTaxiEdges].
  rewrite Hnodes, <- app_assoc. cbn [app].
  pose proof (size_nonneg nodes) as Hs.
  assert (Hsize : size (nodes ++ [prev; TaxiNode.ctor (TaxiNode.lat z)
                                                      (TaxiNode.lon z)])
                  = (size nodes + 2)%Z).
  { rewrite size_app. reflexivity. }
  rewrite Hsize.
  rewrite (size_t_sub_exact (size nodes + 2) 1) by lia.
  replace (size nodes + 2 - 1)%Z with (size nodes + 1)%Z by lia.
  rewrite (size_t_sub_exact (size nodes + 1) 1) by lia.
  replace (size nodes + 1 - 1)%Z with (size nodes) by lia.
  set (zn := TaxiNode.ctor (TaxiNode.lat z) (TaxiNode.lon z)).
  set (apt1 := Apt.set_vecTaxiNodes _ _).
  assert (Ha : at_ (Apt.vecTaxiNodes apt1) (size nodes) = Some prev).
  { subst apt1. cbn [Apt.vecTaxiNodes].
    change (nodes ++ [prev; zn]) with (nodes ++ [prev] ++ [zn]).
    rewrite app_assoc. apply at_app_l, at_snoc. }
  assert (Hb : at_ (Apt.vecTaxiNodes apt1) (size nodes + 1) = Some zn).
  { subst apt1. cbn [Apt.vecTaxiNodes].
    change (nodes ++ [prev; zn]) with (nodes ++ [prev] ++ [zn]).
    rewrite app_assoc.
    replace (size nodes + 1)%Z with (size (nodes ++ [prev]))
      by (rewrite size_app; reflexivity).
    apply at_snoc. }
  rewrite (AddTaxiEdge_appends apt1 (size nodes) (size nodes + 1)
             distToLast prev zn Ha Hb Hgp Hgz).
  rewrite Hnan. subst apt1 zn. reflexivity.
Qed.

Lemma erase_length {A : Type} (v : list A) (pos : nat) :
  (pos < List.length v)%nat ->
  List.length (erase v pos) = (List.length v - 1)%nat.
Proof.
  intros Hlt. unfold erase.
  rewrite length_app, length_firstn, length_skipn. lia.
Qed.


(** C3: thinning a section of 5 colinear points, each 2 m after the one
    before, adds exactly two taxi nodes, the first and the last point, and
    exactly one edge between them, whose length is 8 m, the sum of the
    lengths of the four sub-segments. *)
Theorem thinning_five_colinear_points `{CoordCalc} (apt : Apt.t)
    (p0 p1 p2 p3 p4 : TaxiNode.t) :
  colinear_2m_apart [p0; p1; p2; p3; p4] ->
  TaxiNode.HasGeoCoords p0 = true ->
  TaxiNode.HasGeoCoords p4 = true ->
  (size (Apt.vecTaxiNodes apt) < 2 ^ 63)%Z ->
  let apt' := thin_taxi_nodes [p0; p1; p2; p3; p4] apt in
  let first := size (Apt.vecTaxiNodes apt) in
  Apt.vecTaxiNodes apt'
  = Apt.vecTaxiNodes apt
    ++ [TaxiNode.ctor (TaxiNode.lat p0) (TaxiNode.lon p0);
        TaxiNode.ctor (TaxiNode.lat p4) (TaxiNode.lon p4)]
  /\ Apt.vecRwyEndPts apt' = Apt.vecRwyEndPts apt
  /\ exists e,
      Apt.vecTaxiEdges apt' = Apt.vecTaxiEdges apt ++ [e]
      /\ TaxiEdge.type e = TaxiEdge.TAXI_WAY
      /\ (TaxiEdge.dist_m e =d= Num 8)%D
      /\ ((TaxiEdge.a e = first /\ TaxiEdge.b e = (first + 1)%Z)
          \/ (TaxiEdge.a e = (first + 1)%Z /\ TaxiEdge.b e = first)).
Proof.
  intros Hc Hg0 Hg4 Hsmall apt' first.
  destruct (Hc 0%nat 1%nat p0 p1 ltac:(lia) eq_refl eq_refl) as [H01 _].
  destruct (Hc 0%nat 2%nat p0 p2 ltac:(lia) eq_refl eq_refl) as [H02 _].
  destruct (Hc 0%nat 3%nat p0 p3 ltac:(lia) eq_refl eq_refl) as [H03 R03].
  destruct (Hc 3%nat 4%nat p3 p4 ltac:(lia) eq_refl eq_refl) as [_ R34].
  change (ofZ _) with (Num (inject_Z 4)) in H01.
  change (ofZ _) with (Num (inject_Z 16)) in H02.
  change (ofZ _) with (Num (inject_Z 36)) in H03.
  change (ofZ _) with (Num (inject_Z 6)) in R03.
  change (ofZ _) with (Num (inject_Z 2)) in R34.
  assert (Hmin : APT_MIN_TAXI_SEGM_LEN_M2
                 = Num (inject_Z 10 * inject_Z 10)) by reflexivity.
  apply (dlt_deq _ _ (inject_Z 10 * inject_Z 10)) in H01; [|reflexivity].
  apply (dlt_deq _ _ (inject_Z 10 * inject_Z 10)) in H02; [|reflexivity].
  apply (dlt_deq _ _ (inject_Z 10 * inject_Z 10)) in H03; [|reflexivity].
  rewrite <- Hmin in H01, H02, H03.
  unfold DistLatLon in R03, R34.
  apply deq_Num_l in R03, R34.
  destruct R03 as (r03 & E03 & Q03), R34 as (r34 & E34 & Q34).
  assert (Hloop : forall apt1,
             thin_loop 5 [p0; p1; p2; p3; p4] 0 apt1 = ([p0; p3; p4], apt1)).
  { intros apt1.
    rewrite (thin_loop_erase 4 [p0; p1; p2; p3; p4] 0 apt1 p0 p1
               eq_refl eq_refl eq_refl H01).
    change (erase [p0; p1; p2; p3; p4] 1) with [p0; p2; p3; p4].
    rewrite (thin_loop_erase 3 [p0; p2; p3; p4] 0 apt1 p0 p2
               eq_refl eq_refl eq_refl H02).
    change (erase [p0; p2; p3; p4] 1) with [p0; p3; p4].
    apply thin_loop_done. reflexivity. }
  assert (Heq : exists bb,
             apt' = Apt.mk (Apt.id apt) bb (Apt.alt_m apt)
                      (Apt.vecTaxiNodes apt
                       ++ [TaxiNode.ctor (TaxiNode.lat p0) (TaxiNode.lon p0);
                           TaxiNode.ctor (TaxiNode.lat p4) (TaxiNode.lon p4)])
                      (Apt.vecRwyEndPts apt)
                      (Apt.vecTaxiEdges apt
                       ++ [TaxiEdge.ctor TaxiEdge.TAXI_WAY first (first + 1)
                             (CoordAngle (TaxiNode.lat p0) (TaxiNode.lon p0)
                                         (TaxiNode.lat p4) (TaxiNode.lon p4))
                             (Num r03 + Num r34)%D])).
  { subst apt'. unfold thin_taxi_nodes.
    change (2 <=? size [p0; p1; p2; p3; p4])%Z with true.
    change (3 <=? size [p0; p1; p2; p3; p4])%Z with true.
    change (List.length [p0; p1; p2; p3; p4]) with 5%nat.
    cbv iota. unfold Apt.AddTaxiNode at 1.
    rewrite Hloop, (thin_last3_merge p0 p3 p4 _ H03), E03, E34.
    erewrite (add_final_edge_two p0 p4 _ (Num r03 + Num r34)%D
                (TaxiNode.ctor (TaxiNode.lat p0) (TaxiNode.lon p0))
                (Apt.vecTaxiNodes apt));
      [|reflexivity|reflexivity|exact Hsmall|exact Hg0|exact Hg4].
    eexists. reflexivity. }
  destruct Heq as [bb ->].
  cbn [Apt.vecTaxiNodes Apt.vecRwyEndPts Apt.vecTaxiEdges].
  split; [reflexivity|]. split; [reflexivity|].
  eexists. split; [reflexivity|]. split; [apply ctor_type|].
  split.
  - rewrite ctor_dist. simpl. rewrite Q03, Q34. reflexivity.
  - match goal with
    | |- context [TaxiEdge.ctor ?t ?a ?b ?h ?d] =>
        destruct (ctor_ends t a b h d) as [[-> ->]|[-> ->]]
    end; [left|right]; split; reflexivity.
Qed.

Lemma thinning_five_colinear_points_example :
  Apt.vecTaxiNodes
    (@thin_taxi_nodes flat_world five_points (Apt.ctor "TEST"))
  = [TaxiNode.ctor (Num 0) (Num 0); TaxiNode.ctor (Num 8) (Num 0)]
  /\ exists e,
      Apt.vecTaxiEdges
        (@thin_taxi_nodes flat_world five_points (Apt.ctor "TEST")) = [e]
      /\ (TaxiEdge.dist_m e =d= Num 8)%D.
Proof.
  assert (Hc : @colinear_2m_apart flat_world five_points).
  { intros i j a b Hlt Ha Hb.
    assert (Hj : (j < 5)%nat).
    { change 5%nat with (List.length five_points).
      apply nth_error_Some. congruence. }
    destruct j as [|[|[|[|[|j]]]]]; try lia;
      destruct i as [|[|[|[|[|i]]]]]; try lia;
      injection Ha as <-; injection Hb as <-; split; reflexivity. }
  destruct (@thinning_five_colinear_points flat_world (Apt.ctor "TEST")
              _ _ _ _ _ Hc eq_refl eq_refl eq_refl)
    as (Hn & _ & e & He & _ & Hd & _).
  split; [exact Hn|]. exists e. split; [exact He|exact Hd].
Defined.

(** ** The closest edge *)

(** The best edge of the loop is a position of the edge vector. *)
Lemma closest_fold_position `{CoordCalc} (apt : Apt.t) (inv : bool)
    (pt_x pt_z max2 : double) (lst : list nat) (st : Apt.bestTy) :
  (forall e, Apt.bestEdge st = Some e ->
             exists edge, nth_error (Apt.vecTaxiEdges apt) e = Some edge) ->
  forall e,
    Apt.bestEdge
      (fold_left (Apt.closest_step apt inv pt_x pt_z max2) lst st) = Some e ->
    exists edge, nth_error (Apt.vecTaxiEdges apt) e = Some edge.
Proof.
  revert st. induction lst as [|p lst IH]; intros st Hst; [exact Hst|].
  simpl. apply IH. intros e. unfold Apt.closest_step.
  destruct (nth_error (Apt.vecTaxiEdges apt) p) as [edge|] eqn:Hp;
    [|apply Hst].
  destruct (if inv then Apt.GetB edge apt else Apt.GetA edge apt);
    [|apply Hst].
  destruct (if inv then Apt.GetA edge apt else Apt.GetB edge apt);
    [|apply Hst].
  destruct (negb (TaxiNode.HasLocalCoords _)
            || negb (TaxiNode.HasLocalCoords _)); [apply Hst|].
  destruct (_ >=? _)%D; [apply Hst|].
  destruct (_ >? _)%D; [apply Hst|].
  simpl. intros He. injection He as <-. now exists edge.
Qed.

(** [FindClosestEdge] either finds nothing and leaves the base point, or
    finds an edge and sets lat and lon of the base point. *)
Lemma FindClosestEdge_shape `{CoordCalc} `{XPLM} (apt : Apt.t)
    (pos basePt : positionTy.t) (_maxDist_m : Z) (_angleTolerance : double) :
  Apt.FindClosestEdge apt pos basePt _maxDist_m _angleTolerance
  = (None, basePt)
  \/ exists e edge lat lon,
       Apt.FindClosestEdge apt pos basePt _maxDist_m _angleTolerance
       = (Some e, positionTy.set_lon (positionTy.set_lat basePt lat) lon)
       /\ nth_error (Apt.vecTaxiEdges apt) e = Some edge.
Proof.
  unfold Apt.FindClosestEdge.
  destruct (XPLMWorldToLocal _ _ _) as [[pt_x pt_y] pt_z].
  destruct (Apt.FindEdgesForHeading _ _ _ _ _) as [found lstEdges].
  destruct found; simpl negb; cbv iota; [|now left].
  set (st := fold_left _ lstEdges _).
  destruct (Apt.bestEdge st) as [e|] eqn:He; [|now left].
  destruct (Apt.bestFrom st) as [from|]; [|now left].
  destruct (Apt.bestTo st) as [to|]; [|now left].
  destruct (DistResultToBaseLoc _ _ _ _ _) as [bx bz].
  destruct (XPLMLocalToWorld _ _ _) as [[lat lon] alt].
  right. subst st.
  apply closest_fold_position in He; [|discriminate].
  destruct He as [edge Hedge]. exists e, edge, lat, lon. now split.
Qed.

(** ** Snapping *)

(** [FindClosestEdge] either finds nothing and leaves the base point, or
    finds the edge at a position of the edge vector and gives the base
    point a new latitude and longitude, and nothing else. *)
Lemma FindClosestEdge_writes `{CoordCalc} `{XPLM} (apt : Apt.t)
    (pos basePt : positionTy.t) (_maxDist_m : Z) (_angleTolerance : double) :
  Apt.FindClosestEdge apt pos basePt _maxDist_m _angleTolerance
  = (None, basePt)
  \/ exists e edge lat lon,
       Apt.FindClosestEdge apt pos basePt _maxDist_m _angleTolerance
       = (Some e,
          positionTy.mk lat lon (positionTy.alt_m basePt)
            (positionTy.ts basePt) (positionTy.heading basePt)
            (positionTy.pitch basePt) (positionTy.roll basePt)
            (positionTy.mergeCount basePt) (positionTy.onGrnd basePt)
            (positionTy.unitCoord basePt) (positionTy.unitAngle basePt)
            (positionTy.flightPhase basePt))
       /\ nth_error (Apt.vecTaxiEdges apt) e = Some edge.
Proof.
  destruct (FindClosestEdge_shape apt pos basePt _maxDist_m _angleTolerance)
    as [Hnone|(e & edge & lat & lon & Hsome & Hedge)]; [now left|].
  right. exists e, edge, lat, lon. split; [|exact Hedge].
  rewrite Hsome. reflexivity.
Qed.

(** C9: when [LTAptSnap] returns false, also when snapping is configured off
    or no airport contains the position, the position is unchanged.  When
    it returns true, [FindClosestEdge] has found an edge of the airport
    that contains the position: latitude and longitude are those that
    [FindClosestEdge] wrote, the flight phase is [FPH_TAXI] when the edge
    found is no runway and is unchanged when it is a runway, and altitude,
    timestamp, heading, pitch and roll (and the other members) stay as they
    were. *)
Theorem LTAptSnap_frame `{CoordCalc} `{XPLM} `{Settings}
    (gmapApt : mapAptTy) (pos : positionTy.t) (bLogging : bool) :
  let r := LTAptSnap gmapApt pos bLogging in
  ((GetFdSnapTaxiDist_m <= 0)%Z -> r = (false, pos))
  /\ (LTAptFind gmapApt pos = None -> r = (false, pos))
  /\ (fst r = false -> snd r = pos)
  /\ (fst r = true ->
      exists apt e edge lat lon,
        LTAptFind gmapApt pos = Some apt
        /\ Apt.FindClosestEdge apt pos pos GetFdSnapTaxiDist_m
                               ART_EDGE_ANGLE_TOLERANCE
           = (Some e,
              positionTy.mk lat lon (positionTy.alt_m pos)
                (positionTy.ts pos) (positionTy.heading pos)
                (positionTy.pitch pos) (positionTy.roll pos)
                (positionTy.mergeCount pos) (positionTy.onGrnd pos)
                (positionTy.unitCoord pos) (positionTy.unitAngle pos)
                (positionTy.flightPhase pos))
        /\ nth_error (Apt.vecTaxiEdges apt) e = Some edge
        /\ snd r
           = positionTy.mk lat lon (positionTy.alt_m pos) (positionTy.ts pos)
               (positionTy.heading pos) (positionTy.pitch pos)
               (positionTy.roll pos) (positionTy.mergeCount pos)
               (positionTy.onGrnd pos) (positionTy.unitCoord pos)
               (positionTy.unitAngle pos)
               (match TaxiEdge.GetType edge with
                | TaxiEdge.RUN_WAY => positionTy.flightPhase pos
                | _ => FPH_TAXI
                end)).
Proof.
  intros r. subst r. unfold LTAptSnap.
  destruct (GetFdSnapTaxiDist_m <=? 0)%Z eqn:Eoff.
  { simpl. split; [reflexivity|]. split; [reflexivity|].
    split; [reflexivity|discriminate]. }
  apply Z.leb_gt in Eoff.
  split; [lia|].
  destruct (LTAptFind gmapApt pos) as [apt|] eqn:Hfind.
  2:{ simpl. split; [reflexivity|]. split; [reflexivity|discriminate]. }
  split; [discriminate|].
  unfold Apt.SnapToTaxiway.
  destruct (FindClosestEdge_writes apt pos pos GetFdSnapTaxiDist_m
              ART_EDGE_ANGLE_TOLERANCE)
    as [Hnone|(e & edge & lat & lon & Hsome & Hedge)].
  - rewrite Hnone. simpl. split; [reflexivity|discriminate].
  - rewrite Hsome, Hedge.
    destruct (negb (TaxiEdge.nodeTy_eqb (TaxiEdge.GetType edge)
                                        TaxiEdge.RUN_WAY)) eqn:Et; simpl;
      (split; [discriminate|]); intros _;
      exists apt, e, edge, lat, lon;
      (split; [reflexivity|]); (split; [exact Hsome|]);
      (split; [exact Hedge|]);
      destruct (TaxiEdge.GetType edge); simpl in Et; try discriminate;
      reflexivity.
Qed.

Lemma LTAptSnap_frame_example :
  @LTAptSnap flat_world flat_XPLM test_settings
    [("TEST"%string, apt_taxi_east)] (pos_east 3 106) true
  = (false, pos_east 3 106)
  /\ snd (@LTAptSnap flat_world flat_XPLM test_settings
            [("TEST"%string, apt_taxi_east)] (pos_east 3 40) true)
     = positionTy.mk (Num 0) (Num 40) (Num 0) (Num 1000) (Num 90) (Num 0)
         (Num 0) 1 positionTy.GND_ON positionTy.UNIT_WORLD
         positionTy.UNIT_DEG 10
  /\ snd (@LTAptSnap flat_world flat_XPLM test_settings
            [("TEST"%string, apt_rwy_east)] (pos_east 3 40) true)
     = positionTy.mk (Num 0) (Num 40) (Num 0) (Num 1000) (Num 90) (Num 0)
         (Num 0) 1 positionTy.GND_ON positionTy.UNIT_WORLD
         positionTy.UNIT_DEG 0.
Proof.
  split; [|split].
  - destruct (@LTAptSnap_frame flat_world flat_XPLM test_settings
                [("TEST"%string, apt_taxi_east)] (pos_east 3 106) true)
      as (_ & _ & Hfalse & _).
    rewrite <- (Hfalse eq_refl) at 2. reflexivity.
  - destruct (@LTAptSnap_frame flat_world flat_XPLM test_settings
                [("TEST"%string, apt_taxi_east)] (pos_east 3 40) true)
      as (_ & _ & _ & Htrue).
    destruct (Htrue eq_refl)
      as (apt & e & edge & lat & lon & Hfind & Hclosest & Hedge & Heq).
    vm_compute in Hfind. injection Hfind as <-.
    vm_compute in Hclosest. injection Hclosest as <- <- <-.
    vm_compute in Hedge. injection Hedge as <-.
    exact Heq.
  - destruct (@LTAptSnap_frame flat_world flat_XPLM test_settings
                [("TEST"%string, apt_rwy_east)] (pos_east 3 40) true)
      as (_ & _ & _ & Htrue).
    destruct (Htrue eq_refl)
      as (apt & e & edge & lat & lon & Hfind & Hclosest & Hedge & Heq).
    vm_compute in Hfind. injection Hfind as <-.
    vm_compute in Hclosest. injection Hclosest as <- <- <-.
    vm_compute in Hedge. injection Hedge as <-.
    exact Heq.
Defined.

(** ** The closest edge is within the tolerance *)

Section ClosestEdge.
Context `{CoordCalc}.
Variables (apt : Apt.t) (inv : bool) (pt_x pt_z : double) (m2 : Q).
Variable cands : list nat.

(** The distance results computed for the candidate edges are numbers. *)
Hypothesis dist_is_number :
  forall p edge from to,
    In p cands ->
    nth_error (Apt.vecTaxiEdges apt) p = Some edge ->
    travel_nodes apt inv edge = Some (from, to) ->
    TaxiNode.HasLocalCoords from = true ->
    TaxiNode.HasLocalCoords to = true ->
    isnan (distToLineTy.dist2 (edge_distance pt_x pt_z from to)) = false.

Lemma closest_step_inv (st : Apt.bestTy) (p : nat) :
  In p cands ->
  closest_inv apt inv pt_x pt_z m2 st ->
  closest_inv apt inv pt_x pt_z m2
    (Apt.closest_step apt inv pt_x pt_z (Num m2) st p).
Proof.
  intros Hcand Hst. unfold Apt.closest_step.
  destruct (nth_error (Apt.vecTaxiEdges apt) p) as [edge|] eqn:Hp;
    [|exact Hst].
  destruct (if inv then Apt.GetB edge apt else Apt.GetA edge apt)
    as [from|] eqn:Hfrom; [|exact Hst].
  destruct (if inv then Apt.GetA edge apt else Apt.GetB edge apt)
    as [to|] eqn:Hto; [|exact Hst].
  destruct (negb (TaxiNode.HasLocalCoords from)
            || negb (TaxiNode.HasLocalCoords to)) eqn:Hloc; [exact Hst|].
  apply orb_false_iff in Hloc. destruct Hloc as [Hlf Hlt].
  apply negb_false_iff in Hlf, Hlt.
  fold (edge_distance pt_x pt_z from to).
  destruct (_ >=? _)%D eqn:Hge; [exact Hst|].
  destruct (_ >? _)%D eqn:Hbeyond; [exact Hst|].
  assert (Htravel : travel_nodes apt inv edge = Some (from, to)).
  { unfold travel_nodes. now rewrite Hfrom, Hto. }
  pose proof (dist_is_number p edge from to Hcand Hp Htravel Hlf Hlt)
    as Hnum.
  destruct Hst as (q & Hq & Hle & _).
  destruct (distToLineTy.dist2 (edge_distance pt_x pt_z from to))
    as [|d] eqn:Hd; [discriminate|].
  rewrite Hq in Hge. unfold dge in Hge. apply dle_Num_false in Hge.
  exists d. cbn [Apt.bestDist Apt.bestEdge Apt.bestFrom Apt.bestTo].
  split; [exact Hd|]. split; [lra|].
  intros e He. injection He as <-. exists edge, from, to.
  repeat split; try assumption; try reflexivity. lra.
Qed.

Lemma closest_fold_inv (lst : list nat) (st : Apt.bestTy) :
  incl lst cands ->
  closest_inv apt inv pt_x pt_z m2 st ->
  closest_inv apt inv pt_x pt_z m2
    (fold_left (Apt.closest_step apt inv pt_x pt_z (Num m2)) lst st).
Proof.
  intros Hincl. revert st.
  induction lst as [|p lst IH]; intros st Hst; [exact Hst|].
  simpl. apply IH; [intros p' Hp'; apply Hincl; now right|].
  apply closest_step_inv; [apply Hincl; now left|exact Hst].
Qed.

End ClosestEdge.

(** The best edge of the loop is one of the edges that the loop has seen,
    unless it was the best edge before. *)
Lemma closest_fold_member `{CoordCalc} (apt : Apt.t) (inv : bool)
    (pt_x pt_z max2 : double) (lst : list nat) (st : Apt.bestTy) (e : nat) :
  Apt.bestEdge (fold_left (Apt.closest_step apt inv pt_x pt_z max2) lst st)
  = Some e ->
  In e lst \/ Apt.bestEdge st = Some e.
Proof.
  revert st. induction lst as [|p lst IH]; intros st He; [now right|].
  cbn [fold_left] in He. apply IH in He.
  destruct He as [Hin|He]; [left; now right|].
  unfold Apt.closest_step in He.
  destruct (nth_error (Apt.vecTaxiEdges apt) p); [|now right].
  destruct (if inv then Apt.GetB _ apt else Apt.GetA _ apt); [|now right].
  destruct (if inv then Apt.GetA _ apt else Apt.GetB _ apt); [|now right].
  destruct (negb (TaxiNode.HasLocalCoords _)
            || negb (TaxiNode.HasLocalCoords _)); [now right|].
  destruct (_ >=? _)%D; [now right|].
  destruct (_ >? _)%D; [now right|].
  cbn [Apt.bestEdge] in He. injection He as <-. left. now left.
Qed.

Lemma FindClosestEdge_within `{CoordCalc} `{XPLM} (apt : Apt.t)
    (pos basePt : positionTy.t) (_maxDist_m : Z) (_angleTolerance : double)
    (pt_x pt_y pt_z : double) (e : nat) (basePt' : positionTy.t) :
  XPLMWorldToLocal (positionTy.lat pos) (positionTy.lon pos)
                   (positionTy.alt_m pos) = (pt_x, pt_y, pt_z) ->
  (forall p edge from to,
      In p (snd (Apt.FindEdgesForHeading apt
                   (HeadingNormalize (positionTy.heading pos))
                   _angleTolerance [] TaxiEdge.UNKNOWN_WAY)) ->
      nth_error (Apt.vecTaxiEdges apt) p = Some edge ->
      travel_nodes apt
        (HeadingNormalize (positionTy.heading pos) >=? ofZ 180)%D edge
      = Some (from, to) ->
      TaxiNode.HasLocalCoords from = true ->
      TaxiNode.HasLocalCoords to = true ->
      isnan (distToLineTy.dist2 (edge_distance pt_x pt_z from to)) = false) ->
  Apt.FindClosestEdge apt pos basePt _maxDist_m _angleTolerance
  = (Some e, basePt') ->
  exists edge from to,
    In e (snd (Apt.FindEdgesForHeading apt
                 (HeadingNormalize (positionTy.heading pos))
                 _angleTolerance [] TaxiEdge.UNKNOWN_WAY))
    /\ nth_error (Apt.vecTaxiEdges apt) e = Some edge
    /\ travel_nodes apt
         (HeadingNormalize (positionTy.heading pos) >=? ofZ 180)%D edge
       = Some (from, to)
    /\ (distToLineTy.dist2 (edge_distance pt_x pt_z from to)
        <? ofZ (sqr _maxDist_m))%D = true
    /\ (distToLineTy.DistSqrOfBaseBeyondLine
          (edge_distance pt_x pt_z from to)
        >? ofZ (sqr _maxDist_m))%D = false
    /\ basePt' = base_point basePt pt_y from to
                   (edge_distance pt_x pt_z from to).
Proof.
  intros Hlocal Hnum. unfold Apt.FindClosestEdge. rewrite Hlocal.
  destruct (Apt.FindEdgesForHeading _ _ _ _ _) as [found lstEdges].
  cbn [snd] in Hnum |- *.
  destruct found; simpl negb; cbv iota; [|discriminate].
  set (inv := (HeadingNormalize (positionTy.heading pos) >=? ofZ 180)%D)
    in *.
  set (st0 := Apt.mkBest None None None _).
  assert (Hinv0 : closest_inv apt inv pt_x pt_z (inject_Z (sqr _maxDist_m))
                    st0).
  { exists (inject_Z (sqr _maxDist_m)). split; [reflexivity|].
    split; [apply Qle_refl|]. discriminate. }
  pose proof (closest_fold_inv apt inv pt_x pt_z (inject_Z (sqr _maxDist_m))
                lstEdges Hnum lstEdges st0 (incl_refl lstEdges) Hinv0)
    as Hinv.
  fold (ofZ (sqr _maxDist_m)) in Hinv.
  set (st := fold_left _ lstEdges st0) in *.
  destruct Hinv as (q & Hq & Hle & Hbest).
  destruct (Apt.bestEdge st) as [e'|] eqn:He; [|discriminate].
  destruct (Hbest e' eq_refl)
    as (edge & from & to & Hedge & Htravel & Hfrom & Hto & Hd & Hlt & Hbey).
  rewrite Hfrom, Hto.
  destruct (DistResultToBaseLoc _ _ _ _ _) as [bx bz] eqn:Hbase.
  destruct (XPLMLocalToWorld _ _ _) as [[lat lon] alt] eqn:Hworld.
  intros Heq. injection Heq as <- <-.
  exists edge, from, to. rewrite <- Hd.
  split.
  { destruct (closest_fold_member apt inv pt_x pt_z _ lstEdges st0 e' He)
      as [Hin|Hnone]; [exact Hin|discriminate Hnone]. }
  split; [exact Hedge|]. split; [exact Htravel|].
  split; [rewrite Hq; apply dlt_Num; exact Hlt|].
  split; [exact Hbey|].
  unfold base_point. now rewrite Hbase, Hworld.
Qed.

(** ** One edge, heading aligned *)

(** The search for the heading of the only edge finds this edge, and nothing
    else. *)
Lemma single_edge_candidates (apt : Apt.t) (edge : TaxiEdge.t) (a q t : Q) :
  Apt.vecTaxiEdges apt = [edge] ->
  TaxiEdge.angle edge = Num a -> 0 <= a < 180 ->
  fold_heading q == a -> 0 <= t ->
  let res := Apt.FindEdgesForHeading apt (Num q) (Num t) []
                                     TaxiEdge.UNKNOWN_WAY in
  fst res = true /\ In 0%nat (snd res)
  /\ Forall (fun p => p = 0%nat) (snd res).
Proof.
  intros Hedges Ha Hrange Halign Ht res.
  assert (Hs : sorted_by_heading (Apt.vecTaxiEdges apt)).
  { rewrite Hedges. apply sorted_by_heading_b_correct. simpl.
    now rewrite Ha. }
  assert (Hin : In 0%nat (snd res)).
  { subst res. apply FindEdgesForHeading_In; [exact Hs|].
    rewrite Hedges, heading_ranges_Num. cbv zeta.
    destruct (Qle_bool 0 (fold_heading q - t)
              && negb (Qle_bool 180 (fold_heading q + t))) eqn:E.
    - exists edge, (Num (fold_heading q - t), Num (fold_heading q + t)).
      split; [reflexivity|]. split; [now left|]. split; [|reflexivity].
      unfold in_window. rewrite Ha. simpl fst. simpl snd.
      apply andb_true_iff. split; apply dle_Num; lra.
    - unfold lower_range_end, upper_range_begin.
      destruct (Qle_bool 0 (fold_heading q - t)) eqn:E0.
      + exists edge, (Num (fold_heading q - t), Num 180).
        split; [reflexivity|]. split; [right; now left|].
        split; [|reflexivity]. unfold in_window. rewrite Ha. simpl fst.
        simpl snd. apply andb_true_iff. split; apply dle_Num; lra.
      + exists edge, (Num 0, Num (fold_heading q + t)).
        split; [reflexivity|]. split; [now left|].
        split; [|reflexivity]. unfold in_window. rewrite Ha. simpl fst.
        simpl snd. apply andb_true_iff. split; apply dle_Num; lra. }
  split; [|split; [exact Hin|]].
  - subst res. unfold Apt.FindEdgesForHeading in *. simpl fst.
    simpl snd in Hin. destruct (fold_left _ _ _); [contradiction|reflexivity].
  - apply Forall_forall. intros p Hp. subst res.
    apply FindEdgesForHeading_In in Hp; [|exact Hs].
    destruct Hp as (e & _ & Hn & _). rewrite Hedges in Hn.
    destruct p as [|p]; [reflexivity|]. destruct p; discriminate.
Qed.

Lemma fold_left_repeated {A : Type} (f : A -> nat -> A) (lst : list nat)
    (st st1 : A) :
  In 0%nat lst -> Forall (fun p => p = 0%nat) lst ->
  f st 0%nat = st1 -> f st1 0%nat = st1 ->
  fold_left f lst st = st1.
Proof.
  intros Hin Hall Hfirst Hagain. destruct lst as [|p lst]; [contradiction|].
  apply Forall_cons_iff in Hall. destruct Hall as [-> Hall].
  simpl. rewrite Hfirst. clear Hin Hfirst.
  induction Hall as [|p lst -> _ IH]; [reflexivity|].
  simpl. now rewrite Hagain.
Qed.

Section OneEdge.
Context `{CoordCalc} `{XPLM}.
Variables (apt : Apt.t) (edge : TaxiEdge.t) (from to : TaxiNode.t).
Variables (pos basePt : positionTy.t) (a q t : Q) (pt_x pt_y pt_z : double).

Hypothesis one_edge : Apt.vecTaxiEdges apt = [edge].
Hypothesis edge_heading : TaxiEdge.angle edge = Num a.
Hypothesis edge_normal : 0 <= a < 180.
Hypothesis pos_heading : HeadingNormalize (positionTy.heading pos) = Num q.
Hypothesis aligned : fold_heading q == a.
Hypothesis tolerance : 0 <= t.
Hypothesis nodes :
  travel_nodes apt (Num q >=? ofZ 180)%D edge = Some (from, to).
Hypothesis from_local : TaxiNode.HasLocalCoords from = true.
Hypothesis to_local : TaxiNode.HasLocalCoords to = true.
Hypothesis pos_local :
  XPLMWorldToLocal (positionTy.lat pos) (positionTy.lon pos)
                   (positionTy.alt_m pos) = (pt_x, pt_y, pt_z).

Lemma one_edge_loop (m : Z) (st1 : Apt.bestTy) :
  let step :=
    Apt.closest_step apt (Num q >=? ofZ 180)%D pt_x pt_z (ofZ (sqr m)) in
  let st0 :=
    Apt.mkBest None None None
      (distToLineTy.set_dist2 distToLineTy.ctor0 (ofZ (sqr m))) in
  step st0 0%nat = st1 -> step st1 0%nat = st1 ->
  Apt.FindClosestEdge apt pos basePt m (Num t)
  = match Apt.bestEdge st1, Apt.bestFrom st1, Apt.bestTo st1 with
    | Some e, Some f, Some g =>
        (Some e, base_point basePt pt_y f g (Apt.bestDist st1))
    | _, _, _ => (None, basePt)
    end.
Proof.
  intros step st0 Hfirst Hagain.
  destruct (single_edge_candidates apt edge a q t one_edge edge_heading
              edge_normal aligned tolerance) as (Hfound & Hin & Hall).
  unfold Apt.FindClosestEdge. rewrite pos_local, pos_heading.
  destruct (Apt.FindEdgesForHeading apt (Num q) (Num t) []
                                    TaxiEdge.UNKNOWN_WAY)
    as [found lst].
  simpl in Hfound, Hin, Hall. subst found. simpl negb. cbv iota.
  fold st0. fold step.
  rewrite (fold_left_repeated step lst st0 st1 Hin Hall Hfirst Hagain).
  destruct (Apt.bestEdge st1); [|reflexivity].
  destruct (Apt.bestFrom st1) as [f|]; [|reflexivity].
  destruct (Apt.bestTo st1) as [g|]; [|reflexivity].
  unfold base_point.
  destruct (DistResultToBaseLoc _ _ _ _ _) as [bx bz].
  destruct (XPLMLocalToWorld _ _ _) as [[lat lon] alt]. reflexivity.
Qed.

Lemma one_edge_step (m : Z) (st : Apt.bestTy) :
  Apt.closest_step apt (Num q >=? ofZ 180)%D pt_x pt_z (ofZ (sqr m)) st 0%nat
  = let dist := edge_distance pt_x pt_z from to in
    if (distToLineTy.dist2 dist >=? distToLineTy.dist2 (Apt.bestDist st))%D
    then st
    else if (distToLineTy.DistSqrOfBaseBeyondLine dist >? ofZ (sqr m))%D
         then st
         else Apt.mkBest (Some 0%nat) (Some from) (Some to) dist.
Proof.
  unfold Apt.closest_step. rewrite one_edge. simpl nth_error.
  pose proof nodes as Hnodes. unfold travel_nodes in Hnodes.
  unfold edge_distance.
  destruct (Num q >=? ofZ 180)%D, (Apt.GetA edge apt) as [f|],
           (Apt.GetB edge apt) as [g|]; try discriminate;
    injection Hnodes as -> ->; rewrite from_local, to_local; reflexivity.
Qed.

(** The position is 3 m off the edge and its base lies on the edge: the
    edge is found; the base point is the one computed from the distance
    result. *)
Lemma FindClosestEdge_lateral_3m :
  let d := edge_distance pt_x pt_z from to in
  (distToLineTy.dist2 d =d= Num 9)%D ->
  (distToLineTy.leg1_len2 d <=? distToLineTy.len2 d)%D = true ->
  (distToLineTy.leg2_len2 d <=? distToLineTy.len2 d)%D = true ->
  Apt.FindClosestEdge apt pos basePt 5 (Num t)
  = (Some 0%nat, base_point basePt pt_y from to d).
Proof.
  intros d Hd Hl1 Hl2.
  apply deq_Num_l in Hd. destruct Hd as (d2 & Hd2 & Hq).
  apply dle_is_Num in Hl1. destruct Hl1 as (l1 & len & Hl1 & Hlen & Hle1).
  apply dle_is_Num in Hl2. destruct Hl2 as (l2 & len' & Hl2 & Hlen' & Hle2).
  assert (len' = len) by congruence. subst len'.
  assert (Hbeyond : (distToLineTy.DistSqrOfBaseBeyondLine d >? ofZ (sqr 5))%D
                    = false).
  { unfold distToLineTy.DistSqrOfBaseBeyondLine, dmax.
    rewrite Hl1, Hl2, Hlen.
    destruct (Num l1 <? Num l2)%D; apply dlt_Num_false;
      change (inject_Z (sqr 5)) with 25; lra. }
  rewrite (one_edge_loop 5 (Apt.mkBest (Some 0%nat) (Some from) (Some to) d)).
  - reflexivity.
  - rewrite one_edge_step. cbv zeta. fold d. rewrite Hbeyond.
    cbn [Apt.bestDist distToLineTy.set_dist2 distToLineTy.dist2].
    rewrite Hd2.
    replace (Num d2 >=? ofZ (sqr 5))%D with false; [reflexivity|].
    symmetry. apply dle_Num_false. change (inject_Z (sqr 5)) with 25. lra.
  - rewrite one_edge_step. cbv zeta. fold d.
    cbn [Apt.bestDist]. rewrite Hd2.
    replace (Num d2 >=? Num d2)%D with true; [reflexivity|].
    symmetry. apply dle_Num. lra.
Qed.

(** The base lies farther beyond the ends of the edge than the maximum
    distance allows: nothing is found. *)
Lemma FindClosestEdge_beyond (m : Z) :
  (distToLineTy.DistSqrOfBaseBeyondLine (edge_distance pt_x pt_z from to)
   >? ofZ (sqr m))%D = true ->
  Apt.FindClosestEdge apt pos basePt m (Num t) = (None, basePt).
Proof.
  intros Hbeyond.
  set (st0 := Apt.mkBest None None None
                (distToLineTy.set_dist2 distToLineTy.ctor0 (ofZ (sqr m)))).
  assert (Hstep : Apt.closest_step apt (Num q >=? ofZ 180)%D pt_x pt_z
                    (ofZ (sqr m)) st0 0%nat = st0).
  { rewrite one_edge_step. cbv zeta. rewrite Hbeyond.
    destruct (distToLineTy.dist2 _ >=? _)%D; reflexivity. }
  rewrite (one_edge_loop m st0 Hstep Hstep). reflexivity.
Qed.

End OneEdge.

(** ** The square of the maximum distance *)

(** The [int] square never exceeds the square, and is the square as long as
    this fits an [int]. *)
Lemma sqr_le (m : Z) : (sqr m <= m * m)%Z.
Proof.
  unfold sqr, int_wrap.
  assert (Hm : (0 <= m * m)%Z) by nia.
  pose proof (Z.mod_le (m * m + 2 ^ 31) (2 ^ 32) ltac:(lia) ltac:(lia)).
  lia.
Qed.

Lemma sqr_exact (m : Z) : (Z.abs m <= 46340)%Z -> sqr m = (m * m)%Z.
Proof.
  intros Hm. unfold sqr, int_wrap.
  assert (Hr : (-46340 <= m <= 46340)%Z) by lia.
  rewrite Z.mod_small; [lia|]. split; nia.
Qed.

(** ** The base is the perpendicular projection *)

Lemma Qsquare_nonneg (u : Q) : 0 <= u * u.
Proof. nra. Qed.

Lemma Qsquare_zero (u : Q) : u * u == 0 -> u == 0.
Proof. intros Hu. nra. Qed.

Lemma deq_Qeq (u : double) (p q : Q) :
  (u =d= Num p)%D -> p == q -> (u =d= Num q)%D.
Proof. destruct u as [|r]; simpl; [tauto|]. intros -> Hq. exact Hq. Qed.

Lemma leg1_of_projection (px pz x1 z1 x2 z2 s bx bz : Q) :
  perpendicular_projection px pz x1 z1 x2 z2 s bx bz ->
  (bx - x1) * (bx - x1) + (bz - z1) * (bz - z1)
  == s * s * ((x2 - x1) * (x2 - x1) + (z2 - z1) * (z2 - z1)).
Proof. intros (Hbx & Hbz & _). rewrite Hbx, Hbz. ring. Qed.

Lemma leg2_of_projection (px pz x1 z1 x2 z2 s bx bz : Q) :
  perpendicular_projection px pz x1 z1 x2 z2 s bx bz ->
  (bx - x2) * (bx - x2) + (bz - z2) * (bz - z2)
  == (1 - s) * (1 - s) * ((x2 - x1) * (x2 - x1) + (z2 - z1) * (z2 - z1)).
Proof. intros (Hbx & Hbz & _). rewrite Hbx, Hbz. ring. Qed.

Section Projection.
Context `{CoordCalc} `{XPLM}.
Variables (apt : Apt.t) (edge : TaxiEdge.t) (from to : TaxiNode.t).
Variables (pos basePt : positionTy.t) (a q t : Q) (pt_y : double).
Variables (px pz x1 z1 x2 z2 s bx bz : Q).

Hypothesis one_edge : Apt.vecTaxiEdges apt = [edge].
Hypothesis edge_heading : TaxiEdge.angle edge = Num a.
Hypothesis edge_normal : 0 <= a < 180.
Hypothesis pos_heading : HeadingNormalize (positionTy.heading pos) = Num q.
Hypothesis aligned : fold_heading q == a.
Hypothesis tolerance : 0 <= t.
Hypothesis nodes :
  travel_nodes apt (Num q >=? ofZ 180)%D edge = Some (from, to).
Hypothesis from_x : TaxiNode.x from = Num x1.
Hypothesis from_z : TaxiNode.z from = Num z1.
Hypothesis to_x : TaxiNode.x to = Num x2.
Hypothesis to_z : TaxiNode.z to = Num z2.
Hypothesis pos_local :
  XPLMWorldToLocal (positionTy.lat pos) (positionTy.lon pos)
                   (positionTy.alt_m pos) = (Num px, pt_y, Num pz).
Hypothesis documented : base_documented px pz x1 z1 x2 z2 bx bz.
Hypothesis projection : perpendicular_projection px pz x1 z1 x2 z2 s bx bz.

Let L : Q := (x2 - x1) * (x2 - x1) + (z2 - z1) * (z2 - z1).

Lemma from_has_local : TaxiNode.HasLocalCoords from = true.
Proof. unfold TaxiNode.HasLocalCoords. now rewrite from_x, from_z. Qed.

Lemma to_has_local : TaxiNode.HasLocalCoords to = true.
Proof. unfold TaxiNode.HasLocalCoords. now rewrite to_x, to_z. Qed.

(** The distance result of the edge, by the documentation. *)
Lemma edge_distance_documented :
  let d := edge_distance (Num px) (Num pz) from to in
  exists l1 l2 len,
    distToLineTy.leg1_len2 d = Num l1 /\ distToLineTy.leg2_len2 d = Num l2
    /\ distToLineTy.len2 d = Num len
    /\ l1 == s * s * L /\ l2 == (1 - s) * (1 - s) * L /\ len == L
    /\ 0 <= L
    /\ (distToLineTy.dist2 d
        =d= DistPythSqr (Num px) (Num pz) (Num bx) (Num bz))%D.
Proof.
  intros d. subst d. unfold edge_distance.
  rewrite from_x, from_z, to_x, to_z.
  destruct documented as (Hd & Hlen & Hl1 & Hl2 & _).
  cbv zeta in Hd, Hlen, Hl1, Hl2.
  apply deq_Num_l in Hlen, Hl1, Hl2.
  destruct Hlen as (len & Hlen & Hqlen), Hl1 as (l1 & Hl1 & Hq1),
           Hl2 as (l2 & Hl2 & Hq2).
  exists l1, l2, len. rewrite Hl1, Hl2, Hlen.
  split; [reflexivity|]. split; [reflexivity|]. split; [reflexivity|].
  pose proof (leg1_of_projection _ _ _ _ _ _ _ _ _ projection) as Hp1.
  pose proof (leg2_of_projection _ _ _ _ _ _ _ _ _ projection) as Hp2.
  fold L in Hp1, Hp2.
  split; [rewrite Hq1; exact Hp1|].
  split; [rewrite Hq2; exact Hp2|].
  split; [rewrite Hqlen; reflexivity|].
  split; [|exact Hd].
  pose proof (Qsquare_nonneg (x2 - x1)). pose proof (Qsquare_nonneg (z2 - z1)).
  unfold L. lra.
Qed.

(** The base point that [FindClosestEdge] writes is the base, in world
    coordinates. *)
Lemma base_point_documented (lat lon alt : double) :
  XPLMLocalToWorld (Num bx) pt_y (Num bz) = (lat, lon, alt) ->
  base_point basePt pt_y from to (edge_distance (Num px) (Num pz) from to)
  = positionTy.mk lat lon (positionTy.alt_m basePt) (positionTy.ts basePt)
      (positionTy.heading basePt) (positionTy.pitch basePt)
      (positionTy.roll basePt) (positionTy.mergeCount basePt)
      (positionTy.onGrnd basePt) (positionTy.unitCoord basePt)
      (positionTy.unitAngle basePt) (positionTy.flightPhase basePt).
Proof.
  intros Hworld. unfold base_point, edge_distance.
  rewrite from_x, from_z, to_x, to_z.
  destruct documented as (_ & _ & _ & _ & Hbase). cbv zeta in Hbase.
  rewrite Hbase, Hworld. reflexivity.
Qed.

(** 3 m off the edge, the base on the edge: the edge is found, and the base
    point is the perpendicular projection. *)
Lemma FindClosestEdge_on_edge (lat lon alt : double) :
  XPLMLocalToWorld (Num bx) pt_y (Num bz) = (lat, lon, alt) ->
  (DistPythSqr (Num px) (Num pz) (Num bx) (Num bz) =d= Num 9)%D ->
  0 <= s <= 1 ->
  Apt.FindClosestEdge apt pos basePt 5 (Num t)
  = (Some 0%nat,
     positionTy.mk lat lon (positionTy.alt_m basePt) (positionTy.ts basePt)
       (positionTy.heading basePt) (positionTy.pitch basePt)
       (positionTy.roll basePt) (positionTy.mergeCount basePt)
       (positionTy.onGrnd basePt) (positionTy.unitCoord basePt)
       (positionTy.unitAngle basePt) (positionTy.flightPhase basePt)).
Proof.
  intros Hworld H3m Hs.
  destruct edge_distance_documented
    as (l1 & l2 & len & Hl1 & Hl2 & Hlen & Hq1 & Hq2 & Hqlen & HL & Hd).
  rewrite <- (base_point_documented lat lon alt Hworld).
  apply (FindClosestEdge_lateral_3m apt edge from to pos basePt a q t
           (Num px) pt_y (Num pz) one_edge edge_heading edge_normal
           pos_heading aligned tolerance nodes from_has_local to_has_local
           pos_local).
  - simpl in H3m, Hd.
    destruct (distToLineTy.dist2 _) as [|d2]; [contradiction|].
    simpl in *. rewrite Hd. exact H3m.
  - rewrite Hl1, Hlen. apply dle_Num. rewrite Hq1, Hqlen.
    assert (Hm : 0 <= (1 - s * s) * L) by (apply Qmult_le_0_compat; nra).
    lra.
  - rewrite Hl2, Hlen. apply dle_Num. rewrite Hq2, Hqlen.
    assert (Hm : 0 <= (1 - (1 - s) * (1 - s)) * L)
      by (apply Qmult_le_0_compat; nra).
    lra.
Qed.

(** The excursion of the base beyond the ends of the edge, when the base
    lies outside of them. *)
Lemma beyond_past_to :
  1 < s ->
  (DistPythSqr (Num x2) (Num z2) (Num bx) (Num bz) =d= Num 36)%D ->
  (distToLineTy.DistSqrOfBaseBeyondLine
     (edge_distance (Num px) (Num pz) from to) >? ofZ (sqr 5))%D = true.
Proof.
  intros Hs H6m.
  destruct edge_distance_documented
    as (l1 & l2 & len & Hl1 & Hl2 & Hlen & Hq1 & Hq2 & Hqlen & HL & _).
  simpl in H6m.
  pose proof (leg2_of_projection _ _ _ _ _ _ _ _ _ projection) as Hp2.
  fold L in Hp2. rewrite Hp2 in H6m.
  assert (HLpos : 0 < L) by nra.
  unfold distToLineTy.DistSqrOfBaseBeyondLine, dmax. rewrite Hl1, Hl2, Hlen.
  replace (Num l1 <? Num l2)%D with false
    by (symmetry; apply dlt_Num_false; rewrite Hq1, Hq2; nra).
  apply dlt_Num. change (inject_Z (sqr 5)) with 25.
  rewrite Hq1, Hqlen. nra.
Qed.

Lemma beyond_before_from :
  s < 0 ->
  (DistPythSqr (Num x1) (Num z1) (Num bx) (Num bz) =d= Num 36)%D ->
  (distToLineTy.DistSqrOfBaseBeyondLine
     (edge_distance (Num px) (Num pz) from to) >? ofZ (sqr 5))%D = true.
Proof.
  intros Hs H6m.
  destruct edge_distance_documented
    as (l1 & l2 & len & Hl1 & Hl2 & Hlen & Hq1 & Hq2 & Hqlen & HL & _).
  simpl in H6m.
  pose proof (leg1_of_projection _ _ _ _ _ _ _ _ _ projection) as Hp1.
  fold L in Hp1. rewrite Hp1 in H6m.
  assert (HLpos : 0 < L) by nra.
  unfold distToLineTy.DistSqrOfBaseBeyondLine, dmax. rewrite Hl1, Hl2, Hlen.
  replace (Num l1 <? Num l2)%D with true
    by (symmetry; apply dlt_Num; rewrite Hq1, Hq2; nra).
  apply dlt_Num. change (inject_Z (sqr 5)) with 25.
  rewrite Hq2, Hqlen. nra.
Qed.

(** 3 m off the line of the edge, the base 6 m past an end of the edge:
    nothing is found. *)
Lemma FindClosestEdge_off_edge :
  (1 < s
   /\ (DistPythSqr (Num x2) (Num z2) (Num bx) (Num bz) =d= Num 36)%D)
  \/ (s < 0
      /\ (DistPythSqr (Num x1) (Num z1) (Num bx) (Num bz) =d= Num 36)%D) ->
  Apt.FindClosestEdge apt pos basePt 5 (Num t) = (None, basePt).
Proof.
  intros Hpast.
  apply (FindClosestEdge_beyond apt edge from to pos basePt a q t
           (Num px) pt_y (Num pz) one_edge edge_heading edge_normal
           pos_heading aligned tolerance nodes from_has_local to_has_local
           pos_local).
  destruct Hpast as [[Hs H6m]|[Hs H6m]];
    [now apply beyond_past_to|now apply beyond_before_from].
Qed.

End Projection.

(** ** The distance functions of the flat world *)

Lemma flat_DistPointToLineSqr_Num (px pz x1 z1 x2 z2 : Q) :
  let L := (x2 - x1) * (x2 - x1) + (z2 - z1) * (z2 - z1) in
  let s := ((px - x1) * (x2 - x1) + (pz - z1) * (z2 - z1)) / L in
  let bx := x1 + s * (x2 - x1) in
  let bz := z1 + s * (z2 - z1) in
  Qeq_bool L 0 = false ->
  flat_DistPointToLineSqr (Num px) (Num pz) (Num x1) (Num z1)
                          (Num x2) (Num z2)
  = distToLineTy.mk
      (Num ((px - bx) * (px - bx) + (pz - bz) * (pz - bz)))
      (Num L)
      (Num ((bx - x1) * (bx - x1) + (bz - z1) * (bz - z1)))
      (Num ((bx - x2) * (bx - x2) + (bz - z2) * (bz - z2))).
Proof.
  intros L s bx bz HL0. subst L s bx bz.
  cbv [flat_DistPointToLineSqr dsub dadd dmul lift2 ddiv].
  rewrite HL0. reflexivity.
Qed.

Lemma flat_DistResultToBaseLoc_Num (x1 z1 x2 z2 d len leg1 leg2 : Q) :
  Qeq_bool (inject_Z 2 * len) 0 = false ->
  flat_DistResultToBaseLoc (Num x1) (Num z1) (Num x2) (Num z2)
    (distToLineTy.mk (Num d) (Num len) (Num leg1) (Num leg2))
  = (Num (Qred (x1 + (len + leg1 - leg2) / (inject_Z 2 * len) * (x2 - x1))),
     Num (Qred (z1 + (len + leg1 - leg2) / (inject_Z 2 * len) * (z2 - z1)))).
Proof.
  intros H2.
  cbv [flat_DistResultToBaseLoc dsub dadd dmul lift2 ddiv ofZ reduced
       distToLineTy.len2 distToLineTy.leg1_len2 distToLineTy.leg2_len2].
  rewrite H2. reflexivity.
Qed.

(** The distance functions of the flat world do what CoordCalc.h documents,
    for every point and every line of a length that is not zero: the base
    that they give is the perpendicular projection of the point. *)
Lemma flat_base_documented (px pz x1 z1 x2 z2 : Q) :
  ~ (x2 - x1) * (x2 - x1) + (z2 - z1) * (z2 - z1) == 0 ->
  exists s bx bz,
    @base_documented flat_world px pz x1 z1 x2 z2 bx bz
    /\ perpendicular_projection px pz x1 z1 x2 z2 s bx bz.
Proof.
  intros HL.
  pose proof (flat_DistPointToLineSqr_Num px pz x1 z1 x2 z2) as Hd.
  cbv zeta in Hd.
  set (L := (x2 - x1) * (x2 - x1) + (z2 - z1) * (z2 - z1)) in *.
  set (s := ((px - x1) * (x2 - x1) + (pz - z1) * (z2 - z1)) / L) in *.
  set (bx := x1 + s * (x2 - x1)) in *.
  set (bz := z1 + s * (z2 - z1)) in *.
  assert (HL0 : Qeq_bool L 0 = false).
  { destruct (Qeq_bool L 0) eqn:E; [|reflexivity].
    apply Qeq_bool_iff in E. contradiction. }
  assert (HL2 : Qeq_bool (inject_Z 2 * L) 0 = false).
  { destruct (Qeq_bool (inject_Z 2 * L) 0) eqn:E; [|reflexivity].
    apply Qeq_bool_iff in E. exfalso. apply HL.
    change (inject_Z 2) with 2 in E. lra. }
  specialize (Hd HL0).
  set (s' := (L + ((bx - x1) * (bx - x1) + (bz - z1) * (bz - z1))
              - ((bx - x2) * (bx - x2) + (bz - z2) * (bz - z2)))
             / (inject_Z 2 * L)).
  assert (Hs' : s' == s).
  { unfold s', bx, bz. change (inject_Z 2) with 2.
    assert (Hdot : s * L == (px - x1) * (x2 - x1) + (pz - z1) * (z2 - z1))
      by (unfold s; field; exact HL).
    transitivity (2 * s * L / (2 * L)); [|field; exact HL].
    apply Qmult_comp; [|reflexivity]. unfold L. ring. }
  assert (Hdot : s * L == (px - x1) * (x2 - x1) + (pz - z1) * (z2 - z1))
    by (unfold s; field; exact HL).
  exists s, (Qred (x1 + s' * (x2 - x1))), (Qred (z1 + s' * (z2 - z1))).
  assert (Hbx : Qred (x1 + s' * (x2 - x1)) == bx).
  { rewrite Qred_correct. unfold bx.
    apply Qplus_comp; [reflexivity|].
    apply Qmult_comp; [exact Hs'|reflexivity]. }
  assert (Hbz : Qred (z1 + s' * (z2 - z1)) == bz).
  { rewrite Qred_correct. unfold bz.
    apply Qplus_comp; [reflexivity|].
    apply Qmult_comp; [exact Hs'|reflexivity]. }
  assert (Hbase :
            flat_DistResultToBaseLoc (Num x1) (Num z1) (Num x2) (Num z2)
              (flat_DistPointToLineSqr (Num px) (Num pz) (Num x1) (Num z1)
                                       (Num x2) (Num z2))
            = (Num (Qred (x1 + s' * (x2 - x1))),
               Num (Qred (z1 + s' * (z2 - z1))))).
  { rewrite Hd. exact (flat_DistResultToBaseLoc_Num _ _ _ _ _ _ _ _ HL2). }
  assert (Hbxdef : bx == x1 + s * (x2 - x1)) by reflexivity.
  assert (Hbzdef : bz == z1 + s * (z2 - z1)) by reflexivity.
  assert (HLdef : L == (x2 - x1) * (x2 - x1) + (z2 - z1) * (z2 - z1))
    by reflexivity.
  generalize dependent (Qred (x1 + s' * (x2 - x1))).
  generalize dependent (Qred (z1 + s' * (z2 - z1))).
  clear Hs'. clearbody s' bx bz s L.
  intros rz Hbz rx Hbx Hbase.
  split.
  - unfold base_documented. cbv zeta.
    change (@DistPointToLineSqr flat_world) with flat_DistPointToLineSqr.
    change (@DistResultToBaseLoc flat_world) with flat_DistResultToBaseLoc.
    split; [|split; [|split; [|split; [|exact Hbase]]]];
      rewrite Hd;
      cbv [distToLineTy.dist2 distToLineTy.len2 distToLineTy.leg1_len2
           distToLineTy.leg2_len2 DistPythSqr pyth2 sqr_d dsub dadd dmul
           lift2 deq];
      rewrite ?Hbx, ?Hbz, ?HLdef; ring.
  - unfold perpendicular_projection. rewrite Hbx, Hbz.
    split; [exact Hbxdef|]. split; [exact Hbzdef|].
    rewrite Hbxdef, Hbzdef.
    transitivity ((px - x1) * (x2 - x1) + (pz - z1) * (z2 - z1)
                  - s * ((x2 - x1) * (x2 - x1) + (z2 - z1) * (z2 - z1)));
      [ring|]. rewrite <- HLdef, Hdot. ring.
Qed.

(** C2, as stated, fails: a position whose latitude is [NaN] has a local
    coordinate that is [NaN], and so is the distance result of every edge;
    neither test of the loop rejects the edge then ([NaN >= 25] and
    [NaN > 25] are false).  Here the position is 400 m past the end of the
    taxiway, and the edge is returned although neither its squared distance
    nor the excursion of the base is within the square of the 5 m. *)
Lemma FindClosestEdge_nan_distance_kept :
  let pos :=
    positionTy.ctor NaN (Num 500) (Num 0) (Num 1000) (Num 90) (Num 0)
      (Num 0) positionTy.GND_ON positionTy.UNIT_WORLD positionTy.UNIT_DEG 0 in
  let d :=
    @edge_distance flat_world (Num 500) NaN
      (TaxiNode.mk (Num 0) (Num 0) (Num 0) (Num 0))
      (TaxiNode.mk (Num 0) (Num 100) (Num 100) (Num 0)) in
  @XPLMWorldToLocal flat_XPLM (positionTy.lat pos) (positionTy.lon pos)
    (positionTy.alt_m pos) = (Num 500, Num 0, NaN)
  /\ fst (@Apt.FindClosestEdge flat_world flat_XPLM apt_taxi_east pos pos 5
            (Num 30)) = Some 0%nat
  /\ (distToLineTy.dist2 d <=? ofZ (sqr 5))%D = false
  /\ (distToLineTy.DistSqrOfBaseBeyondLine d <=? ofZ (sqr 5))%D = false.
Proof. vm_compute. repeat split. Qed.

(** C2 (amended): with the squared distances computed for the edges being
    numbers, [FindClosestEdge] returns an edge only if the squared distance
    of the point to it is below the square of the maximum distance and the
    excursion of the base beyond the ends of the edge
    ([DistSqrOfBaseBeyondLine]) does not exceed this square (the [int]
    square, which never exceeds the square); [basePt] then gets the
    latitude and longitude of the base location of this edge and keeps its
    other members.  For the only edge of an airport, with local
    coordinates, a heading aligned with it and a maximum distance of 5 m,
    the distance functions doing what CoordCalc.h documents: a position
    3 m off the edge whose perpendicular projection lies on the edge finds
    the edge, and the base point is the perpendicular projection; a
    position 3 m off whose perpendicular projection lies 6 m past an end
    of the edge finds nothing. *)
Theorem FindClosestEdge_tolerance `{CoordCalc} `{XPLM} :
  (forall (apt : Apt.t) (pos basePt : positionTy.t) (_maxDist_m : Z)
          (_angleTolerance pt_x pt_y pt_z : double) (e : nat)
          (basePt' : positionTy.t),
      XPLMWorldToLocal (positionTy.lat pos) (positionTy.lon pos)
                       (positionTy.alt_m pos) = (pt_x, pt_y, pt_z) ->
      (forall p edge from to,
          In p (snd (Apt.FindEdgesForHeading apt
                       (HeadingNormalize (positionTy.heading pos))
                       _angleTolerance [] TaxiEdge.UNKNOWN_WAY)) ->
          nth_error (Apt.vecTaxiEdges apt) p = Some edge ->
          travel_nodes apt
            (HeadingNormalize (positionTy.heading pos) >=? ofZ 180)%D edge
          = Some (from, to) ->
          TaxiNode.HasLocalCoords from = true ->
          TaxiNode.HasLocalCoords to = true ->
          isnan (distToLineTy.dist2 (edge_distance pt_x pt_z from to))
          = false) ->
      Apt.FindClosestEdge apt pos basePt _maxDist_m _angleTolerance
      = (Some e, basePt') ->
      exists edge from to,
        In e (snd (Apt.FindEdgesForHeading apt
                     (HeadingNormalize (positionTy.heading pos))
                     _angleTolerance [] TaxiEdge.UNKNOWN_WAY))
        /\ nth_error (Apt.vecTaxiEdges apt) e = Some edge
        /\ travel_nodes apt
             (HeadingNormalize (positionTy.heading pos) >=? ofZ 180)%D edge
           = Some (from, to)
        /\ (distToLineTy.dist2 (edge_distance pt_x pt_z from to)
            <? ofZ (sqr _maxDist_m))%D = true
        /\ (distToLineTy.DistSqrOfBaseBeyondLine
              (edge_distance pt_x pt_z from to)
            >? ofZ (sqr _maxDist_m))%D = false
        /\ (sqr _maxDist_m <= _maxDist_m * _maxDist_m)%Z
        /\ exists bx bz lat lon alt,
             DistResultToBaseLoc (TaxiNode.x from) (TaxiNode.z from)
                                 (TaxiNode.x to) (TaxiNode.z to)
                                 (edge_distance pt_x pt_z from to)
             = (bx, bz)
             /\ XPLMLocalToWorld bx pt_y bz = (lat, lon, alt)
             /\ basePt'
                = positionTy.mk lat lon (positionTy.alt_m basePt)
                    (positionTy.ts basePt) (positionTy.heading basePt)
                    (positionTy.pitch basePt) (positionTy.roll basePt)
                    (positionTy.mergeCount basePt)
                    (positionTy.onGrnd basePt)
                    (positionTy.unitCoord basePt)
                    (positionTy.unitAngle basePt)
                    (positionTy.flightPhase basePt))
  /\ (forall (apt : Apt.t) (edge : TaxiEdge.t) (from to : TaxiNode.t)
             (pos basePt : positionTy.t) (a q t : Q) (pt_y : double)
             (px pz x1 z1 x2 z2 s bx bz : Q) (lat lon alt : double),
         Apt.vecTaxiEdges apt = [edge] ->
         TaxiEdge.angle edge = Num a -> 0 <= a < 180 ->
         HeadingNormalize (positionTy.heading pos) = Num q ->
         fold_heading q == a -> 0 <= t ->
         travel_nodes apt (Num q >=? ofZ 180)%D edge = Some (from, to) ->
         TaxiNode.x from = Num x1 -> TaxiNode.z from = Num z1 ->
         TaxiNode.x to = Num x2 -> TaxiNode.z to = Num z2 ->
         XPLMWorldToLocal (positionTy.lat pos) (positionTy.lon pos)
                          (positionTy.alt_m pos) = (Num px, pt_y, Num pz) ->
         base_documented px pz x1 z1 x2 z2 bx bz ->
         perpendicular_projection px pz x1 z1 x2 z2 s bx bz ->
         XPLMLocalToWorld (Num bx) pt_y (Num bz) = (lat, lon, alt) ->
         (DistPythSqr (Num px) (Num pz) (Num bx) (Num bz) =d= Num 9)%D ->
         (0 <= s <= 1 ->
          Apt.FindClosestEdge apt pos basePt 5 (Num t)
          = (Some 0%nat,
             positionTy.mk lat lon (positionTy.alt_m basePt)
               (positionTy.ts basePt) (positionTy.heading basePt)
               (positionTy.pitch basePt) (positionTy.roll basePt)
               (positionTy.mergeCount basePt) (positionTy.onGrnd basePt)
               (positionTy.unitCoord basePt) (positionTy.unitAngle basePt)
               (positionTy.flightPhase basePt)))
         /\ ((1 < s
              /\ (DistPythSqr (Num x2) (Num z2) (Num bx) (Num bz)
                  =d= Num 36)%D)
             \/ (s < 0
                 /\ (DistPythSqr (Num x1) (Num z1) (Num bx) (Num bz)
                     =d= Num 36)%D) ->
             Apt.FindClosestEdge apt pos basePt 5 (Num t)
             = (None, basePt))).
Proof.
  split.
  - intros apt pos basePt m tol pt_x pt_y pt_z e basePt' Hlocal Hnum Hres.
    destruct (FindClosestEdge_within apt pos basePt m tol pt_x pt_y pt_z e
                basePt' Hlocal Hnum Hres)
      as (edge & from & to & Hcand & Hedge & Htravel & Hd & Hbeyond & Hbase).
    exists edge, from, to. split; [exact Hcand|].
    split; [exact Hedge|]. split; [exact Htravel|]. split; [exact Hd|].
    split; [exact Hbeyond|]. split; [apply sqr_le|].
    unfold base_point in Hbase.
    destruct (DistResultToBaseLoc _ _ _ _ _) as [bx bz] eqn:Hloc.
    destruct (XPLMLocalToWorld bx pt_y bz) as [[lat lon] alt] eqn:Hworld.
    exists bx, bz, lat, lon, alt.
    split; [reflexivity|]. split; [exact Hworld|]. rewrite Hbase.
    reflexivity.
  - intros apt edge from to pos basePt a q t pt_y px pz x1 z1 x2 z2 s bx bz
           lat lon alt Hone Hangle Hnormal Hhead Halign Htol Hnodes
           Hfx Hfz Htx Htz Hlocal Hdoc Hproj Hworld H3m.
    split.
    + intros Hs.
      exact (FindClosestEdge_on_edge apt edge from to pos basePt a q t pt_y
               px pz x1 z1 x2 z2 s bx bz Hone Hangle Hnormal Hhead Halign
               Htol Hnodes Hfx Hfz Htx Htz Hlocal Hdoc Hproj lat lon alt
               Hworld H3m Hs).
    + exact (FindClosestEdge_off_edge apt edge from to pos basePt a q t pt_y
               px pz x1 z1 x2 z2 s bx bz Hone Hangle Hnormal Hhead Halign
               Htol Hnodes Hfx Hfz Htx Htz Hlocal Hdoc Hproj).
Qed.

Lemma FindClosestEdge_tolerance_example :
  @Apt.FindClosestEdge flat_world flat_XPLM apt_taxi_east
    (pos_east 3 40) (pos_east 3 40) 5 (Num 30)
  = (Some 0%nat,
     positionTy.mk (Num 0) (Num 40) (Num 0) (Num 1000) (Num 90) (Num 0)
       (Num 0) 1 positionTy.GND_ON positionTy.UNIT_WORLD
       positionTy.UNIT_DEG 0)
  /\ @Apt.FindClosestEdge flat_world flat_XPLM apt_taxi_east
       (pos_east 3 106) (pos_east 3 106) 5 (Num 30)
     = (None, pos_east 3 106).
Proof.
  assert (Hrange : 0 <= 90 < 180)
    by (split; [vm_compute; discriminate|reflexivity]).
  assert (Halign : fold_heading 90 == 90) by reflexivity.
  assert (Htol : 0 <= 30) by (vm_compute; discriminate).
  split.
  - refine (proj1 (proj2 (@FindClosestEdge_tolerance flat_world flat_XPLM)
                     apt_taxi_east _ _ _ (pos_east 3 40) (pos_east 3 40)
                     90 90 30 (Num 0) 40 (-3) 0 0 100 0 (2 # 5) 40 0
                     (Num 0) (Num 40) (Num 0)
                     eq_refl eq_refl Hrange eq_refl Halign Htol
                     eq_refl eq_refl eq_refl eq_refl eq_refl eq_refl
                     _ _ eq_refl _) _).
    + vm_compute. repeat split.
    + vm_compute. repeat split.
    + reflexivity.
    + split; vm_compute; discriminate.
  - refine (proj2 (proj2 (@FindClosestEdge_tolerance flat_world flat_XPLM)
                     apt_taxi_east _ _ _ (pos_east 3 106) (pos_east 3 106)
                     90 90 30 (Num 0) 106 (-3) 0 0 100 0 (106 # 100)
                     106 0 (Num 0) (Num 106) (Num 0)
                     eq_refl eq_refl Hrange eq_refl Halign Htol
                     eq_refl eq_refl eq_refl eq_refl eq_refl eq_refl
                     _ _ eq_refl _) _).
    + vm_compute. repeat split.
    + vm_compute. repeat split.
    + reflexivity.
    + left. split; [reflexivity|reflexivity].
Defined.

(** ** Airports that reach the map are valid *)

Lemma map_emplace_In (m : mapAptTy) (key : string) (apt : Apt.t)
    (p : string * Apt.t) :
  In p (map_emplace m key apt) -> In p m \/ p = (key, apt).
Proof.
  induction m as [|[k v] m IH]; simpl.
  - intros [<-|[]]. now right.
  - destruct (String.eqb key k); [now left|].
    destruct (String.ltb key k).
    + intros [<-|Hin]; [now right|now left].
    + intros [<-|Hin]; [left; now left|].
      destruct (IH Hin) as [Hm|Hp]; [left; now right|now right].
Qed.

Lemma sort_insert_not_nil (e : TaxiEdge.t) (sorted : list TaxiEdge.t) :
  sort_insert e sorted <> [].
Proof.
  destruct sorted as [|e' rest]; simpl; [discriminate|].
  destruct (TaxiEdge.CompHeadLess e e'); discriminate.
Qed.

Lemma sort_fold_not_empty (v acc : list TaxiEdge.t) :
  acc <> [] ->
  Apt.empty (fold_left (fun acc e => sort_insert e acc) v acc) = false.
Proof.
  revert acc. induction v as [|e v IH]; intros acc Hacc; simpl.
  - destruct acc; [contradiction|reflexivity].
  - apply IH, sort_insert_not_nil.
Qed.

Lemma sort_edges_empty (v : list TaxiEdge.t) :
  Apt.empty (sort_edges v) = Apt.empty v.
Proof.
  unfold sort_edges. destruct v as [|e v]; [reflexivity|].
  cbn [fold_left Apt.empty]. apply sort_fold_not_empty, sort_insert_not_nil.
Qed.

(** What [AddApt] stores is still a valid airport. *)
Lemma AddApt_In `{CoordCalc} `{Settings} (gmapApt : mapAptTy) (apt : Apt.t)
    (key : string) (a : Apt.t) :
  Apt.IsValid apt = true ->
  In (key, a) (AddApt gmapApt apt) ->
  In (key, a) gmapApt \/ Apt.IsValid a = true.
Proof.
  intros Hvalid Hin. unfold AddApt in Hin.
  apply map_emplace_In in Hin. destruct Hin as [Hin|Heq]; [now left|].
  right. injection Heq as _ ->.
  unfold Apt.IsValid, Apt.HasId, Apt.HasTaxiWays, Apt.HasRwyEndpoints in *.
  cbn [Apt.id Apt.vecTaxiEdges Apt.vecRwyEndPts Apt.set_vecTaxiEdges
       Apt.EnlargeBounds_m Apt.set_bounds] in *.
  now rewrite sort_edges_empty.
Qed.

Section Reading.
Context `{CoordCalc} `{Settings} `{TextIO}.

(** A round of the reader leaves the map as it is, or adds the airport in
    progress, which then is valid. *)
Lemma read_round_map (box : boundingBoxTy.t) (st st' : readerTy) :
  read_round box st = Ret st' ->
  r_gmapApt st' = r_gmapApt st
  \/ (Apt.IsValid (r_apt st) = true
      /\ r_gmapApt st' = AddApt (r_gmapApt st) (r_apt st)).
Proof.
  unfold read_round.
  destruct (if r_bProcessGivenLn st then (r_fIn st, r_ln st)
            else safeGetline (r_fIn st)) as [fIn ln].
  destruct (String.length ln =? 0)%nat.
  { intros Heq. injection Heq as <-. now left. }
  destruct (is_airport_line ln).
  { intros Heq. injection Heq as <-. unfold begin_airport.
    cbn [r_apt r_gmapApt].
    destruct (Apt.IsValid (r_apt st)) eqn:Hv; [right|left]; now simpl. }
  cbn [r_apt r_gmapApt r_fIn].
  destruct (Apt.HasId (r_apt st) && is_runway_line ln).
  { unfold read_runway. cbn [r_apt r_gmapApt r_fIn].
    destruct (List.length _ =? 26)%nat;
      [|intros Heq; injection Heq as <-; now left].
    destruct (stod (field _ 9)) as [lat|]; [|discriminate].
    destruct (stod (field _ 10)) as [lon|]; [|discriminate].
    cbn [try_ bind].
    destruct (_ && _ && _ && _);
      [|intros Heq; injection Heq as <-; now left].
    destruct (Apt.HasTaxiWays (r_apt st) || _);
      [|intros Heq; injection Heq as <-; now left].
    destruct (stod (field _ 11)); [|discriminate].
    destruct (stod (field _ 18)); [|discriminate].
    destruct (stod (field _ 19)); [|discriminate].
    destruct (stod (field _ 20)); [|discriminate].
    cbn [try_ bind]. intros Heq. injection Heq as <-. now left. }
  destruct (Apt.HasRwyEndpoints (r_apt st) && is_taxi_line ln).
  { destruct (ReadOneTaxiLine fIn (r_apt st)) as [[[fIn' apt'] ln']|];
      [|discriminate].
    cbn [bind]. intros Heq. injection Heq as <-. now left. }
  intros Heq. injection Heq as <-. now left.
Qed.

Lemma read_loop_valid (stop : nat) (box : boundingBoxTy.t) (st : readerTy)
    (gmap0 : mapAptTy) :
  (forall key a, In (key, a) (r_gmapApt st) ->
                 In (key, a) gmap0 \/ Apt.IsValid a = true) ->
  forall key a,
    In (key, a) (fst (read_loop stop box st)) ->
    In (key, a) gmap0 \/ Apt.IsValid a = true.
Proof.
  assert (Hflush : forall st,
             (forall key a, In (key, a) (r_gmapApt st) ->
                            In (key, a) gmap0 \/ Apt.IsValid a = true) ->
             forall key a, In (key, a) (flush_airport st) ->
                           In (key, a) gmap0 \/ Apt.IsValid a = true).
  { intros st1 Hst key a. unfold flush_airport.
    destruct (Apt.IsValid (r_apt st1)) eqn:Hv; [|apply Hst].
    intros Hin. apply (AddApt_In _ _ _ _ Hv) in Hin.
    destruct Hin as [Hin|Ha]; [now apply Hst|now right]. }
  revert st. induction stop as [|stop IH]; intros st Hst key a.
  - simpl. now apply Hflush.
  - simpl. destruct (r_bProcessGivenLn st || good (r_fIn st));
      [|simpl; now apply Hflush].
    destruct (read_round box st) as [st'|] eqn:Hround;
      [|simpl; apply Hst].
    apply IH. intros key' a' Hin.
    destruct (read_round_map box st st' Hround) as [Heq|[Hv Heq]];
      rewrite Heq in Hin; [now apply Hst|].
    apply (AddApt_In _ _ _ _ Hv) in Hin.
    destruct Hin as [Hin|Ha]; [now apply Hst|now right].
Qed.

End Reading.

(** C8: every airport that [ReadOneAptFile] adds to the map of airports is
    valid: it has an id, at least one edge and at least one runway endpoint.
    At an airport header the airport in progress is added to the map when
    it is valid; when it is not, it is discarded: the map stays as it is
    and the airport in progress is a new, empty one, with the id of the
    header or none.  When the input has ended, the last airport is added
    when it is valid, and the map stays as it is when it is not.  What
    [AddApt] stores of a valid airport is valid. *)
Theorem ReadOneAptFile_adds_valid `{CoordCalc} `{Settings} `{TextIO} :
  (forall (stop : nat) (gmapApt : mapAptTy) (fIn : ifstream)
          (box : boundingBoxTy.t) (key : string) (a : Apt.t),
      In (key, a) (fst (ReadOneAptFile stop gmapApt fIn box)) ->
      In (key, a) gmapApt \/ Apt.IsValid a = true)
  /\ (forall (box : boundingBoxTy.t) (st : readerTy),
         is_airport_line (next_line st) = true ->
         exists st',
           read_round box st = Ret st'
           /\ (Apt.IsValid (r_apt st) = true ->
               r_gmapApt st' = AddApt (r_gmapApt st) (r_apt st))
           /\ (Apt.IsValid (r_apt st) = false ->
               r_gmapApt st' = r_gmapApt st
               /\ exists id,
                    r_apt st' = Apt.ctor id
                    /\ (id = EmptyString
                        \/ id = field (str_tokenize (next_line st)
                                                    delimiters true) 4))
           /\ Apt.vecTaxiNodes (r_apt st') = []
           /\ Apt.vecRwyEndPts (r_apt st') = []
           /\ Apt.vecTaxiEdges (r_apt st') = [])
  /\ (forall (stop : nat) (box : boundingBoxTy.t) (st : readerTy),
         r_bProcessGivenLn st = false -> good (r_fIn st) = false ->
         (Apt.IsValid (r_apt st) = true ->
          read_loop stop box st
          = (AddApt (r_gmapApt st) (r_apt st), false))
         /\ (Apt.IsValid (r_apt st) = false ->
             read_loop stop box st = (r_gmapApt st, false)))
  /\ (forall (gmapApt : mapAptTy) (apt : Apt.t) (key : string) (a : Apt.t),
         Apt.IsValid apt = true ->
         In (key, a) (AddApt gmapApt apt) ->
         In (key, a) gmapApt \/ Apt.IsValid a = true).
Proof.
  split; [|split; [|split]].
  - intros stop gmapApt fIn box key a. unfold ReadOneAptFile.
    apply read_loop_valid. cbn [r_gmapApt]. intros k v Hin. now left.
  - intros box st Hline. unfold read_round.
    assert (Hget : (if r_bProcessGivenLn st then (r_fIn st, r_ln st)
                    else safeGetline (r_fIn st))
                   = (fst (if r_bProcessGivenLn st then (r_fIn st, r_ln st)
                           else safeGetline (r_fIn st)), next_line st)).
    { unfold next_line. destruct (r_bProcessGivenLn st); [reflexivity|].
      destruct (safeGetline (r_fIn st)); reflexivity. }
    rewrite Hget. clear Hget.
    set (fIn := fst _). set (ln := next_line st) in *.
    assert (Hlen : (String.length ln =? 0)%nat = false).
    { unfold is_airport_line in Hline.
      apply andb_true_iff in Hline. destruct Hline as [Hline _].
      apply andb_true_iff in Hline. destruct Hline as [Hline _].
      apply Nat.ltb_lt in Hline. apply Nat.eqb_neq. lia. }
    rewrite Hlen, Hline. eexists. split; [reflexivity|].
    unfold begin_airport. cbn [r_apt r_gmapApt r_fIn].
    destruct (Apt.IsValid (r_apt st)) eqn:Hv.
    + split; [reflexivity|]. split; [discriminate|].
      destruct (_ && _); cbn [r_apt]; repeat split.
    + split; [discriminate|].
      destruct (_ && _); cbn [r_apt r_gmapApt];
        (split; [intros _; split; [reflexivity|]|repeat split]).
      * eexists. split; [reflexivity|]. now right.
      * eexists. split; [reflexivity|]. now left.
  - intros stop box st Hgiven Hgood.
    assert (Hloop : read_loop stop box st = (flush_airport st, false)).
    { destruct stop; simpl; [reflexivity|]. now rewrite Hgiven, Hgood. }
    rewrite Hloop. unfold flush_airport.
    split; intros ->; reflexivity.
  - intros gmapApt apt key a. apply AddApt_In.
Qed.

Lemma ReadOneAptFile_adds_valid_example :
  (exists a, fst sample_read = [("TEST"%string, a)]
             /\ Apt.IsValid a = true)
  /\ exists st',
       @read_round flat_world test_settings test_TextIO sample_box
         reader_before_header = Ret st'
       /\ r_gmapApt st' = []
       /\ r_apt st' = Apt.ctor "TEST".
Proof.
  split.
  - unfold sample_read.
    assert (Hkeys : List.map fst
                      (fst (@ReadOneAptFile flat_world test_settings
                              test_TextIO 100 []
                              (mkStream sample_apt_dat true) sample_box))
                    = ["TEST"%string])
      by (vm_compute; reflexivity).
    pose proof (proj1 (@ReadOneAptFile_adds_valid flat_world test_settings
                         test_TextIO)
                  100%nat [] (mkStream sample_apt_dat true) sample_box)
      as Hvalid.
    revert Hkeys Hvalid.
    destruct (fst (@ReadOneAptFile flat_world test_settings test_TextIO 100
                     [] (mkStream sample_apt_dat true) sample_box))
      as [|[key a] rest]; [discriminate|].
    destruct rest; [|discriminate]. intros Hkeys Hvalid.
    injection Hkeys as ->.
    exists a. split; [reflexivity|].
    destruct (Hvalid "TEST"%string a (or_introl eq_refl)) as [[]|Ha].
    exact Ha.
  - destruct (proj1 (proj2 (@ReadOneAptFile_adds_valid flat_world
                              test_settings test_TextIO))
                sample_box reader_before_header eq_refl)
      as (st' & Hround & _ & Hinvalid & _).
    destruct (Hinvalid eq_refl) as (Hmap & id & Hapt & Hid).
    exists st'. split; [exact Hround|]. split; [exact Hmap|].
    rewrite Hapt. f_equal.
    destruct Hid as [->| ->]; [|reflexivity].
    exfalso. vm_compute in Hround. injection Hround as <-.
    discriminate Hapt.
Defined.

(** ** The runway selector *)

Section Selector.
Context `{CoordCalc} `{Settings}.
Variable _ac : LTAircraft.t.

Let from := LTAircraft.GetToPos _ac.
Let inv := snd (headSearch_of _ac).
Let step :=
  candidate_step from inv (speed_of _ac) (vsi_min_of _ac) (vsi_max_of _ac).

(** The two nested loops are one loop over the candidates. *)
Lemma LTAptFindRwy_best_candidates (gmapApt : mapAptTy) :
  LTAptFindRwy_best gmapApt _ac
  = fold_left step (rwy_candidates gmapApt (fst (headSearch_of _ac)))
      (mkBestRwy None None None ART_RWY_MAX_HEAD_DIFF NaN).
Proof.
  unfold LTAptFindRwy_best, step, inv, from.
  destruct (headSearch_of _ac) as [headSearch bHeadInverted].
  cbn [fst snd].
  generalize (mkBestRwy None None None ART_RWY_MAX_HEAD_DIFF NaN).
  induction gmapApt as [|[key apt] m IH]; intros st; [reflexivity|].
  cbn [fold_left rwy_candidates flat_map]. rewrite fold_left_app, IH.
  f_equal. unfold apt_step. cbn [fst snd].
  unfold Apt.FindEdgesForHeading. cbn [fst snd].
  set (lst := fold_left _ _ []).
  assert (Hmap : forall (l : list nat) (s : bestRwyTy),
             fold_left
               (candidate_step (LTAircraft.GetToPos _ac) bHeadInverted
                  (speed_of _ac) (vsi_min_of _ac) (vsi_max_of _ac))
               (List.map (fun e => (key, apt, e)) l) s
             = fold_left
                 (rwy_step (LTAircraft.GetToPos _ac) bHeadInverted
                    (speed_of _ac) (vsi_min_of _ac) (vsi_max_of _ac) key apt)
                 l s).
  { induction l as [|e l IHl]; intros s; [reflexivity|]. simpl.
    apply IHl. }
  rewrite Hmap. destruct lst; reflexivity.
Qed.

(** One round: either the best match stays, or the candidate becomes the
    best match, and then it passed every test. *)
Lemma step_cases (st : bestRwyTy) (c : string * Apt.t * nat) :
  step st c = st
  \/ exists edge ep,
       nth_error (Apt.vecTaxiEdges (snd (fst c))) (snd c) = Some edge
       /\ candidate_endpoint inv c = Some ep
       /\ isnan (RwyEndPt.alt_m ep) = false
       /\ (heading_deviation from ep >? bestHeadingDiff st)%D = false
       /\ candidate_outside _ac ep = false
       /\ step st c
          = mkBestRwy (Some (fst (fst c))) (Some edge) (Some ep)
              (heading_deviation from ep)
              (positionTy.ts from + flying_time from (speed_of _ac) ep)%D.
Proof.
  destruct c as [[key apt] e]. unfold step, candidate_step, rwy_step,
    candidate_endpoint, candidate_outside, outside_envelope.
  cbn [fst snd]. fold from.
  destruct (nth_error (Apt.vecTaxiEdges apt) e) as [edge|]; [|now left].
  destruct (aimed_endpoint inv apt edge) as [ep|]; [|now left].
  destruct (isnan (RwyEndPt.alt_m ep)) eqn:Halt; [now left|].
  destruct (heading_deviation from ep >? bestHeadingDiff st)%D eqn:Hdev;
    [now left|].
  destruct ((implied_vsi from (speed_of _ac) ep <? vsi_min_of _ac)%D
            || (implied_vsi from (speed_of _ac) ep >? vsi_max_of _ac)%D)
    eqn:Hvsi; [now left|].
  right. exists edge, ep. repeat split; try assumption; reflexivity.
Qed.

(** What holds of the best match: it is a candidate with a known altitude
    and a vertical speed inside the range. *)
Lemma fold_step_best (cs : list (string * Apt.t * nat)) (st : bestRwyTy)
    (P : option string -> option TaxiEdge.t -> RwyEndPt.t -> Prop) :
  (forall ep, bestRwyEndPt st = Some ep -> P (bestApt st) (bestRwy st) ep) ->
  (forall c edge ep,
      In c cs ->
      nth_error (Apt.vecTaxiEdges (snd (fst c))) (snd c) = Some edge ->
      candidate_endpoint inv c = Some ep ->
      isnan (RwyEndPt.alt_m ep) = false ->
      candidate_outside _ac ep = false ->
      P (Some (fst (fst c))) (Some edge) ep) ->
  forall ep,
    bestRwyEndPt (fold_left step cs st) = Some ep ->
    P (bestApt (fold_left step cs st)) (bestRwy (fold_left step cs st)) ep.
Proof.
  revert st. induction cs as [|c cs IH]; intros st Hst Hcs; [exact Hst|].
  cbn [fold_left]. apply IH.
  - destruct (step_cases st c)
      as [->|(edge & ep & Hedge & Hep & Halt & _ & Hin & ->)];
      [exact Hst|].
    cbn [bestRwyEndPt bestApt bestRwy]. intros ep' Heq.
    injection Heq as <-. apply (Hcs c edge ep); auto. now left.
  - intros c' edge ep Hin. apply Hcs. now right.
Qed.

(** When every candidate is outside the range, nothing is selected. *)
Lemma fold_step_all_outside (cs : list (string * Apt.t * nat))
    (st : bestRwyTy) :
  Forall (fun c => forall ep, candidate_endpoint inv c = Some ep ->
                              isnan (RwyEndPt.alt_m ep) = false ->
                              candidate_outside _ac ep = true) cs ->
  fold_left step cs st = st.
Proof.
  intros Hall. revert st.
  induction Hall as [|c cs Hc _ IH]; intros st; [reflexivity|].
  cbn [fold_left].
  destruct (step_cases st c)
    as [->|(edge & ep & _ & Hep & Halt & _ & Hin & _)]; [apply IH|].
  rewrite (Hc ep Hep Halt) in Hin. discriminate.
Qed.

End Selector.

Section SelectorCases.
Context `{CoordCalc} `{Settings}.
Variable _ac : LTAircraft.t.

Let from := LTAircraft.GetToPos _ac.
Let inv := snd (headSearch_of _ac).
Let step :=
  candidate_step from inv (speed_of _ac) (vsi_min_of _ac) (vsi_max_of _ac).

Lemma step_accepts (st : bestRwyTy) (c : string * Apt.t * nat)
    (edge : TaxiEdge.t) (ep : RwyEndPt.t) :
  nth_error (Apt.vecTaxiEdges (snd (fst c))) (snd c) = Some edge ->
  candidate_endpoint inv c = Some ep ->
  isnan (RwyEndPt.alt_m ep) = false ->
  (heading_deviation from ep >? bestHeadingDiff st)%D = false ->
  candidate_outside _ac ep = false ->
  step st c
  = mkBestRwy (Some (fst (fst c))) (Some edge) (Some ep)
      (heading_deviation from ep)
      (positionTy.ts from + flying_time from (speed_of _ac) ep)%D.
Proof.
  destruct c as [[key apt] e]. unfold step, candidate_step, rwy_step,
    candidate_endpoint, candidate_outside, outside_envelope.
  cbn [fst snd]. fold from. intros Hedge Hep Halt Hdev Hin.
  rewrite Hedge in Hep |- *. cbv beta iota in Hep |- *.
  now rewrite Hep, Halt, Hdev, Hin.
Qed.

Lemma step_rejects (st : bestRwyTy) (c : string * Apt.t * nat) :
  (forall ep, candidate_endpoint inv c = Some ep ->
              isnan (RwyEndPt.alt_m ep) = false ->
              candidate_outside _ac ep = true) ->
  step st c = st.
Proof.
  intros Hout.
  apply (fold_step_all_outside _ac [c] st). constructor; [exact Hout|].
  constructor.
Qed.

(** Of two candidates, one inside the range and within the maximum heading
    difference, the other outside the range: the one inside is selected, in
    either order. *)
Lemma fold_step_two (c1 c2 : string * Apt.t * nat) (edge1 : TaxiEdge.t)
    (ep1 : RwyEndPt.t) (cs : list (string * Apt.t * nat)) :
  cs = [c1; c2] \/ cs = [c2; c1] ->
  nth_error (Apt.vecTaxiEdges (snd (fst c1))) (snd c1) = Some edge1 ->
  candidate_endpoint inv c1 = Some ep1 ->
  isnan (RwyEndPt.alt_m ep1) = false ->
  (heading_deviation from ep1 >? ART_RWY_MAX_HEAD_DIFF)%D = false ->
  candidate_outside _ac ep1 = false ->
  (forall ep2, candidate_endpoint inv c2 = Some ep2 ->
               isnan (RwyEndPt.alt_m ep2) = false ->
               candidate_outside _ac ep2 = true) ->
  fold_left step cs (mkBestRwy None None None ART_RWY_MAX_HEAD_DIFF NaN)
  = mkBestRwy (Some (fst (fst c1))) (Some edge1) (Some ep1)
      (heading_deviation from ep1)
      (positionTy.ts from + flying_time from (speed_of _ac) ep1)%D.
Proof.
  intros [-> | ->] Hedge Hep Halt Hdev Hin Hout; cbn [fold_left].
  - rewrite (step_accepts
               (mkBestRwy None None None ART_RWY_MAX_HEAD_DIFF NaN)
               c1 edge1 ep1 Hedge Hep Halt Hdev Hin).
    apply step_rejects, Hout.
  - rewrite (step_rejects _ c2 Hout).
    exact (step_accepts
             (mkBestRwy None None None ART_RWY_MAX_HEAD_DIFF NaN)
             c1 edge1 ep1 Hedge Hep Halt Hdev Hin).
Qed.

End SelectorCases.

(** C4, as stated, fails: the aircraft flies north-east (45 degrees) and two
    runways of heading 45 degrees have their thresholds due north of it, so
    both are candidates with a heading deviation of 45 degrees; the first
    needs -5 m/s, inside the range from -6.096 to -1.524 m/s, the second
    -0.25 m/s, outside of it.  The deviation exceeds the maximum heading
    difference (10 degrees here), and no runway is returned. *)
Lemma LTAptFindRwy_inside_but_off_heading :
  let _ac := aircraft_heading 45 in
  let from := LTAircraft.GetToPos _ac in
  let c1 := ("RWYS"%string, apt_two_runways 45 1000, 0%nat) in
  let c2 := ("RWYS"%string, apt_two_runways 45 1000, 1%nat) in
  @rwy_candidates test_settings map_runways_45
    (fst (@headSearch_of flat_world _ac)) = [c1; c2]
  /\ candidate_endpoint false c1 = Some (rwy_end "A1" 10000 0)
  /\ candidate_endpoint false c2 = Some (rwy_end "A2" 200000 0)
  /\ (@heading_deviation flat_world from (rwy_end "A1" 10000 0)
      =d= Num 45)%D
  /\ (@heading_deviation flat_world from (rwy_end "A2" 200000 0)
      =d= Num 45)%D
  /\ @candidate_outside flat_world test_settings _ac (rwy_end "A1" 10000 0)
     = false
  /\ @candidate_outside flat_world test_settings _ac (rwy_end "A2" 200000 0)
     = true
  /\ @LTAptFindRwy flat_world test_settings map_runways_45 _ac
     = positionTy.ctor0.
Proof. vm_compute. repeat split. Qed.

(** C4 (amended): the runway that [LTAptFindRwy] selects is a candidate
    with a known altitude whose implied vertical speed is not outside the
    permitted range.  Of two candidates, one inside the range with a heading
    deviation that does not exceed the maximum heading difference, the other
    outside the range, the one inside is selected and returned, in either
    order and whatever the distances; and when every candidate is outside
    the range, none is returned. *)
Theorem LTAptFindRwy_envelope `{CoordCalc} `{Settings} :
  (forall (gmapApt : mapAptTy) (_ac : LTAircraft.t) (ep : RwyEndPt.t),
      let st := LTAptFindRwy_best gmapApt _ac in
      bestRwyEndPt st = Some ep ->
      candidate_outside _ac ep = false
      /\ isnan (RwyEndPt.alt_m ep) = false
      /\ exists c edge,
          In c (rwy_candidates gmapApt (fst (headSearch_of _ac)))
          /\ nth_error (Apt.vecTaxiEdges (snd (fst c))) (snd c) = Some edge
          /\ candidate_endpoint (snd (headSearch_of _ac)) c = Some ep
          /\ bestApt st = Some (fst (fst c))
          /\ bestRwy st = Some edge)
  /\ (forall (gmapApt : mapAptTy) (_ac : LTAircraft.t)
             (c1 c2 : string * Apt.t * nat) (edge1 : TaxiEdge.t)
             (ep1 : RwyEndPt.t),
         let from := LTAircraft.GetToPos _ac in
         let inv := snd (headSearch_of _ac) in
         let cs := rwy_candidates gmapApt (fst (headSearch_of _ac)) in
         cs = [c1; c2] \/ cs = [c2; c1] ->
         nth_error (Apt.vecTaxiEdges (snd (fst c1))) (snd c1) = Some edge1 ->
         candidate_endpoint inv c1 = Some ep1 ->
         isnan (RwyEndPt.alt_m ep1) = false ->
         (heading_deviation from ep1 >? ART_RWY_MAX_HEAD_DIFF)%D = false ->
         candidate_outside _ac ep1 = false ->
         (forall ep2, candidate_endpoint inv c2 = Some ep2 ->
                      isnan (RwyEndPt.alt_m ep2) = false ->
                      candidate_outside _ac ep2 = true) ->
         bestRwyEndPt (LTAptFindRwy_best gmapApt _ac) = Some ep1
         /\ bestRwy (LTAptFindRwy_best gmapApt _ac) = Some edge1
         /\ LTAptFindRwy gmapApt _ac
            = positionTy.ctor
                (TaxiNode.lat (RwyEndPt.node ep1))
                (TaxiNode.lon (RwyEndPt.node ep1))
                (RwyEndPt.alt_m ep1)
                (positionTy.ts from + flying_time from (speed_of _ac) ep1)%D
                (TaxiEdge.angle edge1
                 + (if inv then ofZ 180 else ofZ 0))%D
                (LTAircraft.PITCH_FLARE _ac) (ofZ 0)
                positionTy.GND_ON positionTy.UNIT_WORLD positionTy.UNIT_DEG
                FPH_TOUCH_DOWN)
  /\ (forall (gmapApt : mapAptTy) (_ac : LTAircraft.t),
         Forall (fun c =>
                   forall ep,
                     candidate_endpoint (snd (headSearch_of _ac)) c = Some ep ->
                     isnan (RwyEndPt.alt_m ep) = false ->
                     candidate_outside _ac ep = true)
                (rwy_candidates gmapApt (fst (headSearch_of _ac))) ->
         bestRwyEndPt (LTAptFindRwy_best gmapApt _ac) = None
         /\ LTAptFindRwy gmapApt _ac = positionTy.ctor0).
Proof.
  split; [|split].
  - intros gmapApt _ac ep st. subst st.
    rewrite LTAptFindRwy_best_candidates.
    apply (fold_step_best _ac
             (rwy_candidates gmapApt (fst (headSearch_of _ac)))
             (mkBestRwy None None None ART_RWY_MAX_HEAD_DIFF NaN)
             (fun key rwy ep =>
                candidate_outside _ac ep = false
                /\ isnan (RwyEndPt.alt_m ep) = false
                /\ exists c edge,
                    In c (rwy_candidates gmapApt (fst (headSearch_of _ac)))
                    /\ nth_error (Apt.vecTaxiEdges (snd (fst c))) (snd c)
                       = Some edge
                    /\ candidate_endpoint (snd (headSearch_of _ac)) c
                       = Some ep
                    /\ key = Some (fst (fst c))
                    /\ rwy = Some edge)).
    + discriminate.
    + intros c edge ep' Hin Hedge Hep Halt Hout.
      split; [exact Hout|]. split; [exact Halt|].
      exists c, edge. repeat split; assumption.
  - intros gmapApt _ac c1 c2 edge1 ep1 from inv cs Hcs Hedge Hep Halt Hdev
           Hin Hout.
    assert (Hbest : LTAptFindRwy_best gmapApt _ac
                    = mkBestRwy (Some (fst (fst c1))) (Some edge1) (Some ep1)
                        (heading_deviation from ep1)
                        (positionTy.ts from
                         + flying_time from (speed_of _ac) ep1)%D).
    { rewrite LTAptFindRwy_best_candidates.
      exact (fold_step_two _ac c1 c2 edge1 ep1 cs Hcs Hedge Hep Halt Hdev
               Hin Hout). }
    unfold LTAptFindRwy. rewrite Hbest. repeat split.
  - intros gmapApt _ac Hall.
    assert (Hbest : LTAptFindRwy_best gmapApt _ac
                    = mkBestRwy None None None ART_RWY_MAX_HEAD_DIFF NaN).
    { rewrite LTAptFindRwy_best_candidates.
      now apply fold_step_all_outside. }
    unfold LTAptFindRwy. rewrite Hbest. split; reflexivity.
Qed.

Lemma LTAptFindRwy_envelope_example :
  bestRwyEndPt
    (@LTAptFindRwy_best flat_world test_settings map_runways_0
       (aircraft_heading 0))
  = Some (rwy_end "A1" 10000 0).
Proof.
  refine (proj1 (proj1 (proj2 (@LTAptFindRwy_envelope flat_world
                                 test_settings))
                   map_runways_0 (aircraft_heading 0)
                   ("RWYS"%string, apt_two_runways 0 0, 0%nat)
                   ("RWYS"%string, apt_two_runways 0 0, 1%nat)
                   (TaxiEdge.ctor TaxiEdge.RUN_WAY 0 1 (Num 0) (Num 1000))
                   (rwy_end "A1" 10000 0)
                   (or_introl eq_refl) eq_refl eq_refl eq_refl eq_refl
                   eq_refl _)).
  intros ep2 Hep2 _. injection Hep2 as <-. reflexivity.
Defined.

(** * Further properties of the reader *)
(** ** The reader's loop ends at the end of the input *)

Section ReaderEnds.
Context `{CoordCalc} `{Settings} `{TextIO}.





End ReaderEnds.



(** ** Airports of the map are kept *)

Lemma map_emplace_keeps (m : mapAptTy) (key : string) (apt : Apt.t)
    (p : string * Apt.t) :
  In p m -> In p (map_emplace m key apt).
Proof.
  induction m as [|[k v] m IH]; simpl; [tauto|].
  destruct (String.eqb key k); [simpl; tauto|].
  destruct (String.ltb key k); simpl; tauto.
Qed.

Section ReaderKeeps.
Context `{CoordCalc} `{Settings} `{TextIO}.

Lemma flush_airport_keeps (st : readerTy) (p : string * Apt.t) :
  In p (r_gmapApt st) -> In p (flush_airport st).
Proof.
  unfold flush_airport, AddApt.
  destruct (Apt.IsValid (r_apt st)); [apply map_emplace_keeps|tauto].
Qed.

Lemma read_loop_keeps (stop : nat) (box : boundingBoxTy.t) (st : readerTy)
    (p : string * Apt.t) :
  In p (r_gmapApt st) -> In p (fst (read_loop stop box st)).
Proof.
  revert st. induction stop as [|stop IH]; intros st Hin; cbn [read_loop].
  - now apply flush_airport_keeps.
  - destruct (r_bProcessGivenLn st || good (r_fIn st));
      [|now apply flush_airport_keeps].
    destruct (read_round box st) as [st'|] eqn:Hround; [|exact Hin].
    apply IH.
    destruct (read_round_map box st st' Hround) as [-> | [_ ->]];
      [exact Hin|].
    unfold AddApt. now apply map_emplace_keeps.
Qed.

(** A file without an airport header changes nothing. *)
Lemma read_loop_no_header (stop : nat) (box : boundingBoxTy.t)
    (st : readerTy) :
  r_apt st = Apt.ctor EmptyString ->
  r_bProcessGivenLn st = false ->
  Forall (fun ln => is_airport_line ln = false) (lines (r_fIn st)) ->
  read_loop stop box st = (r_gmapApt st, false).
Proof.
  revert st. induction stop as [|stop IH]; intros st Hapt Hgiven Hlines;
    cbn [read_loop]; unfold flush_airport; rewrite ?Hapt; [reflexivity|].
  rewrite Hgiven. cbn [orb].
  destruct (good (r_fIn st)) eqn:Hgood; [|reflexivity].
  unfold read_round, safeGetline. rewrite Hgiven, Hgood, Hapt.
  destruct (lines (r_fIn st)) as [|ln rest] eqn:Hl.
  - cbn [String.length Nat.eqb]. rewrite IH; [reflexivity..|].
    cbn [r_fIn lines]. constructor.
  - inversion Hlines as [|? ? Hln Hrest]; subst.
    destruct (String.length ln =? 0)%nat.
    + rewrite IH; [reflexivity..|]. exact Hrest.
    + rewrite Hln. cbn [r_apt Apt.HasId Apt.HasRwyEndpoints Apt.ctor Apt.id
                         Apt.vecRwyEndPts Apt.empty negb andb].
      rewrite IH; [reflexivity..|]. exact Hrest.
Qed.
End ReaderKeeps.

(** X2: [ReadOneAptFile] never removes or replaces an entry of the map of
    airports: what was in the map before the call is in the map after it,
    also when the call ends by an exception or by a stop request. *)
Theorem ReadOneAptFile_keeps_entries `{CoordCalc} `{Settings} `{TextIO}
    (stop : nat) (gmapApt : mapAptTy) (fIn : ifstream)
    (box : boundingBoxTy.t) (key : string) (a : Apt.t) :
  In (key, a) gmapApt ->
  In (key, a) (fst (ReadOneAptFile stop gmapApt fIn box)).
Proof. intros Hin. unfold ReadOneAptFile. now apply read_loop_keeps. Qed.

Lemma ReadOneAptFile_keeps_entries_example :
  In ("RWYS"%string, apt_two_runways 0 0)
     (fst (@ReadOneAptFile flat_world test_settings test_TextIO 100
             map_runways_0 (mkStream sample_apt_dat true) sample_box)).
Proof.
  apply (@ReadOneAptFile_keeps_entries flat_world test_settings test_TextIO
           100 map_runways_0 (mkStream sample_apt_dat true) sample_box).
  left. reflexivity.
Defined.

(** X3: a file in which no line begins an airport (no line of more than 10
    characters that starts with "1" and a blank or tab) leaves the map of
    airports as it is, and reading it raises no exception, whatever else
    its lines hold. *)
Theorem ReadOneAptFile_no_airport_line `{CoordCalc} `{Settings} `{TextIO}
    (stop : nat) (gmapApt : mapAptTy) (fIn : ifstream)
    (box : boundingBoxTy.t) :
  Forall (fun ln => is_airport_line ln = false) (lines fIn) ->
  ReadOneAptFile stop gmapApt fIn box = (gmapApt, false).
Proof.
  intros Hlines. unfold ReadOneAptFile.
  now rewrite read_loop_no_header.
Qed.

Lemma ReadOneAptFile_no_airport_line_example :
  @ReadOneAptFile flat_world test_settings test_TextIO 100 map_runways_0
    (mkStream ["100 not a runway"; "120 taxi"; "111 x y 1"]%string true)
    sample_box
  = (map_runways_0, false).
Proof.
  apply (@ReadOneAptFile_no_airport_line flat_world test_settings
           test_TextIO).
  repeat constructor.
Defined.

(** ** The reader builds its airports by the construction operations *)

Lemma built_alt_m `{CoordCalc} (apt : Apt.t) :
  built apt -> Apt.alt_m apt = NaN.
Proof.
  induction 1 as [_id|apt lat lon Hb IH|apt n1 n2 d Hb IH
                  |apt lat1 lon1 d1 id1 lat2 lon2 d2 id2 Hb IH];
    try exact IH; [reflexivity|].
  unfold Apt.AddTaxiEdge.
  destruct (_ || _); [exact IH|].
  destruct (at_ _ n1); [|exact IH]. destruct (at_ _ n2); [|exact IH].
  destruct (_ || _); exact IH.
Qed.

Lemma built_moved_from `{CoordCalc} (apt : Apt.t) :
  built apt -> built (moved_from apt).
Proof.
  intros Hb. unfold moved_from. rewrite (built_alt_m apt Hb).
  apply (built_ctor EmptyString).
Qed.

Ltac built_step :=
  match goal with
  | |- context [Apt.AddTaxiNode ?a ?lat ?lon] =>
      let Hb := fresh "Hb" in
      pose proof (built_AddTaxiNode a lat lon) as Hb;
      destruct (Apt.AddTaxiNode a lat lon) as [? ?]; cbn [snd] in Hb
  | |- context [Apt.AddTaxiEdge ?a ?n1 ?n2 ?d] =>
      let Hb := fresh "Hb" in
      pose proof (built_AddTaxiEdge a n1 n2 d) as Hb;
      destruct (Apt.AddTaxiEdge a n1 n2 d) as [? ?]; cbn [snd] in Hb
  end.

Section ReaderBuilds.
Context `{CoordCalc} `{Settings} `{TextIO}.

Lemma thin_loop_built (fuel : nat) (v : list TaxiNode.t) (iter : nat)
    (apt : Apt.t) :
  built apt -> built (snd (thin_loop fuel v iter apt)).
Proof.
  revert v iter apt. induction fuel as [|fuel IH]; intros v iter apt Hb;
    cbn [thin_loop]; [exact Hb|].
  destruct (iter + 3 =? List.length v)%nat; [exact Hb|].
  destruct (nth_error v iter) as [a|]; [|exact Hb].
  destruct (nth_error v (S iter)) as [b|]; [|exact Hb].
  destruct (_ <? _)%D; [now apply IH|].
  do 2 built_step. apply IH. auto.
Qed.

Lemma thin_last3_built (v : list TaxiNode.t) (apt : Apt.t) :
  built apt -> built (snd (fst (thin_last3 v apt))).
Proof.
  intros Hb. unfold thin_last3.
  destruct (3 <=? size v)%Z; [|exact Hb].
  destruct (at_ v _) as [a|]; [|exact Hb].
  destruct (at_ v _) as [b|]; [|exact Hb].
  destruct (at_ v _) as [c|]; [|exact Hb].
  destruct (_ || _); [exact Hb|].
  do 2 built_step. cbn [fst snd]. auto.
Qed.

Lemma add_final_edge_built (v : list TaxiNode.t) (apt : Apt.t)
    (distToLast : double) :
  built apt -> built (add_final_edge v apt distToLast).
Proof.
  intros Hb. unfold add_final_edge.
  destruct (at_ v _) as [y|]; [|exact Hb].
  destruct (at_ v _) as [z|]; [|exact Hb].
  do 2 built_step. auto.
Qed.

Lemma thin_taxi_nodes_built (v : list TaxiNode.t) (apt : Apt.t) :
  built apt -> built (thin_taxi_nodes v apt).
Proof.
  intros Hb. unfold thin_taxi_nodes.
  destruct (2 <=? size v)%Z; [|exact Hb].
  destruct v as [|front rest]; [exact Hb|].
  built_step.
  set (v := front :: rest).
  assert (Hloop : built (snd (if (3 <=? size v)%Z
                              then thin_loop (List.length v) v 0 t
                              else (v, t)))).
  { destruct (3 <=? size v)%Z; [apply thin_loop_built|]; auto. }
  destruct (if (3 <=? size v)%Z then thin_loop (List.length v) v 0 t
            else (v, t)) as [v1 apt1].
  cbn [snd] in Hloop.
  pose proof (thin_last3_built v1 apt1 Hloop) as Hlast.
  destruct (thin_last3 v1 apt1) as [[v2 apt2] d]. cbn [fst snd] in Hlast.
  now apply add_final_edge_built.
Qed.

Lemma ReadOneTaxiLine_built (fIn fIn' : ifstream) (apt apt' : Apt.t)
    (ln' : string) :
  ReadOneTaxiLine fIn apt = Ret (fIn', apt', ln') ->
  built apt -> built apt'.
Proof.
  unfold ReadOneTaxiLine.
  destruct (if good fIn then read_taxi_nodes (lines fIn) []
            else Ret (fIn, [], EmptyString)) as [[[f v] l]|];
    [|discriminate].
  cbn [bind]. intros Heq Hb. injection Heq as _ <- _.
  now apply thin_taxi_nodes_built.
Qed.

Lemma read_round_built (box : boundingBoxTy.t) (st st' : readerTy) :
  read_round box st = Ret st' ->
  built (r_apt st) -> built (r_apt st').
Proof.
  unfold read_round.
  destruct (if r_bProcessGivenLn st then (r_fIn st, r_ln st)
            else safeGetline (r_fIn st)) as [fIn ln].
  destruct (String.length ln =? 0)%nat.
  { intros Heq. injection Heq as <-. auto. }
  destruct (is_airport_line ln).
  { intros Heq Hb. injection Heq as <-. unfold begin_airport.
    cbn [r_apt r_gmapApt].
    destruct (Apt.IsValid (r_apt st)); destruct (_ && _); cbn [r_apt];
      first [apply built_ctor | now apply built_moved_from]. }
  cbn [r_apt r_gmapApt r_fIn].
  destruct (Apt.HasId (r_apt st) && is_runway_line ln).
  { unfold read_runway. cbn [r_apt r_gmapApt r_fIn].
    destruct (List.length _ =? 26)%nat;
      [|intros Heq; injection Heq as <-; auto].
    destruct (stod (field _ 9)) as [lat|]; [|discriminate].
    destruct (stod (field _ 10)) as [lon|]; [|discriminate].
    cbn [try_ bind].
    destruct (_ && _ && _ && _);
      [|intros Heq; injection Heq as <-; auto].
    destruct (Apt.HasTaxiWays (r_apt st) || _);
      [|intros Heq Hb; injection Heq as <-; apply built_ctor].
    destruct (stod (field _ 11)); [|discriminate].
    destruct (stod (field _ 18)); [|discriminate].
    destruct (stod (field _ 19)); [|discriminate].
    destruct (stod (field _ 20)); [|discriminate].
    cbn [try_ bind]. intros Heq Hb. injection Heq as <-.
    cbn [r_apt]. now apply built_AddRwyEnds. }
  destruct (Apt.HasRwyEndpoints (r_apt st) && is_taxi_line ln).
  { destruct (ReadOneTaxiLine fIn (r_apt st)) as [[[fIn' apt'] ln']|] eqn:Hr;
      [|discriminate].
    cbn [bind]. intros Heq Hb. injection Heq as <-. cbn [r_apt].
    exact (ReadOneTaxiLine_built _ _ _ _ _ Hr Hb). }
  intros Heq. injection Heq as <-. auto.
Qed.

(** Every airport that the reader adds to the map is a built airport, as
    [AddApt] stores it. *)
Lemma read_loop_built (stop : nat) (box : boundingBoxTy.t) (st : readerTy)
    (P : Apt.t -> Prop) :
  (forall apt, built apt -> Apt.IsValid apt = true ->
               P (Apt.set_vecTaxiEdges
                    (Apt.EnlargeBounds_m apt (ofZ GetFdSnapTaxiDist_m))
                    (sort_edges (Apt.vecTaxiEdges apt)))) ->
  built (r_apt st) ->
  (forall key a, In (key, a) (r_gmapApt st) -> P a) ->
  forall key a, In (key, a) (fst (read_loop stop box st)) -> P a.
Proof.
  intros HP.
  assert (Hadd : forall m apt,
             built apt -> Apt.IsValid apt = true ->
             (forall key a, In (key, a) m -> P a) ->
             forall key a, In (key, a) (AddApt m apt) -> P a).
  { intros m apt Hb Hv Hm key a Hin. unfold AddApt in Hin.
    apply map_emplace_In in Hin. destruct Hin as [Hin|Heq].
    - exact (Hm key a Hin).
    - injection Heq as _ ->. now apply HP. }
  assert (Hflush : forall st,
             built (r_apt st) ->
             (forall key a, In (key, a) (r_gmapApt st) -> P a) ->
             forall key a, In (key, a) (flush_airport st) -> P a).
  { intros st1 Hb Hm. unfold flush_airport.
    destruct (Apt.IsValid (r_apt st1)) eqn:Hv; [|exact Hm].
    now apply Hadd. }
  revert st. induction stop as [|stop IH]; intros st Hb Hm key a;
    cbn [read_loop fst].
  - now apply Hflush.
  - destruct (r_bProcessGivenLn st || good (r_fIn st));
      [|now apply Hflush].
    destruct (read_round box st) as [st'|] eqn:Hround; [|apply Hm].
    apply IH.
    + exact (read_round_built box st st' Hround Hb).
    + destruct (read_round_map box st st' Hround) as [-> | [Hv ->]];
        [exact Hm|]. now apply Hadd.
Qed.
End ReaderBuilds.

(** ** What the stored airports look like *)

Lemma all_airports_In (P : Apt.t -> Prop) (m : mapAptTy) :
  all_airports P m <-> forall key a, In (key, a) m -> P a.
Proof.
  unfold all_airports. rewrite Forall_forall. split.
  - intros Hall key a Hin. exact (Hall (key, a) Hin).
  - intros Hall [key a] Hin. exact (Hall key a Hin).
Qed.

Lemma sort_insert_perm (e : TaxiEdge.t) (sorted : list TaxiEdge.t) :
  Permutation (e :: sorted) (sort_insert e sorted).
Proof.
  induction sorted as [|e' rest IH]; simpl; [reflexivity|].
  destruct (TaxiEdge.CompHeadLess e e'); [reflexivity|].
  rewrite perm_swap. now constructor.
Qed.

Lemma sort_fold_perm (v acc : list TaxiEdge.t) :
  Permutation (acc ++ v) (fold_left (fun acc e => sort_insert e acc) v acc).
Proof.
  revert acc. induction v as [|e v IH]; intros acc; simpl.
  - now rewrite app_nil_r.
  - rewrite <- IH, <- sort_insert_perm. symmetry. apply Permutation_middle.
Qed.

Lemma sort_edges_perm (v : list TaxiEdge.t) : Permutation v (sort_edges v).
Proof. exact (sort_fold_perm v []). Qed.

Lemma sort_insert_sorted (e : TaxiEdge.t) (sorted : list TaxiEdge.t) :
  isnan (TaxiEdge.angle e) = false ->
  sorted_by_heading sorted -> sorted_by_heading (sort_insert e sorted).
Proof.
  intros He [Hs Hn]. induction Hs as [|e' rest Hs IH Hall]; simpl.
  - split; repeat constructor. exact He.
  - inversion Hn as [|? ? He' Hn']; subst.
    destruct (TaxiEdge.angle e) as [|p] eqn:Ep; [discriminate|].
    destruct (TaxiEdge.angle e') as [|q] eqn:Eq; [discriminate|].
    unfold TaxiEdge.CompHeadLess. rewrite Ep, Eq.
    destruct (Num p <? Num q)%D eqn:Elt.
    + apply dlt_Num in Elt.
      split; [|constructor; [now rewrite Ep|constructor; [now rewrite Eq|]];
               exact Hn'].
      constructor;
        [constructor; [exact Hs|]; rewrite Eq; exact Hall|].
      constructor.
      * rewrite Ep, Eq. apply dle_Num. lra.
      * rewrite Forall_forall in Hall, Hn' |- *. intros x Hx.
        specialize (Hall x Hx). specialize (Hn' x Hx). cbv beta in *.
        rewrite Ep.
        destruct (TaxiEdge.angle x) as [|r]; [discriminate|].
        apply dle_Num in Hall. apply dle_Num. lra.
    + apply dlt_Num_false in Elt.
      destruct (IH Hn') as [Hs' Hn''].
      split; [|constructor; [now rewrite Eq|exact Hn'']].
      constructor; [exact Hs'|].
      rewrite Forall_forall in Hall |- *. intros x Hx.
      apply (Permutation_in _ (Permutation_sym (sort_insert_perm e rest)))
        in Hx.
      rewrite Eq.
      destruct Hx as [<-|Hx]; [|exact (Hall x Hx)].
      rewrite Ep. apply dle_Num. exact Elt.
Qed.

Lemma sort_fold_sorted (v acc : list TaxiEdge.t) :
  Forall (fun e => isnan (TaxiEdge.angle e) = false) v ->
  sorted_by_heading acc ->
  sorted_by_heading (fold_left (fun acc e => sort_insert e acc) v acc).
Proof.
  revert acc. induction v as [|e v IH]; intros acc Hv Hacc; simpl;
    [exact Hacc|].
  inversion Hv; subst. apply IH; [assumption|].
  now apply sort_insert_sorted.
Qed.

Lemma sort_edges_sorted (v : list TaxiEdge.t) :
  Forall (fun e => isnan (TaxiEdge.angle e) = false) v ->
  sorted_by_heading (sort_edges v).
Proof.
  intros Hv. apply sort_fold_sorted; [exact Hv|]. split; constructor.
Qed.

Lemma at_In {A : Type} (v : list A) (i : Z) (x : A) :
  at_ v i = Some x -> In x v.
Proof.
  unfold at_. destruct (i <? 0)%Z; [discriminate|]. apply nth_error_In.
Qed.

Lemma built_fresh `{CoordCalc} (apt : Apt.t) :
  built apt -> no_local_coords apt /\ no_altitudes apt.
Proof.
  unfold no_local_coords, no_altitudes.
  induction 1 as [_id|apt lat lon Hb IH|apt n1 n2 d Hb IH
                  |apt lat1 lon1 d1 id1 lat2 lon2 d2 id2 Hb IH].
  - repeat split; constructor.
  - destruct IH as [[Hn Hr] Ha]. cbn [Apt.AddTaxiNode snd Apt.vecTaxiNodes
      Apt.vecRwyEndPts Apt.set_vecTaxiNodes Apt.set_bounds].
    repeat split; try assumption.
    apply Forall_app. split; [exact Hn|]. now repeat constructor.
  - unfold Apt.AddTaxiEdge.
    destruct (_ || _); [exact IH|].
    destruct (at_ _ n1); [|exact IH]. destruct (at_ _ n2); [|exact IH].
    destruct (_ || _); exact IH.
  - destruct IH as [[Hn Hr] Ha].
    unfold Apt.AddRwyEnds.
    cbn [Apt.vecRwyEndPts Apt.vecTaxiEdges Apt.vecTaxiNodes Apt.id
         Apt.set_bounds Apt.set_vecRwyEndPts Apt.set_vecTaxiEdges
         Apt.bounds Apt.alt_m].
    repeat split; try assumption;
      repeat (apply Forall_app; split); try assumption;
      now repeat constructor.
Qed.

(** ** Queries on airports without local coordinates or altitudes *)

Lemma GetA_In (apt : Apt.t) (e : TaxiEdge.t) (n : TaxiNode.t) :
  Apt.GetA e apt = Some n ->
  In n (Apt.vecTaxiNodes apt)
  \/ exists re, In re (Apt.vecRwyEndPts apt) /\ RwyEndPt.node re = n.
Proof.
  unfold Apt.GetA. destruct (TaxiEdge.type e);
    try (intros Hat; left; exact (at_In _ _ _ Hat)).
  destruct (at_ (Apt.vecRwyEndPts apt) (TaxiEdge.a e)) as [re|] eqn:Hat;
    [|discriminate].
  simpl. intros Heq. injection Heq as <-. right. exists re.
  split; [exact (at_In _ _ _ Hat)|reflexivity].
Qed.

Lemma GetB_In (apt : Apt.t) (e : TaxiEdge.t) (n : TaxiNode.t) :
  Apt.GetB e apt = Some n ->
  In n (Apt.vecTaxiNodes apt)
  \/ exists re, In re (Apt.vecRwyEndPts apt) /\ RwyEndPt.node re = n.
Proof.
  unfold Apt.GetB. destruct (TaxiEdge.type e);
    try (intros Hat; left; exact (at_In _ _ _ Hat)).
  destruct (at_ (Apt.vecRwyEndPts apt) (TaxiEdge.b e)) as [re|] eqn:Hat;
    [|discriminate].
  simpl. intros Heq. injection Heq as <-. right. exists re.
  split; [exact (at_In _ _ _ Hat)|reflexivity].
Qed.

Lemma no_local_coords_node (apt : Apt.t) (n : TaxiNode.t) :
  no_local_coords apt ->
  In n (Apt.vecTaxiNodes apt)
  \/ (exists re, In re (Apt.vecRwyEndPts apt) /\ RwyEndPt.node re = n) ->
  TaxiNode.HasLocalCoords n = false.
Proof.
  intros [Hn Hr] [Hin|(re & Hin & <-)].
  - rewrite Forall_forall in Hn. exact (Hn n Hin).
  - rewrite Forall_forall in Hr. exact (Hr re Hin).
Qed.

Section Unprepared.
Context `{CoordCalc} `{XPLM} `{Settings}.

Lemma closest_fold_no_local_coords (apt : Apt.t) (inv : bool)
    (pt_x pt_z max2 : double) (lst : list nat) (st : Apt.bestTy) :
  no_local_coords apt ->
  fold_left (Apt.closest_step apt inv pt_x pt_z max2) lst st = st.
Proof.
  intros Hno. induction lst as [|p lst IH]; [reflexivity|].
  cbn [fold_left]. rewrite <- IH at 2. f_equal.
  unfold Apt.closest_step.
  destruct (nth_error (Apt.vecTaxiEdges apt) p) as [edge|]; [|reflexivity].
  assert (Hfrom : forall n, Apt.GetA edge apt = Some n ->
                            TaxiNode.HasLocalCoords n = false)
    by (intros n Hn; apply (no_local_coords_node apt n Hno),
                       (GetA_In _ _ _ Hn)).
  assert (Hto : forall n, Apt.GetB edge apt = Some n ->
                          TaxiNode.HasLocalCoords n = false)
    by (intros n Hn; apply (no_local_coords_node apt n Hno),
                       (GetB_In _ _ _ Hn)).
  destruct inv.
  - destruct (Apt.GetB edge apt) as [from|]; [|reflexivity].
    destruct (Apt.GetA edge apt) as [to|]; [|reflexivity].
    now rewrite (Hto from eq_refl).
  - destruct (Apt.GetA edge apt) as [from|]; [|reflexivity].
    destruct (Apt.GetB edge apt) as [to|]; [|reflexivity].
    now rewrite (Hfrom from eq_refl).
Qed.

Lemma SnapToTaxiway_no_local_coords (apt : Apt.t) (pos : positionTy.t)
    (bLogging : bool) :
  no_local_coords apt -> Apt.SnapToTaxiway apt pos bLogging = (false, pos).
Proof.
  intros Hno. unfold Apt.SnapToTaxiway, Apt.FindClosestEdge.
  destruct (XPLMWorldToLocal _ _ _) as [[pt_x pt_y] pt_z].
  destruct (Apt.FindEdgesForHeading _ _ _ _ _) as [found lstEdges].
  destruct found; cbn [negb]; [|reflexivity].
  rewrite closest_fold_no_local_coords by exact Hno. reflexivity.
Qed.

Lemma LTAptFind_In (gmapApt : mapAptTy) (pos : positionTy.t) (apt : Apt.t) :
  LTAptFind gmapApt pos = Some apt ->
  exists key, In (key, apt) gmapApt /\ Apt.Contains apt pos = true.
Proof.
  unfold LTAptFind.
  destruct (find _ gmapApt) as [[key a]|] eqn:Hfind; [|discriminate].
  simpl. intros Heq. injection Heq as ->.
  apply find_some in Hfind. exists key. exact Hfind.
Qed.
End Unprepared.

Section UnpreparedRunways.
Context `{CoordCalc} `{Settings}.

Lemma rwy_step_no_altitudes (from : positionTy.t) (inv : bool)
    (speed vsi_min vsi_max : double) (key : string) (apt : Apt.t)
    (st : bestRwyTy) (e : nat) :
  no_altitudes apt ->
  rwy_step from inv speed vsi_min vsi_max key apt st e = st.
Proof.
  intros Hno. unfold rwy_step.
  destruct (nth_error (Apt.vecTaxiEdges apt) e) as [edge|]; [|reflexivity].
  destruct (aimed_endpoint inv apt edge) as [rwyEP|] eqn:Hep; [|reflexivity].
  assert (Hin : In rwyEP (Apt.vecRwyEndPts apt)).
  { unfold aimed_endpoint, Apt.GetRwyEP_A, Apt.GetRwyEP_B in Hep.
    destruct inv, (TaxiEdge.type edge); try discriminate;
      exact (at_In _ _ _ Hep). }
  unfold no_altitudes in Hno. rewrite Forall_forall in Hno.
  now rewrite (Hno rwyEP Hin).
Qed.

Lemma apt_step_no_altitudes (from : positionTy.t) (headSearch : double)
    (inv : bool) (speed vsi_min vsi_max : double) (st : bestRwyTy)
    (entry : string * Apt.t) :
  no_altitudes (snd entry) ->
  apt_step from headSearch inv speed vsi_min vsi_max st entry = st.
Proof.
  destruct entry as [key apt]. cbn [snd]. intros Hno. unfold apt_step.
  destruct (Apt.FindEdgesForHeading _ _ _ _ _) as [found lstRwys].
  destruct found; [|reflexivity].
  induction lstRwys as [|e lst IH]; [reflexivity|].
  cbn [fold_left]. now rewrite rwy_step_no_altitudes.
Qed.

Lemma LTAptFindRwy_no_altitudes (gmapApt : mapAptTy) (_ac : LTAircraft.t) :
  all_airports no_altitudes gmapApt ->
  LTAptFindRwy gmapApt _ac = positionTy.ctor0.
Proof.
  intros Hall. unfold LTAptFindRwy, LTAptFindRwy_best.
  destruct (headSearch_of _ac) as [headSearch inv]. cbn [snd].
  set (st0 := mkBestRwy None None None ART_RWY_MAX_HEAD_DIFF NaN).
  assert (Hfold : fold_left
                    (apt_step (LTAircraft.GetToPos _ac) headSearch inv
                       (speed_of _ac) (vsi_min_of _ac) (vsi_max_of _ac))
                    gmapApt st0 = st0).
  { generalize st0. unfold all_airports in Hall.
    induction Hall as [|entry m Hentry Hm IH]; intros st; [reflexivity|].
    cbn [fold_left]. rewrite apt_step_no_altitudes by exact Hentry.
    apply IH. }
  rewrite Hfold. reflexivity.
Qed.
End UnpreparedRunways.

Section AfterReading.
Context `{CoordCalc} `{Settings} `{TextIO}.

Lemma stored_edges_in_range (apt : Apt.t) :
  built apt ->
  edges_in_range (Apt.set_vecTaxiEdges
                    (Apt.EnlargeBounds_m apt (ofZ GetFdSnapTaxiDist_m))
                    (sort_edges (Apt.vecTaxiEdges apt))).
Proof.
  intros Hb. pose proof (built_edges_in_range apt Hb) as Hall.
  unfold edges_in_range. cbn [Apt.vecTaxiEdges Apt.set_vecTaxiEdges].
  rewrite Forall_forall in Hall |- *. intros e Hin.
  apply (Permutation_in _ (Permutation_sym (sort_edges_perm _))) in Hin.
  exact (Hall e Hin).
Qed.
End AfterReading.

(** X4: if the edges of all airports of the map have their indexes in
    range, then so have the edges of all airports of the map after
    [ReadOneAptFile]: whatever the file holds, every airport that the reader
    adds has runway edges that index its runway endpoints and taxiway edges
    that index its taxi nodes, also after [AddApt] has sorted the edges. *)
Theorem ReadOneAptFile_edges_in_range `{CoordCalc} `{Settings} `{TextIO}
    (stop : nat) (gmapApt : mapAptTy) (fIn : ifstream)
    (box : boundingBoxTy.t) :
  all_airports edges_in_range gmapApt ->
  all_airports edges_in_range (fst (ReadOneAptFile stop gmapApt fIn box)).
Proof.
  intros Hall. apply all_airports_In. unfold ReadOneAptFile.
  apply read_loop_built.
  - intros apt Hb _. now apply stored_edges_in_range.
  - apply built_ctor.
  - now apply all_airports_In.
Qed.

Lemma ReadOneAptFile_edges_in_range_example :
  all_airports edges_in_range
    (fst (@ReadOneAptFile flat_world test_settings test_TextIO 100 []
            (mkStream sample_apt_dat true) sample_box)).
Proof.
  apply (@ReadOneAptFile_edges_in_range flat_world test_settings test_TextIO
           100 [] (mkStream sample_apt_dat true) sample_box).
  constructor.
Defined.

(** X5: airports come from the reader without local coordinates, and
    [LTAptSnap] passes over every edge whose nodes lack them: on a map whose
    airports have no local coordinates, also after [ReadOneAptFile] has
    added airports to it, [LTAptSnap] returns false and leaves the position
    as it is, until [LTAptLocalCoordsUpdate] has run. *)
Theorem LTAptSnap_before_local_coords `{CoordCalc} `{XPLM} `{Settings}
    `{TextIO} (stop : nat) (gmapApt : mapAptTy) (fIn : ifstream)
    (box : boundingBoxTy.t) (pos : positionTy.t) (bLogging : bool) :
  all_airports no_local_coords gmapApt ->
  LTAptSnap gmapApt pos bLogging = (false, pos)
  /\ LTAptSnap (fst (ReadOneAptFile stop gmapApt fIn box)) pos bLogging
     = (false, pos).
Proof.
  intros Hall.
  assert (Hsnap : forall m, all_airports no_local_coords m ->
                            LTAptSnap m pos bLogging = (false, pos)).
  { intros m Hm. unfold LTAptSnap.
    destruct (GetFdSnapTaxiDist_m <=? 0)%Z; [reflexivity|].
    destruct (LTAptFind m pos) as [apt|] eqn:Hfind; [|reflexivity].
    apply LTAptFind_In in Hfind. destruct Hfind as (key & Hin & _).
    apply SnapToTaxiway_no_local_coords.
    exact (proj1 (all_airports_In _ _) Hm key apt Hin). }
  split; [now apply Hsnap|]. apply Hsnap, all_airports_In.
  unfold ReadOneAptFile. apply read_loop_built.
  - intros apt Hb _. exact (proj1 (built_fresh apt Hb)).
  - apply built_ctor.
  - now apply all_airports_In.
Qed.

Lemma LTAptSnap_before_local_coords_example :
  @LTAptSnap flat_world flat_XPLM test_settings
    (fst (@ReadOneAptFile flat_world test_settings test_TextIO 100 []
            (mkStream sample_apt_dat true) sample_box))
    (pos_east 0 30) false
  = (false, pos_east 0 30).
Proof.
  apply (@LTAptSnap_before_local_coords flat_world flat_XPLM test_settings
           test_TextIO 100 [] (mkStream sample_apt_dat true) sample_box
           (pos_east 0 30) false).
  constructor.
Defined.

(** X6: airports come from the reader without altitudes of their runway
    endpoints, and [LTAptFindRwy] passes over every runway whose endpoint
    has none: on a map whose airports have no altitudes, also after
    [ReadOneAptFile] has added airports to it, [LTAptFindRwy] returns the
    empty position [positionTy()], until [LTAptUpdateRwyAltitudes] has
    run. *)
Theorem LTAptFindRwy_before_altitudes `{CoordCalc} `{Settings} `{TextIO}
    (stop : nat) (gmapApt : mapAptTy) (fIn : ifstream)
    (box : boundingBoxTy.t) (_ac : LTAircraft.t) :
  all_airports no_altitudes gmapApt ->
  LTAptFindRwy gmapApt _ac = positionTy.ctor0
  /\ LTAptFindRwy (fst (ReadOneAptFile stop gmapApt fIn box)) _ac
     = positionTy.ctor0.
Proof.
  intros Hall. split; [now apply LTAptFindRwy_no_altitudes|].
  apply LTAptFindRwy_no_altitudes, all_airports_In.
  unfold ReadOneAptFile. apply read_loop_built.
  - intros apt Hb _. exact (proj2 (built_fresh apt Hb)).
  - apply built_ctor.
  - now apply all_airports_In.
Qed.

Lemma LTAptFindRwy_before_altitudes_example :
  @LTAptFindRwy flat_world test_settings
    (fst (@ReadOneAptFile flat_world test_settings test_TextIO 100 []
            (mkStream sample_apt_dat true) sample_box))
    (aircraft_heading 0)
  = positionTy.ctor0.
Proof.
  apply (@LTAptFindRwy_before_altitudes flat_world test_settings test_TextIO
           100 [] (mkStream sample_apt_dat true) sample_box
           (aircraft_heading 0)).
  constructor.
Defined.

(** ** The order of the keys *)

Lemma ascii_compare_refl (c : ascii) : Ascii.compare c c = Eq.
Proof. unfold Ascii.compare. apply N.compare_refl. Qed.

Lemma string_compare_refl (s : string) : String.compare s s = Eq.
Proof.
  induction s as [|c s IH]; simpl; [reflexivity|].
  now rewrite ascii_compare_refl.
Qed.

Lemma string_compare_trans (s1 s2 s3 : string) :
  String.compare s1 s2 = Lt -> String.compare s2 s3 = Lt ->
  String.compare s1 s3 = Lt.
Proof.
  revert s2 s3. induction s1 as [|c1 s1 IH]; intros [|c2 s2] [|c3 s3];
    simpl; try discriminate; try reflexivity.
  unfold Ascii.compare.
  destruct (N.compare_spec (N_of_ascii c1) (N_of_ascii c2)) as [E12|L12|G12];
    try discriminate;
    destruct (N.compare_spec (N_of_ascii c2) (N_of_ascii c3))
      as [E23|L23|G23];
    try discriminate; intros H12 H23.
  - rewrite E12, E23, N.compare_refl. now apply (IH s2).
  - rewrite E12. now apply N.compare_lt_iff in L23 as ->.
  - rewrite <- E23. now apply N.compare_lt_iff in L12 as ->.
  - assert (L13 : (N_of_ascii c1 < N_of_ascii c3)%N) by lia.
    now apply N.compare_lt_iff in L13 as ->.
Qed.

Lemma ltb_trans (s1 s2 s3 : string) :
  String.ltb s1 s2 = true -> String.ltb s2 s3 = true ->
  String.ltb s1 s3 = true.
Proof.
  unfold String.ltb.
  destruct (String.compare s1 s2) eqn:E12; try discriminate.
  destruct (String.compare s2 s3) eqn:E23; try discriminate.
  now rewrite (string_compare_trans s1 s2 s3 E12 E23).
Qed.

Lemma ltb_irrefl (s : string) : String.ltb s s = false.
Proof. unfold String.ltb. now rewrite string_compare_refl. Qed.

Lemma ltb_asym (s1 s2 : string) :
  String.ltb s1 s2 = true -> String.ltb s2 s1 = false.
Proof.
  unfold String.ltb. rewrite (String.compare_antisym s2 s1).
  destruct (String.compare s1 s2); simpl; congruence.
Qed.

(** Two keys are equal or one is less than the other. *)
Lemma ltb_total (s1 s2 : string) :
  String.eqb s1 s2 = false -> String.ltb s1 s2 = false ->
  String.ltb s2 s1 = true.
Proof.
  unfold String.ltb. rewrite (String.compare_antisym s2 s1).
  destruct (String.compare s1 s2) eqn:E; simpl; try congruence.
  apply String.compare_eq_iff in E. subst. now rewrite String.eqb_refl.
Qed.

(** ** [map::emplace] keeps the map in order *)

Lemma map_emplace_keys (m : mapAptTy) (key : string) (apt : Apt.t)
    (p : string * Apt.t) :
  In p (map_emplace m key apt) -> In p m \/ fst p = key.
Proof.
  intros Hin. apply map_emplace_In in Hin.
  destruct Hin as [Hin| ->]; [now left|now right].
Qed.

Lemma map_emplace_sorted (m : mapAptTy) (key : string) (apt : Apt.t) :
  map_sorted m -> map_sorted (map_emplace m key apt).
Proof.
  unfold map_sorted. induction 1 as [|[k v] m Hs IH Hall]; simpl.
  - repeat constructor.
  - destruct (String.eqb key k) eqn:Eeq; [now constructor|].
    destruct (String.ltb key k) eqn:Elt.
    + constructor; [now constructor|].
      constructor; [exact Elt|].
      rewrite Forall_forall in Hall |- *. intros q Hq.
      exact (ltb_trans _ _ _ Elt (Hall q Hq)).
    + constructor; [exact IH|].
      rewrite Forall_forall in Hall |- *. intros q Hq.
      apply map_emplace_keys in Hq. destruct Hq as [Hq| ->].
      * exact (Hall q Hq).
      * cbn [fst]. now apply ltb_total.
Qed.

(** In a sorted map a key has one entry at most. *)
Lemma map_sorted_unique (m : mapAptTy) (key : string) (a b : Apt.t) :
  map_sorted m -> In (key, a) m -> In (key, b) m -> a = b.
Proof.
  unfold map_sorted. induction 1 as [|[k v] m Hs IH Hall]; [intros []|].
  rewrite Forall_forall in Hall.
  intros [Ha|Ha] [Hb|Hb].
  - congruence.
  - injection Ha as -> ->. specialize (Hall _ Hb). cbn [fst] in Hall.
    now rewrite ltb_irrefl in Hall.
  - injection Hb as -> ->. specialize (Hall _ Ha). cbn [fst] in Hall.
    now rewrite ltb_irrefl in Hall.
  - now apply IH.
Qed.

Lemma map_count_In (m : mapAptTy) (key : string) :
  map_count m key = 1%Z <-> exists a, In (key, a) m.
Proof.
  unfold map_count.
  destruct (existsb _ m) eqn:E.
  - split; [intros _|reflexivity].
    apply existsb_exists in E. destruct E as ([k a] & Hin & Heq).
    cbn [fst] in Heq. apply String.eqb_eq in Heq. subst. now exists a.
  - split; [discriminate|]. intros [a Hin].
    assert (Ht : existsb (fun p : string * Apt.t => String.eqb (fst p) key) m
                 = true).
    { apply existsb_exists. exists (key, a). split; [exact Hin|].
      apply String.eqb_refl. }
    congruence.
Qed.

Lemma map_count_cases (m : mapAptTy) (key : string) :
  map_count m key = 0%Z \/ map_count m key = 1%Z.
Proof. unfold map_count. destruct (existsb _ m); auto. Qed.

(** With the key in the map, [emplace] does nothing. *)
Lemma map_emplace_known (m : mapAptTy) (key : string) (apt : Apt.t) :
  map_sorted m -> map_count m key = 1%Z -> map_emplace m key apt = m.
Proof.
  intros Hs Hc. apply map_count_In in Hc. destruct Hc as [a Hin].
  unfold map_sorted in Hs.
  induction Hs as [|[k v] m Hs IH Hall]; [destruct Hin|].
  simpl. destruct (String.eqb key k) eqn:Eeq; [reflexivity|].
  destruct Hin as [Heq|Hin].
  { injection Heq as -> ->. now rewrite String.eqb_refl in Eeq. }
  rewrite Forall_forall in Hall. specialize (Hall _ Hin). cbn [fst] in Hall.
  rewrite (ltb_asym _ _ Hall). now rewrite IH.
Qed.

(** Without the key in the map, [emplace] adds the entry. *)
Lemma map_emplace_new (m : mapAptTy) (key : string) (apt : Apt.t) :
  map_count m key = 0%Z -> In (key, apt) (map_emplace m key apt).
Proof.
  induction m as [|[k v] m IH]; simpl; [now left|].
  unfold map_count. cbn [existsb fst]. rewrite (String.eqb_sym k key).
  destruct (String.eqb key k); [discriminate|]. cbn [orb].
  intros Hc. destruct (String.ltb key k); [now left|].
  right. now apply IH.
Qed.

Section MapOfAirports.
Context `{CoordCalc} `{Settings} `{TextIO}.

Lemma read_loop_sorted (stop : nat) (box : boundingBoxTy.t) (st : readerTy) :
  map_sorted (r_gmapApt st) -> map_sorted (fst (read_loop stop box st)).
Proof.
  assert (Hflush : forall st, map_sorted (r_gmapApt st) ->
                              map_sorted (flush_airport st)).
  { intros st1 Hs. unfold flush_airport, AddApt.
    destruct (Apt.IsValid (r_apt st1)); [|exact Hs].
    now apply map_emplace_sorted. }
  revert st. induction stop as [|stop IH]; intros st Hs; cbn [read_loop].
  - now apply Hflush.
  - destruct (r_bProcessGivenLn st || good (r_fIn st));
      [|now apply Hflush].
    destruct (read_round box st) as [st'|] eqn:Hround; [|exact Hs].
    apply IH.
    destruct (read_round_map box st st' Hround) as [-> | [_ ->]];
      [exact Hs|].
    unfold AddApt. now apply map_emplace_sorted.
Qed.
End MapOfAirports.

(** X7: [AddApt] stores an airport under its id unless the id is in the
    map: with the id in the map the map stays as it is (the airport defined
    first wins); otherwise exactly one entry is added, under the id: the
    airport given with its bounds enlarged by the snapping distance and its
    edges rearranged, while id, altitude, nodes and endpoints are stored as
    given.  Either way the keys of the map stay in strictly ascending
    order. *)
Theorem AddApt_first_wins `{CoordCalc} `{Settings} (gmapApt : mapAptTy)
    (apt : Apt.t) :
  map_sorted gmapApt ->
  map_sorted (AddApt gmapApt apt)
  /\ (map_count gmapApt (Apt.GetId apt) = 1%Z -> AddApt gmapApt apt = gmapApt)
  /\ (map_count gmapApt (Apt.GetId apt) = 0%Z ->
      exists a,
        (forall p, In p (AddApt gmapApt apt)
                   <-> In p gmapApt \/ p = (Apt.GetId apt, a))
        /\ Apt.id a = Apt.id apt
        /\ Apt.bounds a
           = enlarge_m (Apt.bounds apt) (ofZ GetFdSnapTaxiDist_m)
        /\ Apt.alt_m a = Apt.alt_m apt
        /\ Apt.vecTaxiNodes a = Apt.vecTaxiNodes apt
        /\ Apt.vecRwyEndPts a = Apt.vecRwyEndPts apt
        /\ Permutation (Apt.vecTaxiEdges apt) (Apt.vecTaxiEdges a)).
Proof.
  intros Hs. unfold AddApt. split; [now apply map_emplace_sorted|]. split.
  - now apply map_emplace_known.
  - intros Hc. eexists. split.
    + intros p. split.
      * apply map_emplace_In.
      * intros [Hin| ->]; [now apply map_emplace_keeps|].
        now apply map_emplace_new.
    + cbn [Apt.vecTaxiEdges Apt.set_vecTaxiEdges Apt.vecTaxiNodes
           Apt.vecRwyEndPts Apt.id Apt.bounds Apt.alt_m Apt.EnlargeBounds_m
           Apt.set_bounds].
      repeat split. apply sort_edges_perm.
Qed.

Lemma AddApt_first_wins_example :
  @AddApt flat_world test_settings map_runways_0 (apt_two_runways 45 1000)
  = map_runways_0.
Proof.
  assert (Hs : map_sorted map_runways_0) by (repeat constructor).
  destruct (@AddApt_first_wins flat_world test_settings map_runways_0
              (apt_two_runways 45 1000) Hs) as (_ & Hknown & _).
  apply Hknown. reflexivity.
Defined.

(** X8: the airport that [AddApt] stores has the edges of the airport
    given, in ascending order of their headings, provided no heading is
    [NaN]: the order on which the bisection of [FindEdgesForHeading]
    relies.  Nodes, endpoints and id are stored as given. *)
Theorem AddApt_sorts_edges `{CoordCalc} `{Settings} (gmapApt : mapAptTy)
    (apt : Apt.t) :
  Forall (fun e => isnan (TaxiEdge.angle e) = false) (Apt.vecTaxiEdges apt) ->
  map_count gmapApt (Apt.GetId apt) = 0%Z ->
  exists a,
    In (Apt.GetId apt, a) (AddApt gmapApt apt)
    /\ sorted_by_heading (Apt.vecTaxiEdges a)
    /\ Permutation (Apt.vecTaxiEdges apt) (Apt.vecTaxiEdges a)
    /\ Apt.vecTaxiNodes a = Apt.vecTaxiNodes apt
    /\ Apt.vecRwyEndPts a = Apt.vecRwyEndPts apt
    /\ Apt.id a = Apt.id apt.
Proof.
  intros Hn Hc. eexists. split; [unfold AddApt; apply map_emplace_new, Hc|].
  cbn [Apt.vecTaxiEdges Apt.set_vecTaxiEdges Apt.vecTaxiNodes
       Apt.vecRwyEndPts Apt.id Apt.EnlargeBounds_m Apt.set_bounds].
  split; [now apply sort_edges_sorted|].
  split; [apply sort_edges_perm|]. repeat split.
Qed.

Lemma AddApt_sorts_edges_example :
  exists a,
    In ("TEST"%string, a)
       (@AddApt flat_world test_settings []
          (apt_of_edges [edge_heading 90; edge_heading 8; edge_heading 178]))
    /\ sorted_by_heading (Apt.vecTaxiEdges a)
    /\ Permutation [edge_heading 90; edge_heading 8; edge_heading 178]
                   (Apt.vecTaxiEdges a).
Proof.
  destruct (@AddApt_sorts_edges flat_world test_settings []
              (apt_of_edges
                 [edge_heading 90; edge_heading 8; edge_heading 178]))
    as (a & Hin & Hs & Hp & _).
  - repeat constructor.
  - reflexivity.
  - exists a. split; [exact Hin|]. split; [exact Hs|exact Hp].
Defined.

(** X9: with the keys of the map in ascending order before
    [ReadOneAptFile], they are in strictly ascending order after it: no id
    is stored twice, and an airport whose id is in the map is stored by no
    later section of a file. *)
Theorem ReadOneAptFile_keys_ascend `{CoordCalc} `{Settings} `{TextIO}
    (stop : nat) (gmapApt : mapAptTy) (fIn : ifstream)
    (box : boundingBoxTy.t) :
  map_sorted gmapApt ->
  map_sorted (fst (ReadOneAptFile stop gmapApt fIn box))
  /\ forall key a b,
       In (key, a) gmapApt ->
       In (key, b) (fst (ReadOneAptFile stop gmapApt fIn box)) -> a = b.
Proof.
  intros Hs.
  assert (Hs' : map_sorted (fst (ReadOneAptFile stop gmapApt fIn box)))
    by (unfold ReadOneAptFile; now apply read_loop_sorted).
  split; [exact Hs'|]. intros key a b Ha Hb.
  apply (map_sorted_unique _ key a b Hs'); [|exact Hb].
  unfold ReadOneAptFile. now apply read_loop_keeps.
Qed.

Lemma ReadOneAptFile_keys_ascend_example :
  map_sorted
    (fst (@ReadOneAptFile flat_world test_settings test_TextIO 100
            map_runways_0 (mkStream sample_apt_dat true) sample_box)).
Proof.
  refine (proj1 (@ReadOneAptFile_keys_ascend flat_world test_settings
                   test_TextIO 100 map_runways_0
                   (mkStream sample_apt_dat true) sample_box _)).
  repeat constructor.
Defined.

(** X10: [LTAptFind] returns the first airport in the order of the keys
    that contains the position: the airport is in the map and contains the
    position, and every airport of the map that contains the position has
    the same key or a greater one.  It returns no airport exactly when no
    airport of the map contains the position. *)
Theorem LTAptFind_first_containing `{CoordCalc} (gmapApt : mapAptTy)
    (pos : positionTy.t) :
  map_sorted gmapApt ->
  (forall apt,
      LTAptFind gmapApt pos = Some apt ->
      exists key,
        In (key, apt) gmapApt /\ Apt.Contains apt pos = true
        /\ forall key' apt',
             In (key', apt') gmapApt -> Apt.Contains apt' pos = true ->
             key' = key \/ String.ltb key key' = true)
  /\ (LTAptFind gmapApt pos = None <->
      forall key apt, In (key, apt) gmapApt -> Apt.Contains apt pos = false).
Proof.
  intros Hs. unfold LTAptFind, map_sorted in *. split.
  - induction Hs as [|[k v] m Hs IH Hall]; [discriminate|].
    intros apt. cbn [find snd].
    destruct (Apt.Contains v pos) eqn:Hc.
    + simpl. intros Heq. injection Heq as <-. exists k.
      split; [now left|]. split; [exact Hc|].
      intros key' apt' [Heq|Hin] _.
      * injection Heq as -> _. now left.
      * right. rewrite Forall_forall in Hall. exact (Hall _ Hin).
    + intros Hfind. destruct (IH apt Hfind) as (key & Hin & Hcont & Hmin).
      exists key. split; [now right|]. split; [exact Hcont|].
      intros key' apt' [Heq|Hin'] Hc'.
      * injection Heq as -> ->. congruence.
      * now apply (Hmin key' apt').
  - clear Hs. induction gmapApt as [|[k v] m IH]; cbn [find snd].
    + split; [intros _ key apt []|reflexivity].
    + destruct (Apt.Contains v pos) eqn:Hc.
      * split; [discriminate|]. intros Hall.
        specialize (Hall k v (or_introl eq_refl)). congruence.
      * rewrite IH. split.
        -- intros Hall key apt [Heq|Hin]; [congruence|now apply (Hall key)].
        -- intros Hall key apt Hin. apply (Hall key). now right.
Qed.

Lemma LTAptFind_first_containing_example :
  exists key,
    In (key, apt_taxi_east)
       [("EAST"%string, apt_taxi_east); ("TEST"%string, apt_taxi_east)]
    /\ @Apt.Contains flat_world apt_taxi_east (pos_east 0 30) = true
    /\ forall key' apt',
         In (key', apt')
            [("EAST"%string, apt_taxi_east); ("TEST"%string, apt_taxi_east)] ->
         @Apt.Contains flat_world apt' (pos_east 0 30) = true ->
         key' = key \/ String.ltb key key' = true.
Proof.
  assert (Hs : map_sorted
                 [("EAST"%string, apt_taxi_east);
                  ("TEST"%string, apt_taxi_east)])
    by (repeat constructor).
  apply (proj1 (@LTAptFind_first_containing flat_world _ (pos_east 0 30) Hs)
           apt_taxi_east).
  vm_compute. reflexivity.
Defined.

(** * Further properties of the search by heading *)

Lemma CompHeadLess_cmp (m : TaxiEdge.t) (lo : double) :
  TaxiEdge.CompHeadLess m (TaxiEdge.ctor_cmp lo) = (TaxiEdge.angle m <? lo)%D.
Proof. reflexivity. Qed.

(** X11: on edges sorted by heading, [std::lower_bound] with
    [CompHeadLess] returns the partition point of the heading searched for:
    a position of the vector or its end, with all edges before it of a
    smaller heading and all edges from it on of a heading that is not
    smaller. *)
Theorem lower_bound_partition_point (es : list TaxiEdge.t) (lo : Q) :
  sorted_by_heading es ->
  let k := lower_bound TaxiEdge.CompHeadLess es (TaxiEdge.ctor_cmp (Num lo)) in
  (k <= List.length es)%nat
  /\ Forall (fun e => (TaxiEdge.angle e <? Num lo)%D = true) (firstn k es)
  /\ Forall (fun e => (Num lo <=? TaxiEdge.angle e)%D = true) (skipn k es).
Proof.
  intros Hs. destruct (sorted_split es lo Hs)
    as (l1 & l2 & -> & H1 & H2 & H3 & H4).
  cbv zeta. rewrite (lower_bound_partition _ _ l1 l2 H1 H2).
  rewrite firstn_app, firstn_all, Nat.sub_diag, firstn_O, app_nil_r.
  rewrite skipn_app, skipn_all, Nat.sub_diag. cbn [skipn app].
  split; [rewrite length_app; lia|]. split; [exact H1|exact H3].
Qed.

Lemma lower_bound_partition_point_example :
  let k := lower_bound TaxiEdge.CompHeadLess (Apt.vecTaxiEdges apt_8_90_178)
             (TaxiEdge.ctor_cmp (Num 50)) in
  (k <= List.length (Apt.vecTaxiEdges apt_8_90_178))%nat
  /\ Forall (fun e => (TaxiEdge.angle e <? Num 50)%D = true)
            (firstn k (Apt.vecTaxiEdges apt_8_90_178))
  /\ Forall (fun e => (Num 50 <=? TaxiEdge.angle e)%D = true)
            (skipn k (Apt.vecTaxiEdges apt_8_90_178)).
Proof.
  apply (lower_bound_partition_point (Apt.vecTaxiEdges apt_8_90_178) 50).
  apply sorted_by_heading_b_correct. reflexivity.
Defined.

(** X12: when the window around the search heading crosses neither 0 nor
    180 degrees, [FindEdgesForHeading] searches one range: on edges sorted
    by heading it appends the positions of the edges of the wanted type
    whose heading lies at most the tolerance away from the search heading
    (folded into [0,180)), in ascending order and each once. *)
Theorem FindEdgesForHeading_single_window (apt : Apt.t) (h tol : Q)
    (lst : list nat) (r : TaxiEdge.nodeTy) :
  sorted_by_heading (Apt.vecTaxiEdges apt) ->
  0 <= fold_heading h - tol -> fold_heading h + tol < 180 ->
  snd (Apt.FindEdgesForHeading apt (Num h) (Num tol) lst r)
  = lst ++ matching (Apt.vecTaxiEdges apt) 0 (Num (fold_heading h - tol))
                    (Num (fold_heading h + tol)) r
  /\ NoDup (snd (Apt.FindEdgesForHeading apt (Num h) (Num tol) [] r))
  /\ forall i,
       In i (snd (Apt.FindEdgesForHeading apt (Num h) (Num tol) [] r)) <->
       exists e q,
         nth_error (Apt.vecTaxiEdges apt) i = Some e
         /\ Apt.type_ok r e = true
         /\ TaxiEdge.angle e = Num q
         /\ Qabs (q - fold_heading h) <= tol.
Proof.
  intros Hs Hlo Hhi.
  assert (Hres : forall l,
             snd (Apt.FindEdgesForHeading apt (Num h) (Num tol) l r)
             = l ++ matching (Apt.vecTaxiEdges apt) 0
                      (Num (fold_heading h - tol))
                      (Num (fold_heading h + tol)) r).
  { intros l. rewrite FindEdgesForHeading_matching by exact Hs.
    rewrite heading_ranges_Num. cbv zeta.
    assert (E1 : Qle_bool 0 (fold_heading h - tol) = true)
      by now apply Qle_bool_iff.
    assert (E2 : Qle_bool 180 (fold_heading h + tol) = false).
    { destruct (Qle_bool 180 (fold_heading h + tol)) eqn:E; [|reflexivity].
      apply Qle_bool_iff in E. lra. }
    rewrite E1, E2. cbn [andb negb flat_map fst snd].
    now rewrite app_nil_r. }
  split; [apply Hres|]. rewrite (Hres []). cbn [app].
  split; [apply matching_NoDup|]. intros i. rewrite matching_In.
  rewrite Nat.sub_0_r. split.
  - intros (_ & e & He & Hw & Ht). unfold in_window in Hw.
    apply andb_true_iff in Hw. destruct Hw as [Hw1 Hw2].
    destruct (TaxiEdge.angle e) as [|q] eqn:Eq; [discriminate|].
    apply dle_Num in Hw1, Hw2. exists e, q.
    repeat split; try assumption. apply Qabs_Qle_condition. lra.
  - intros (e & q & He & Ht & Eq & Habs). split; [lia|]. exists e.
    split; [exact He|]. split; [|exact Ht].
    apply Qabs_Qle_condition in Habs. unfold in_window. rewrite Eq.
    apply andb_true_iff. split; apply dle_Num; lra.
Qed.

Lemma FindEdgesForHeading_single_window_example :
  snd (Apt.FindEdgesForHeading apt_8_90_178 (Num 275) (Num 10) []
                               TaxiEdge.UNKNOWN_WAY)
  = [1%nat].
Proof.
  assert (Hs : sorted_by_heading (Apt.vecTaxiEdges apt_8_90_178))
    by (apply sorted_by_heading_b_correct; reflexivity).
  assert (Hlo : 0 <= fold_heading 275 - 10) by (vm_compute; discriminate).
  assert (Hhi : fold_heading 275 + 10 < 180) by reflexivity.
  rewrite (proj1 (FindEdgesForHeading_single_window apt_8_90_178 275 10 []
                    TaxiEdge.UNKNOWN_WAY Hs Hlo Hhi)).
  reflexivity.
Defined.

(** ** The list passed in *)

Lemma scan_edges_app (es : list TaxiEdge.t) (pos : nat) (upper : double)
    (r : TaxiEdge.nodeTy) (lst : list nat) :
  Apt.scan_edges es pos upper r lst
  = lst ++ Apt.scan_edges es pos upper r [].
Proof.
  revert pos lst. induction es as [|e es IH]; intros pos lst; simpl.
  - now rewrite app_nil_r.
  - destruct (TaxiEdge.angle e <=? upper)%D; [|now rewrite app_nil_r].
    destruct (Apt.type_ok r e); [|apply IH].
    rewrite IH, (IH _ [pos]), app_assoc. reflexivity.
Qed.

Lemma search_ranges_app (apt : Apt.t) (r : TaxiEdge.nodeTy)
    (rngs : list (double * double)) (lst : list nat) :
  fold_left (Apt.search_range apt r) rngs lst
  = lst ++ fold_left (Apt.search_range apt r) rngs [].
Proof.
  revert lst. induction rngs as [|rng rngs IH]; intros lst; simpl.
  - now rewrite app_nil_r.
  - rewrite IH, (IH (Apt.search_range apt r [] rng)).
    unfold Apt.search_range. rewrite scan_edges_app, app_assoc.
    reflexivity.
Qed.

(** X13: [FindEdgesForHeading] adds to the list passed in: the list comes
    back with the positions found appended, the same that the search finds
    on an empty list; and the result is true exactly when the list that
    comes back is not empty, so also when nothing was found but the list
    passed in held something. *)
Theorem FindEdgesForHeading_appends (apt : Apt.t)
    (_headSearch _angleTolerance : double) (lst : list nat)
    (_restrictType : TaxiEdge.nodeTy) :
  snd (Apt.FindEdgesForHeading apt _headSearch _angleTolerance lst
                               _restrictType)
  = lst ++ snd (Apt.FindEdgesForHeading apt _headSearch _angleTolerance []
                                        _restrictType)
  /\ fst (Apt.FindEdgesForHeading apt _headSearch _angleTolerance lst
                                  _restrictType)
     = negb (Apt.empty lst)
       || fst (Apt.FindEdgesForHeading apt _headSearch _angleTolerance []
                                       _restrictType).
Proof.
  unfold Apt.FindEdgesForHeading. cbn [fst snd].
  rewrite search_ranges_app. split; [reflexivity|].
  destruct lst; reflexivity.
Qed.

(** ** The opposite heading *)

Lemma dlt_Qeq (u : double) (p q : Q) :
  p == q -> (u <? Num p)%D = (u <? Num q)%D.
Proof.
  intros Heq. destruct u as [|x]; [reflexivity|].
  destruct (Num x <? Num q)%D eqn:E.
  - apply dlt_Num in E. apply dlt_Num. lra.
  - apply dlt_Num_false in E. apply dlt_Num_false. lra.
Qed.

Lemma dle_Qeq (u : double) (p q : Q) :
  p == q -> (u <=? Num p)%D = (u <=? Num q)%D.
Proof.
  intros Heq. destruct u as [|x]; [reflexivity|].
  destruct (Num x <=? Num q)%D eqn:E.
  - apply dle_Num in E. apply dle_Num. lra.
  - apply dle_Num_false in E. apply dle_Num_false. lra.
Qed.

Lemma lower_bound_loop_ext {A : Type} (comp : A -> A -> bool) (v : list A)
    (val val' : A) :
  (forall m, comp m val = comp m val') ->
  forall fuel first len,
    lower_bound_loop comp v val fuel first len
    = lower_bound_loop comp v val' fuel first len.
Proof.
  intros Hext. induction fuel as [|fuel IH]; intros first len; simpl;
    [reflexivity|].
  destruct (len =? 0)%nat; [reflexivity|].
  destruct (nth_error v (first + Nat.div2 len)) as [m|]; [|reflexivity].
  rewrite Hext. destruct (comp m val'); apply IH.
Qed.

Lemma scan_edges_Qeq (es : list TaxiEdge.t) (pos : nat) (p q : Q)
    (r : TaxiEdge.nodeTy) (lst : list nat) :
  p == q ->
  Apt.scan_edges es pos (Num p) r lst = Apt.scan_edges es pos (Num q) r lst.
Proof.
  intros Heq. revert pos lst. induction es as [|e es IH]; intros pos lst;
    simpl; [reflexivity|].
  rewrite (dle_Qeq _ p q Heq). destruct (_ <=? _)%D; [apply IH|reflexivity].
Qed.

Lemma search_range_Qeq (apt : Apt.t) (r : TaxiEdge.nodeTy) (lst : list nat)
    (lo lo' hi hi' : Q) :
  lo == lo' -> hi == hi' ->
  Apt.search_range apt r lst (Num lo, Num hi)
  = Apt.search_range apt r lst (Num lo', Num hi').
Proof.
  intros Hlo Hhi. unfold Apt.search_range, lower_bound. cbn [fst snd].
  rewrite (lower_bound_loop_ext TaxiEdge.CompHeadLess _
             (TaxiEdge.ctor_cmp (Num lo)) (TaxiEdge.ctor_cmp (Num lo'))).
  - apply scan_edges_Qeq, Hhi.
  - intros m. rewrite !CompHeadLess_cmp. apply dlt_Qeq, Hlo.
Qed.

Lemma Qle_bool_Qeq (a b c d : Q) :
  a == c -> b == d -> Qle_bool a b = Qle_bool c d.
Proof.
  intros Hac Hbd. destruct (Qle_bool c d) eqn:E.
  - apply Qle_bool_iff in E. apply Qle_bool_iff. lra.
  - destruct (Qle_bool a b) eqn:E'; [|reflexivity].
    apply Qle_bool_iff in E'.
    assert (Hcd : c <= d) by lra. apply Qle_bool_iff in Hcd. congruence.
Qed.

(** X14: the search does not tell a heading from its opposite: for a
    heading in [0,180), [FindEdgesForHeading] returns for the heading plus
    180 degrees what it returns for the heading itself. *)
Theorem FindEdgesForHeading_opposite (apt : Apt.t) (h tol : Q)
    (lst : list nat) (r : TaxiEdge.nodeTy) :
  0 <= h -> h < 180 ->
  Apt.FindEdgesForHeading apt (Num (h + 180)) (Num tol) lst r
  = Apt.FindEdgesForHeading apt (Num h) (Num tol) lst r.
Proof.
  intros H0 H180. unfold Apt.FindEdgesForHeading.
  rewrite !heading_ranges_Num. cbv zeta.
  assert (Hfold : fold_heading (h + 180) == fold_heading h).
  { unfold fold_heading.
    assert (E1 : Qle_bool 180 (h + 180) = true)
      by (apply Qle_bool_iff; lra).
    assert (E2 : Qle_bool 180 h = false).
    { destruct (Qle_bool 180 h) eqn:E; [|reflexivity].
      apply Qle_bool_iff in E. lra. }
    rewrite E1, E2. lra. }
  set (h1 := fold_heading (h + 180)) in *.
  set (h2 := fold_heading h) in *.
  rewrite (Qle_bool_Qeq 0 (h1 - tol) 0 (h2 - tol)) by lra.
  rewrite (Qle_bool_Qeq 180 (h1 + tol) 180 (h2 + tol)) by lra.
  assert (Hlst :
    fold_left (Apt.search_range apt r)
      (if Qle_bool 0 (h2 - tol) && negb (Qle_bool 180 (h2 + tol))
       then [(Num (h1 - tol), Num (h1 + tol))]
       else [(Num 0, Num (lower_range_end h1 tol));
             (Num (upper_range_begin h1 tol), Num 180)]) lst
    = fold_left (Apt.search_range apt r)
      (if Qle_bool 0 (h2 - tol) && negb (Qle_bool 180 (h2 + tol))
       then [(Num (h2 - tol), Num (h2 + tol))]
       else [(Num 0, Num (lower_range_end h2 tol));
             (Num (upper_range_begin h2 tol), Num 180)]) lst).
  { assert (Elow : lower_range_end h1 tol == lower_range_end h2 tol).
    { unfold lower_range_end.
      rewrite (Qle_bool_Qeq 0 (h1 - tol) 0 (h2 - tol)) by lra.
      destruct (Qle_bool 0 (h2 - tol)); lra. }
    assert (Eup : upper_range_begin h1 tol == upper_range_begin h2 tol).
    { unfold upper_range_begin.
      rewrite (Qle_bool_Qeq 0 (h1 - tol) 0 (h2 - tol)) by lra.
      destruct (Qle_bool 0 (h2 - tol)); lra. }
    destruct (Qle_bool 0 (h2 - tol) && negb (Qle_bool 180 (h2 + tol)));
      cbn [fold_left].
    - apply search_range_Qeq; lra.
    - rewrite (search_range_Qeq apt r lst 0 0 _ _ (Qeq_refl 0) Elow).
      apply search_range_Qeq; [exact Eup|reflexivity]. }
  now rewrite Hlst.
Qed.

Lemma FindEdgesForHeading_opposite_example :
  Apt.FindEdgesForHeading apt_8_90_178 (Num (95 + 180)) (Num 10) []
                          TaxiEdge.UNKNOWN_WAY
  = Apt.FindEdgesForHeading apt_8_90_178 (Num 95) (Num 10) []
                            TaxiEdge.UNKNOWN_WAY.
Proof.
  apply (FindEdgesForHeading_opposite apt_8_90_178 95 10 []
           TaxiEdge.UNKNOWN_WAY).
  - vm_compute. discriminate.
  - reflexivity.
Defined.

(** * Further properties of the construction operations *)

(** X15: [AddTaxiNode] returns the index of the node it adds: the lookup of
    that index in the airport's taxi nodes gives the new node, without
    local coordinates, and the nodes added before keep their indexes. *)
Theorem AddTaxiNode_index `{CoordCalc} (apt : Apt.t) (lat lon : double) :
  (size (Apt.vecTaxiNodes apt) < 2 ^ 64)%Z ->
  let idx := fst (Apt.AddTaxiNode apt lat lon) in
  let apt' := snd (Apt.AddTaxiNode apt lat lon) in
  idx = size (Apt.vecTaxiNodes apt)
  /\ at_ (Apt.vecTaxiNodes apt') idx = Some (TaxiNode.ctor lat lon)
  /\ (forall i n, at_ (Apt.vecTaxiNodes apt) i = Some n ->
                  at_ (Apt.vecTaxiNodes apt') i = Some n)
  /\ Apt.vecTaxiEdges apt' = Apt.vecTaxiEdges apt
  /\ Apt.vecRwyEndPts apt' = Apt.vecRwyEndPts apt.
Proof.
  intros Hsize. cbv zeta.
  cbn [Apt.AddTaxiNode fst snd Apt.vecTaxiNodes Apt.vecTaxiEdges
       Apt.vecRwyEndPts Apt.set_vecTaxiNodes Apt.set_bounds].
  pose proof (size_nonneg (Apt.vecTaxiNodes apt)) as Hpos.
  assert (Hidx : size_t_sub (size (Apt.vecTaxiNodes apt
                                   ++ [TaxiNode.ctor lat lon])) 1
                 = size (Apt.vecTaxiNodes apt)).
  { rewrite size_app. change (size [TaxiNode.ctor lat lon]) with 1%Z.
    rewrite size_t_sub_exact by lia. lia. }
  rewrite Hidx. split; [reflexivity|]. split; [apply at_snoc|].
  split; [|split; reflexivity].
  intros i n Hat. now apply at_app_l.
Qed.

Lemma AddTaxiNode_index_example :
  fst (@Apt.AddTaxiNode flat_world apt_two_nodes (Num 0) (Num 200)) = 2%Z
  /\ at_ (Apt.vecTaxiNodes
            (snd (@Apt.AddTaxiNode flat_world apt_two_nodes (Num 0)
                    (Num 200))))
         2
     = Some (TaxiNode.ctor (Num 0) (Num 200)).
Proof.
  destruct (@AddTaxiNode_index flat_world apt_two_nodes (Num 0) (Num 200))
    as (Hidx & Hat & _).
  - reflexivity.
  - split; [exact Hidx|]. rewrite Hidx in Hat. exact Hat.
Defined.

(** * Further properties of the taxi lines *)

Section TaxiLines.
Context `{CoordCalc}.

Lemma taxi_extension_refl (apt : Apt.t) : taxi_extension apt apt.
Proof.
  repeat split; [exists []|exists []]; rewrite app_nil_r; auto.
Qed.

Lemma taxi_extension_node (apt0 apt : Apt.t) (lat lon : double) :
  taxi_extension apt0 apt ->
  taxi_extension apt0 (snd (Apt.AddTaxiNode apt lat lon)).
Proof.
  intros (Hid & Halt & Hr & [ns Hn] & He).
  cbn [Apt.AddTaxiNode snd]. unfold taxi_extension.
  cbn [Apt.id Apt.alt_m Apt.vecRwyEndPts Apt.vecTaxiNodes Apt.vecTaxiEdges
       Apt.set_vecTaxiNodes Apt.set_bounds].
  repeat split; try assumption.
  exists (ns ++ [TaxiNode.ctor lat lon]). now rewrite Hn, app_assoc.
Qed.

Lemma taxi_extension_edge (apt0 apt : Apt.t) (n1 n2 : Z) (d : double) :
  taxi_extension apt0 apt ->
  taxi_extension apt0 (snd (Apt.AddTaxiEdge apt n1 n2 d)).
Proof.
  intros Hext. unfold Apt.AddTaxiEdge.
  destruct (_ || _); [exact Hext|].
  destruct (at_ _ n1); [|exact Hext]. destruct (at_ _ n2); [|exact Hext].
  destruct (_ || _); [exact Hext|].
  destruct Hext as (Hid & Halt & Hr & Hn & [es [He Ht]]).
  cbn [snd]. unfold taxi_extension.
  cbn [Apt.id Apt.alt_m Apt.vecRwyEndPts Apt.vecTaxiNodes Apt.vecTaxiEdges
       Apt.set_vecTaxiEdges].
  repeat split; try assumption.
  eexists. rewrite He, <- app_assoc. split; [reflexivity|].
  apply Forall_app. split; [exact Ht|]. constructor; [|constructor].
  apply ctor_type.
Qed.

Ltac extension_step :=
  match goal with
  | |- context [Apt.AddTaxiNode ?a ?lat ?lon] =>
      let Hx := fresh "Hx" in
      pose proof (fun a0 => taxi_extension_node a0 a lat lon) as Hx;
      destruct (Apt.AddTaxiNode a lat lon) as [? ?]; cbn [snd] in Hx
  | |- context [Apt.AddTaxiEdge ?a ?n1 ?n2 ?d] =>
      let Hx := fresh "Hx" in
      pose proof (fun a0 => taxi_extension_edge a0 a n1 n2 d) as Hx;
      destruct (Apt.AddTaxiEdge a n1 n2 d) as [? ?]; cbn [snd] in Hx
  end.

Lemma thin_loop_extension (apt0 : Apt.t) (fuel : nat) (v : list TaxiNode.t)
    (iter : nat) (apt : Apt.t) :
  taxi_extension apt0 apt ->
  taxi_extension apt0 (snd (thin_loop fuel v iter apt)).
Proof.
  revert v iter apt. induction fuel as [|fuel IH]; intros v iter apt Hb;
    cbn [thin_loop]; [exact Hb|].
  destruct (iter + 3 =? List.length v)%nat; [exact Hb|].
  destruct (nth_error v iter) as [a|]; [|exact Hb].
  destruct (nth_error v (S iter)) as [b|]; [|exact Hb].
  destruct (_ <? _)%D; [now apply IH|].
  do 2 extension_step. apply IH. auto.
Qed.

Lemma thin_last3_extension (apt0 : Apt.t) (v : list TaxiNode.t)
    (apt : Apt.t) :
  taxi_extension apt0 apt ->
  taxi_extension apt0 (snd (fst (thin_last3 v apt))).
Proof.
  intros Hb. unfold thin_last3.
  destruct (3 <=? size v)%Z; [|exact Hb].
  destruct (at_ v _) as [a|]; [|exact Hb].
  destruct (at_ v _) as [b|]; [|exact Hb].
  destruct (at_ v _) as [c|]; [|exact Hb].
  destruct (_ || _); [exact Hb|].
  do 2 extension_step. cbn [fst snd]. auto.
Qed.

Lemma add_final_edge_extension (apt0 : Apt.t) (v : list TaxiNode.t)
    (apt : Apt.t) (distToLast : double) :
  taxi_extension apt0 apt ->
  taxi_extension apt0 (add_final_edge v apt distToLast).
Proof.
  intros Hb. unfold add_final_edge.
  destruct (at_ v _) as [y|]; [|exact Hb].
  destruct (at_ v _) as [z|]; [|exact Hb].
  do 2 extension_step. auto.
Qed.

Lemma thin_taxi_nodes_extension (v : list TaxiNode.t) (apt : Apt.t) :
  taxi_extension apt (thin_taxi_nodes v apt).
Proof.
  pose proof (taxi_extension_refl apt) as Hb. revert Hb.
  generalize apt at 1 3. intros apt0 Hb.
  unfold thin_taxi_nodes.
  destruct (2 <=? size v)%Z; [|exact Hb].
  destruct v as [|front rest]; [exact Hb|].
  extension_step.
  set (v := front :: rest).
  assert (Hloop : taxi_extension apt0
                    (snd (if (3 <=? size v)%Z
                          then thin_loop (List.length v) v 0 t
                          else (v, t)))).
  { destruct (3 <=? size v)%Z; [apply thin_loop_extension|]; auto. }
  destruct (if (3 <=? size v)%Z then thin_loop (List.length v) v 0 t
            else (v, t)) as [v1 apt1].
  cbn [snd] in Hloop.
  pose proof (thin_last3_extension apt0 v1 apt1 Hloop) as Hlast.
  destruct (thin_last3 v1 apt1) as [[v2 apt2] d]. cbn [fst snd] in Hlast.
  now apply add_final_edge_extension.
Qed.
End TaxiLines.

(** X16: a taxi line section only adds taxi nodes and taxiway edges at the
    back of the airport's vectors: after [ReadOneTaxiLine], and after the
    thinning of any list of nodes, the airport has its id, its altitude and
    its runway endpoints as before, its former nodes and edges at their
    former indexes, and every edge added is a taxiway edge. *)
Theorem ReadOneTaxiLine_extends `{CoordCalc} `{TextIO} (apt : Apt.t) :
  (forall v : list TaxiNode.t, taxi_extension apt (thin_taxi_nodes v apt))
  /\ (forall (fIn fIn' : ifstream) (apt' : Apt.t) (ln' : string),
         ReadOneTaxiLine fIn apt = Ret (fIn', apt', ln') ->
         taxi_extension apt apt').
Proof.
  split; [intros v; apply thin_taxi_nodes_extension|].
  intros fIn fIn' apt' ln'. unfold ReadOneTaxiLine.
  destruct (if good fIn then read_taxi_nodes (lines fIn) []
            else Ret (fIn, [], EmptyString)) as [[[f v] l]|];
    [|discriminate].
  cbn [bind]. intros Heq. injection Heq as _ <- _.
  apply thin_taxi_nodes_extension.
Qed.

Lemma ReadOneTaxiLine_extends_example :
  taxi_extension apt_runway_2000
    (@thin_taxi_nodes flat_world five_points apt_runway_2000).
Proof.
  exact (proj1 (@ReadOneTaxiLine_extends flat_world test_TextIO
                  apt_runway_2000) five_points).
Defined.

(** ** The ends of a taxi line are kept *)

Lemma erase_nth_before {A : Type} (v : list A) (k j : nat) :
  (j < k)%nat -> (k < List.length v)%nat ->
  nth_error (erase v k) j = nth_error v j.
Proof.
  intros Hj Hk. unfold erase.
  rewrite nth_error_app1 by (rewrite length_firstn; lia).
  rewrite nth_error_firstn.
  destruct (j <? k)%nat eqn:E; [reflexivity|].
  apply Nat.ltb_ge in E. lia.
Qed.

Lemma erase_nth_after {A : Type} (v : list A) (k j : nat) :
  (k <= j)%nat -> (k < List.length v)%nat ->
  nth_error (erase v k) j = nth_error v (S j).
Proof.
  intros Hj Hk. unfold erase.
  rewrite nth_error_app2 by (rewrite length_firstn; lia).
  rewrite length_firstn, nth_error_skipn. f_equal. lia.
Qed.

Lemma erase_In {A : Type} (v : list A) (k : nat) (x : A) :
  In x (erase v k) -> In x v.
Proof.
  unfold erase. rewrite in_app_iff. intros [Hin|Hin].
  - rewrite <- (firstn_skipn k v). apply in_or_app. now left.
  - rewrite <- (firstn_skipn (S k) v). apply in_or_app. now right.
Qed.

(** The element [k] places before the end. *)
Lemma at_back {A : Type} (v : list A) (k : Z) :
  (size v < 2 ^ 64)%Z -> (1 <= k <= size v)%Z ->
  at_ v (size_t_sub (size v) k)
  = nth_error v (List.length v - Z.to_nat k).
Proof.
  intros Hs Hk. rewrite size_t_sub_exact by lia. unfold at_, size in *.
  destruct (Z.of_nat (List.length v) - k <? 0)%Z eqn:E;
    [apply Z.ltb_lt in E; lia|].
  f_equal. lia.
Qed.

Section TaxiLineEnds.
Context `{CoordCalc}.

Lemma AddTaxiEdge_nodes (apt : Apt.t) (n1 n2 : Z) (d : double) :
  Apt.vecTaxiNodes (snd (Apt.AddTaxiEdge apt n1 n2 d)) = Apt.vecTaxiNodes apt.
Proof.
  unfold Apt.AddTaxiEdge.
  destruct (_ || _); [reflexivity|].
  destruct (at_ _ n1); [|reflexivity]. destruct (at_ _ n2); [|reflexivity].
  destruct (_ || _); reflexivity.
Qed.

(** Adding a node and the edge to it adds the node. *)
Lemma add_node_and_edge (apt : Apt.t) (b : TaxiNode.t) (d : double) :
  Apt.vecTaxiNodes
    (snd (let '(idx, apt1) :=
            Apt.AddTaxiNode apt (TaxiNode.lat b) (TaxiNode.lon b) in
          Apt.AddTaxiEdge apt1 (size_t_sub idx 1) idx d))
  = Apt.vecTaxiNodes apt ++ [node_at b].
Proof.
  cbn [Apt.AddTaxiNode]. rewrite AddTaxiEdge_nodes. reflexivity.
Qed.

Lemma thin_loop_ends (fuel : nat) (v : list TaxiNode.t) (iter : nat)
    (apt : Apt.t) :
  (iter + 3 <= List.length v)%nat ->
  let v' := fst (thin_loop fuel v iter apt) in
  let apt' := snd (thin_loop fuel v iter apt) in
  (3 <= List.length v' <= List.length v)%nat
  /\ nth_error v' (List.length v' - 1) = nth_error v (List.length v - 1)
  /\ (forall n, In n v' -> In n v)
  /\ exists added,
       Apt.vecTaxiNodes apt' = Apt.vecTaxiNodes apt ++ added
       /\ Forall (fun n => exists m, In m v /\ n = node_at m) added.
Proof.
  cbv zeta. revert v iter apt.
  assert (Hsame : forall (v : list TaxiNode.t) (apt : Apt.t),
             (3 <= List.length v)%nat ->
             (3 <= List.length v <= List.length v)%nat
             /\ nth_error v (List.length v - 1)
                = nth_error v (List.length v - 1)
             /\ (forall n, In n v -> In n v)
             /\ exists added,
                  Apt.vecTaxiNodes apt = Apt.vecTaxiNodes apt ++ added
                  /\ Forall (fun n => exists m, In m v /\ n = node_at m)
                            added).
  { intros v apt Hlen. split; [lia|]. split; [reflexivity|].
    split; [auto|].
    exists []. rewrite app_nil_r. split; [reflexivity|constructor]. }
  induction fuel as [|fuel IH]; intros v iter apt Hlen; cbn [thin_loop];
    [apply Hsame; lia|].
  destruct (iter + 3 =? List.length v)%nat eqn:E; [apply Hsame; lia|].
  apply Nat.eqb_neq in E.
  destruct (nth_error v iter) as [a|] eqn:Ha; [|apply Hsame; lia].
  destruct (nth_error v (S iter)) as [b|] eqn:Hb; [|apply Hsame; lia].
  destruct (_ <? _)%D.
  - assert (Hel : List.length (erase v (S iter)) = (List.length v - 1)%nat)
      by (apply erase_length; lia).
    destruct (IH (erase v (S iter)) iter apt ltac:(lia))
      as (Hl & Hlast & Hin & added & Hn & Hall).
    split; [lia|]. split; [|split].
    + rewrite Hlast, Hel.
      rewrite erase_nth_after by lia. f_equal. lia.
    + intros n Hn'. exact (erase_In _ _ _ (Hin n Hn')).
    + exists added. split; [exact Hn|].
      eapply Forall_impl; [|exact Hall]. intros n (m & Hm & ->).
      exists m. split; [exact (erase_In _ _ _ Hm)|reflexivity].
  - pose proof (add_node_and_edge apt b
                  (sqrt (DistLatLonSqr (TaxiNode.lat a) (TaxiNode.lon a)
                                       (TaxiNode.lat b) (TaxiNode.lon b))))
      as Hadd.
    destruct (Apt.AddTaxiNode apt (TaxiNode.lat b) (TaxiNode.lon b))
      as [idx apt1].
    destruct (Apt.AddTaxiEdge apt1 (size_t_sub idx 1) idx _) as [ok apt2].
    cbn [snd] in Hadd.
    destruct (IH v (S iter) apt2 ltac:(lia))
      as (Hl & Hlast & Hin & added & Hn & Hall).
    split; [exact Hl|]. split; [exact Hlast|]. split; [exact Hin|].
    exists (node_at b :: added). split.
    + rewrite Hn, Hadd, <- app_assoc. reflexivity.
    + constructor; [|exact Hall]. exists b.
      split; [exact (nth_error_In _ _ Hb)|reflexivity].
Qed.

Lemma thin_last3_ends (v : list TaxiNode.t) (apt : Apt.t) :
  (size v < 2 ^ 64)%Z -> (2 <= List.length v)%nat ->
  let v' := fst (fst (thin_last3 v apt)) in
  let apt' := snd (fst (thin_last3 v apt)) in
  (2 <= List.length v' <= List.length v)%nat
  /\ nth_error v' (List.length v' - 1) = nth_error v (List.length v - 1)
  /\ exists added,
       Apt.vecTaxiNodes apt' = Apt.vecTaxiNodes apt ++ added
       /\ Forall (fun n => exists m, In m v /\ n = node_at m) added.
Proof.
  intros Hs Hlen. cbv zeta.
  assert (Hsame : (2 <= List.length v <= List.length v)%nat
                  /\ nth_error v (List.length v - 1)
                     = nth_error v (List.length v - 1)
                  /\ exists added,
                       Apt.vecTaxiNodes apt = Apt.vecTaxiNodes apt ++ added
                       /\ Forall (fun n => exists m, In m v /\ n = node_at m)
                                 added).
  { split; [lia|]. split; [reflexivity|].
    exists []. rewrite app_nil_r. split; [reflexivity|constructor]. }
  unfold thin_last3.
  destruct (3 <=? size v)%Z eqn:E3; [|exact Hsame].
  apply Z.leb_le in E3. unfold size in E3.
  destruct (at_ v (size_t_sub (size v) 3)) as [a|]; [|exact Hsame].
  destruct (at_ v (size_t_sub (size v) 2)) as [b|] eqn:Hb; [|exact Hsame].
  destruct (at_ v (size_t_sub (size v) 1)) as [c|]; [|exact Hsame].
  destruct (_ || _).
  - cbn [fst snd].
    assert (Hel : List.length (erase v (List.length v - 2))
                  = (List.length v - 1)%nat)
      by (apply erase_length; lia).
    split; [lia|]. split.
    + rewrite Hel, erase_nth_after by lia. f_equal. lia.
    + exists []. rewrite app_nil_r. split; [reflexivity|constructor].
  - pose proof (add_node_and_edge apt b
                  (sqrt (DistLatLonSqr (TaxiNode.lat a) (TaxiNode.lon a)
                                       (TaxiNode.lat b) (TaxiNode.lon b))))
      as Hadd.
    destruct (Apt.AddTaxiNode apt (TaxiNode.lat b) (TaxiNode.lon b))
      as [idx apt1].
    destruct (Apt.AddTaxiEdge apt1 (size_t_sub idx 1) idx _) as [ok apt2].
    cbn [fst snd] in *. split; [lia|]. split; [reflexivity|].
    exists [node_at b]. split; [exact Hadd|].
    constructor; [|constructor]. exists b.
    split; [exact (at_In _ _ _ Hb)|reflexivity].
Qed.

Lemma add_final_edge_nodes (v : list TaxiNode.t) (apt : Apt.t)
    (d : double) (back : TaxiNode.t) :
  (size v < 2 ^ 64)%Z -> (2 <= List.length v)%nat ->
  nth_error v (List.length v - 1) = Some back ->
  Apt.vecTaxiNodes (add_final_edge v apt d)
  = Apt.vecTaxiNodes apt ++ [node_at back].
Proof.
  intros Hs Hlen Hback. unfold add_final_edge.
  rewrite (at_back v 2 Hs) by (unfold size; lia).
  rewrite (at_back v 1 Hs) by (unfold size; lia).
  change (Z.to_nat 1) with 1%nat. change (Z.to_nat 2) with 2%nat.
  rewrite Hback.
  destruct (nth_error v (List.length v - 2)) as [y|] eqn:Hy.
  - pose proof (add_node_and_edge apt back
                  (if isnan d
                   then sqrt (DistLatLonSqr (TaxiNode.lat y) (TaxiNode.lon y)
                                (TaxiNode.lat back) (TaxiNode.lon back))
                   else d)) as Hadd.
    destruct (Apt.AddTaxiNode apt (TaxiNode.lat back) (TaxiNode.lon back))
      as [idx apt1].
    destruct (Apt.AddTaxiEdge apt1 (size_t_sub idx 1) idx _) as [ok apt2].
    exact Hadd.
  - apply nth_error_None in Hy. lia.
Qed.
End TaxiLineEnds.

(** X17: of a taxi line with two nodes or more, the first and the very last
    node are always added to the airport, whatever the thinning removes in
    between: [thin_taxi_nodes] appends a node at the position of the first
    node of the section, then nodes at positions of nodes of the section,
    and at the end a node at the position of the last node of the
    section. *)
Theorem thin_taxi_nodes_keeps_ends `{CoordCalc} (v : list TaxiNode.t)
    (apt : Apt.t) (front back : TaxiNode.t) :
  (2 <= size v < 2 ^ 64)%Z ->
  hd_error v = Some front ->
  nth_error v (List.length v - 1) = Some back ->
  exists mid,
    Apt.vecTaxiNodes (thin_taxi_nodes v apt)
    = Apt.vecTaxiNodes apt ++ [node_at front] ++ mid ++ [node_at back]
    /\ Forall (fun n => exists m, In m v /\ n = node_at m) mid.
Proof.
  intros [Hlo Hhi] Hfront Hback. unfold thin_taxi_nodes.
  assert (E2 : (2 <=? size v)%Z = true) by now apply Z.leb_le.
  rewrite E2. destruct v as [|f rest] eqn:Hv; [discriminate|].
  rewrite <- Hv in *. cbn [hd_error] in Hfront.
  assert (f = front) by (rewrite Hv in Hfront; cbn in Hfront; congruence).
  subst f.
  cbn [Apt.AddTaxiNode].
  set (apt1 := Apt.set_vecTaxiNodes _ _).
  assert (Hn1 : Apt.vecTaxiNodes apt1
                = Apt.vecTaxiNodes apt ++ [node_at front]) by reflexivity.
  clearbody apt1.
  assert (Hlen2 : (2 <= List.length v)%nat) by (unfold size in Hlo; lia).
  assert (Hloop :
    let p := if (3 <=? size v)%Z
             then thin_loop (List.length v) v 0 apt1 else (v, apt1) in
    (2 <= List.length (fst p) <= List.length v)%nat
    /\ nth_error (fst p) (List.length (fst p) - 1)
       = nth_error v (List.length v - 1)
    /\ (forall n, In n (fst p) -> In n v)
    /\ exists added,
         Apt.vecTaxiNodes (snd p) = Apt.vecTaxiNodes apt1 ++ added
         /\ Forall (fun n => exists m, In m v /\ n = node_at m) added).
  { cbv zeta. destruct (3 <=? size v)%Z eqn:E3.
    - apply Z.leb_le in E3. unfold size in E3.
      destruct (thin_loop_ends (List.length v) v 0 apt1 ltac:(lia))
        as (Hl & Hrest).
      split; [lia|exact Hrest].
    - cbn [fst snd]. split; [lia|]. split; [reflexivity|].
      split; [auto|]. exists []. rewrite app_nil_r.
      split; [reflexivity|constructor]. }
  cbv zeta in Hloop.
  destruct (if (3 <=? size v)%Z
            then thin_loop (List.length v) v 0 apt1 else (v, apt1))
    as [v1 apt2].
  cbn [fst snd] in Hloop.
  destruct Hloop as (Hl1 & Hlast1 & Hin1 & added1 & Hn2 & Hall1).
  assert (Hs1 : (size v1 < 2 ^ 64)%Z) by (unfold size in *; lia).
  destruct (thin_last3_ends v1 apt2 Hs1 ltac:(lia))
    as (Hl2 & Hlast2 & added2 & Hn3 & Hall2).
  destruct (thin_last3 v1 apt2) as [[v2 apt3] d]. cbn [fst snd] in *.
  assert (Hs2 : (size v2 < 2 ^ 64)%Z) by (unfold size in *; lia).
  rewrite (add_final_edge_nodes v2 apt3 d back Hs2 ltac:(lia))
    by (rewrite Hlast2, Hlast1; exact Hback).
  exists (added1 ++ added2). split.
  - rewrite Hn3, Hn2, Hn1, <- !app_assoc. reflexivity.
  - apply Forall_app. split; [exact Hall1|].
    eapply Forall_impl; [|exact Hall2]. intros n (m & Hm & ->).
    exists m. split; [exact (Hin1 m Hm)|reflexivity].
Qed.

Lemma thin_taxi_nodes_keeps_ends_example :
  exists mid,
    Apt.vecTaxiNodes (@thin_taxi_nodes flat_world five_points
                        apt_runway_2000)
    = Apt.vecTaxiNodes apt_runway_2000
      ++ [node_at (TaxiNode.ctor (Num 0) (Num 0))] ++ mid
      ++ [node_at (TaxiNode.ctor (Num 8) (Num 0))]
    /\ Forall (fun n => exists m, In m five_points /\ n = node_at m) mid.
Proof.
  apply (@thin_taxi_nodes_keeps_ends flat_world five_points apt_runway_2000).
  - split; [discriminate|reflexivity].
  - reflexivity.
  - reflexivity.
Defined.

(** * Local coordinates and altitudes *)

Section LocalCoordsProps.
Context `{XPLM}.

Lemma TaxiNode_LocalCoordsUpdate_twice (n : TaxiNode.t) (bForce : bool)
    (_alt_m : double) :
  TaxiNode_LocalCoordsUpdate
    (TaxiNode_LocalCoordsUpdate n bForce _alt_m) bForce _alt_m
  = TaxiNode_LocalCoordsUpdate n bForce _alt_m.
Proof.
  unfold TaxiNode_LocalCoordsUpdate.
  destruct (bForce || isnan (TaxiNode.x n)) eqn:E.
  - destruct (XPLMWorldToLocal (TaxiNode.lat n) (TaxiNode.lon n) _alt_m)
      as [[x y] z] eqn:Ew.
    cbn [TaxiNode.x TaxiNode.lat TaxiNode.lon]. rewrite Ew.
    destruct (bForce || isnan x); reflexivity.
  - now rewrite E.
Qed.

Lemma RwyEndPt_LocalCoordsUpdate_form (lat lon x z : double) (id : string)
    (alt y : double) (bForce : bool) (_alt_m : double) :
  RwyEndPt_LocalCoordsUpdate
    (RwyEndPt.mk (TaxiNode.mk lat lon x z) id alt y) bForce _alt_m
  = let '(x', y', z') :=
      XPLMWorldToLocal lat lon (if isnan alt then _alt_m else alt) in
    if bForce || isnan x
    then RwyEndPt.mk (TaxiNode.mk lat lon x' z') id alt
                     (if isnan alt then NaN else y')
    else RwyEndPt.mk (TaxiNode.mk lat lon x z) id alt
                     (if isnan alt then NaN else y).
Proof.
  unfold RwyEndPt_LocalCoordsUpdate.
  cbn [RwyEndPt.node RwyEndPt.alt_m RwyEndPt.id RwyEndPt.y
       TaxiNode.x TaxiNode.lat TaxiNode.lon].
  destruct (XPLMWorldToLocal _ _ _) as [[x' y'] z'].
  destruct (bForce || isnan x);
    cbn [RwyEndPt.node RwyEndPt.alt_m RwyEndPt.id RwyEndPt.y];
    destruct (isnan alt); reflexivity.
Qed.

Lemma RwyEndPt_LocalCoordsUpdate_twice (re : RwyEndPt.t) (bForce : bool)
    (_alt_m : double) :
  RwyEndPt_LocalCoordsUpdate
    (RwyEndPt_LocalCoordsUpdate re bForce _alt_m) bForce _alt_m
  = RwyEndPt_LocalCoordsUpdate re bForce _alt_m.
Proof.
  destruct re as [[lat lon x z] id alt y].
  rewrite (RwyEndPt_LocalCoordsUpdate_form lat lon x z id alt y).
  destruct (XPLMWorldToLocal lat lon (if isnan alt then _alt_m else alt))
    as [[x' y'] z'] eqn:Ew.
  destruct (bForce || isnan x) eqn:E;
    rewrite RwyEndPt_LocalCoordsUpdate_form, Ew.
  - destruct (bForce || isnan x'), (isnan alt); reflexivity.
  - rewrite E. destruct (isnan alt); reflexivity.
Qed.

Lemma TaxiNode_LocalCoordsUpdate_geo (n : TaxiNode.t) (bForce : bool)
    (_alt_m : double) :
  TaxiNode.lat (TaxiNode_LocalCoordsUpdate n bForce _alt_m) = TaxiNode.lat n
  /\ TaxiNode.lon (TaxiNode_LocalCoordsUpdate n bForce _alt_m)
     = TaxiNode.lon n.
Proof.
  unfold TaxiNode_LocalCoordsUpdate.
  destruct (bForce || isnan (TaxiNode.x n)); [|now split].
  destruct (XPLMWorldToLocal _ _ _) as [[x y] z]. now split.
Qed.

Lemma RwyEndPt_LocalCoordsUpdate_keeps (re : RwyEndPt.t) (bForce : bool)
    (_alt_m : double) :
  let re' := RwyEndPt_LocalCoordsUpdate re bForce _alt_m in
  RwyEndPt.id re' = RwyEndPt.id re
  /\ RwyEndPt.alt_m re' = RwyEndPt.alt_m re
  /\ TaxiNode.lat (RwyEndPt.node re') = TaxiNode.lat (RwyEndPt.node re)
  /\ TaxiNode.lon (RwyEndPt.node re') = TaxiNode.lon (RwyEndPt.node re)
  /\ (isnan (RwyEndPt.alt_m re') = true -> RwyEndPt.y re' = NaN).
Proof.
  destruct re as [[lat lon x z] id alt y]. cbv zeta.
  rewrite RwyEndPt_LocalCoordsUpdate_form.
  destruct (XPLMWorldToLocal _ _ _) as [[x' y'] z'].
  destruct (bForce || isnan x);
    cbn [RwyEndPt.node RwyEndPt.alt_m RwyEndPt.id RwyEndPt.y
         TaxiNode.x TaxiNode.lat TaxiNode.lon];
    repeat split; intros ->; reflexivity.
Qed.
End LocalCoordsProps.

(** X18: the update of the local coordinates is idempotent, forced or not:
    a second [LTAptLocalCoordsUpdate] with the same reference (the same
    [XPLMWorldToLocal]) changes nothing any more, for every airport of the
    map and so for the map. *)
Theorem LTAptLocalCoordsUpdate_idempotent `{XPLM} (gmapApt : mapAptTy)
    (bForce : bool) :
  (forall apt : Apt.t,
      Apt_LocalCoordsUpdate (Apt_LocalCoordsUpdate apt bForce) bForce
      = Apt_LocalCoordsUpdate apt bForce)
  /\ LTAptLocalCoordsUpdate (LTAptLocalCoordsUpdate gmapApt bForce) bForce
     = LTAptLocalCoordsUpdate gmapApt bForce.
Proof.
  assert (Hapt : forall apt : Apt.t,
             Apt_LocalCoordsUpdate (Apt_LocalCoordsUpdate apt bForce) bForce
             = Apt_LocalCoordsUpdate apt bForce).
  { intros apt.
    unfold Apt_LocalCoordsUpdate, Apt.set_vecTaxiNodes, Apt.set_vecRwyEndPts.
    cbn [Apt.alt_m Apt.vecTaxiNodes Apt.vecRwyEndPts Apt.id Apt.bounds
         Apt.vecTaxiEdges].
    rewrite !List.map_map. f_equal.
    - apply List.map_ext. intros n. apply TaxiNode_LocalCoordsUpdate_twice.
    - apply List.map_ext. intros re.
      apply RwyEndPt_LocalCoordsUpdate_twice. }
  split; [exact Hapt|].
  unfold LTAptLocalCoordsUpdate. rewrite List.map_map.
  apply List.map_ext. intros [key apt]. cbn [fst snd]. now rewrite Hapt.
Qed.

(** X19: the update of the local coordinates leaves the graph alone: id,
    bounds, altitude and edges of the airport stay, the nodes keep latitude
    and longitude, the runway endpoints keep id, altitude, latitude and
    longitude; and after it no runway endpoint without an altitude has a
    y value. *)
Theorem Apt_LocalCoordsUpdate_frame `{XPLM} (apt : Apt.t) (bForce : bool) :
  let apt' := Apt_LocalCoordsUpdate apt bForce in
  Apt.id apt' = Apt.id apt
  /\ Apt.bounds apt' = Apt.bounds apt
  /\ Apt.alt_m apt' = Apt.alt_m apt
  /\ Apt.vecTaxiEdges apt' = Apt.vecTaxiEdges apt
  /\ List.map TaxiNode.HasGeoCoords (Apt.vecTaxiNodes apt')
     = List.map TaxiNode.HasGeoCoords (Apt.vecTaxiNodes apt)
  /\ List.map (fun n => (TaxiNode.lat n, TaxiNode.lon n))
              (Apt.vecTaxiNodes apt')
     = List.map (fun n => (TaxiNode.lat n, TaxiNode.lon n))
                (Apt.vecTaxiNodes apt)
  /\ List.map (fun re => (RwyEndPt.id re, RwyEndPt.alt_m re,
                          TaxiNode.lat (RwyEndPt.node re),
                          TaxiNode.lon (RwyEndPt.node re)))
              (Apt.vecRwyEndPts apt')
     = List.map (fun re => (RwyEndPt.id re, RwyEndPt.alt_m re,
                            TaxiNode.lat (RwyEndPt.node re),
                            TaxiNode.lon (RwyEndPt.node re)))
                (Apt.vecRwyEndPts apt)
  /\ Forall (fun re => isnan (RwyEndPt.alt_m re) = true ->
                       RwyEndPt.y re = NaN)
            (Apt.vecRwyEndPts apt').
Proof.
  cbv zeta.
  unfold Apt_LocalCoordsUpdate, Apt.set_vecTaxiNodes, Apt.set_vecRwyEndPts.
  cbn [Apt.alt_m Apt.vecTaxiNodes Apt.vecRwyEndPts Apt.id Apt.bounds
       Apt.vecTaxiEdges].
  rewrite !List.map_map.
  repeat split.
  - apply List.map_ext. intros n. unfold TaxiNode.HasGeoCoords.
    destruct (TaxiNode_LocalCoordsUpdate_geo n bForce (Apt.alt_m apt))
      as [-> ->]. reflexivity.
  - apply List.map_ext. intros n.
    destruct (TaxiNode_LocalCoordsUpdate_geo n bForce (Apt.alt_m apt))
      as [-> ->]. reflexivity.
  - apply List.map_ext. intros re.
    destruct (RwyEndPt_LocalCoordsUpdate_keeps re bForce (Apt.alt_m apt))
      as (-> & -> & -> & -> & _). reflexivity.
  - apply Forall_forall. intros re' Hin. apply in_map_iff in Hin.
    destruct Hin as (re & <- & _).
    apply (RwyEndPt_LocalCoordsUpdate_keeps re bForce (Apt.alt_m apt)).
Qed.

Section AltitudeProps.
Context `{Terrain}.

Lemma RwyEndPt_ComputeAlt_twice (re : RwyEndPt.t) :
  RwyEndPt_ComputeAlt (RwyEndPt_ComputeAlt re) = RwyEndPt_ComputeAlt re.
Proof.
  unfold RwyEndPt_ComputeAlt.
  destruct (isnan (RwyEndPt.alt_m re)) eqn:Ea; [|now rewrite Ea].
  cbn [RwyEndPt.alt_m RwyEndPt.node RwyEndPt.id RwyEndPt.y].
  destruct (isnan (YProbe_at_m _)); reflexivity.
Qed.

Lemma RwyEndPt_ComputeAlt_known (re : RwyEndPt.t) :
  isnan (RwyEndPt.alt_m re) = false -> RwyEndPt_ComputeAlt re = re.
Proof. intros Ea. unfold RwyEndPt_ComputeAlt. now rewrite Ea. Qed.
End AltitudeProps.

(** X20: [UpdateAltitudes] never overwrites the altitude of a runway
    endpoint that has one: such an endpoint stays as it is at its index,
    while nodes, edges, id and bounds of the airport stay in any case, and
    every endpoint keeps its id, its position and its local coordinates.
    With the same terrain, a second update changes nothing any more. *)
Theorem Apt_UpdateAltitudes_keeps_known `{Terrain} (apt : Apt.t) :
  let apt' := Apt_UpdateAltitudes apt in
  (forall i re,
      nth_error (Apt.vecRwyEndPts apt) i = Some re ->
      isnan (RwyEndPt.alt_m re) = false ->
      nth_error (Apt.vecRwyEndPts apt') i = Some re)
  /\ List.map (fun re => (RwyEndPt.node re, RwyEndPt.id re, RwyEndPt.y re))
              (Apt.vecRwyEndPts apt')
     = List.map (fun re => (RwyEndPt.node re, RwyEndPt.id re, RwyEndPt.y re))
                (Apt.vecRwyEndPts apt)
  /\ Apt.id apt' = Apt.id apt
  /\ Apt.bounds apt' = Apt.bounds apt
  /\ Apt.vecTaxiNodes apt' = Apt.vecTaxiNodes apt
  /\ Apt.vecTaxiEdges apt' = Apt.vecTaxiEdges apt
  /\ Apt_UpdateAltitudes apt' = apt'.
Proof.
  cbv zeta. unfold Apt_UpdateAltitudes.
  cbn [Apt.id Apt.bounds Apt.vecTaxiNodes Apt.vecRwyEndPts
       Apt.vecTaxiEdges].
  split; [|split].
  - intros i re Hnth Ha. rewrite nth_error_map, Hnth. cbn [option_map].
    now rewrite RwyEndPt_ComputeAlt_known.
  - rewrite List.map_map. apply List.map_ext. intros re.
    unfold RwyEndPt_ComputeAlt.
    destruct (isnan (RwyEndPt.alt_m re)); reflexivity.
  - repeat split. f_equal. rewrite List.map_map.
    apply List.map_ext. intros re. apply RwyEndPt_ComputeAlt_twice.
Qed.

Lemma Apt_UpdateAltitudes_keeps_known_example :
  nth_error
    (Apt.vecRwyEndPts (@Apt_UpdateAltitudes flat_terrain
                         (apt_two_runways 0 0))) 0
  = Some (rwy_end "A1" 10000 0).
Proof.
  apply (proj1 (@Apt_UpdateAltitudes_keeps_known flat_terrain
                  (apt_two_runways 0 0))
           0%nat (rwy_end "A1" 10000 0)); reflexivity.
Defined.

(** * Purging the map *)

Section PurgeProps.
Context `{Terrain}.

Lemma PurgeApt_filter (gmapApt : mapAptTy) (_box : boundingBoxTy.t) :
  PurgeApt gmapApt _box
  = filter (fun p => overlap (Apt.bounds (snd p)) _box) gmapApt.
Proof.
  induction gmapApt as [|[key apt] m IH]; [reflexivity|].
  cbn [PurgeApt filter snd]. rewrite IH. reflexivity.
Qed.

Lemma filter_sorted (f : string * Apt.t -> bool) (m : mapAptTy) :
  map_sorted m -> map_sorted (filter f m).
Proof.
  unfold map_sorted. induction 1 as [|p m Hs IH Hall]; cbn [filter];
    [constructor|].
  destruct (f p); [|exact IH]. constructor; [exact IH|].
  rewrite Forall_forall in Hall |- *. intros q Hq.
  apply filter_In in Hq. exact (Hall q (proj1 Hq)).
Qed.

Lemma filter_twice {A : Type} (f : A -> bool) (l : list A) :
  filter f (filter f l) = filter f l.
Proof.
  induction l as [|x l IH]; [reflexivity|]. cbn [filter].
  destruct (f x) eqn:E; [|exact IH]. cbn [filter]. rewrite E.
  now f_equal.
Qed.
End PurgeProps.

(** X21: [PurgeApt] keeps exactly the airports whose bounds overlap the
    box, each as it is and in the order of the keys; an airport that does
    not overlap the box is removed.  Purging again with the same box
    changes nothing, and [LTAptFind] on the purged map returns only
    airports that overlap the box. *)
Theorem PurgeApt_keeps_overlapping `{CoordCalc} `{Terrain}
    (gmapApt : mapAptTy) (_box : boundingBoxTy.t) :
  (forall key apt,
      In (key, apt) (PurgeApt gmapApt _box) <->
      In (key, apt) gmapApt /\ overlap (Apt.bounds apt) _box = true)
  /\ (map_sorted gmapApt -> map_sorted (PurgeApt gmapApt _box))
  /\ PurgeApt (PurgeApt gmapApt _box) _box = PurgeApt gmapApt _box
  /\ (forall pos apt,
         LTAptFind (PurgeApt gmapApt _box) pos = Some apt ->
         overlap (Apt.bounds apt) _box = true
         /\ Apt.Contains apt pos = true).
Proof.
  rewrite !PurgeApt_filter.
  assert (Hin : forall key apt,
             In (key, apt)
                (filter (fun p => overlap (Apt.bounds (snd p)) _box) gmapApt)
             <-> In (key, apt) gmapApt
                 /\ overlap (Apt.bounds apt) _box = true).
  { intros key apt. now rewrite filter_In. }
  split; [exact Hin|]. split; [apply filter_sorted|]. split.
  - apply filter_twice.
  - intros pos apt Hfind. apply LTAptFind_In in Hfind.
    destruct Hfind as (key & Hkey & Hc). apply Hin in Hkey.
    split; [apply Hkey|exact Hc].
Qed.

Lemma PurgeApt_keeps_overlapping_example :
  In ("TEST"%string, apt_taxi_east)
     (@PurgeApt flat_terrain
        [("FAR"%string, apt_far_east); ("TEST"%string, apt_taxi_east)]
        sample_box)
  /\ ~ In ("FAR"%string, apt_far_east)
         (@PurgeApt flat_terrain
            [("FAR"%string, apt_far_east); ("TEST"%string, apt_taxi_east)]
            sample_box).
Proof.
  pose proof (proj1 (@PurgeApt_keeps_overlapping flat_world flat_terrain
                       [("FAR"%string, apt_far_east);
                        ("TEST"%string, apt_taxi_east)] sample_box))
    as Hin.
  split.
  - apply Hin. split; [right; left; reflexivity|reflexivity].
  - intros Hfar. apply Hin in Hfar. destruct Hfar as [_ Hfar].
    vm_compute in Hfar. discriminate.
Defined.

(** * The runways of an airport *)

Lemma string_app_assoc (s1 s2 s3 : string) :
  ((s1 ++ s2) ++ s3 = s1 ++ (s2 ++ s3))%string.
Proof. induction s1 as [|c s1 IH]; simpl; [reflexivity|now rewrite IH]. Qed.

Lemma string_app_nil_r (s : string) : (s ++ "")%string = s.
Proof. induction s as [|c s IH]; simpl; [reflexivity|now rewrite IH]. Qed.

Lemma find_if_loop_spec {A : Type} (pred : A -> bool) (rest : list A)
    (pos : nat) :
  let k := find_if_loop pred rest pos in
  (pos <= k <= pos + List.length rest)%nat
  /\ (forall j x, (pos <= j < k)%nat -> nth_error rest (j - pos) = Some x ->
                  pred x = false)
  /\ ((k < pos + List.length rest)%nat ->
      exists x, nth_error rest (k - pos) = Some x /\ pred x = true).
Proof.
  cbv zeta. revert pos. induction rest as [|x rest IH]; intros pos; simpl.
  - split; [lia|]. split; [intros j x Hj; lia|lia].
  - destruct (pred x) eqn:Ex.
    + split; [lia|]. split; [intros j y Hj; lia|].
      intros _. exists x. now rewrite Nat.sub_diag.
    + destruct (IH (S pos)) as (Hk & Hbefore & Hat).
      split; [lia|]. split.
      * intros j y Hj Hy. destruct (Nat.eq_dec j pos) as [->|Hne].
        -- rewrite Nat.sub_diag in Hy. cbn in Hy. congruence.
        -- apply (Hbefore j y); [lia|].
           replace (j - pos)%nat with (S (j - S pos)) in Hy by lia.
           exact Hy.
      * intros Hlt. destruct (Hat ltac:(lia)) as (y & Hy & Hp).
        exists y. split; [|exact Hp].
        replace (find_if_loop pred rest (S pos) - pos)%nat
          with (S (find_if_loop pred rest (S pos) - S pos)) by lia.
        exact Hy.
Qed.

(** X22: [FirstRwy] and [NextRwy] return the position of the first runway
    edge from the start, or after the position given, and the position of
    the end if there is none: no edge before the position returned is a
    runway (from the start, or after the position given), and the edge at
    the position returned, if it is not the end, is a runway. *)
Theorem Apt_NextRwy_finds_next (apt : Apt.t) (i : nat) :
  (i < List.length (Apt.vecTaxiEdges apt))%nat ->
  let es := Apt.vecTaxiEdges apt in
  (Apt_FirstRwy apt <= List.length es)%nat
  /\ (forall j e, (j < Apt_FirstRwy apt)%nat -> nth_error es j = Some e ->
                  is_rwy e = false)
  /\ ((Apt_FirstRwy apt < List.length es)%nat ->
      exists e, nth_error es (Apt_FirstRwy apt) = Some e /\ is_rwy e = true)
  /\ (i < Apt_NextRwy apt i <= List.length es)%nat
  /\ (forall j e, (i < j < Apt_NextRwy apt i)%nat ->
                  nth_error es j = Some e -> is_rwy e = false)
  /\ ((Apt_NextRwy apt i < List.length es)%nat ->
      exists e, nth_error es (Apt_NextRwy apt i) = Some e
                /\ is_rwy e = true).
Proof.
  intros Hi. cbv zeta. unfold Apt_FirstRwy, Apt_NextRwy, find_if.
  generalize dependent (Apt.vecTaxiEdges apt). intros es Hi.
  change (skipn 0 es) with es.
  destruct (find_if_loop_spec is_rwy es 0) as (Hk & Hbefore & Hat).
  destruct (find_if_loop_spec is_rwy (skipn (S i) es) (S i))
    as (Hk' & Hbefore' & Hat').
  rewrite length_skipn in Hk', Hat'.
  split; [lia|]. split.
  { intros j e Hj He. apply (Hbefore j e); [lia|].
    now rewrite Nat.sub_0_r. }
  split.
  { intros Hlt. destruct (Hat ltac:(lia)) as (e & He & Hp).
    rewrite Nat.sub_0_r in He. now exists e. }
  split; [lia|]. split.
  { intros j e Hj He. apply (Hbefore' j e); [lia|].
    rewrite nth_error_skipn. rewrite <- He. f_equal. lia. }
  intros Hlt. destruct (Hat' ltac:(lia)) as (e & He & Hp).
  exists e. split; [|exact Hp]. rewrite nth_error_skipn in He.
  rewrite <- He. f_equal. lia.
Qed.

Lemma Apt_NextRwy_finds_next_example :
  (0 < Apt_NextRwy (apt_two_runways 0 0) 0 <= 2)%nat
  /\ exists e,
       nth_error (Apt.vecTaxiEdges (apt_two_runways 0 0))
                 (Apt_NextRwy (apt_two_runways 0 0) 0) = Some e
       /\ is_rwy e = true.
Proof.
  destruct (Apt_NextRwy_finds_next (apt_two_runways 0 0) 0)
    as (_ & _ & _ & Hk & _ & Hat).
  - cbn. lia.
  - split; [exact Hk|]. apply Hat. vm_compute. lia.
Defined.

Section RunwayString.
Variable apt : Apt.t.

(** One round of the loop appends the runway's name. *)
Lemma GetRwysString_round (te : TaxiEdge.t) (s : string) :
  match Apt.GetRwyEP_A te apt with
  | Some epA =>
      match Apt.GetRwyEP_B te apt with
      | Some epB =>
          ((match s with EmptyString => s | _ => s ++ " / " end
            ++ RwyEndPt.id epA ++ "-") ++ RwyEndPt.id epB)%string
      | None =>
          (match s with EmptyString => s | _ => s ++ " / " end
           ++ RwyEndPt.id epA ++ "-")%string
      end
  | None => match s with EmptyString => s | _ => (s ++ " / ")%string end
  end
  = add_rwy_name apt s te.
Proof.
  unfold add_rwy_name, rwy_name.
  destruct (Apt.GetRwyEP_A te apt) as [epA|];
    [|now rewrite string_app_nil_r].
  destruct (Apt.GetRwyEP_B te apt) as [epB|].
  - now rewrite !string_app_assoc.
  - now rewrite string_app_nil_r.
Qed.

Lemma GetRwysString_loop_from (l : list TaxiEdge.t) :
  forall (k fuel : nat) (s : string),
    skipn k (Apt.vecTaxiEdges apt) = l ->
    (k <= List.length (Apt.vecTaxiEdges apt))%nat ->
    (List.length l <= fuel)%nat ->
    GetRwysString_loop fuel apt (find_if is_rwy (Apt.vecTaxiEdges apt) k) s
    = fold_left (add_rwy_name apt) (filter is_rwy l) s.
Proof.
  induction l as [|e l IH]; intros k fuel s Hskip Hk Hfuel.
  - assert (Hend : k = List.length (Apt.vecTaxiEdges apt)).
    { apply (f_equal (@List.length _)) in Hskip.
      rewrite length_skipn in Hskip. cbn in Hskip. lia. }
    unfold find_if. rewrite Hskip. cbn [find_if_loop filter fold_left].
    destruct fuel as [|fuel]; [reflexivity|]. cbn [GetRwysString_loop].
    now rewrite Hend, Nat.eqb_refl.
  - assert (Hnth : nth_error (Apt.vecTaxiEdges apt) k = Some e).
    { rewrite <- hd_error_skipn, Hskip. reflexivity. }
    assert (Hlt : (k < List.length (Apt.vecTaxiEdges apt))%nat)
      by (apply nth_error_Some; congruence).
    assert (Hskip' : skipn (S k) (Apt.vecTaxiEdges apt) = l).
    { change (S k) with (1 + k)%nat. rewrite <- skipn_skipn, Hskip.
      reflexivity. }
    assert (Hfind : find_if is_rwy (Apt.vecTaxiEdges apt) k
                    = if is_rwy e then k
                      else find_if is_rwy (Apt.vecTaxiEdges apt) (S k)).
    { unfold find_if. rewrite Hskip, Hskip'. reflexivity. }
    rewrite Hfind. cbn [filter]. cbn [List.length] in Hfuel.
    destruct (is_rwy e) eqn:Erwy.
    + destruct fuel as [|fuel]; [lia|]. cbn [GetRwysString_loop fold_left].
      destruct (k =? List.length (Apt.vecTaxiEdges apt))%nat eqn:E;
        [apply Nat.eqb_eq in E; lia|].
      rewrite Hnth. unfold Apt_NextRwy.
      rewrite <- (GetRwysString_round e s).
      rewrite (IH (S k) fuel _ Hskip') by lia.
      destruct (Apt.GetRwyEP_A e apt); [|reflexivity].
      destruct (Apt.GetRwyEP_B e apt); reflexivity.
    + apply IH; [exact Hskip'|lia|lia].
Qed.
End RunwayString.

(** X23: [GetRwysString] lists every runway edge of the airport once, in
    the order of the edge vector: the names of the runways (the ids of the
    two endpoints with a dash in between), with [" / "] between two
    runways; the loop over [FirstRwy] and [NextRwy] ends within as many
    rounds as there are edges.  An airport without a runway edge gives the
    empty string. *)
Theorem Apt_GetRwysString_lists_runways (apt : Apt.t) :
  Apt_GetRwysString apt
  = fold_left (add_rwy_name apt) (filter is_rwy (Apt.vecTaxiEdges apt))
              EmptyString
  /\ (forall fuel,
         (List.length (Apt.vecTaxiEdges apt) <= fuel)%nat ->
         GetRwysString_loop fuel apt (Apt_FirstRwy apt) EmptyString
         = Apt_GetRwysString apt)
  /\ (Forall (fun e => is_rwy e = false) (Apt.vecTaxiEdges apt) ->
      Apt_GetRwysString apt = EmptyString).
Proof.
  assert (Hfuel : forall fuel,
             (List.length (Apt.vecTaxiEdges apt) <= fuel)%nat ->
             GetRwysString_loop fuel apt (Apt_FirstRwy apt) EmptyString
             = fold_left (add_rwy_name apt)
                 (filter is_rwy (Apt.vecTaxiEdges apt)) EmptyString).
  { intros fuel Hle. unfold Apt_FirstRwy.
    apply GetRwysString_loop_from; [reflexivity|lia|exact Hle]. }
  assert (Hstr : Apt_GetRwysString apt
                 = fold_left (add_rwy_name apt)
                     (filter is_rwy (Apt.vecTaxiEdges apt)) EmptyString)
    by (apply Hfuel; lia).
  split; [exact Hstr|]. split.
  - intros fuel Hle. now rewrite Hstr, Hfuel.
  - intros Hnone. rewrite Hstr.
    assert (Hfilter : forall l : list TaxiEdge.t,
               Forall (fun e => is_rwy e = false) l -> filter is_rwy l = []).
    { induction 1 as [|e es He _ IH]; [reflexivity|].
      cbn [filter]. now rewrite He. }
    now rewrite (Hfilter _ Hnone).
Qed.

Lemma Apt_GetRwysString_lists_runways_example :
  Apt_GetRwysString (apt_two_runways 0 0) = "A1-B1 / A2-B2"%string.
Proof.
  rewrite (proj1 (Apt_GetRwysString_lists_runways (apt_two_runways 0 0))).
  reflexivity.
Defined.

(** * CoordCalc.h: distances *)

(** X24: [DistPythSqr] is never negative and is the same in both
    directions; a coordinate that is [NaN] makes it [NaN]; and the result
    for a point with numbers as coordinates and the point itself is
    zero. *)
Theorem DistPythSqr_metric :
  (forall x1 y1 x2 y2 : double,
      (DistPythSqr x1 y1 x2 y2 <? ofZ 0)%D = false
      /\ (DistPythSqr x1 y1 x2 y2 =d= DistPythSqr x2 y2 x1 y1)%D
      /\ (isnan x1 || isnan y1 || isnan x2 || isnan y2 = true ->
          DistPythSqr x1 y1 x2 y2 = NaN))
  /\ (forall x y : Q,
         (DistPythSqr (Num x) (Num y) (Num x) (Num y) =d= Num 0)%D).
Proof.
  split.
  - intros [|x1] [|y1] [|x2] [|y2];
      (split; [|split]);
      try reflexivity; try exact I; try discriminate.
    + apply dlt_Num_false. cbn. unfold inject_Z.
      pose proof (Qsquare_nonneg (x2 - x1)).
      pose proof (Qsquare_nonneg (y2 - y1)). lra.
    + simpl. ring.
  - intros x y. simpl. ring.
Qed.

(** X25: for a distance result of numbers, the base lies outside the line
    ([IsBaseOutsideLine]) exactly when [DistSqrOfBaseBeyondLine] is
    positive; so a base within the line passes the test of
    [FindClosestEdge] on the distance beyond the line's end for every
    maximum distance whose [int] square is not negative, as it is for every
    maximum distance up to 46340, whose square fits an [int]. *)
Theorem IsBaseOutsideLine_beyond (r : distToLineTy.t) (len leg1 leg2 : Q) :
  distToLineTy.len2 r = Num len ->
  distToLineTy.leg1_len2 r = Num leg1 ->
  distToLineTy.leg2_len2 r = Num leg2 ->
  distToLineTy.IsBaseOutsideLine r
  = (distToLineTy.DistSqrOfBaseBeyondLine r >? ofZ 0)%D
  /\ (distToLineTy.IsBaseOutsideLine r = false ->
      forall _maxDist_m : Z,
        (0 <= sqr _maxDist_m)%Z ->
        (distToLineTy.DistSqrOfBaseBeyondLine r >? ofZ (sqr _maxDist_m))%D
        = false)
  /\ (forall _maxDist_m : Z,
         (Z.abs _maxDist_m <= 46340)%Z ->
         sqr _maxDist_m = (_maxDist_m * _maxDist_m)%Z
         /\ (0 <= sqr _maxDist_m)%Z).
Proof.
  intros Hlen H1 H2.
  split; [|split].
  3:{ intros m Hm. rewrite (sqr_exact m Hm). split; [reflexivity|nia]. }
  all: unfold distToLineTy.IsBaseOutsideLine,
         distToLineTy.DistSqrOfBaseBeyondLine, dgt, dmax;
       rewrite Hlen, H1, H2.
  2: intros Hin m Hsq; rewrite (Zle_Qle 0) in Hsq; revert Hin.
  all: unfold ofZ; change (inject_Z 0) with 0 in *;
    destruct (Num leg1 <? Num leg2)%D eqn:E12;
    [apply dlt_Num in E12|apply dlt_Num_false in E12];
    cbn [dsub lift2];
    repeat match goal with
           | |- context [(Num ?a <? Num ?b)%D] =>
               let E := fresh "E" in
               destruct (Num a <? Num b)%D eqn:E;
               [apply dlt_Num in E|apply dlt_Num_false in E]
           end;
    cbn [orb]; try reflexivity; try discriminate; exfalso; lra.
Qed.

Lemma IsBaseOutsideLine_beyond_example :
  distToLineTy.IsBaseOutsideLine
    (distToLineTy.mk (Num 9) (Num 100) (Num 121) (Num 1))
  = (distToLineTy.DistSqrOfBaseBeyondLine
       (distToLineTy.mk (Num 9) (Num 100) (Num 121) (Num 1)) >? ofZ 0)%D.
Proof.
  exact (proj1 (IsBaseOutsideLine_beyond
                  (distToLineTy.mk (Num 9) (Num 100) (Num 121) (Num 1))
                  100 121 1 eq_refl eq_refl eq_refl)).
Defined.

(** * The position returned by the runway selector *)

Lemma rwy_candidates_In `{Settings} (gmapApt : mapAptTy) (headSearch : double)
    (c : string * Apt.t * nat) :
  In c (rwy_candidates gmapApt headSearch) ->
  In (fst (fst c), snd (fst c)) gmapApt.
Proof.
  unfold rwy_candidates. rewrite in_flat_map.
  intros ([key apt] & Hentry & Hin). apply in_map_iff in Hin.
  destruct Hin as (e & <- & _). exact Hentry.
Qed.

Lemma aimed_endpoint_In (inv : bool) (apt : Apt.t) (edge : TaxiEdge.t)
    (ep : RwyEndPt.t) :
  aimed_endpoint inv apt edge = Some ep ->
  TaxiEdge.type edge = TaxiEdge.RUN_WAY /\ In ep (Apt.vecRwyEndPts apt).
Proof.
  unfold aimed_endpoint, Apt.GetRwyEP_A, Apt.GetRwyEP_B.
  destruct inv, (TaxiEdge.type edge); try discriminate;
    intros Hat; (split; [reflexivity|exact (at_In _ _ _ Hat)]).
Qed.

Lemma rwy_candidates_found `{Settings} (gmapApt : mapAptTy)
    (headSearch : double) (key : string) (apt : Apt.t) (e : nat) :
  In (key, apt, e) (rwy_candidates gmapApt headSearch) ->
  In (key, apt) gmapApt
  /\ In e (snd (Apt.FindEdgesForHeading apt headSearch ART_RWY_MAX_HEAD_DIFF
                  [] TaxiEdge.RUN_WAY)).
Proof.
  unfold rwy_candidates. rewrite in_flat_map.
  intros ([key' apt'] & Hentry & Hin). apply in_map_iff in Hin.
  destruct Hin as (e' & Heq & He). cbn [fst snd] in *.
  injection Heq as -> -> ->. now split.
Qed.

(** X26: [LTAptFindRwy] returns either the empty position [positionTy()]
    or a touch-down position on a runway of the map: there is a runway edge
    of an airport of the map, found for the search heading, such that
    latitude, longitude and altitude are those of the endpoint of this edge
    that the aircraft aims at (endpoint B when it flies the edge backwards,
    endpoint A otherwise), the altitude is known, the vertical speed needed
    is in the aircraft's range, the heading is the heading of this edge,
    turned by 180 degrees when the aircraft flies the edge backwards, the
    pitch is the model's flare pitch, the roll is 0, and the position is on
    the ground with the flight phase [FPH_TOUCH_DOWN]. *)
Theorem LTAptFindRwy_touch_down `{CoordCalc} `{Settings}
    (gmapApt : mapAptTy) (_ac : LTAircraft.t) :
  LTAptFindRwy gmapApt _ac = positionTy.ctor0
  \/ exists key apt e edge ep ts,
       In (key, apt) gmapApt
       /\ In e (snd (Apt.FindEdgesForHeading apt (fst (headSearch_of _ac))
                       ART_RWY_MAX_HEAD_DIFF [] TaxiEdge.RUN_WAY))
       /\ nth_error (Apt.vecTaxiEdges apt) e = Some edge
       /\ TaxiEdge.type edge = TaxiEdge.RUN_WAY
       /\ (if snd (headSearch_of _ac) then Apt.GetRwyEP_B edge apt
           else Apt.GetRwyEP_A edge apt) = Some ep
       /\ isnan (RwyEndPt.alt_m ep) = false
       /\ candidate_outside _ac ep = false
       /\ LTAptFindRwy gmapApt _ac
          = positionTy.ctor
              (TaxiNode.lat (RwyEndPt.node ep))
              (TaxiNode.lon (RwyEndPt.node ep))
              (RwyEndPt.alt_m ep) ts
              (TaxiEdge.angle edge
               + (if snd (headSearch_of _ac) then ofZ 180 else ofZ 0))%D
              (LTAircraft.PITCH_FLARE _ac) (ofZ 0)
              positionTy.GND_ON positionTy.UNIT_WORLD positionTy.UNIT_DEG
              FPH_TOUCH_DOWN.
Proof.
  unfold LTAptFindRwy.
  destruct (bestRwyEndPt (LTAptFindRwy_best gmapApt _ac)) as [ep|] eqn:Hep;
    [|now left].
  pose proof Hep as Hbest. rewrite LTAptFindRwy_best_candidates in Hbest.
  apply (fold_step_best _ac _ _
           (fun oa oe ep =>
              exists key apt e edge,
                oa = Some key /\ oe = Some edge
                /\ In (key, apt, e)
                      (rwy_candidates gmapApt (fst (headSearch_of _ac)))
                /\ nth_error (Apt.vecTaxiEdges apt) e = Some edge
                /\ aimed_endpoint (snd (headSearch_of _ac)) apt edge
                   = Some ep
                /\ isnan (RwyEndPt.alt_m ep) = false
                /\ candidate_outside _ac ep = false)) in Hbest.
  - destruct Hbest as (key & apt & e & edge & Ha & He & Hc & Hedge & Haim
                       & Halt & Hin).
    rewrite <- LTAptFindRwy_best_candidates in Ha, He. rewrite Ha, He.
    apply rwy_candidates_found in Hc. destruct Hc as [Hentry Hfound].
    right. exists key, apt, e, edge, ep,
             (bestArrivalTS (LTAptFindRwy_best gmapApt _ac)).
    split; [exact Hentry|]. split; [exact Hfound|]. split; [exact Hedge|].
    split; [exact (proj1 (aimed_endpoint_In _ _ _ _ Haim))|].
    split; [exact Haim|]. split; [exact Halt|]. split; [exact Hin|].
    reflexivity.
  - discriminate.
  - intros [[key apt] e] edge ep' Hc Hedge Hcand Halt Hin.
    cbn [fst snd] in *.
    unfold candidate_endpoint in Hcand. rewrite Hedge in Hcand.
    exists key, apt, e, edge. repeat split; assumption.
Qed.

(** * The thinning loop and the search box *)



Section OutsideBox.
Context `{CoordCalc} `{Settings} `{TextIO}.
Variable box : boundingBoxTy.t.

(** With every runway outside the box, the airport in progress never gets
    a runway, and no taxi line is read. *)
Lemma read_round_outside_box (st st' : readerTy) :
  Apt.vecTaxiEdges (r_apt st) = [] -> Apt.vecRwyEndPts (r_apt st) = [] ->
  r_bProcessGivenLn st = false ->
  Forall (rwy_line_outside box) (lines (r_fIn st)) ->
  read_round box st = Ret st' ->
  Apt.vecTaxiEdges (r_apt st') = [] /\ Apt.vecRwyEndPts (r_apt st') = []
  /\ r_bProcessGivenLn st' = false
  /\ Forall (rwy_line_outside box) (lines (r_fIn st'))
  /\ r_gmapApt st' = r_gmapApt st.
Proof.
  intros He Hr Hgiven Hlines. unfold read_round. rewrite Hgiven.
  assert (Hget : exists fIn ln,
             safeGetline (r_fIn st) = (fIn, ln)
             /\ Forall (rwy_line_outside box) (lines fIn)
             /\ ((String.length ln =? 0)%nat = false ->
                 rwy_line_outside box ln)).
  { unfold safeGetline. destruct (good (r_fIn st)).
    - destruct (lines (r_fIn st)) as [|l rest].
      + exists (mkStream [] false), EmptyString.
        split; [reflexivity|]. split; [constructor|discriminate].
      + inversion Hlines; subst. exists (mkStream rest true), l.
        split; [reflexivity|]. split; [assumption|auto].
    - exists (r_fIn st), EmptyString.
      split; [reflexivity|]. split; [assumption|discriminate]. }
  destruct Hget as (fIn & ln & -> & Hrest & Hln).
  destruct (String.length ln =? 0)%nat.
  { intros Heq. injection Heq as <-. cbn [r_apt r_fIn r_gmapApt
      r_bProcessGivenLn]. auto. }
  specialize (Hln eq_refl).
  destruct (is_airport_line ln).
  { intros Heq. injection Heq as <-. unfold begin_airport.
    unfold Apt.IsValid, Apt.HasTaxiWays. cbn [r_apt r_gmapApt r_fIn].
    rewrite He. cbn [Apt.empty negb]. rewrite andb_false_r. cbn [andb].
    destruct (_ && _); cbn [r_apt r_gmapApt r_fIn r_bProcessGivenLn];
      auto. }
  cbn [r_apt r_gmapApt r_fIn].
  destruct (Apt.HasId (r_apt st) && is_runway_line ln).
  { unfold read_runway. cbn [r_apt r_gmapApt r_fIn].
    destruct (List.length _ =? 26)%nat;
      [|intros Heq; injection Heq as <-;
        cbn [r_apt r_fIn r_gmapApt r_bProcessGivenLn]; auto].
    destruct (stod (field _ 9)) as [lat|] eqn:Hlat; [|discriminate].
    destruct (stod (field _ 10)) as [lon|] eqn:Hlon; [|discriminate].
    cbn [try_ bind].
    destruct (_ && _ && _ && _);
      [|intros Heq; injection Heq as <-;
        cbn [r_apt r_fIn r_gmapApt r_bProcessGivenLn]; auto].
    unfold Apt.HasTaxiWays. rewrite He, (Hln lat lon Hlat Hlon).
    cbn [Apt.empty negb orb].
    intros Heq. injection Heq as <-.
    cbn [r_apt r_fIn r_gmapApt r_bProcessGivenLn]. auto. }
  unfold Apt.HasRwyEndpoints. rewrite Hr. cbn [Apt.empty negb andb].
  intros Heq. injection Heq as <-.
  cbn [r_apt r_fIn r_gmapApt r_bProcessGivenLn]. auto.
Qed.

Lemma read_loop_outside_box (stop : nat) (st : readerTy) :
  Apt.vecTaxiEdges (r_apt st) = [] -> Apt.vecRwyEndPts (r_apt st) = [] ->
  r_bProcessGivenLn st = false ->
  Forall (rwy_line_outside box) (lines (r_fIn st)) ->
  fst (read_loop stop box st) = r_gmapApt st.
Proof.
  assert (Hflush : forall st, Apt.vecTaxiEdges (r_apt st) = [] ->
                              flush_airport st = r_gmapApt st).
  { intros st1 He. unfold flush_airport, Apt.IsValid, Apt.HasTaxiWays.
    rewrite He. cbn [Apt.empty negb]. now rewrite andb_false_r. }
  revert st. induction stop as [|stop IH]; intros st He Hr Hgiven Hlines;
    cbn [read_loop].
  - now apply Hflush.
  - destruct (r_bProcessGivenLn st || good (r_fIn st));
      [|now apply Hflush].
    destruct (read_round box st) as [st'|] eqn:Hround; [|reflexivity].
    destruct (read_round_outside_box st st' He Hr Hgiven Hlines Hround)
      as (He' & Hr' & Hgiven' & Hlines' & Hmap).
    rewrite IH by assumption. exact Hmap.
Qed.
End OutsideBox.

(** X28: [ReadOneAptFile] accepts an airport by a runway that lies in the
    search box only: when every line of the file that gives a position in
    its fields 9 and 10 gives one outside the box, the map of airports is
    after the call what it was before. *)
Theorem ReadOneAptFile_outside_box `{CoordCalc} `{Settings} `{TextIO}
    (stop : nat) (gmapApt : mapAptTy) (fIn : ifstream)
    (box : boundingBoxTy.t) :
  Forall (rwy_line_outside box) (lines fIn) ->
  fst (ReadOneAptFile stop gmapApt fIn box) = gmapApt.
Proof.
  intros Hlines. unfold ReadOneAptFile.
  now rewrite read_loop_outside_box.
Qed.

Lemma ReadOneAptFile_outside_box_example :
  fst (@ReadOneAptFile flat_world test_settings test_TextIO 100 []
         (mkStream sample_apt_dat true) (Apt.bounds apt_far_east))
  = [].
Proof.
  apply (@ReadOneAptFile_outside_box flat_world test_settings test_TextIO
           100 [] (mkStream sample_apt_dat true) (Apt.bounds apt_far_east)).
  unfold sample_apt_dat. cbn [lines].
  repeat (apply Forall_cons;
          [intros lat lon Hlat Hlon;
           vm_compute in Hlat; try discriminate;
           vm_compute in Hlon; try discriminate;
           injection Hlat as <-; injection Hlon as <-;
           vm_compute; reflexivity|]).
  apply Forall_nil.
Defined.

(** * The closest edge is the closest *)

Section ClosestIsClosest.
Context `{CoordCalc}.
Variables (apt : Apt.t) (inv : bool) (pt_x pt_z : double) (m2 : Q).

(** The distance results of the airport's edges are numbers. *)
Hypothesis dist_is_number :
  forall edge from to,
    In edge (Apt.vecTaxiEdges apt) ->
    travel_nodes apt inv edge = Some (from, to) ->
    TaxiNode.HasLocalCoords from = true ->
    TaxiNode.HasLocalCoords to = true ->
    isnan (distToLineTy.dist2 (edge_distance pt_x pt_z from to)) = false.

Lemma acceptable_edge_at (p : nat) (d : Q) (edge : TaxiEdge.t)
    (from to : TaxiNode.t) :
  nth_error (Apt.vecTaxiEdges apt) p = Some edge ->
  travel_nodes apt inv edge = Some (from, to) ->
  acceptable_edge apt inv pt_x pt_z m2 p d ->
  TaxiNode.HasLocalCoords from = true
  /\ TaxiNode.HasLocalCoords to = true
  /\ distToLineTy.dist2 (edge_distance pt_x pt_z from to) = Num d
  /\ (distToLineTy.DistSqrOfBaseBeyondLine
        (edge_distance pt_x pt_z from to) >? Num m2)%D = false.
Proof.
  intros Hp Ht (edge' & from' & to' & Hp' & Ht' & Hacc).
  assert (edge' = edge) by congruence. subst edge'.
  assert (Heq : (from', to') = (from, to)) by congruence.
  injection Heq as -> ->. exact Hacc.
Qed.

Lemma closest_step_best (done : list nat) (st : Apt.bestTy) (p : nat) :
  closest_best_inv apt inv pt_x pt_z m2 done st ->
  closest_best_inv apt inv pt_x pt_z m2 (done ++ [p])
    (Apt.closest_step apt inv pt_x pt_z (Num m2) st p).
Proof.
  intros (q & Hq & Hle & Hmin & Hbest).
  assert (Hkeep : (forall d, acceptable_edge apt inv pt_x pt_z m2 p d ->
                             q <= d) ->
                  closest_best_inv apt inv pt_x pt_z m2 (done ++ [p]) st).
  { intros Hp. exists q. split; [exact Hq|]. split; [exact Hle|]. split.
    - intros p' d Hin Hacc. apply in_app_iff in Hin.
      destruct Hin as [Hin|[<-|[]]];
        [exact (Hmin _ _ Hin Hacc)|exact (Hp d Hacc)].
    - destruct (Apt.bestEdge st) as [e|]; [|exact Hbest].
      destruct Hbest as (Hin & Hacc & Hlt).
      split; [apply in_or_app; now left|]. now split. }
  unfold Apt.closest_step.
  destruct (nth_error (Apt.vecTaxiEdges apt) p) as [edge|] eqn:Hp.
  2:{ apply Hkeep. intros d (edge & from & to & He & _). congruence. }
  destruct (if inv then Apt.GetB edge apt else Apt.GetA edge apt)
    as [from|] eqn:Hfrom.
  2:{ apply Hkeep. intros d (edge' & from & to & He & Ht & _).
      assert (edge' = edge) by congruence. subst edge'.
      unfold travel_nodes in Ht. rewrite Hfrom in Ht. discriminate. }
  destruct (if inv then Apt.GetA edge apt else Apt.GetB edge apt)
    as [to|] eqn:Hto.
  2:{ apply Hkeep. intros d (edge' & from' & to & He & Ht & _).
      assert (edge' = edge) by congruence. subst edge'.
      unfold travel_nodes in Ht. rewrite Hfrom, Hto in Ht. discriminate. }
  assert (Htravel : travel_nodes apt inv edge = Some (from, to)).
  { unfold travel_nodes. now rewrite Hfrom, Hto. }
  destruct (negb (TaxiNode.HasLocalCoords from)
            || negb (TaxiNode.HasLocalCoords to)) eqn:Hloc.
  { apply Hkeep. intros d Hacc.
    destruct (acceptable_edge_at p d edge from to Hp Htravel Hacc)
      as (Hlf & Hlt & _).
    rewrite Hlf, Hlt in Hloc. discriminate. }
  apply orb_false_iff in Hloc. destruct Hloc as [Hlf Hlt].
  apply negb_false_iff in Hlf, Hlt.
  fold (edge_distance pt_x pt_z from to).
  pose proof (dist_is_number edge from to (nth_error_In _ _ Hp) Htravel
                Hlf Hlt) as Hnum.
  destruct (distToLineTy.dist2 (edge_distance pt_x pt_z from to))
    as [|dd] eqn:Hd; [discriminate|].
  rewrite Hq.
  destruct (Num dd >=? Num q)%D eqn:Hge.
  { apply Hkeep. intros d Hacc.
    destruct (acceptable_edge_at p d edge from to Hp Htravel Hacc)
      as (_ & _ & Hd' & _).
    rewrite Hd in Hd'. injection Hd' as <-.
    unfold dge in Hge. now apply dle_Num in Hge. }
  unfold dge in Hge. apply dle_Num_false in Hge.
  destruct (distToLineTy.DistSqrOfBaseBeyondLine
              (edge_distance pt_x pt_z from to) >? Num m2)%D eqn:Hbeyond.
  { apply Hkeep. intros d Hacc.
    destruct (acceptable_edge_at p d edge from to Hp Htravel Hacc)
      as (_ & _ & _ & Hb).
    congruence. }
  exists dd. cbn [Apt.bestDist Apt.bestEdge].
  split; [exact Hd|]. split; [lra|]. split.
  - intros p' d Hin Hacc. apply in_app_iff in Hin.
    destruct Hin as [Hin|[<-|[]]].
    + specialize (Hmin _ _ Hin Hacc). lra.
    + destruct (acceptable_edge_at p d edge from to Hp Htravel Hacc)
        as (_ & _ & Hd' & _).
      rewrite Hd in Hd'. injection Hd' as <-. lra.
  - split; [apply in_or_app; right; now left|]. split; [|lra].
    exists edge, from, to. repeat split; assumption.
Qed.

Lemma closest_fold_best (lst done : list nat) (st : Apt.bestTy) :
  closest_best_inv apt inv pt_x pt_z m2 done st ->
  closest_best_inv apt inv pt_x pt_z m2 (done ++ lst)
    (fold_left (Apt.closest_step apt inv pt_x pt_z (Num m2)) lst st).
Proof.
  revert done st. induction lst as [|p lst IH]; intros done st Hst.
  - now rewrite app_nil_r.
  - cbn [fold_left].
    replace (done ++ p :: lst) with ((done ++ [p]) ++ lst)
      by (rewrite <- app_assoc; reflexivity).
    apply IH, closest_step_best, Hst.
Qed.
End ClosestIsClosest.

(** X29: [FindClosestEdge] returns the closest edge that can be matched,
    the distance results being numbers.  With [m2] the [int] square of the
    maximum distance that the code compares with: the edge returned is among
    the edges found for the heading, can be matched (its nodes have local
    coordinates, its base lies no farther beyond the line's ends than [m2])
    and its squared distance is below [m2], and no edge found for the
    heading that can be matched is closer; and when no edge is returned, no
    edge found for the heading that can be matched has a squared distance
    below [m2].  The [int] square never exceeds the square of the maximum
    distance and is this square for a maximum distance up to 46340. *)
Theorem FindClosestEdge_closest `{CoordCalc} `{XPLM} (apt : Apt.t)
    (pos basePt : positionTy.t) (_maxDist_m : Z) (_angleTolerance : double)
    (pt_x pt_y pt_z : double) :
  XPLMWorldToLocal (positionTy.lat pos) (positionTy.lon pos)
                   (positionTy.alt_m pos) = (pt_x, pt_y, pt_z) ->
  (forall edge from to,
      In edge (Apt.vecTaxiEdges apt) ->
      travel_nodes apt
        (HeadingNormalize (positionTy.heading pos) >=? ofZ 180)%D edge
      = Some (from, to) ->
      TaxiNode.HasLocalCoords from = true ->
      TaxiNode.HasLocalCoords to = true ->
      isnan (distToLineTy.dist2 (edge_distance pt_x pt_z from to)) = false) ->
  let inv := (HeadingNormalize (positionTy.heading pos) >=? ofZ 180)%D in
  let m2 := inject_Z (sqr _maxDist_m) in
  let lst :=
    snd (Apt.FindEdgesForHeading apt
           (HeadingNormalize (positionTy.heading pos)) _angleTolerance []
           TaxiEdge.UNKNOWN_WAY) in
  let found :=
    fst (Apt.FindClosestEdge apt pos basePt _maxDist_m _angleTolerance) in
  (forall e,
      found = Some e ->
      In e lst
      /\ exists d,
           acceptable_edge apt inv pt_x pt_z m2 e d /\ d < m2
           /\ forall p dp,
                In p lst -> acceptable_edge apt inv pt_x pt_z m2 p dp ->
                d <= dp)
  /\ (found = None ->
      forall p dp,
        In p lst -> acceptable_edge apt inv pt_x pt_z m2 p dp -> m2 <= dp)
  /\ (sqr _maxDist_m <= _maxDist_m * _maxDist_m)%Z
  /\ ((Z.abs _maxDist_m <= 46340)%Z ->
      sqr _maxDist_m = (_maxDist_m * _maxDist_m)%Z).
Proof.
  intros Hlocal Hnum inv m2 lst found.
  refine (let Hmain := _ in
          conj (proj1 Hmain)
            (conj (proj2 Hmain)
               (conj (sqr_le _maxDist_m) (sqr_exact _maxDist_m)))).
  subst found.
  unfold Apt.FindClosestEdge. rewrite Hlocal.
  unfold Apt.FindEdgesForHeading in *. cbn [snd] in lst. fold lst.
  fold inv. fold (ofZ (sqr _maxDist_m)).
  destruct (Apt.empty lst) eqn:Hempty; cbn [negb].
  { destruct lst; [|discriminate]. cbn [fst].
    split; [discriminate|]. intros _ p dp []. }
  set (st0 := Apt.mkBest None None None _).
  assert (Hinv0 : closest_best_inv apt inv pt_x pt_z m2 [] st0).
  { exists m2. split; [reflexivity|]. split; [apply Qle_refl|].
    split; [intros p d []|reflexivity]. }
  pose proof (closest_fold_best apt inv pt_x pt_z m2 Hnum lst [] st0 Hinv0)
    as Hbest.
  assert (Hshape0 : closest_inv apt inv pt_x pt_z m2 st0).
  { exists m2. split; [reflexivity|]. split; [apply Qle_refl|].
    discriminate. }
  pose proof (closest_fold_inv apt inv pt_x pt_z m2 lst
                (fun p edge from to _ Hp =>
                   Hnum edge from to (nth_error_In _ _ Hp))
                lst st0 (incl_refl lst) Hshape0)
    as Hshape.
  cbn [app] in Hbest. unfold ofZ. fold m2.
  set (st := fold_left _ lst st0) in *.
  destruct Hbest as (q & Hq & Hle & Hmin & Hbest).
  destruct Hshape as (q' & _ & _ & Hshape).
  destruct (Apt.bestEdge st) as [e|] eqn:He.
  - destruct (Hshape e eq_refl)
      as (edge & from & to & _ & _ & Hfrom & Hto & _).
    rewrite Hfrom, Hto.
    destruct (DistResultToBaseLoc _ _ _ _ _) as [bx bz].
    destruct (XPLMLocalToWorld _ _ _) as [[lat lon] alt]. cbn [fst].
    split; [|discriminate]. intros e' Heq. injection Heq as <-.
    destruct Hbest as (Hin & Hacc & Hlt).
    split; [exact Hin|]. exists q. split; [exact Hacc|].
    split; [exact Hlt|exact Hmin].
  - cbn [fst]. split; [discriminate|]. intros _ p dp Hin Hacc.
    subst q. exact (Hmin p dp Hin Hacc).
Qed.

Lemma FindClosestEdge_closest_example :
  exists d,
    @acceptable_edge flat_world apt_taxi_east false (Num 40) (Num (-3))
      (inject_Z (sqr 5)) 0 d
    /\ d < inject_Z (sqr 5).
Proof.
  assert (Hnum : forall edge from to,
             In edge (Apt.vecTaxiEdges apt_taxi_east) ->
             travel_nodes apt_taxi_east
               (@HeadingNormalize flat_world
                  (positionTy.heading (pos_east 3 40)) >=? ofZ 180)%D edge
             = Some (from, to) ->
             TaxiNode.HasLocalCoords from = true ->
             TaxiNode.HasLocalCoords to = true ->
             isnan (distToLineTy.dist2
                      (@edge_distance flat_world (Num 40) (Num (-3)) from to))
             = false).
  { intros edge from to [<-|[]] Ht _ _. vm_compute in Ht.
    injection Ht as <- <-. reflexivity. }
  destruct (proj1 (@FindClosestEdge_closest flat_world flat_XPLM
                     apt_taxi_east (pos_east 3 40) (pos_east 3 40) 5
                     (Num 30) (Num 40) (Num 0) (Num (-3)) eq_refl Hnum)
              0%nat eq_refl)
    as (_ & d & Hacc & Hlt & _).
  exists d. split; [exact Hacc|exact Hlt].
Defined.

(** * The runway selected deviates least *)

Section LeastDeviation.
Context `{CoordCalc} `{Settings}.
Variables (_ac : LTAircraft.t) (M : Q).

Let from := LTAircraft.GetToPos _ac.
Let inv := snd (headSearch_of _ac).
Let step :=
  candidate_step from inv (speed_of _ac) (vsi_min_of _ac) (vsi_max_of _ac).

Lemma rwy_step_least (done : list (string * Apt.t * nat)) (st : bestRwyTy)
    (c : string * Apt.t * nat) :
  (forall ep, candidate_endpoint inv c = Some ep ->
              isnan (heading_deviation from ep) = false) ->
  best_rwy_inv _ac M done st ->
  best_rwy_inv _ac M (done ++ [c]) (step st c).
Proof.
  intros Hnum (q & Hq & Hle & Hbest).
  (* the candidate leaves the best match as it is *)
  assert (Hkeep : (forall ep h, acceptable_rwy _ac c ep h -> q < h) ->
                  best_rwy_inv _ac M (done ++ [c]) st).
  { intros Hc. exists q. split; [exact Hq|]. split; [exact Hle|].
    destruct (bestRwyEndPt st) as [ep|].
    - destruct Hbest as ((c0 & Hin0 & Hacc0) & Hmin). split.
      + exists c0. split; [apply in_or_app; now left|exact Hacc0].
      + intros c' ep' h Hin Hacc. apply in_app_iff in Hin.
        destruct Hin as [Hin|[<-|[]]]; [exact (Hmin _ _ _ Hin Hacc)|].
        apply Qlt_le_weak. exact (Hc ep' h Hacc).
    - destruct Hbest as [-> Hmin]. split; [reflexivity|].
      intros c' ep' h Hin Hacc. apply in_app_iff in Hin.
      destruct Hin as [Hin|[<-|[]]]; [exact (Hmin _ _ _ Hin Hacc)|].
      exact (Hc ep' h Hacc). }
  destruct c as [[key apt] e].
  unfold step, candidate_step, rwy_step. fold from.
  assert (Hacc_c : forall ep h,
             acceptable_rwy _ac (key, apt, e) ep h ->
             match nth_error (Apt.vecTaxiEdges apt) e with
             | Some edge => aimed_endpoint inv apt edge
             | None => None
             end = Some ep
             /\ isnan (RwyEndPt.alt_m ep) = false
             /\ ((implied_vsi from (speed_of _ac) ep <? vsi_min_of _ac)%D
                 || (implied_vsi from (speed_of _ac) ep >? vsi_max_of _ac)%D)
                = false
             /\ heading_deviation from ep = Num h).
  { intros ep h Hacc. exact Hacc. }
  assert (Hmk_c : forall ep h,
             match nth_error (Apt.vecTaxiEdges apt) e with
             | Some edge => aimed_endpoint inv apt edge
             | None => None
             end = Some ep
             /\ isnan (RwyEndPt.alt_m ep) = false
             /\ ((implied_vsi from (speed_of _ac) ep <? vsi_min_of _ac)%D
                 || (implied_vsi from (speed_of _ac) ep >? vsi_max_of _ac)%D)
                = false
             /\ heading_deviation from ep = Num h ->
             acceptable_rwy _ac (key, apt, e) ep h).
  { intros ep h Hacc. exact Hacc. }
  assert (Hnum_c : forall ep,
             match nth_error (Apt.vecTaxiEdges apt) e with
             | Some edge => aimed_endpoint inv apt edge
             | None => None
             end = Some ep ->
             isnan (heading_deviation from ep) = false)
    by exact Hnum.
  clear Hnum.
  destruct (nth_error (Apt.vecTaxiEdges apt) e) as [edge|].
  2:{ apply Hkeep. intros ep h Hacc. apply Hacc_c in Hacc.
      destruct Hacc as (Hep & _). discriminate. }
  destruct (aimed_endpoint inv apt edge) as [ep|].
  2:{ apply Hkeep. intros ep h Hacc. apply Hacc_c in Hacc.
      destruct Hacc as (Hep & _). discriminate. }
  destruct (isnan (RwyEndPt.alt_m ep)) eqn:Halt.
  { apply Hkeep. intros ep' h Hacc. apply Hacc_c in Hacc.
    destruct Hacc as (Hep' & Halt' & _). injection Hep' as <-.
    congruence. }
  pose proof (Hnum_c ep eq_refl) as Hdev.
  destruct (heading_deviation from ep) as [|hd] eqn:Ehd; [discriminate|].
  rewrite Hq.
  destruct (Num hd >? Num q)%D eqn:Hgt.
  { apply Hkeep. intros ep' h Hacc. apply Hacc_c in Hacc.
    destruct Hacc as (Hep' & _ & _ & Hh).
    injection Hep' as <-. rewrite Ehd in Hh. injection Hh as <-.
    unfold dgt in Hgt. now apply dlt_Num in Hgt. }
  unfold dgt in Hgt. apply dlt_Num_false in Hgt.
  destruct ((implied_vsi from (speed_of _ac) ep <? vsi_min_of _ac)%D
            || (implied_vsi from (speed_of _ac) ep >? vsi_max_of _ac)%D)
    eqn:Hvsi.
  { apply Hkeep. intros ep' h Hacc. apply Hacc_c in Hacc.
    destruct Hacc as (Hep' & _ & Hout & _).
    injection Hep' as <-. congruence. }
  exists hd. cbn [bestHeadingDiff bestRwyEndPt].
  split; [reflexivity|]. split; [lra|]. split.
  - exists (key, apt, e). split; [apply in_or_app; right; now left|].
    apply Hmk_c. repeat split; assumption.
  - intros c' ep' h Hin Hacc. apply in_app_iff in Hin.
    destruct Hin as [Hin|[<-|[]]].
    + destruct (bestRwyEndPt st) as [ep0|].
      * destruct Hbest as [_ Hmin]. specialize (Hmin _ _ _ Hin Hacc). lra.
      * destruct Hbest as [-> Hmin]. specialize (Hmin _ _ _ Hin Hacc). lra.
    + apply Hacc_c in Hacc. destruct Hacc as (Hep' & _ & _ & Hh).
      injection Hep' as <-. rewrite Ehd in Hh. injection Hh as <-. lra.
Qed.

Lemma rwy_fold_least (cs done : list (string * Apt.t * nat))
    (st : bestRwyTy) :
  (forall c ep, In c cs -> candidate_endpoint inv c = Some ep ->
                isnan (heading_deviation from ep) = false) ->
  best_rwy_inv _ac M done st ->
  best_rwy_inv _ac M (done ++ cs) (fold_left step cs st).
Proof.
  revert done st. induction cs as [|c cs IH]; intros done st Hnum Hst.
  - now rewrite app_nil_r.
  - cbn [fold_left].
    replace (done ++ c :: cs) with ((done ++ [c]) ++ cs)
      by (rewrite <- app_assoc; reflexivity).
    apply IH.
    + intros c' ep Hin. apply Hnum. now right.
    + apply rwy_step_least; [|exact Hst].
      intros ep. apply Hnum. now left.
Qed.
End LeastDeviation.

(** X30: [LTAptFindRwy] selects the runway whose endpoint deviates least
    from the aircraft's heading, the deviations being numbers: the endpoint
    selected belongs to a candidate that passes the tests on altitude and
    vertical speed, its deviation does not exceed the maximum heading
    difference, and no candidate that passes these tests deviates less.
    When none is selected, every candidate that passes these tests
    deviates by more than the maximum heading difference, and the empty
    position is returned. *)
Theorem LTAptFindRwy_least_deviation `{CoordCalc} `{Settings}
    (gmapApt : mapAptTy) (_ac : LTAircraft.t) (M : Q) :
  ART_RWY_MAX_HEAD_DIFF = Num M ->
  (forall c ep,
      In c (rwy_candidates gmapApt (fst (headSearch_of _ac))) ->
      candidate_endpoint (snd (headSearch_of _ac)) c = Some ep ->
      isnan (heading_deviation (LTAircraft.GetToPos _ac) ep) = false) ->
  let st := LTAptFindRwy_best gmapApt _ac in
  let cs := rwy_candidates gmapApt (fst (headSearch_of _ac)) in
  (forall ep,
      bestRwyEndPt st = Some ep ->
      exists q,
        bestHeadingDiff st = Num q /\ q <= M
        /\ (exists c, In c cs /\ acceptable_rwy _ac c ep q)
        /\ forall c ep' h,
             In c cs -> acceptable_rwy _ac c ep' h -> q <= h)
  /\ (bestRwyEndPt st = None ->
      LTAptFindRwy gmapApt _ac = positionTy.ctor0
      /\ forall c ep h, In c cs -> acceptable_rwy _ac c ep h -> M < h).
Proof.
  intros HM Hnum st cs.
  assert (Hinv : best_rwy_inv _ac M cs st).
  { subst st cs. rewrite LTAptFindRwy_best_candidates.
    apply (rwy_fold_least _ac M _ [] _ Hnum).
    exists M. cbn [bestHeadingDiff bestRwyEndPt].
    split; [exact HM|]. split; [apply Qle_refl|].
    split; [reflexivity|]. intros c ep h []. }
  destruct Hinv as (q & Hq & Hle & Hbest). split.
  - intros ep Hep. rewrite Hep in Hbest. exists q.
    split; [exact Hq|]. split; [exact Hle|]. exact Hbest.
  - intros Hnone. rewrite Hnone in Hbest. destruct Hbest as [_ Hall].
    split; [|exact Hall].
    unfold LTAptFindRwy. fold st. now rewrite Hnone.
Qed.

Lemma LTAptFindRwy_least_deviation_example :
  exists q,
    bestHeadingDiff (@LTAptFindRwy_best flat_world test_settings
                       map_runways_0 (aircraft_heading 0)) = Num q
    /\ q <= 10
    /\ forall c ep' h,
         In c (@rwy_candidates test_settings map_runways_0
                 (fst (@headSearch_of flat_world (aircraft_heading 0)))) ->
         @acceptable_rwy flat_world test_settings (aircraft_heading 0)
           c ep' h ->
         q <= h.
Proof.
  assert (Hnum : forall c ep,
             In c (@rwy_candidates test_settings map_runways_0
                     (fst (@headSearch_of flat_world (aircraft_heading 0)))) ->
             candidate_endpoint
               (snd (@headSearch_of flat_world (aircraft_heading 0))) c
             = Some ep ->
             isnan (@heading_deviation flat_world
                      (LTAircraft.GetToPos (aircraft_heading 0)) ep)
             = false).
  { intros c ep Hin Hep. vm_compute in Hin.
    destruct Hin as [<-|[<-|[]]]; vm_compute in Hep;
      injection Hep as <-; reflexivity. }
  destruct (proj1 (@LTAptFindRwy_least_deviation flat_world test_settings
                     map_runways_0 (aircraft_heading 0) 10 eq_refl Hnum)
              (rwy_end "A1" 10000 0) eq_refl)
    as (q & Hq & Hle & _ & Hmin).
  exists q. split; [exact Hq|]. split; [exact Hle|exact Hmin].
Defined.
